(* ===== verification/_CoqProject ===== *)
-Q . S2P
Prelude.v
Errors.v
CppString.v
Types.v
TypeSystem.v
SymbolTable.v
CodeGenerator.v
Syntax.v
Lexer.v
LexerProps.v
LexerTokens.v
Visitor.v
Transpile.v
StringFacts.v
Hierarchy.v
MethodLookup.v
TypeSystemInv.v
Static.v
VTable.v
TypeSystemProps.v
CodeGenProps.v
SyntaxInd.v
Yield.v
Soundness.v
SafePrograms.v
VisitorFrame.v
VisitorProps.v
StmtProps.v
ProgramProps.v
ClassTables.v
ExprProps.v
ExampleSources.v
Examples.v
SafetyProps.v
Allocator.v
RefCount.v
RefCountProps.v
RefCountClient.v
PointerCode.v
PointerVisit.v
StructCode.v
FunctionCode.v
PointerMachine.v
CodeSafety.v
PointerProps.v
FunctionProps.v
MarkSweep.v
MarkSweepList.v
MarkSweepProps.v
MarkSweepClient.v
Runtime.v
RuntimeProps.v
Driver.v
DriverProps.v
