(* ===== verification/Prelude.v ===== *)
(** * JBLang: the transpiler and its runtime

    JBLang is a small class-based language.  The program of this repository
    translates a JBLang source file to C and links the result with a runtime library
    that allocates objects.  This development models the translator and the runtime
    as executable definitions and proves what they do.  Paths below are relative to
    the root of the repository.

    ** The program and the files that model it

    main (src/main.cpp) reads the command line, has the generated ANTLR lexer and parser make
    tokens and a tree of the input, hands it to a [TranspilerVisitor] with a [CCodeGenerator], writes
    the text to a file and runs make and gcc.  The visitor walks the statements twice:
    the first pass fills the type system (and a flag silences most handlers), then come
    the vtables, then the second pass prints the C.  The C calls the runtime of runtime/,
    which forwards to one of three allocators chosen when the runtime is built.

    - Prelude: sorted iteration of maps and sets (a [std::map] is iterated by key),
      chains of a partial function and the fuel they need, string lemmas and the rewrite
      base [jb_string].
    - Errors: exceptions, crashes (null dereference, bad access, over-read, overflow,
      exit, an exception leaving a noexcept function), the type [outcome] and the state
      monad [stM] over it.  include/jblang/core/CompilerError.h: the message and the position
      of a [CompilerError].
    - CppString: [std::string::find], [substr], [stoi] at [size_t] and [int] width.
    - Types, TypeSystem: include/jblang/types/TypeSystem.h and src/types/TypeSystem.cpp;
      one definition per member function, under its name.
    - SymbolTable: include/jblang/types/SymbolTable.h.
    - CodeGenerator: the abstract class of include/jblang/codegen is the type class
      [CodeGenerator]; [CCodeGenerator] (src/codegen/CCodeGenerator.cpp) is a value of
      it, its methods the definitions [C_generate...].  The visitor and most of its
      theorems are stated over the class.
    - Syntax: the trees of the parser rules of grammar/JBLang.g4 and [getText].
    - Lexer: the lexer rules of grammar/JBLang.g4 as regular expressions, and the lexemes they
      cut a text into: the longest match, the first rule on a tie, and where no rule matches,
      what is dropped.  Yield: the tokens of a tree.
    - Visitor: src/ast/TranspilerVisitor.cpp; [VState] has the fields of the class, and
      each visit function is a computation over it that receives the visits of its
      children.  Transpile: the recursion over the trees, and [transpile], the lines of
      main that make the visitor and run it.  The fields main leaves uninitialised
      ([m_first_pass]) are the argument [indeterminate].
    - Allocator: runtime/include/allocator_interface.h as a record of operations.
      RefCount, MarkSweep, Runtime: the files of runtime/src with the same names
      (the simple allocator and allocator_impl.c are in Runtime).
    - Driver: src/main.cpp as a list of effects on an abstract host.

    ** What the theorems show

    - Hierarchy, TypeSystemInv, VTable, TypeSystemProps: what [setClassParent] checks and when
      it keeps the hierarchy acyclic; the queries decide what they should ([isSubclassOf] the
      proper ancestors, the members a prefix order); dynamic dispatch through the generated
      vtables; type resolution, base names, compatibility.
    - ClassTables: what every visit keeps true of the class tables, in any program; a
      translation gets past its first pass only without a cycle of classes, and runs for ever
      with one.
    - CodeGenProps: lexical scoping, and the text of prototypes and casts.
    - MethodLookup: the climb of a method call through typedefs, structs and classes, and
      why its fuel is enough.
    - SyntaxInd, VisitorFrame, VisitorProps, StmtProps: an induction principle for trees;
      what any statement may change; the separation of the two passes; the text and the
      reference counting of blocks and returns; the loss of [for].
    - ProgramProps: the layout of a whole generated file, part by part.
    - ExprProps: expressions are printed token by token; assignments, calls, calls in a
      [return], [new], field and method access, upcasts, and what stops the visitor.
    - Static, Soundness, SafePrograms, SafetyProps: static checks on a tree; a postcondition
      logic for the visitor, one rule per construct of the monad; on a program that passes
      the checks the visitor ends with a text or with an exception that reports an error of the
      source, and the tables stay well typed; samples of programs the checks reject.
    - LexerProps, LexerTokens, Yield: the lexer cuts a text into the longest lexemes of the token
      languages, given in closed form, and loses nothing; valid tokens written out are read back;
      where a token reaches too far; the text of a tree is that of its tokens.
    - ExampleSources, Examples: the eight test programs of tests/examples are lexed to the
      tokens of their trees, and these are translated to their files in
      tests/expected/c_output, character for character.
    - RefCountProps, RefCountClient: every count is the number of references held by the
      program and by blocks; release frees exactly what nobody holds, and always ends.  A
      program that follows the rules never goes wrong, its heap is what it can reach, and it
      leaks nothing.
    - PointerCode, PointerVisit, StructCode, FunctionCode: a fragment of source code that handles
      pointers (declarations, allocations, copies, assignments, [NULL], comparisons,
      assignments to the fields of structs, conditions, loops, calls, nested blocks, returns at any
      place, declarations of structs, functions with parameters and a returned pointer, recursive
      ones too, whole programs), the C instructions it becomes, and that the visitor prints them, up
      to the text of the whole file.
    - PointerMachine, CodeSafety, PointerProps, FunctionProps: a machine that runs the
      instructions on the counting allocator step by step, with a stack of calls.  A
      block touches no freed block and gives back every reference taken; a
      function leaves one reference more, for its result; a program that ends leaves an empty
      heap, but for cycles and references stored in full blocks, and one without loops and
      recursion ends within a number of steps that is computed.
      Outside the rules of the fragment: a variable released before it was assigned, a
      string literal released, assigned parameters, [x = g(x)], lost results, [return g(x)],
      returns inside a block with pointers around it, reading a field.
    - MarkSweepList, MarkSweepProps, MarkSweepClient: the linked list represents a list of
      blocks; a collection keeps exactly the blocks reachable from the stack and the roots,
      by conservative pointers; allocation, deallocation and shutdown; where marking reads
      past a block; the invariant of every state a program reaches from [ms_init].
    - RuntimeProps, DriverProps: the dispatch of the runtime's calls, with and without an
      allocator; a session of the runtime is the session of the allocator it was built with;
      the effects of a run of the program, from the text of the source to the commands, and
      that a safe program makes [main] return.

    The theorems numbered C1 to C40 in their comments are the properties the development is
    about; each that has hypotheses is followed by a [_witness] that applies it to a
    concrete case.

    ** Fuel

    A loop of the code that no structure bounds takes fuel, and an exhausted fuel is the
    outcome [Diverge].  The climbs of the class hierarchy get [hierarchy_fuel], one more
    than the number of classes: if the climb ends at all it visits each class once
    ([getAllVirtualMethods_fuel]; a cycle makes every fuel too small,
    [self_parent_diverges]).  The lookup of a method climbs through typedefs, structs and
    classes and gets [resolve_fuel], their number and two.  [dec_fuel] is one more than
    the number of live blocks: each level of the recursion has one more block with count
    zero, which is enough in every state ([rc_dec_terminates]).  [list_fuel] is one
    more than the number of headers; the list visits each once, and marking marks a
    block that was not marked at each level.

    The machine of PointerMachine runs a given number of steps; what the theorems say holds after
    any number of them, up to [LLONG_MAX], since each step adds at most one to a count of 64
    bits.  [program_cost] is a number of steps that is enough for a program without loops and
    recursion ([program_ends]).  The lexer gets the length of the text: every lexeme has a
    character.

    ** What is not modelled

    The parser is generated, and how it chooses the tree of a sequence of tokens, with the
    precedence of the operators, and how it recovers from an error is ANTLR code: a parser is
    an argument of the driver ([parser_program]), and trees are characterised by their tokens.
    Texts are bytes, so a character outside ASCII is several.  [malloc] and the
    address of the stack frame are arguments of the runtime's calls ([Env]); a heap keeps
    headers, and the payload is an array of words the collector reads.  The counter of temporaries
    is an unbounded integer, where the code has an [int].  The traces on the
    standard streams and the bodies under DEBUG are left out ([runtime_print_stats] is kept, as
    the text it prints), as are functions nothing calls in main.cpp, the build files and the
    scripts.

    ** What is open

    The programs of FunctionCode have structs and no classes: methods and virtual calls are
    covered by the theorems on the visitor and the vtables, not by the runs of PointerMachine. *)

From Stdlib Require Export Ascii.
From stdpp Require Export prelude gmap strings sorting pretty.

Declare Scope jb_scope.
Delimit Scope jb_scope with jb.

(** The line feed and the double quote as one-character strings. *)
Definition nl : string := String "010"%char EmptyString.
Definition dq : string := String "034"%char EmptyString.

(** ** Ordered iteration

    [std::map] and [std::set] are iterated in increasing key order; the
    development stores them as [gmap] and [gset] and iterates over the sorted
    list of their elements. *)
Section ordered.
Context {A : Type}.

Definition key_le (x y : string * A) : Prop := String.le x.1 y.1.

#[global] Instance key_le_dec : RelDecision key_le.
Proof. intros x y. unfold key_le. apply _. Defined.

Definition map_iter (m : gmap string A) : list (string * A) :=
  merge_sort key_le (map_to_list m).

#[global] Instance key_le_total : Total key_le.
Proof. intros x y. unfold key_le. destruct (total String.le x.1 y.1); auto. Qed.

#[global] Instance key_le_trans : Transitive key_le.
Proof. intros x y z. unfold key_le. apply transitivity. Qed.

Lemma map_iter_perm (m : gmap string A) : map_iter m ≡ₚ map_to_list m.
Proof. apply merge_sort_Permutation. Qed.

Lemma elem_of_map_iter (m : gmap string A) k v :
  (k, v) ∈ map_iter m ↔ m !! k = Some v.
Proof. rewrite map_iter_perm. apply elem_of_map_to_list. Qed.

Lemma map_iter_sorted (m : gmap string A) : StronglySorted key_le (map_iter m).
Proof. apply (StronglySorted_merge_sort key_le). Qed.
End ordered.

Definition set_iter (s : gset string) : list string :=
  merge_sort String.le (elements s).

Lemma elem_of_set_iter (s : gset string) x : x ∈ set_iter s ↔ x ∈ s.
Proof. unfold set_iter. rewrite merge_sort_Permutation. apply elem_of_elements. Qed.

Lemma set_iter_NoDup (s : gset string) : NoDup (set_iter s).
Proof. unfold set_iter. rewrite merge_sort_Permutation. apply NoDup_elements. Qed.

(** The keys in iteration order are those of the domain. *)
Lemma map_iter_keys {A} (m : gmap string A) : (map_iter m).*1 = set_iter (dom m).
Proof.
  apply (StronglySorted_unique String.le).
  - pose proof (map_iter_sorted m) as Hs. induction Hs as [|kv l _ IH Hl]; constructor; [done|].
    apply Forall_fmap. exact Hl.
  - apply (StronglySorted_merge_sort String.le).
  - apply NoDup_Permutation.
    + rewrite map_iter_perm. apply NoDup_fst_map_to_list.
    + apply set_iter_NoDup.
    + intros x. rewrite elem_of_set_iter, elem_of_dom. split.
      * intros ([y v] & -> & Hin%elem_of_map_iter)%list_elem_of_fmap. by exists v.
      * intros [v Hv%elem_of_map_iter]. by apply (list_elem_of_fmap_2 fst) in Hv.
Qed.

Lemma set_iter_sorted (s : gset string) : StronglySorted String.le (set_iter s).
Proof. apply (StronglySorted_merge_sort String.le). Qed.

(** ** Walking a partial successor function

    The hierarchy loops of the type system follow [next] until it is undefined.
    [walk n c] is the node reached after [n] steps, [None] once the walk has
    ended.  [walk_fuel] is the fuel theorem the loops share: when [next] is
    defined inside a finite set, a walk that ends at all ends within one step
    more than the size of that set. *)
Section walk.
Context {K : Type} `{Countable K} (next : K → option K).

Fixpoint walk (n : nat) (c : K) : option K :=
  match n with
  | O => Some c
  | S n => match next c with Some c' => walk n c' | None => None end
  end.

(** [chain c l]: [l] lists, in order, the nodes from [c] on that have a successor. *)
Inductive chain : K → list K → Prop :=
| chain_end c : next c = None → chain c []
| chain_step c c' l : next c = Some c' → chain c' l → chain c (c :: l).

Lemma walk_chain n c : walk n c = None → ∃ l, chain c l.
Proof.
  revert c. induction n as [|n IH]; intros c; simpl; [done|].
  destruct (next c) as [c'|] eqn:E; [|eauto using chain].
  intros [l Hl]%IH. eauto using chain.
Qed.

Lemma chain_walk c l : chain c l → walk (S (length l)) c = None.
Proof.
  induction 1 as [c E|c c' l E _ IH]; simpl; rewrite E; [done|exact IH].
Qed.

Lemma chain_det c l1 l2 : chain c l1 → chain c l2 → l1 = l2.
Proof.
  intros H1. revert l2. induction H1; inversion 1; simplify_eq; [done|].
  f_equal. auto.
Qed.

Lemma chain_suffix c l x :
  chain c l → x ∈ l → ∃ l1 l2, l = l1 ++ x :: l2 ∧ chain x (x :: l2).
Proof.
  induction 1 as [c E|c c' l E Hc IH]; [by intros ?%not_elem_of_nil|].
  intros [->|Hx]%elem_of_cons.
  - exists [], l. eauto using chain.
  - destruct (IH Hx) as (l1 & l2 & -> & ?). by exists (c :: l1), l2.
Qed.

Lemma chain_NoDup c l : chain c l → NoDup l.
Proof.
  induction 1 as [c E|c c' l E Hc IH]; constructor; [|done].
  intros Hin. destruct (chain_suffix _ _ _ Hc Hin) as (l1 & l2 & -> & Hs).
  assert (chain c (c :: l1 ++ c :: l2)) as Hlong by eauto using chain.
  pose proof (chain_det _ _ _ Hlong Hs) as Heq.
  apply (f_equal length) in Heq. simpl in Heq. rewrite length_app in Heq.
  simpl in Heq. lia.
Qed.

Lemma chain_in_dom c l x : chain c l → x ∈ l → is_Some (next x).
Proof.
  induction 1; [by intros ?%not_elem_of_nil|].
  intros [->|?]%elem_of_cons; eauto.
Qed.

Lemma walk_mono n m c : walk n c = None → n ≤ m → walk m c = None.
Proof.
  revert m c. induction n as [|n IH]; intros m c; [done|].
  intros Hw Hle. destruct m as [|m]; [lia|]. simpl in *.
  destruct (next c); [|done]. apply IH; [done|lia].
Qed.

Lemma chain_length_bound (D : gset K) c l :
  (∀ x, is_Some (next x) → x ∈ D) → chain c l → length l ≤ size D.
Proof.
  intros HD Hc. rewrite <-(size_list_to_set (C:=gset K) l) by eauto using chain_NoDup.
  apply subseteq_size. intros x Hx%elem_of_list_to_set.
  apply HD. eauto using chain_in_dom.
Qed.

Lemma walk_fuel (D : gset K) n c :
  (∀ x, is_Some (next x) → x ∈ D) →
  walk n c = None → walk (S (size D)) c = None.
Proof.
  intros HD [l Hl]%walk_chain.
  apply (walk_mono (S (length l))); [by apply chain_walk|].
  apply le_n_S. eauto using chain_length_bound.
Qed.

Lemma walk_self_loop n c : next c = Some c → walk n c = Some c.
Proof. intros E. induction n as [|n IH]; simpl; [done|]. by rewrite E. Qed.
End walk.

(** ** Lists *)
Lemma forallb_elem {A} (f : A → bool) l x : forallb f l = true → x ∈ l → f x = true.
Proof. intros Hl Hx. rewrite forallb_forall in Hl. apply Hl. by apply list_elem_of_In. Qed.

Lemma size_list_to_set_length `{Countable A} (l : list A) :
  size (list_to_set l : gset A) ≤ length l.
Proof.
  induction l as [|x l IH]; [done|]. cbn [list_to_set length].
  rewrite size_union_alt, size_singleton.
  assert (size ((list_to_set l : gset A) ∖ {[x]}) ≤ size (list_to_set l : gset A)); [|lia].
  apply subseteq_size. set_solver.
Qed.

(** ** Strings *)

Lemma string_app_nil_r (s : string) : s +:+ EmptyString = s.
Proof. induction s as [|a s IH]; [done|]. unfold String.app. simpl. f_equal. exact IH. Qed.

Lemma string_app_nil_l (s : string) : EmptyString +:+ s = s.
Proof. done. Qed.

Lemma string_app_assoc (s1 s2 s3 : string) : s1 +:+ (s2 +:+ s3) = (s1 +:+ s2) +:+ s3.
Proof. induction s1 as [|a s1 IH]; [done|]. unfold String.app. simpl. f_equal. exact IH. Qed.

Lemma string_app_cons a (s1 s2 : string) : String a s1 +:+ s2 = String a (s1 +:+ s2).
Proof. done. Qed.

Lemma string_length_app (s1 s2 : string) :
  String.length (s1 +:+ s2) = String.length s1 + String.length s2.
Proof. induction s1 as [|a s1 IH]; [done|]. rewrite string_app_cons. simpl. by rewrite IH. Qed.

Create HintDb jb_string.
#[export] Hint Rewrite string_app_nil_r string_app_nil_l string_app_assoc : jb_string.

(** Normal form of a concatenation: associated to the left, without empty pieces. *)
Ltac string_norm := autorewrite with jb_string in *.
