(* ===== verification/Errors.v ===== *)
(** Errors and computations: the exceptions the transpiler throws, the ways a
    run can go wrong outside the exception mechanism, and the two monads every
    other file uses. *)
From S2P Require Import Prelude.

(** [CompilerError::ErrorType]. *)
Inductive ErrorType := TypeError | NameError | SyntaxError | ReferenceError | Other.

#[global] Instance ErrorType_eq_dec : EqDecision ErrorType.
Proof. solve_decision. Defined.

(** What is thrown: [CompilerError] of the repository, and the standard
    library's [std::runtime_error], [std::invalid_argument] and
    [std::out_of_range] ([std::stoi], [substr]) and [std::bad_any_cast]. *)
Inductive exn :=
| CompilerErrorAt (type : ErrorType) (message : string) (line column : Z)
| RuntimeError (message : string)
| InvalidArgument
| OutOfRange
| BadAnyCast.

(** The constructors of [CompilerError]: without a position, -1 is stored in the two
    [size_t] fields; without a type, it is [Other]. *)
Definition no_position : Z := (-1) mod 2 ^ 64.
Definition CompilerError (type : ErrorType) (message : string) : exn :=
  CompilerErrorAt type message no_position no_position.
Definition CompilerError_message (message : string) : exn := CompilerError Other message.

(** Behaviour outside the exception mechanism, which no [catch] intercepts. *)
Inductive crash :=
| NullDeref          (* a null pointer is dereferenced *)
| Terminate          (* an exception leaves a noexcept function *)
| InvalidAccess      (* memory that is not a live object is accessed *)
| Overread           (* a read crosses the end of an allocation *)
| SignedOverflow     (* a signed integer operation overflows *)
| Exit (status : Z). (* exit(status) *)

(** A computation returns, throws, goes wrong, or has not ended within its fuel. *)
Inductive outcome (A : Type) :=
| Ret (a : A)
| Throw (e : exn)
| Crash (c : crash)
| Diverge.
Arguments Ret {A} a.
Arguments Throw {A} e.
Arguments Crash {A} c.
Arguments Diverge {A}.

#[global] Instance outcome_ret : MRet outcome := λ A a, Ret a.
#[global] Instance outcome_bind : MBind outcome := λ A B f o,
  match o with
  | Ret a => f a
  | Throw e => Throw e
  | Crash c => Crash c
  | Diverge => Diverge
  end.

(** The message an exception carries ([what()]). *)
Definition what (e : exn) : string :=
  match e with
  | CompilerErrorAt _ m _ _ => m
  | RuntimeError m => m
  | InvalidArgument => "stoi"
  | OutOfRange => "out_of_range"
  | BadAnyCast => "bad any_cast"
  end.

(** ** State and errors *)
Definition stM (S A : Type) : Type := S → outcome (A * S).

Section stM.
Context {S : Type}.

#[global] Instance stM_ret : MRet (stM S) := λ A a s, Ret (a, s).
#[global] Instance stM_bind : MBind (stM S) := λ A B f m s,
  match m s with
  | Ret (a, s') => f a s'
  | Throw e => Throw e
  | Crash c => Crash c
  | Diverge => Diverge
  end.

Definition lift {A} (o : outcome A) : stM S A := λ s,
  match o with
  | Ret a => Ret (a, s)
  | Throw e => Throw e
  | Crash c => Crash c
  | Diverge => Diverge
  end.
Definition gets {A} (f : S → A) : stM S A := λ s, Ret (f s, s).
Definition modify (f : S → S) : stM S unit := λ s, Ret (tt, f s).
Definition throw {A} (e : exn) : stM S A := λ _, Throw e.
Definition crashM {A} (c : crash) : stM S A := λ _, Crash c.

(** [try { m } catch (...) { h }]: only thrown exceptions are caught. *)
Definition catch_all {A} (m h : stM S A) : stM S A := λ s,
  match m s with
  | Throw _ => h s
  | o => o
  end.
End stM.

(** ** Iteration in a monad *)
Section iteration.
Context {M : Type → Type} `{!MRet M, !MBind M}.

Definition foldM {A B} (f : B → A → M B) : list A → B → M B :=
  fix go l b := match l with
                | [] => mret b
                | a :: l => b' ← f b a; go l b'
                end.

Definition forM_ {A} (f : A → M unit) : list A → M unit :=
  fix go l := match l with
              | [] => mret tt
              | a :: l => _ ← f a; go l
              end.

Definition sequenceM {A} : list (M A) → M (list A) :=
  fix go l := match l with
              | [] => mret []
              | m :: l => a ← m; r ← go l; mret (a :: r)
              end.

Definition whenM (b : bool) (m : M unit) : M unit := if b then m else mret tt.
End iteration.

(** One step of a bind whose first computation is known to return. *)
Ltac bind_ret := cbn [mbind outcome_bind].

(** ** Inversion of computations that return *)
Lemma outcome_bind_Ret {A B} (f : A → outcome B) o b :
  o ≫= f = Ret b ↔ ∃ a, o = Ret a ∧ f a = Ret b.
Proof.
  destruct o; simpl; split; try (by intros (?&?&?)); try done.
  - eauto.
  - intros (? & ? & ?). by simplify_eq.
Qed.

Lemma stM_bind_Ret {S A B} (f : A → stM S B) (m : stM S A) s b s' :
  (m ≫= f) s = Ret (b, s') ↔ ∃ a s1, m s = Ret (a, s1) ∧ f a s1 = Ret (b, s').
Proof.
  unfold mbind, stM_bind.
  destruct (m s) as [[a s1]| | |]; split; try (by intros (?&?&?&?)); try done.
  - eauto.
  - intros (? & ? & ? & ?). by simplify_eq.
Qed.

Lemma foldM_outcome_pure {A B} (f : B → A → outcome B) (g : B → A → B) l b :
  (∀ b a, a ∈ l → f b a = Ret (g b a)) → foldM f l b = Ret (foldl g b l).
Proof.
  revert b. induction l as [|a l IH]; intros b Hf; simpl; [done|].
  rewrite Hf by (by left). simpl. apply IH. intros. apply Hf. by right.
Qed.

(** ** Running a computation step by step *)
Section running.
Context {S : Type}.
Implicit Types (s : S).

Lemma bind_step {A B} (m : stM S A) (k : A → stM S B) s a s' :
  m s = Ret (a, s') → (m ≫= k) s = k a s'.
Proof. intros Hm. unfold mbind, stM_bind. by rewrite Hm. Qed.

Lemma bind_gets {A B} (f : S → A) (k : A → stM S B) s : (gets f ≫= k) s = k (f s) s.
Proof. done. Qed.

Lemma bind_mret {A B} (a : A) (k : A → stM S B) s : (mret a ≫= k) s = k a s.
Proof. done. Qed.

Lemma bind_modify {B} (f : S → S) (k : unit → stM S B) s : (modify f ≫= k) s = k tt (f s).
Proof. done. Qed.

Lemma bind_lift {A B} (a : A) (k : A → stM S B) s : (lift (Ret a) ≫= k) s = k a s.
Proof. done. Qed.
End running.

Lemma forM_app {S A} (f : A → stM S unit) l1 l2 s :
  forM_ f (l1 ++ l2) s = (_ ← forM_ f l1; forM_ f l2) s.
Proof.
  revert s. induction l1 as [|a l1 IH]; intros s; [done|].
  cbn [app forM_]. unfold mbind, stM_bind in *.
  destruct (f a s) as [[? s']| | |]; [apply IH|done..].
Qed.

Lemma forM_map {A B S} (g : A → B) (f : B → stM S unit) l : forM_ f (map g l) = forM_ (λ a, f (g a)) l.
Proof. induction l as [|a l IH]; simpl; [done|]. by rewrite IH. Qed.
