(* ===== verification/CppString.v ===== *)
(** The parts of [std::string] and of the numeric conversions the transpiler
    uses, at [size_t] and [int] width. *)
From S2P Require Import Prelude Errors.
#[local] Open Scope Z_scope.

Definition size_t_mod : Z := 2 ^ 64.
Definition npos : Z := size_t_mod - 1.
Definition size_add (a b : Z) : Z := (a + b) mod size_t_mod.
Definition size_sub (a b : Z) : Z := (a - b) mod size_t_mod.
Definition INT_MIN : Z := - 2 ^ 31.
Definition INT_MAX : Z := 2 ^ 31 - 1.

(** [s.size()]. *)
Definition str_size (s : string) : Z := Z.of_nat (String.length s).

(** [s.find(pat, pos)]. *)
Definition str_find (pat s : string) (pos : Z) : Z :=
  if str_size s <? pos then npos
  else match String.index (Z.to_nat pos) pat s with
       | Some i => Z.of_nat i
       | None => npos
       end.

(** The index of the first [c] of [s]. *)
Fixpoint char_index (c : ascii) (s : string) : option nat :=
  match s with
  | EmptyString => None
  | String a s => if decide (a = c) then Some O else S <$> char_index c s
  end.

(** [s.find(c)]. *)
Definition str_find_char (c : ascii) (s : string) : Z :=
  match char_index c s with Some i => Z.of_nat i | None => npos end.

(** [s.substr(pos, len)], which throws [std::out_of_range] past the end. *)
Definition substr (s : string) (pos len : Z) : outcome string :=
  if str_size s <? pos then Throw OutOfRange
  else Ret (String.substring (Z.to_nat pos)
              (Z.to_nat (Z.min len (str_size s - pos))) s).

(** [std::to_string] on [int]. *)
Definition to_string_int (z : Z) : string := pretty z.

(** [std::stoi]: skip white space, take a sign and the longest digit prefix. *)
Fixpoint skip_space (s : string) : string :=
  match s with
  | String a s' => if Ascii.is_space a then skip_space s' else s
  | EmptyString => s
  end.

Fixpoint digit_prefix (s : string) (acc : option Z) : option Z :=
  match s with
  | String a s' =>
      match Ascii.is_nat a with
      | Some d => digit_prefix s' (Some (10 * default 0 acc + Z.of_nat d))
      | None => acc
      end
  | EmptyString => acc
  end.

Definition stoi (s : string) : outcome Z :=
  let (sign, rest) :=
    match skip_space s with
    | String "-"%char r => (-1, r)
    | String "+"%char r => (1, r)
    | r => (1, r)
    end in
  match digit_prefix rest None with
  | None => Throw InvalidArgument
  | Some n =>
      let v := sign * n in
      if (INT_MIN <=? v) && (v <=? INT_MAX) then Ret v else Throw OutOfRange
  end.

(** [std::string(n, ' ')]. *)
Fixpoint spaces (n : nat) : string :=
  match n with O => EmptyString | S n => String " "%char (spaces n) end.
