(* ===== verification/Types.v ===== *)
(** The types of the source language and the functions declared with them:
    classes [Type] and [Function] of include/jblang/types/TypeSystem.h and their
    printing in src/types/TypeSystem.cpp. *)
From S2P Require Import Prelude Errors CppString.
#[local] Open Scope Z_scope.

(** [Type::BaseType].  The constructors carry a prefix because [String] and
    [Bool] are types of the logic. *)
Inductive BaseType :=
| BVoid | BInt | BString | BBool | BStruct | BClass | NO_TYPE.

#[global] Instance BaseType_eq_dec : EqDecision BaseType.
Proof. solve_decision. Defined.

(** [Type::ArrayInfo]. *)
Record ArrayInfo := mkArrayInfo {
  ai_isArray : bool;
  ai_sizes : list Z;
  ai_name : string
}.

Definition noArray : ArrayInfo := mkArrayInfo false [] EmptyString.

(** Class [Type]: its members are values of the same class. *)
Inductive Ty := mkTy {
  m_arrayInfo : ArrayInfo;
  m_baseType : BaseType;
  m_isPointer : bool;
  m_isConst : bool;
  m_structName : string;
  m_parentClass : string;
  m_hasVirtualMethods : bool;
  m_structMembers : list (string * Ty)
}.

(** The constructors [Type(base, isPointer, isConst)] and [Type()]. *)
Definition Type_ (base : BaseType) (isPointer isConst : bool) : Ty :=
  mkTy noArray base isPointer isConst EmptyString EmptyString false [].
Definition Type_base (base : BaseType) : Ty := Type_ base false false.
Definition Type_default : Ty := Type_base BVoid.

(** The queries. *)
Definition isArray (t : Ty) : bool := ai_isArray (m_arrayInfo t).
Definition isStruct (t : Ty) : bool := bool_decide (m_baseType t = BStruct).
Definition isClass (t : Ty) : bool := bool_decide (m_baseType t = BClass).
Definition getClassName (t : Ty) : string := m_structName t.
Definition getStructName (t : Ty) : string := m_structName t.
Definition getArrayName (t : Ty) : string := ai_name (m_arrayInfo t).
Definition getArraySizes (t : Ty) : list Z := ai_sizes (m_arrayInfo t).
Definition hasParent (t : Ty) : bool := negb (bool_decide (m_parentClass t = EmptyString)).
Definition getParentClass (t : Ty) : string := m_parentClass t.

(** The setters. *)
Definition setPointer (isPtr : bool) (t : Ty) : Ty :=
  mkTy (m_arrayInfo t) (m_baseType t) isPtr (m_isConst t) (m_structName t)
       (m_parentClass t) (m_hasVirtualMethods t) (m_structMembers t).
Definition setArray (arrayName : string) (sizes : list Z) (t : Ty) : Ty :=
  mkTy (mkArrayInfo true sizes arrayName) (m_baseType t) (m_isPointer t) (m_isConst t)
       (m_structName t) (m_parentClass t) (m_hasVirtualMethods t) (m_structMembers t).
Definition setStruct (name : string) (t : Ty) : Ty :=
  mkTy (m_arrayInfo t) (m_baseType t) (m_isPointer t) (m_isConst t) name
       (m_parentClass t) (m_hasVirtualMethods t) (m_structMembers t).
Definition setMembers (members : list (string * Ty)) (t : Ty) : Ty :=
  mkTy (m_arrayInfo t) (m_baseType t) (m_isPointer t) (m_isConst t) (m_structName t)
       (m_parentClass t) (m_hasVirtualMethods t) members.
Definition setParentClass (parent : string) (t : Ty) : Ty :=
  mkTy (m_arrayInfo t) (m_baseType t) (m_isPointer t) (m_isConst t) (m_structName t)
       parent (m_hasVirtualMethods t) (m_structMembers t).
Definition setHasVirtualMethods (hasVirtual : bool) (t : Ty) : Ty :=
  mkTy (m_arrayInfo t) (m_baseType t) (m_isPointer t) (m_isConst t) (m_structName t)
       (m_parentClass t) hasVirtual (m_structMembers t).

(** [Type::baseTypeToString]. *)
Definition baseTypeToString (type : BaseType) : outcome string :=
  match type with
  | BVoid => Ret "void"
  | BInt => Ret "int"
  | BString => Ret "char*"
  | BBool => Ret "bool"
  | BStruct => Ret "struct"
  | BClass => Ret "struct"
  | NO_TYPE => Throw (CompilerError TypeError "unknown base type")
  end.

(** The suffix [[n1][n2]...] that [toString] and [generateStructDecl] print. *)
Fixpoint dims_text (sizes : list Z) : string :=
  match sizes with
  | [] => EmptyString
  | size :: sizes => "[" +:+ to_string_int size +:+ "]" +:+ dims_text sizes
  end.

(** [Type::toString]. *)
Definition toString (t : Ty) : outcome string :=
  str ← (if isStruct t || isClass t then Ret ("struct " +:+ getStructName t)
         else baseTypeToString (m_baseType t));
  let str := if isArray t
             then str +:+ " " +:+ ai_name (m_arrayInfo t) +:+ dims_text (getArraySizes t)
             else str in
  Ret (if m_isPointer t then str +:+ "*" else str).

(** [outputVariable], which TypeSystem.cpp and CCodeGenerator.cpp both define. *)
Definition outputVariable (type : Ty) (name : string) : outcome string :=
  s ← toString type;
  Ret (if isArray type then s else s +:+ " " +:+ name).

(** Class [Function].  Its member [block] is never read and has no field. *)
Record Function := mkFunction {
  f_name : string;
  f_params : list (string * Ty);
  f_returnType : Ty;
  f_isStatic : bool;
  f_isVirtual : bool
}.

(** [Function()]. *)
Definition Function_default : Function :=
  mkFunction EmptyString [] (Type_base BVoid) false false.

(** [Function::getSignature]: the loop state is (signature, first). *)
Definition getSignature (f : Function) : outcome string :=
  let funcName := if decide (f_name f = "main") then "main_" else f_name f in
  ret ← toString (f_returnType f);
  r ← foldM (λ (st : string * bool) (paramPair : string * Ty),
         let (signature, first) := st in
         let signature := if negb first then signature +:+ ", " else signature in
         v ← outputVariable paramPair.2 paramPair.1;
         Ret (signature +:+ v, false))
       (f_params f) (ret +:+ " " +:+ funcName +:+ "(", true);
  Ret (r.1 +:+ ")").

(** ** Printing never fails on a type other than [NO_TYPE] *)
Definition printable (t : Ty) : Prop := m_baseType t ≠ NO_TYPE.

(** The C spelling of a type, as a total function. *)
Definition base_text (t : Ty) : string :=
  match m_baseType t with
  | BVoid => "void" | BInt => "int" | BString => "char*" | BBool => "bool"
  | BStruct | BClass => "struct " +:+ m_structName t
  | NO_TYPE => EmptyString
  end.
Definition ty_text (t : Ty) : string :=
  base_text t
  +:+ (if isArray t then " " +:+ getArrayName t +:+ dims_text (getArraySizes t) else EmptyString)
  +:+ (if m_isPointer t then "*" else EmptyString).
Definition var_text (t : Ty) (name : string) : string :=
  if isArray t then ty_text t else ty_text t +:+ " " +:+ name.

Lemma toString_ty_text t : printable t → toString t = Ret (ty_text t).
Proof.
  intros Hp. destruct t as [[ia sz an] b p c sn pc hv ms].
  unfold toString, ty_text, base_text, isStruct, isClass, isArray, getArraySizes,
    getArrayName, printable in *. simpl in *.
  destruct b; try done; simpl; destruct ia, p; simpl; by string_norm.
Qed.

Lemma toString_not_printable t :
  m_baseType t = NO_TYPE → toString t = Throw (CompilerError TypeError "unknown base type").
Proof.
  destruct t as [[ia sz an] b p c sn pc hv ms]. simpl. intros ->. done.
Qed.

Lemma outputVariable_var_text t x :
  printable t → outputVariable t x = Ret (var_text t x).
Proof.
  intros Hp. unfold outputVariable, var_text. rewrite toString_ty_text by done. bind_ret.
  by destruct (isArray t).
Qed.

(** Joining with a separator, the reference for every comma loop of the program. *)
Fixpoint join (sep : string) (l : list string) : string :=
  match l with
  | [] => EmptyString
  | [x] => x
  | x :: l => x +:+ sep +:+ join sep l
  end.

Lemma join_cons sep x y l : join sep (x :: y :: l) = x +:+ sep +:+ join sep (y :: l).
Proof. done. Qed.

(** The accumulating comma loop the code writes, as a fold over (text, first). *)
Definition comma_step (st : string * bool) (x : string) : string * bool :=
  ((if st.2 then st.1 else st.1 +:+ ", ") +:+ x, false).

Lemma comma_loop_false acc l :
  (foldl comma_step (acc, false) l).1
  = acc +:+ foldr (λ x r, ", " +:+ x +:+ r) EmptyString l.
Proof.
  revert acc. induction l as [|x l IH]; intros acc; simpl.
  - by rewrite string_app_nil_r.
  - unfold comma_step at 2. simpl. rewrite IH, !string_app_assoc. done.
Qed.

Lemma comma_loop acc l : (foldl comma_step (acc, true) l).1 = acc +:+ join ", " l.
Proof.
  destruct l as [|x l]; simpl; [by rewrite string_app_nil_r|].
  unfold comma_step at 2. simpl. rewrite comma_loop_false, <-string_app_assoc. f_equal.
  revert x. induction l as [|y l IH]; intros x; simpl; [by rewrite string_app_nil_r|].
  f_equal. f_equal. destruct l; [by rewrite string_app_nil_r|]. apply IH.
Qed.

Lemma getSignature_fold f :
  printable (f_returnType f) →
  Forall (λ p : string * Ty, printable p.2) (f_params f) →
  getSignature f = Ret (ty_text (f_returnType f) +:+ " "
    +:+ (if decide (f_name f = "main") then "main_" else f_name f)
    +:+ "(" +:+ join ", " ((λ p, var_text p.2 p.1) <$> f_params f) +:+ ")").
Proof.
  intros Hr Hp. unfold getSignature. rewrite toString_ty_text by done. bind_ret.
  rewrite (foldM_outcome_pure _ (λ st p, comma_step st (var_text p.2 p.1))).
  2:{ intros [sig fst] p Hin. rewrite Forall_forall in Hp.
      rewrite outputVariable_var_text by (by apply Hp). unfold comma_step.
      by destruct fst. }
  simpl. f_equal. rewrite <-(foldl_fmap comma_step), comma_loop, !string_app_assoc. done.
Qed.
