(* ===== verification/TypeSystem.v ===== *)
(** Class [TypeSystem] of include/jblang/types/TypeSystem.h and
    src/types/TypeSystem.cpp: its tables, one definition per member function.

    A [std::map] is a [gmap] here and a [std::shared_ptr] argument an [option].
    A member function that changes the tables returns the new ones; one that can
    throw, or loop, is an [outcome].  The loops that climb the class hierarchy
    take fuel: [hierarchy_fuel], which file Hierarchy shows to be enough whenever
    the loop ends at all. *)
From S2P Require Import Prelude Errors CppString Types.
#[local] Open Scope Z_scope.

Record TypeSystem := mkTypeSystem {
  m_typedefs : gmap string Ty;
  m_funcs : gmap string Function;
  m_defines : gmap string string;
  m_structs : gmap string Ty;
  m_classes : gmap string Ty;
  m_classMethods : gmap string (list Function);
  m_classConstructors : gmap string Function
}.

(** [TypeSystem()]. *)
Definition TypeSystem_default : TypeSystem := mkTypeSystem ∅ ∅ ∅ ∅ ∅ ∅ ∅.

(** The assignments to one table. *)
Definition with_typedefs x ts := mkTypeSystem x (m_funcs ts) (m_defines ts)
  (m_structs ts) (m_classes ts) (m_classMethods ts) (m_classConstructors ts).
Definition with_funcs x ts := mkTypeSystem (m_typedefs ts) x (m_defines ts)
  (m_structs ts) (m_classes ts) (m_classMethods ts) (m_classConstructors ts).
Definition with_defines x ts := mkTypeSystem (m_typedefs ts) (m_funcs ts) x
  (m_structs ts) (m_classes ts) (m_classMethods ts) (m_classConstructors ts).
Definition with_structs x ts := mkTypeSystem (m_typedefs ts) (m_funcs ts) (m_defines ts)
  x (m_classes ts) (m_classMethods ts) (m_classConstructors ts).
Definition with_classes x ts := mkTypeSystem (m_typedefs ts) (m_funcs ts) (m_defines ts)
  (m_structs ts) x (m_classMethods ts) (m_classConstructors ts).
Definition with_classMethods x ts := mkTypeSystem (m_typedefs ts) (m_funcs ts)
  (m_defines ts) (m_structs ts) (m_classes ts) x (m_classConstructors ts).
Definition with_classConstructors x ts := mkTypeSystem (m_typedefs ts) (m_funcs ts)
  (m_defines ts) (m_structs ts) (m_classes ts) (m_classMethods ts) x.

(** ** Defines *)
Definition getDefineValue (key : string) (ts : TypeSystem) : string :=
  default EmptyString (m_defines ts !! key).

Definition registerDefine (key val : string) (ts : TypeSystem) : TypeSystem :=
  with_defines (<[key := val]> (m_defines ts)) ts.

(** ** Types by name *)
Definition translateType (sourceType : string) (ts : TypeSystem) : outcome Ty :=
  let arrayStart := str_find_char "["%char sourceType in
  let is_array := negb (arrayStart =? npos) in
  baseType ← (if is_array then substr sourceType 0 arrayStart else Ret sourceType);
  let star := str_find_char "*"%char sourceType in
  let is_pointer := negb (star =? npos) in
  baseType ← (if is_pointer then substr sourceType 0 star else Ret baseType);
  type ←
    (if decide (baseType = "void") then Ret (Type_base BVoid)
     else if decide (baseType = "int") then Ret (Type_base BInt)
     else if decide (baseType = "string") then Ret (Type_ BString true false)
     else if decide (baseType = "bool") then Ret (Type_base BBool)
     else match m_typedefs ts !! baseType with
     | Some t => Ret t
     | None =>
     match m_structs ts !! baseType with
     | Some t => Ret t
     | None =>
     match m_classes ts !! baseType with
     | Some t => Ret t
     | None => Throw (RuntimeError ("Unknown type: " +:+ sourceType))
     end end end);
  let type := if is_pointer then setPointer true type else type in
  if is_array then
    let arrayEnd := str_find_char "]"%char sourceType in
    if negb (arrayEnd =? npos) then
      sizeStr ← substr sourceType (size_add arrayStart 1)
                  (size_sub (size_sub arrayEnd arrayStart) 1);
      size ← (if decide (sizeStr = EmptyString) then Ret 0 else stoi sizeStr);
      Ret (setArray "james_fix" [-1] type)
    else Throw (RuntimeError ("Invalid array type: " +:+ sourceType))
  else Ret type.

Definition resolveType (typeStr : string) (ts : TypeSystem) : outcome Ty :=
  translateType typeStr ts.

(** ** Structs, typedefs, functions *)
Definition registerStruct (name : string) (ts : TypeSystem) : Ty * TypeSystem :=
  let type := setStruct name (Type_base BStruct) in
  (type, with_structs (<[name := type]> (m_structs ts)) ts).

Definition setStructMembers (name : string) (members : list (string * Ty))
    (ts : TypeSystem) : outcome (Ty * TypeSystem) :=
  match m_structs ts !! name with
  | None => Throw (CompilerError TypeError ("Struct not found: " +:+ name))
  | Some type =>
      let type := setMembers members type in
      Ret (type, with_structs (<[name := type]> (m_structs ts)) ts)
  end.

Definition registerTypeDef (name : string) (type : Ty) (ts : TypeSystem) : TypeSystem :=
  with_typedefs (<[name := type]> (m_typedefs ts)) ts.

Definition registerFunction (func : option Function) (ts : TypeSystem) : outcome TypeSystem :=
  match func with
  | None => Throw (CompilerError Other "Cannot register null function")
  | Some func => Ret (with_funcs (<[f_name func := func]> (m_funcs ts)) ts)
  end.

(** ** Classes *)
Definition registerClass (name : string) (ts : TypeSystem) : Ty * TypeSystem :=
  let type := setStruct name (Type_base BClass) in
  (type, with_classes (<[name := type]> (m_classes ts)) ts).

Definition setClassMembers (name : string) (members : list (string * Ty))
    (ts : TypeSystem) : outcome (Ty * TypeSystem) :=
  match m_classes ts !! name with
  | None => Throw (CompilerError TypeError ("Class not found: " +:+ name))
  | Some type =>
      let type := setMembers members type in
      Ret (type, with_classes (<[name := type]> (m_classes ts)) ts)
  end.

(** [m_classMethods[className].push_back(method)]: the entry is created when absent. *)
Definition registerClassMethod (className : string) (method : option Function)
    (ts : TypeSystem) : outcome TypeSystem :=
  match method with
  | None => Throw (CompilerError Other "Cannot register null method")
  | Some method =>
      Ret (with_classMethods
             (<[className := default [] (m_classMethods ts !! className) ++ [method]]>
                (m_classMethods ts)) ts)
  end.

Definition getClassMethods (className : string) (ts : TypeSystem) : list Function :=
  default [] (m_classMethods ts !! className).

Definition registerClassConstructor (className : string) (constructor : option Function)
    (ts : TypeSystem) : outcome TypeSystem :=
  match constructor with
  | None => Throw (CompilerError Other "Cannot register null constructor")
  | Some constructor =>
      Ret (with_classConstructors (<[className := constructor]> (m_classConstructors ts)) ts)
  end.

Definition getClassConstructor (className : string) (ts : TypeSystem) : option Function :=
  m_classConstructors ts !! className.

Definition setClassParent (className parentName : string) (ts : TypeSystem)
    : outcome (Ty * TypeSystem) :=
  match m_classes ts !! className with
  | None => Throw (CompilerError TypeError ("Class not found: " +:+ className))
  | Some type =>
      match m_classes ts !! parentName with
      | None => Throw (CompilerError TypeError ("Parent class not found: " +:+ parentName))
      | Some _ =>
          let type := setParentClass parentName type in
          Ret (type, with_classes (<[className := type]> (m_classes ts)) ts)
      end
  end.

(** ** Climbing the hierarchy *)
Definition hierarchy_fuel (ts : TypeSystem) : nat := S (size (m_classes ts)).

(** The loop of [isSubclassOf]: [current] climbs until it has no parent. *)
Fixpoint isSubclassOf_loop (fuel : nat) (current parent : string) (ts : TypeSystem)
    : outcome bool :=
  match fuel with
  | O => Diverge
  | S fuel =>
      match m_classes ts !! current with
      | None => Ret false
      | Some currentIt =>
          if negb (hasParent currentIt) then Ret false
          else
            let parentClass := getParentClass currentIt in
            if decide (parentClass = parent) then Ret true
            else isSubclassOf_loop fuel parentClass parent ts
      end
  end.

Definition isSubclassOf (child parent : string) (ts : TypeSystem) : outcome bool :=
  match m_classes ts !! child with
  | None => Ret false
  | Some _ => isSubclassOf_loop (hierarchy_fuel ts) child parent ts
  end.

(** [getAllClassMembers], a recursion on the parent. *)
Fixpoint getAllClassMembers_rec (fuel : nat) (className : string) (ts : TypeSystem)
    : outcome (list (string * Ty)) :=
  match fuel with
  | O => Diverge
  | S fuel =>
      match m_classes ts !! className with
      | None => Throw (CompilerError TypeError ("Class not found: " +:+ className))
      | Some it =>
          allMembers ← (if hasParent it
                        then getAllClassMembers_rec fuel (getParentClass it) ts
                        else Ret []);
          Ret (allMembers ++ m_structMembers it)
      end
  end.

Definition getAllClassMembers (className : string) (ts : TypeSystem)
    : outcome (list (string * Ty)) :=
  getAllClassMembers_rec (hierarchy_fuel ts) className ts.

Definition getVirtualMethods (className : string) (ts : TypeSystem) : list Function :=
  foldl (λ virtualMethods method,
           if f_isVirtual method then virtualMethods ++ [method] else virtualMethods)
        [] (getClassMethods className ts).

Definition hasVirtualMethods (className : string) (ts : TypeSystem) : bool :=
  match getVirtualMethods className ts with [] => false | _ => true end.

(** The body of the method loop of [getAllVirtualMethods], over the pair
    (allVirtuals, seenMethods). *)
Definition collect_virtual (st : list Function * gset string) (method : Function)
    : list Function * gset string :=
  if f_isVirtual method && negb (bool_decide (f_name method ∈ st.2))
  then (st.1 ++ [method], {[f_name method]} ∪ st.2)
  else st.

Fixpoint getAllVirtualMethods_loop (fuel : nat) (current : string)
    (st : list Function * gset string) (ts : TypeSystem) : outcome (list Function) :=
  match fuel with
  | O => Diverge
  | S fuel =>
      match m_classes ts !! current with
      | None => Ret st.1
      | Some it =>
          let st := foldl collect_virtual st (getClassMethods current ts) in
          if negb (hasParent it) then Ret st.1
          else getAllVirtualMethods_loop fuel (getParentClass it) st ts
      end
  end.

Definition getAllVirtualMethods (className : string) (ts : TypeSystem)
    : outcome (list Function) :=
  getAllVirtualMethods_loop (hierarchy_fuel ts) className ([], ∅) ts.

(** [name.substr(name.find('_')+1)], the method name without its class prefix. *)
Definition method_base_name (name : string) : outcome string :=
  substr name (size_add (str_find_char "_"%char name) 1) npos.

(** ** The vtables *)
Definition generateVTableStruct (ts : TypeSystem) : outcome string :=
  allVirtualMethods ←
    foldM (λ (s : gset string) (classPair : string * Ty),
             virtuals ← getAllVirtualMethods classPair.1 ts;
             foldM (λ (s : gset string) method,
                      baseName ← method_base_name (f_name method);
                      Ret ({[baseName]} ∪ s)) virtuals s)
          (map_iter (m_classes ts)) (∅ : gset string);
  let body := foldl (λ vtableStruct methodName,
                       vtableStruct +:+ "    void (*" +:+ methodName +:+ ")(void* this);" +:+ nl)
                    ("struct vtable {" +:+ nl) (set_iter allVirtualMethods) in
  Ret (body +:+ "};" +:+ nl +:+ nl).

(** The first method of [methods] whose base name is [methodName]. *)
Fixpoint find_by_base_name (methods : list Function) (methodName : string)
    : outcome (option string) :=
  match methods with
  | [] => Ret None
  | method :: methods =>
      baseName ← method_base_name (f_name method);
      if decide (baseName = methodName) then Ret (Some (f_name method))
      else find_by_base_name methods methodName
  end.

Fixpoint findMethodImplementation_loop (fuel : nat) (current className methodName : string)
    (ts : TypeSystem) : outcome string :=
  match fuel with
  | O => Diverge
  | S fuel =>
      found ← find_by_base_name (getClassMethods current ts) methodName;
      match found with
      | Some name => Ret name
      | None =>
          match m_classes ts !! current with
          | None => Ret (className +:+ "_" +:+ methodName)
          | Some it =>
              if negb (hasParent it) then Ret (className +:+ "_" +:+ methodName)
              else findMethodImplementation_loop fuel (getParentClass it) className methodName ts
          end
      end
  end.

Definition findMethodImplementation (className methodName : string) (ts : TypeSystem)
    : outcome string :=
  findMethodImplementation_loop (hierarchy_fuel ts) className className methodName ts.

Definition generateVTableInstance (className : string) (ts : TypeSystem) : outcome string :=
  allVirtuals ← getAllVirtualMethods className ts;
  match allVirtuals with
  | [] => Ret EmptyString
  | _ =>
      r ← foldM (λ (st : string * gset string) method,
             let (instance, processedMethods) := st in
             baseName ← method_base_name (f_name method);
             if decide (baseName ∈ processedMethods) then Ret st
             else
               implName ← findMethodImplementation className baseName ts;
               Ret (instance +:+ "    ." +:+ baseName +:+ " = " +:+ implName +:+ "," +:+ nl,
                    {[baseName]} ∪ processedMethods))
           allVirtuals
           ("static struct vtable " +:+ className +:+ "_vtable = {" +:+ nl, ∅ : gset string);
      Ret (r.1 +:+ "};" +:+ nl +:+ nl)
  end.

(** ** Compatibility

    [isCompatible] is [noexcept]: an exception of [toString] ends the program. *)
Definition noexcept {A} (o : outcome A) : outcome A :=
  match o with Throw _ => Crash Terminate | o => o end.

Definition isCompatible (from to : Ty) (ts : TypeSystem) : outcome bool :=
  noexcept (
    sf ← toString from;
    st ← toString to;
    if decide (sf = st) then Ret true
    else if m_isPointer from && m_isPointer to && isClass from && isClass to
    then isSubclassOf (getClassName from) (getClassName to) ts
    else Ret false).

Definition getCommonType (t1 t2 : Ty) : Ty := t1.
