(* ===== verification/SymbolTable.v ===== *)
(** Classes [Variable] and [SymbolTable] of include/jblang/types/SymbolTable.h.
    The vector [scopes] is a list whose head is [scopes.back()]: [emplace_back]
    conses and [rbegin] is the head. *)
From S2P Require Import Prelude Errors CppString Types.

Record Variable_ := mkVariable {
  v_name : string;
  v_type : Ty;
  v_struct_name : string;
  v_field_name : string
}.

Definition Variable_of (name : string) (type : Ty) : Variable_ :=
  mkVariable name type EmptyString EmptyString.

Record SymbolTable := mkSymbolTable {
  globalVars : list (string * Ty);
  currentFunc : option Function;
  scopes : list (gmap string Variable_)
}.

(** [SymbolTable()]: one, global, scope. *)
Definition SymbolTable_default : SymbolTable := mkSymbolTable [] None [∅].

Definition with_scopes (x : list (gmap string Variable_)) (st : SymbolTable) : SymbolTable :=
  mkSymbolTable (globalVars st) (currentFunc st) x.
Definition with_currentFunc (x : option Function) (st : SymbolTable) : SymbolTable :=
  mkSymbolTable (globalVars st) x (scopes st).
Definition add_globalVar (x : string * Ty) (st : SymbolTable) : SymbolTable :=
  mkSymbolTable (globalVars st ++ [x]) (currentFunc st) (scopes st).

Definition enterScope (st : SymbolTable) : SymbolTable := with_scopes (∅ :: scopes st) st.

Definition exitScope (st : SymbolTable) : SymbolTable :=
  match scopes st with
  | [] => st
  | _ :: rest => with_scopes rest st
  end.

Definition getIndentLevel (st : SymbolTable) : string := spaces (length (scopes st) * 4).

Definition addSymbol (name : string) (type : Ty) (struct_name field_name : string)
    (st : SymbolTable) : outcome SymbolTable :=
  match scopes st with
  | [] => Throw (CompilerError_message "No active scope")
  | back :: rest =>
      let var := mkVariable name type struct_name field_name in
      Ret (with_scopes (<[name := var]> back :: rest) st)
  end.

(** The two loops of [lookupSymbol]: over the scopes from the innermost, then
    over the parameters of the current function.  The [bool] result and the
    reference argument are one [option]. *)
Fixpoint lookup_scopes (name : string) (scopes : list (gmap string Variable_))
    : option Variable_ :=
  match scopes with
  | [] => None
  | s :: rest => match s !! name with Some v => Some v | None => lookup_scopes name rest end
  end.

Fixpoint lookup_params (name : string) (params : list (string * Ty)) : option Variable_ :=
  match params with
  | [] => None
  | (x, t) :: params =>
      if decide (x = name) then Some (Variable_of name t) else lookup_params name params
  end.

Definition lookupSymbol (name : string) (st : SymbolTable) : option Variable_ :=
  match lookup_scopes name (scopes st) with
  | Some var => Some var
  | None => match currentFunc st with
            | Some f => lookup_params name (f_params f)
            | None => None
            end
  end.

Definition getCurrentScopeSymbols (st : SymbolTable) : gmap string Variable_ :=
  match scopes st with [] => ∅ | back :: _ => back end.

Definition isGlobalScope (st : SymbolTable) : bool := bool_decide (length (scopes st) = 1).
