(* ===== verification/CodeGenerator.v ===== *)
(** The interface [CodeGenerator] of include/jblang/codegen/CodeGenerator.h as a
    class of operations, and its implementation [CCodeGenerator]
    (include/jblang/codegen/CCodeGenerator.h, src/codegen/CCodeGenerator.cpp). *)
From S2P Require Import Prelude Errors CppString Types SymbolTable.
#[local] Open Scope Z_scope.

Class CodeGenerator := {
  generateFunctionDecl : option Function → outcome string;
  generateVarDecl : string → Ty → string → outcome string;
  generateStructDecl : string → Ty → string → outcome string;
  generateTypeDef : string → Ty → outcome string;
  generateFunctionCall : string → list string → string;
  generateReturn : string → Ty → string;
  generateScopeEntry : string;
  generateScopeExit : gmap string Variable_ → string;
  generateIncRef : Variable_ → string → string;
  generateDecRef : Variable_ → string;
  generateAlloc : Ty → outcome string;
  generateCast : string → Ty → Ty → string
}.

(** The default argument [other = "NULL"] of [generateIncRef]. *)
Definition incRef_default : string := "NULL".

Section CCodeGenerator.
Variable m_useRefCounts : bool.

Definition C_generateFunctionDecl (func : option Function) : outcome string :=
  match func with
  | None => Throw (RuntimeError "Cannot generate declaration for null function")
  | Some func =>
      if f_isVirtual func then
        ret ← toString (f_returnType func);
        let signature := ret +:+ " " +:+ f_name func +:+ "(void* this_param" in
        signature ← foldM (λ signature (param : string * Ty),
                       t ← toString param.2;
                       Ret (signature +:+ ", " +:+ t +:+ " " +:+ param.1))
                     (drop 1 (f_params func)) signature;
        Ret (signature +:+ ")")
      else getSignature func
  end.

Definition C_generateVarDecl (name : string) (type : Ty) (initializer : string)
    : outcome string :=
  v ← outputVariable type name;
  Ret (v +:+ initializer +:+ ";" +:+ nl).

(** One round of the member loop of [generateStructDecl]. *)
Definition C_struct_member (structDecl : string) (member : string * Ty) : outcome string :=
  let structDecl := structDecl +:+ String "009"%char EmptyString in
  structDecl ←
    (if isArray member.2 then
       let baseType := member.2 in
       baseTypeStr ← (if isStruct baseType then Ret ("struct " +:+ getStructName baseType)
                      else baseTypeToString (m_baseType baseType));
       let baseTypeStr := if m_isPointer baseType then baseTypeStr +:+ "*" else baseTypeStr in
       Ret (structDecl +:+ baseTypeStr +:+ " " +:+ member.1
              +:+ dims_text (getArraySizes baseType))
     else
       t ← toString member.2;
       Ret (structDecl +:+ t +:+ " " +:+ member.1));
  Ret (structDecl +:+ ";" +:+ nl).

Definition C_generateStructDecl (name : string) (type : Ty) (initializer : string)
    : outcome string :=
  structDecl ← foldM (λ acc m, C_struct_member acc m) (m_structMembers type)
                 ("struct " +:+ name +:+ " {" +:+ nl);
  Ret (structDecl +:+ "}").

Definition C_generateTypeDef (name : string) (type : Ty) : outcome string :=
  body ← (if isStruct type then C_generateStructDecl (getStructName type) type EmptyString
          else toString type);
  Ret ("typedef " +:+ body +:+ " " +:+ name +:+ ";" +:+ nl).

(** The loop state is (funcCall, first). *)
Definition C_generateFunctionCall (name : string) (args : list string) : string :=
  (foldl (λ (st : string * bool) arg,
            let funcCall := if negb st.2 then st.1 +:+ ", " else st.1 in
            (funcCall +:+ arg, false))
         (name +:+ "(", true) args).1 +:+ ")".

Definition C_generateReturn (value : string) (type : Ty) : string :=
  "return " +:+ value +:+ ";" +:+ nl.

Definition C_generateScopeEntry : string := "{" +:+ nl.

Definition C_generateScopeExit (scopeVars : gmap string Variable_) : string := "}" +:+ nl.

Definition C_generateAlloc (type : Ty) : outcome string :=
  t ← toString type;
  Ret ("runtime_alloc(sizeof(" +:+ t +:+ "))").

Definition C_generateIncRef (var : Variable_) (other : string) : string :=
  if negb m_useRefCounts then EmptyString
  else
    let code := "runtime_inc_ref_count(" +:+ v_name var +:+ ", " +:+ other in
    code +:+ ");" +:+ nl.

Definition C_generateDecRef (var : Variable_) : string :=
  if negb m_useRefCounts then EmptyString
  else
    let code := "runtime_dec_ref_count(" +:+ v_name var +:+ ", " in
    let code :=
      if negb (bool_decide (v_field_name var = EmptyString))
      then code +:+ "offsetof(" +:+ v_struct_name var +:+ ", " +:+ v_field_name var +:+ ")"
      else code +:+ "0" in
    code +:+ ");" +:+ nl.

Definition C_generateCast (expr : string) (fromType toType : Ty) : string :=
  if m_isPointer fromType && m_isPointer toType && isClass fromType && isClass toType then
    let fromClass := getClassName fromType in
    let toClass := getClassName toType in
    if decide (fromClass = toClass) then expr
    else "&((" +:+ expr +:+ ")->parent)"
  else expr.

Definition CCodeGenerator : CodeGenerator := {|
  generateFunctionDecl := C_generateFunctionDecl;
  generateVarDecl := C_generateVarDecl;
  generateStructDecl := C_generateStructDecl;
  generateTypeDef := C_generateTypeDef;
  generateFunctionCall := C_generateFunctionCall;
  generateReturn := C_generateReturn;
  generateScopeEntry := C_generateScopeEntry;
  generateScopeExit := C_generateScopeExit;
  generateIncRef := C_generateIncRef;
  generateDecRef := C_generateDecRef;
  generateAlloc := C_generateAlloc;
  generateCast := C_generateCast
|}.
End CCodeGenerator.
