(* ===== verification/Syntax.v ===== *)
(** Parse trees of grammar/JBLang.g4 and the text of a tree.

    The parser is generated; a tree is what it hands to the visitor.  One
    constructor per labelled alternative, the children in the grammar's order.
    [getText] of a context is, in ANTLR, the concatenation of the texts of its
    tokens, white space dropped: the [_text] functions. *)
From S2P Require Import Prelude.

(** ** The IDENTIFIER token of grammar/JBLang.g4 *)
Definition in_range (lo hi : N) (a : ascii) : bool :=
  (lo <=? N_of_ascii a)%N && (N_of_ascii a <=? hi)%N.
Definition is_letter (a : ascii) : bool :=
  in_range 97 122 a || in_range 65 90 a || bool_decide (a = "_"%char).
Definition is_digit (a : ascii) : bool := in_range 48 57 a.
Fixpoint all_chars (f : ascii → bool) (s : string) : bool :=
  match s with EmptyString => true | String a s => f a && all_chars f s end.
Definition is_identifier (s : string) : bool :=
  match s with
  | EmptyString => false
  | String a s => is_letter a && all_chars (λ a, is_letter a || is_digit a) s
  end.

(** ** Trees *)

(** [typeSpec]; [TS_named] carries the optional keyword. *)
Inductive type_keyword := KW_struct | KW_class.
Inductive typeSpec :=
| TS_void | TS_int | TS_bool | TS_string
| TS_named (kw : option type_keyword) (name : string)
| TS_pointer (t : typeSpec).

(** [arraySize], [arrayDecl], and the choice [(typeSpec IDENTIFIER) | arrayDecl]
    that [param], [structMember], [varDecl] and [ClassField] share. *)
Inductive arraySize := AS_integer (text : string) | AS_identifier (name : string).
Record arrayDecl := mkArrayDecl {
  ad_type : typeSpec;
  ad_name : string;
  ad_sizes : list arraySize
}.
Inductive declarator :=
| D_plain (t : typeSpec) (name : string)
| D_array (a : arrayDecl).

Inductive literal := L_integer (text : string) | L_string (text : string) | L_true | L_false.

(** [primary], [functionCall] and [initializerList], over the trees of expressions. *)
Inductive primary (E : Type) :=
| P_paren (e : E)
| P_identifier (name : string)
| P_literal (l : literal).
Arguments P_paren {E} e.
Arguments P_identifier {E} name.
Arguments P_literal {E} l.

Record functionCall (E : Type) := mkFunctionCall {
  fc_name : string;
  fc_args : option (list E)
}.
Arguments mkFunctionCall {E}.
Arguments fc_name {E}.
Arguments fc_args {E}.

Record initializerList (E : Type) := mkInitializerList {
  il_inits : list (string * E);
  il_trailing : bool
}.
Arguments mkInitializerList {E}.
Arguments il_inits {E}.
Arguments il_trailing {E}.

(** [expression]. *)
Inductive expr :=
| PrimaryExpr (p : primary expr)
| MemberExpr (e : expr) (field : string)
| FuncCallExpr (f : functionCall expr)
| MulDivExpr (l : expr) (op : string) (r : expr)
| AddSubExpr (l : expr) (op : string) (r : expr)
| CompareExpr (l : expr) (op : string) (r : expr)
| AssignExpr (l r : expr)
| VarExpr (name : string)
| LiteralExpr (l : literal)
| NewExpr (t : typeSpec)
| NewWithConstructorExpr (name : string) (args : option (list expr))
| PointerMemberExpr (e : expr) (field : string)
| AddressOfExpr (e : expr)
| DereferenceExpr (e : expr)
| ArrayAccessExpr (e i : expr)
| MethodCallExpr (e : expr) (name : string) (args : option (list expr))
| StructInitExpr (l : option (initializerList expr))
| PostIncrementExpr (e : expr)
| PostDecrementExpr (e : expr)
| PreIncrementExpr (e : expr)
| PreDecrementExpr (e : expr).

Record structDecl := mkStructDecl {
  sd_name : string;
  sd_members : list declarator;
  sd_semi : bool
}.

(** [classMember]; a block is a list of statements [B]. *)
Inductive classMember (E B : Type) :=
| ClassField (d : declarator)
| ClassMethod (virtual_ : bool) (t : typeSpec) (name : string)
    (params : option (list declarator)) (body : B)
| ClassConstructor (name : string) (params : option (list declarator))
    (super : option (string * option (list E))) (body : B).
Arguments ClassField {E B} d.
Arguments ClassMethod {E B} virtual_ t name params body.
Arguments ClassConstructor {E B} name params super body.

Record varDecl (E : Type) := mkVarDecl {
  vd_decl : declarator;
  vd_init : option E
}.
Arguments mkVarDecl {E}.
Arguments vd_decl {E}.
Arguments vd_init {E}.

(** The first part of a [for] header. *)
Inductive forInit (E : Type) :=
| FI_var (v : varDecl E)
| FI_expr (e : E)
| FI_none.
Arguments FI_var {E} v.
Arguments FI_expr {E} e.
Arguments FI_none {E}.

Inductive typedefBody := TD_type (t : typeSpec) | TD_struct (s : structDecl).

(** [statement]. *)
Inductive statement :=
| S_functionDecl (t : typeSpec) (name : string) (params : option (list declarator))
    (body : list statement)
| S_varDecl (v : varDecl expr)
| S_spawn (e : expr)
| S_return (e : option expr)
| S_expr (e : expr)
| S_block (b : list statement)
| S_struct (s : structDecl)
| S_class (name : string) (parent : option string)
    (members : list (classMember expr (list statement))) (semi : bool)
| S_if (c : expr) (t : statement) (e : option statement)
| S_while (c : expr) (b : statement)
| S_for (init : forInit expr) (cond step : option expr) (body : statement)
| S_typedef (b : typedefBody) (name : string).

(** [preprocessorDirective] and [program]. *)
Inductive defineValue := DV_integer (text : string) | DV_string (text : string).
Inductive directive :=
| PD_include (text : string)
| PD_define (name : string) (value : option defineValue).
Record program := mkProgram {
  pr_directives : list directive;
  pr_statements : list statement
}.

(** ** [getText] *)
Fixpoint concat_text (l : list string) : string :=
  match l with [] => EmptyString | s :: l => s +:+ concat_text l end.

Definition opt_text {A} (f : A → string) (o : option A) : string :=
  match o with Some a => f a | None => EmptyString end.

Fixpoint comma_text (l : list string) : string :=
  match l with
  | [] => EmptyString
  | [s] => s
  | s :: l => s +:+ "," +:+ comma_text l
  end.

Fixpoint typeSpec_text (t : typeSpec) : string :=
  match t with
  | TS_void => "void"
  | TS_int => "int"
  | TS_bool => "bool"
  | TS_string => "string"
  | TS_named kw name =>
      opt_text (λ k, match k with KW_struct => "struct" | KW_class => "class" end) kw +:+ name
  | TS_pointer t => typeSpec_text t +:+ "*"
  end.

Definition arraySize_text (a : arraySize) : string :=
  "[" +:+ match a with AS_integer s => s | AS_identifier s => s end +:+ "]".
Definition arrayDecl_text (a : arrayDecl) : string :=
  typeSpec_text (ad_type a) +:+ ad_name a +:+ concat_text (arraySize_text <$> ad_sizes a).
Definition declarator_text (d : declarator) : string :=
  match d with
  | D_plain t name => typeSpec_text t +:+ name
  | D_array a => arrayDecl_text a
  end.
Definition params_text (ps : option (list declarator)) : string :=
  "(" +:+ opt_text (λ l, comma_text (declarator_text <$> l)) ps +:+ ")".
Definition literal_text (l : literal) : string :=
  match l with L_integer s => s | L_string s => s | L_true => "true" | L_false => "false" end.

(** [ctx->getText()] of an expression. *)
Fixpoint expr_text (e : expr) : string :=
  let args_text (args : option (list expr)) :=
    "(" +:+ match args with Some l => comma_text (map expr_text l) | None => EmptyString end +:+ ")" in
  match e with
  | PrimaryExpr (P_paren e) => "(" +:+ expr_text e +:+ ")"
  | PrimaryExpr (P_identifier x) => x
  | PrimaryExpr (P_literal l) => literal_text l
  | MemberExpr e x => expr_text e +:+ "." +:+ x
  | FuncCallExpr f => fc_name f +:+ args_text (fc_args f)
  | MulDivExpr l op r | AddSubExpr l op r | CompareExpr l op r =>
      expr_text l +:+ op +:+ expr_text r
  | AssignExpr l r => expr_text l +:+ "=" +:+ expr_text r
  | VarExpr x => x
  | LiteralExpr l => literal_text l
  | NewExpr t => "new" +:+ typeSpec_text t
  | NewWithConstructorExpr x args => "new" +:+ x +:+ args_text args
  | PointerMemberExpr e x => expr_text e +:+ "->" +:+ x
  | AddressOfExpr e => "&" +:+ expr_text e
  | DereferenceExpr e => "*" +:+ expr_text e
  | ArrayAccessExpr e i => expr_text e +:+ "[" +:+ expr_text i +:+ "]"
  | MethodCallExpr e x args => expr_text e +:+ "->" +:+ x +:+ args_text args
  | StructInitExpr l =>
      "{" +:+ match l with
              | Some l => comma_text (map (λ '(x, e), "." +:+ x +:+ "=" +:+ expr_text e) (il_inits l))
                            +:+ (if il_trailing l then "," else EmptyString)
              | None => EmptyString
              end +:+ "}"
  | PostIncrementExpr e => expr_text e +:+ "++"
  | PostDecrementExpr e => expr_text e +:+ "--"
  | PreIncrementExpr e => "++" +:+ expr_text e
  | PreDecrementExpr e => "--" +:+ expr_text e
  end.

Definition semi_text (b : bool) : string := if b then ";" else EmptyString.
Definition structDecl_text (s : structDecl) : string :=
  "struct" +:+ sd_name s +:+ "{"
    +:+ concat_text ((λ d, declarator_text d +:+ ";") <$> sd_members s)
    +:+ "}" +:+ semi_text (sd_semi s).
Definition varDecl_text (v : varDecl expr) : string :=
  declarator_text (vd_decl v) +:+ opt_text (λ e, "=" +:+ expr_text e) (vd_init v) +:+ ";".
Definition forInit_text (i : forInit expr) : string :=
  match i with FI_var v => varDecl_text v | FI_expr e => expr_text e +:+ ";" | FI_none => ";" end.

(** [getText()] of a class member, given the text of a block. *)
Definition member_text {B} (block_text : B → string) (m : classMember expr B) : string :=
  match m with
  | ClassField d => declarator_text d +:+ ";"
  | ClassMethod v t name ps b =>
      (if v then "virtual" else EmptyString) +:+ typeSpec_text t +:+ name
        +:+ params_text ps +:+ block_text b
  | ClassConstructor name ps super b =>
      name +:+ params_text ps
        +:+ opt_text (λ '(p, args), ":" +:+ p +:+ "("
                        +:+ opt_text (λ l, comma_text (expr_text <$> l)) args +:+ ")") super
        +:+ block_text b
  end.

(** [getText()] of a statement. *)
Fixpoint stmt_text (s : statement) : string :=
  let block_text (b : list statement) := "{" +:+ concat_text (map stmt_text b) +:+ "}" in
  match s with
  | S_functionDecl t name ps b => typeSpec_text t +:+ name +:+ params_text ps +:+ block_text b
  | S_varDecl v => varDecl_text v
  | S_spawn e => "spawn" +:+ expr_text e +:+ ";"
  | S_return e => "return" +:+ opt_text expr_text e +:+ ";"
  | S_expr e => expr_text e +:+ ";"
  | S_block b => block_text b
  | S_struct s => structDecl_text s
  | S_class name parent ms semi =>
      "class" +:+ name +:+ opt_text (λ p, ":" +:+ p) parent +:+ "{"
        +:+ concat_text (map (member_text block_text) ms) +:+ "}" +:+ semi_text semi
  | S_if c t e =>
      "if(" +:+ expr_text c +:+ ")" +:+ stmt_text t
        +:+ match e with Some e => "else" +:+ stmt_text e | None => EmptyString end
  | S_while c b => "while(" +:+ expr_text c +:+ ")" +:+ stmt_text b
  | S_for i c st b =>
      "for(" +:+ forInit_text i +:+ opt_text expr_text c +:+ ";" +:+ opt_text expr_text st
        +:+ ")" +:+ stmt_text b
  | S_typedef b name =>
      "typedef" +:+ match b with TD_type t => typeSpec_text t | TD_struct s => structDecl_text s end
        +:+ name +:+ ";"
  end.

Definition block_text (b : list statement) : string :=
  "{" +:+ concat_text (map stmt_text b) +:+ "}".
Definition classMember_text : classMember expr (list statement) → string := member_text block_text.

Definition defineValue_text (v : defineValue) : string :=
  match v with DV_integer s => s | DV_string s => s end.
Definition directive_text (d : directive) : string :=
  match d with
  | PD_include text => "#include" +:+ text
  | PD_define name value => "#define" +:+ name +:+ opt_text defineValue_text value
  end.
