(* ===== verification/Lexer.v ===== *)
(** The lexer rules of grammar/JBLang.g4.

    A rule is a regular expression; the tokens written as literals in the parser rules are
    rules too, and come first.  [lex] cuts a text into lexemes as an ANTLR lexer does: at each
    point the longest match of any rule, of the first such rule when several match that much;
    where no rule matches, the text is reported and dropped up to the first character that no
    rule can go on with. *)
From S2P Require Import Prelude Syntax.

(** ** Regular expressions *)
Inductive rx :=
| Rx_none
| Rx_empty
| Rx_char (p : ascii → bool)
| Rx_seq (r1 r2 : rx)
| Rx_alt (r1 r2 : rx)
| Rx_star (r : rx).

Inductive matches : rx → string → Prop :=
| m_empty : matches Rx_empty EmptyString
| m_char p a : p a = true → matches (Rx_char p) (String a EmptyString)
| m_seq r1 r2 w1 w2 : matches r1 w1 → matches r2 w2 → matches (Rx_seq r1 r2) (w1 +:+ w2)
| m_left r1 r2 w : matches r1 w → matches (Rx_alt r1 r2) w
| m_right r1 r2 w : matches r2 w → matches (Rx_alt r1 r2) w
| m_star_empty r : matches (Rx_star r) EmptyString
| m_star_more r w1 w2 :
    matches r w1 → matches (Rx_star r) w2 → matches (Rx_star r) (w1 +:+ w2).

Definition rx_is (c : ascii) : rx := Rx_char (λ a, bool_decide (a = c)).
Definition rx_not (l : list ascii) : rx := Rx_char (λ a, negb (bool_decide (a ∈ l))).
Definition rx_plus (r : rx) : rx := Rx_seq r (Rx_star r).
Fixpoint rx_string (s : string) : rx :=
  match s with
  | EmptyString => Rx_empty
  | String a s => Rx_seq (rx_is a) (rx_string s)
  end.

(** ** The rules *)
Definition char_tab : ascii := "009"%char.
Definition char_newline : ascii := "010"%char.
Definition char_return : ascii := "013"%char.
Definition char_quote : ascii := "034"%char.

(** The literals of the parser rules, in order of appearance, and the brackets, which have rules of
    their own. *)
Definition literals : list string :=
  ["#include"; "#define"; "typedef"; ";"; "class"; ":"; "{"; "}"; "virtual"; "("; ")"; "for"; ",";
   "void"; "int"; "bool"; "string"; "struct"; "*"; "="; "spawn"; "return"; "if"; "else"; "while";
   "."; "/"; "+"; "-"; "=="; "!="; "<"; ">"; "<="; ">="; "new"; "->"; "&"; "++"; "--"; "true";
   "false"; "["; "]"].

Inductive token_kind := K_literal | K_INTEGER | K_STRING | K_INCLUDE_STRING | K_IDENTIFIER.
Record token := mkToken {
  tk_kind : token_kind;
  tk_text : string
}.

Definition INTEGER : rx := rx_plus (Rx_char is_digit).
Definition STRING : rx :=
  Rx_seq (rx_is char_quote) (Rx_seq (Rx_star (rx_not [char_quote])) (rx_is char_quote)).
Definition INCLUDE_STRING : rx :=
  Rx_seq (rx_is "<"%char)
    (Rx_seq (Rx_star (rx_not [char_quote])) (Rx_seq (rx_is ">"%char) (rx_is char_newline))).
Definition IDENTIFIER : rx :=
  Rx_seq (Rx_char is_letter) (Rx_star (Rx_char (λ a, is_letter a || is_digit a))).
Definition is_blank (a : ascii) : bool :=
  bool_decide (a ∈ [" "%char; char_tab; char_return; char_newline]).
Definition WS : rx := rx_plus (Rx_char is_blank).
Definition COMMENT : rx :=
  Rx_seq (rx_string "//") (Rx_star (rx_not [char_return; char_newline])).

(** [None] for the rules whose lexemes are skipped. *)
Definition lexer_rules : list (option token_kind * rx) :=
  ((λ s, (Some K_literal, rx_string s)) <$> literals)
    ++ [(Some K_INTEGER, INTEGER); (Some K_STRING, STRING);
        (Some K_INCLUDE_STRING, INCLUDE_STRING); (Some K_IDENTIFIER, IDENTIFIER);
        (None, WS); (None, COMMENT)].

(** ** Matching by derivatives *)
Fixpoint nullable (r : rx) : bool :=
  match r with
  | Rx_none | Rx_char _ => false
  | Rx_empty | Rx_star _ => true
  | Rx_seq r1 r2 => nullable r1 && nullable r2
  | Rx_alt r1 r2 => nullable r1 || nullable r2
  end.
Definition seq_of (r1 r2 : rx) : rx :=
  match r1 with Rx_none => Rx_none | Rx_empty => r2 | _ => Rx_seq r1 r2 end.
Definition alt_of (r1 r2 : rx) : rx :=
  match r1, r2 with Rx_none, r | r, Rx_none => r | _, _ => Rx_alt r1 r2 end.
Fixpoint deriv (a : ascii) (r : rx) : rx :=
  match r with
  | Rx_none | Rx_empty => Rx_none
  | Rx_char p => if p a then Rx_empty else Rx_none
  | Rx_seq r1 r2 =>
      let d := seq_of (deriv a r1) r2 in
      if nullable r1 then alt_of d (deriv a r2) else d
  | Rx_alt r1 r2 => alt_of (deriv a r1) (deriv a r2)
  | Rx_star r => seq_of (deriv a r) (Rx_star r)
  end.

(** The longest match at the head of a text, and what follows it. *)
Fixpoint longest (r : rx) (s : string) : option (string * string) :=
  let here := if nullable r then Some (EmptyString, s) else None in
  match r, s with
  | Rx_none, _ => None
  | _, EmptyString => here
  | _, String a s' =>
      match longest (deriv a r) s' with
      | Some (w, u) => Some (String a w, u)
      | None => here
      end
  end.

(** The longest match of the rules, and of the first rule that has it. *)
Fixpoint best (rules : list (option token_kind * rx)) (s : string)
    : option (option token_kind * string * string) :=
  match rules with
  | [] => None
  | (k, r) :: rules =>
      match longest r s, best rules s with
      | Some (w, u), Some (k', w', u') =>
          if decide (String.length w < String.length w') then Some (k', w', u') else Some (k, w, u)
      | Some (w, u), None => Some (k, w, u)
      | None, b => b
      end
  end.

(** ** Where no rule matches *)

(** Whether a rule matches any text at all. *)
Definition all_ascii : list ascii := ascii_of_nat <$> seq 0 256.
Fixpoint productive (r : rx) : bool :=
  match r with
  | Rx_none => false
  | Rx_empty | Rx_star _ => true
  | Rx_char p => existsb p all_ascii
  | Rx_seq r1 r2 => productive r1 && productive r2
  | Rx_alt r1 r2 => productive r1 || productive r2
  end.
(** The lexer reads on while some rule can still match, and drops what it has read with the
    character it stopped at. *)
Fixpoint dropped (rules : list rx) (s : string) : string * string :=
  match s with
  | EmptyString => (EmptyString, EmptyString)
  | String a s' =>
      match filter (λ r, productive r = true) (deriv a <$> rules) with
      | [] => (String a EmptyString, s')
      | rules' => let '(w, u) := dropped rules' s' in (String a w, u)
      end
  end.

(** ** The lexer *)
Inductive lexeme :=
| Lexed (t : token)
| Skipped (w : string)
| Unknown (w : string).
Definition lexeme_of (k : option token_kind) (w : string) : lexeme :=
  match k with Some k => Lexed (mkToken k w) | None => Skipped w end.

(** The fuel is the length of the text: every lexeme has a character. *)
Fixpoint lex_fuel (fuel : nat) (s : string) : list lexeme :=
  match fuel, s with
  | S fuel, String _ _ =>
      match best lexer_rules s with
      | Some (k, w, u) => lexeme_of k w :: lex_fuel fuel u
      | None => let '(w, u) := dropped lexer_rules.*2 s in Unknown w :: lex_fuel fuel u
      end
  | _, _ => []
  end.
Definition lex (s : string) : list lexeme := lex_fuel (String.length s) s.

(** The tokens the parser sees. *)
Definition token_stream (l : list lexeme) : list token :=
  omap (λ x, match x with Lexed t => Some t | _ => None end) l.
(** The same, when the lexer reports nothing. *)
Fixpoint tokens_of (l : list lexeme) : option (list token) :=
  match l with
  | [] => Some []
  | Lexed t :: l => (t ::.) <$> tokens_of l
  | Skipped _ :: l => tokens_of l
  | Unknown _ :: _ => None
  end.
Definition tokens (s : string) : option (list token) := tokens_of (lex s).

Definition lexeme_text (l : lexeme) : string :=
  match l with Lexed t => tk_text t | Skipped w | Unknown w => w end.
