(* ===== verification/LexerProps.v ===== *)
(** The lexer cuts a text into the lexemes the rules of the grammar ask for: derivatives find the
    longest match of a rule, and [lex] is the one sequence of lexemes the rules allow. *)
From S2P Require Import Prelude Syntax Lexer.

(** ** Derivatives *)
Lemma matches_none w : ¬ matches Rx_none w.
Proof. by inversion 1. Qed.
Lemma matches_empty_inv w : matches Rx_empty w → w = EmptyString.
Proof. by inversion 1. Qed.
Lemma matches_char_inv p w : matches (Rx_char p) w → ∃ a, p a = true ∧ w = String a EmptyString.
Proof. inversion 1; eauto. Qed.
Lemma matches_seq_inv r1 r2 w :
  matches (Rx_seq r1 r2) w → ∃ w1 w2, w = w1 +:+ w2 ∧ matches r1 w1 ∧ matches r2 w2.
Proof. inversion 1; subst; eauto 10. Qed.
Lemma matches_alt_inv r1 r2 w : matches (Rx_alt r1 r2) w → matches r1 w ∨ matches r2 w.
Proof. inversion 1; subst; eauto. Qed.

Lemma string_app_nil_inv (w1 w2 : string) :
  EmptyString = w1 +:+ w2 → w1 = EmptyString ∧ w2 = EmptyString.
Proof. by destruct w1. Qed.

Lemma nullable_spec r : nullable r = true ↔ matches r EmptyString.
Proof.
  split.
  - induction r; simpl; try done; intros H.
    + constructor.
    + apply andb_prop in H as [H1 H2]. apply (m_seq _ _ EmptyString EmptyString); auto.
    + apply orb_prop in H as [H|H]; [apply m_left|apply m_right]; auto.
    + constructor.
  - remember EmptyString as w eqn:E. intros H. revert E.
    induction H; intros E; simpl; try done;
      try (symmetry in E; apply string_app_nil_inv in E as [-> ->]);
      rewrite ?IHmatches, ?IHmatches1, ?IHmatches2 by done; by rewrite ?orb_true_r.
Qed.

Lemma seq_of_spec r1 r2 w : matches (seq_of r1 r2) w ↔ matches (Rx_seq r1 r2) w.
Proof.
  destruct r1; try done; simpl.
  - split; [by inversion 1|]. intros (? & ? & _ & H & _)%matches_seq_inv. by inversion H.
  - split; [intros H; by apply (m_seq _ _ EmptyString w); [constructor|]|].
    by intros (w1 & w2 & -> & ->%matches_empty_inv & H)%matches_seq_inv.
Qed.

Lemma alt_of_spec r1 r2 w : matches (alt_of r1 r2) w ↔ matches r1 w ∨ matches r2 w.
Proof.
  assert (matches (Rx_alt r1 r2) w ↔ matches r1 w ∨ matches r2 w) as H.
  { split; [apply matches_alt_inv|]. intros [?|?]; [by apply m_left|by apply m_right]. }
  pose proof (matches_none w) as Hn. destruct r1; simpl; [tauto|..]; destruct r2; tauto.
Qed.

Lemma star_cons r a w :
  matches (Rx_star r) (String a w) →
  ∃ w1 w2, w = w1 +:+ w2 ∧ matches r (String a w1) ∧ matches (Rx_star r) w2.
Proof.
  remember (Rx_star r) as r' eqn:Er. remember (String a w) as w' eqn:Ew. intros H. revert Er w Ew.
  induction H as [| | | | | |r0 w1 w2 H1 _ H2 IH]; intros Er v Ew; try done.
  injection Er as ->. destruct w1 as [|b w1]; [by apply IH|].
  injection Ew as -> <-. by exists w1, w2.
Qed.

Lemma deriv_spec r a w : matches (deriv a r) w ↔ matches r (String a w).
Proof.
  revert w. induction r as [| |p|r1 IH1 r2 IH2|r1 IH1 r2 IH2|r IH]; intros w; simpl.
  - split; by inversion 1.
  - split; by inversion 1.
  - destruct (p a) eqn:Hp.
    + split; [intros ->%matches_empty_inv; by constructor|].
      intros (b & _ & [= -> ->])%matches_char_inv. constructor.
    + split; [by inversion 1|]. intros (b & Hb & [= -> ->])%matches_char_inv. congruence.
  - assert (matches (Rx_seq r1 r2) (String a w) ↔
            matches (Rx_seq (deriv a r1) r2) w ∨ (nullable r1 = true ∧ matches (deriv a r2) w)) as H.
    { rewrite nullable_spec, IH2. split.
      - intros (w1 & w2 & E & H1 & H2)%matches_seq_inv. destruct w1 as [|b w1].
        + right. by rewrite E.
        + injection E as -> ->. left. apply m_seq; [by apply IH1|done].
      - intros [(w1 & w2 & -> & H1%IH1 & H2)%matches_seq_inv|[H1 H2]].
        + by apply (m_seq _ _ (String a w1)).
        + by apply (m_seq _ _ EmptyString). }
    rewrite H. destruct (nullable r1); rewrite ?alt_of_spec, seq_of_spec; intuition discriminate.
  - rewrite alt_of_spec, IH1, IH2. split; [|apply matches_alt_inv].
    intros [?|?]; [by apply m_left|by apply m_right].
  - rewrite seq_of_spec. split.
    + intros (w1 & w2 & -> & H1%IH & H2)%matches_seq_inv. by apply (m_star_more _ (String a w1)).
    + intros (w1 & w2 & -> & H1 & H2)%star_cons. apply m_seq; [by apply IH|done].
Qed.

(** ** The longest match *)

(** A match at the head of [s] that no match of [r] is longer than. *)
Definition is_longest (r : rx) (s w u : string) : Prop :=
  s = w +:+ u ∧ matches r w ∧
  ∀ w' u', s = w' +:+ u' → matches r w' → String.length w' ≤ String.length w.

Lemma longest_here r s :
  match (if nullable r then Some (EmptyString, s) else None) with
  | Some (w, u) => s = w +:+ u ∧ matches r w
  | None => ¬ matches r EmptyString
  end.
Proof.
  destruct (nullable r) eqn:E; [split; [done|by apply nullable_spec]|].
  rewrite <-nullable_spec. congruence.
Qed.

Lemma longest_spec s : ∀ r,
  match longest r s with
  | Some (w, u) => is_longest r s w u
  | None => ∀ w u, s = w +:+ u → ¬ matches r w
  end.
Proof.
  induction s as [|a s IH]; intros r.
  - pose proof (longest_here r EmptyString) as H.
    assert (longest r EmptyString = if nullable r then Some (EmptyString, EmptyString) else None)
      as -> by (by destruct r).
    destruct (nullable r).
    + destruct H as [H1 H2]. split; [done|]. split; [done|].
      intros w' u' [-> _]%string_app_nil_inv _. done.
    + by intros w u [-> _]%string_app_nil_inv.
  - pose proof (longest_here r (String a s)) as H. specialize (IH (deriv a r)).
    assert (r = Rx_none ∨ longest r (String a s)
      = match longest (deriv a r) s with
        | Some (w, u) => Some (String a w, u)
        | None => if nullable r then Some (EmptyString, String a s) else None
        end) as [->| ->] by (destruct r; first [by left|by right]).
    { intros w u _. apply matches_none. }
    destruct (longest (deriv a r) s) as [[w u]|].
    + destruct IH as (-> & H1 & H2). split; [done|]. split; [by apply deriv_spec|].
      intros [|b w'] u' E Hw'; [simpl; lia|]. injection E as <- E.
      simpl. apply le_n_S, (H2 w' u' E). by apply deriv_spec.
    + assert (∀ b w u, String a s = String b w +:+ u → ¬ matches r (String b w)) as Hcons.
      { intros b w u [= <- E] Hw. by apply (IH w u E), deriv_spec. }
      destruct (nullable r).
      * destruct H as [H1 H2]. split; [done|]. split; [done|].
        intros [|b w'] u' E Hw'; [done|]. by destruct (Hcons b w' u' E).
      * intros [|b w] u E; [done|]. by eapply Hcons.
Qed.

(** ** The rules together *)

(** The rule of [w] is the first that matches it. *)
Definition first_rule (rules : list (option token_kind * rx)) (k : option token_kind) (w : string)
    : Prop :=
  ∃ i r, rules !! i = Some (k, r) ∧ matches r w ∧
         ∀ j k' r', j < i → rules !! j = Some (k', r') → ¬ matches r' w.
(** The lexeme at the head of a text. *)
Record lexeme_at (rules : list (option token_kind * rx)) (s : string) (k : option token_kind)
    (w u : string) : Prop := {
  la_split : s = w +:+ u;
  la_rule : first_rule rules k w;
  la_longest : ∀ w' u' k' r', s = w' +:+ u' → (k', r') ∈ rules → matches r' w' →
                 String.length w' ≤ String.length w
}.
Definition no_lexeme (rules : list (option token_kind * rx)) (s : string) : Prop :=
  ∀ w u k r, s = w +:+ u → (k, r) ∈ rules → ¬ matches r w.

Lemma first_rule_cons k r rules w : matches r w → first_rule ((k, r) :: rules) k w.
Proof. intros Hw. exists 0, r. split; [done|]. split; [done|]. intros j ? ? Hj. lia. Qed.

Lemma first_rule_later k k' r rules w :
  ¬ matches r w → first_rule rules k' w → first_rule ((k, r) :: rules) k' w.
Proof.
  intros Hw (i & r' & Hi & Hm & Hfirst). exists (S i), r'. split; [done|]. split; [done|].
  intros [|j] k1 r1 Hj Hl; [by injection Hl as <- <-|]. apply (Hfirst j k1 r1); [lia|done].
Qed.

Lemma best_spec rules s :
  match best rules s with
  | Some (k, w, u) => lexeme_at rules s k w u
  | None => no_lexeme rules s
  end.
Proof.
  induction rules as [|[k r] rules IH]; [by intros w u k r _ ?%not_elem_of_nil|].
  cbn [best]. pose proof (longest_spec s r) as Hr. destruct (longest r s) as [[w u]|].
  - destruct Hr as (E & Hw & Hlong). destruct (best rules s) as [[[k' w'] u']|].
    + destruct IH as [E' Hrule' Hlong']. case_decide as Hlt.
      * split; [done| |].
        { apply first_rule_later; [|done]. intros Hm. pose proof (Hlong _ _ E' Hm). lia. }
        intros w1 u1 k1 r1 E1 [[= -> ->]|Hin]%elem_of_cons Hm; [|by eapply Hlong'].
        pose proof (Hlong _ _ E1 Hm). lia.
      * split; [done|by apply first_rule_cons|].
        intros w1 u1 k1 r1 E1 [[= -> ->]|Hin]%elem_of_cons Hm; [by eapply Hlong|].
        pose proof (Hlong' _ _ _ _ E1 Hin Hm). lia.
    + split; [done|by apply first_rule_cons|].
      intros w1 u1 k1 r1 E1 [[= -> ->]|Hin]%elem_of_cons Hm; [by eapply Hlong|].
      by destruct (IH _ _ _ _ E1 Hin).
  - destruct (best rules s) as [[[k' w'] u']|].
    + destruct IH as [E' Hrule' Hlong']. split; [done|by apply first_rule_later; [eapply Hr|]|].
      intros w1 u1 k1 r1 E1 [[= -> ->]|Hin]%elem_of_cons Hm; [by destruct (Hr _ _ E1)|by eapply Hlong'].
    + intros w1 u1 k1 r1 E1 [[= -> ->]|Hin]%elem_of_cons Hm; [by eapply Hr|by eapply IH].
Qed.

Lemma string_app_inj (w w' u u' : string) :
  w +:+ u = w' +:+ u' → String.length w = String.length w' → w = w' ∧ u = u'.
Proof.
  revert w'. induction w as [|a w IH]; intros [|b w'] E Hl; try done.
  injection E as -> E. injection Hl as Hl. by destruct (IH w' E Hl) as [-> ->].
Qed.

Lemma first_rule_elem rules k w : first_rule rules k w → ∃ r, (k, r) ∈ rules ∧ matches r w.
Proof.
  intros (i & r & Hi & Hm & _). exists r. split; [by eapply list_elem_of_lookup_2|done].
Qed.

Lemma first_rule_unique rules k1 k2 w : first_rule rules k1 w → first_rule rules k2 w → k1 = k2.
Proof.
  intros (i & r & Hi & Hr & Hfi) (j & r' & Hj & Hr' & Hfj).
  destruct (lt_eq_lt_dec i j) as [[Hlt|<-]|Hlt].
  - by destruct (Hfj _ _ _ Hlt Hi).
  - rewrite Hi in Hj. by injection Hj.
  - by destruct (Hfi _ _ _ Hlt Hj).
Qed.

Lemma lexeme_unique rules s k1 w1 u1 k2 w2 u2 :
  lexeme_at rules s k1 w1 u1 → lexeme_at rules s k2 w2 u2 → k1 = k2 ∧ w1 = w2 ∧ u1 = u2.
Proof.
  intros [E1 R1 L1] [E2 R2 L2].
  destruct (first_rule_elem _ _ _ R1) as (r1 & Hin1 & Hm1).
  destruct (first_rule_elem _ _ _ R2) as (r2 & Hin2 & Hm2).
  pose proof (L1 _ _ _ _ E2 Hin2 Hm2). pose proof (L2 _ _ _ _ E1 Hin1 Hm1).
  destruct (string_app_inj w1 w2 u1 u2) as [-> ->]; [congruence|lia|].
  split; [by eapply first_rule_unique|done].
Qed.

(** ** Where no rule matches *)
Lemma productive_spec r : productive r = true ↔ ∃ w, matches r w.
Proof.
  induction r as [| |p|r1 IH1 r2 IH2|r1 IH1 r2 IH2|r IH]; cbn [productive].
  - split; [done|]. by intros [w ?%matches_none].
  - split; [|done]. exists EmptyString. constructor.
  - rewrite existsb_exists. split.
    + intros (a & _ & Ha). exists (String a EmptyString). by constructor.
    + intros (w & (a & Ha & _)%matches_char_inv). exists a. split; [|done].
      apply list_elem_of_In, list_elem_of_fmap. exists (nat_of_ascii a).
      rewrite ascii_nat_embedding, elem_of_seq. pose proof (nat_ascii_bounded a). split; [done|lia].
  - rewrite andb_true_iff, IH1, IH2. split.
    + intros [[w1 H1] [w2 H2]]. exists (w1 +:+ w2). by constructor.
    + intros (w & (w1 & w2 & _ & H1 & H2)%matches_seq_inv). eauto.
  - rewrite orb_true_iff, IH1, IH2. split.
    + intros [[w H]|[w H]]; exists w; [by apply m_left|by apply m_right].
    + intros (w & [H|H]%matches_alt_inv); eauto.
  - split; [|done]. exists EmptyString. constructor.
Qed.

(** Some rule matches a text that begins with [w]. *)
Definition viable (rules : list rx) (w : string) : Prop :=
  ∃ r v, r ∈ rules ∧ matches r (w +:+ v).
(** The text that is dropped at the head of [s]: up to the first character no rule can go on
    with, or to the end. *)
Record dropped_at (rules : list rx) (s w u : string) : Prop := {
  da_split : s = w +:+ u;
  da_viable : ∀ w1 w2, w = w1 +:+ w2 → w2 ≠ EmptyString → w1 ≠ EmptyString → viable rules w1;
  da_stop : viable rules w → u = EmptyString
}.

Definition after (a : ascii) (rules : list rx) : list rx :=
  filter (λ r, productive r = true) (deriv a <$> rules).
Lemma viable_cons a rules w : viable rules (String a w) ↔ viable (after a rules) w.
Proof.
  unfold viable, after. split.
  - intros (r & v & Hr & Hm). exists (deriv a r), v. apply deriv_spec in Hm. split; [|done].
    apply list_elem_of_filter. split; [apply productive_spec; eauto|by apply list_elem_of_fmap_2].
  - intros (r' & v & [_ (r & -> & Hr)%list_elem_of_fmap]%list_elem_of_filter & Hm).
    exists r, v. split; [done|]. by apply deriv_spec.
Qed.
Lemma viable_none w : ¬ viable [] w.
Proof. by intros (r & v & ?%not_elem_of_nil & _). Qed.
Lemma viable_after a rules : after a rules ≠ [] → viable (after a rules) EmptyString.
Proof.
  destruct (after a rules) as [|r rs] eqn:E; [done|]. intros _.
  assert (r ∈ after a rules) as Hr by (rewrite E; left).
  apply list_elem_of_filter in Hr as [[v Hv]%productive_spec _]. exists r, v. split; [left|done].
Qed.

Lemma dropped_spec rules a s :
  let '(w, u) := dropped rules (String a s) in dropped_at rules (String a s) w u ∧ w ≠ EmptyString.
Proof.
  revert a rules. induction s as [|b s IH]; intros a rules; cbn [dropped]; fold (after a rules);
    destruct (after a rules) as [|r rs] eqn:E.
  1,3: split; [|done]; split; [done| |];
      [intros [|c w1] w2 Hw ? ?; [done|]; injection Hw as _ Hw; by destruct w1, w2
      |intros H%viable_cons; rewrite E in H; by apply viable_none in H].
  - split; [|done]. split; [done| |done].
    intros [|c w1] w2 Hw ? ?; [done|]. injection Hw as _ Hw. by destruct w1, w2.
  - specialize (IH b (r :: rs)). rewrite <-E in IH |- *.
    assert (after a rules ≠ []) as Hne by (by rewrite E).
    destruct (dropped (after a rules) (String b s)) as [w u] eqn:Ed.
    cbn [dropped] in Ed. rewrite Ed. destruct IH as [[Hs Hv Hstop] Hw]. split; [|done]. split.
    + by rewrite Hs.
    + intros [|c w1] w2 Hw' Hw2 ?; [done|]. injection Hw' as <- Hw'. apply viable_cons.
      destruct w1 as [|d w1]; [by apply viable_after|]. by eapply (Hv (String d w1) w2).
    + intros H%viable_cons. by apply Hstop.
Qed.

Lemma dropped_at_unique rules s w1 u1 w2 u2 :
  w1 ≠ EmptyString → w2 ≠ EmptyString →
  dropped_at rules s w1 u1 → dropped_at rules s w2 u2 → w1 = w2 ∧ u1 = u2.
Proof.
  assert (∀ w1 u1 w2 u2, w1 ≠ EmptyString → dropped_at rules s w1 u1 → dropped_at rules s w2 u2 →
            String.length w2 ≤ String.length w1) as Hle.
  { clear. intros w1 u1 w2 u2 Hw [E1 V1 S1] [E2 V2 S2].
    destruct (le_lt_dec (String.length w2) (String.length w1)) as [|Hlt]; [done|exfalso].
    assert (∃ v, w2 = w1 +:+ v ∧ v ≠ EmptyString) as (v & Hv & Hne).
    { rewrite E1 in E2. clear -E2 Hlt. revert w2 E2 Hlt. induction w1 as [|a w1 IH]; intros w2 E2 Hlt.
      - exists w2. split; [done|]. by destruct w2; [simpl in Hlt; lia|].
      - destruct w2 as [|b w2]; [simpl in Hlt; lia|]. injection E2 as <- E2. simpl in Hlt.
        destruct (IH w2 E2) as (v & -> & Hv); [lia|]. by exists v. }
    pose proof (S1 (V2 _ _ Hv Hne Hw)) as ->. rewrite E2, Hv in E1.
    apply (f_equal String.length) in E1. rewrite !string_length_app in E1.
    destruct v; [done|simpl in E1; lia]. }
  intros Hw1 Hw2 H1 H2. pose proof (Hle _ _ _ _ Hw1 H1 H2). pose proof (Hle _ _ _ _ Hw2 H2 H1).
  destruct H1 as [E1 _ _], H2 as [E2 _ _]. apply string_app_inj; [congruence|lia].
Qed.

(** ** The lexer *)

(** The lexemes of a text, by the rules alone. *)
Inductive lexes : string → list lexeme → Prop :=
| lexes_end : lexes EmptyString []
| lexes_lexeme s k w u l :
    s ≠ EmptyString → lexeme_at lexer_rules s k w u → lexes u l → lexes s (lexeme_of k w :: l)
| lexes_unknown s w u l :
    w ≠ EmptyString → no_lexeme lexer_rules s → dropped_at lexer_rules.*2 s w u → lexes u l →
    lexes s (Unknown w :: l).

Lemma rules_not_nullable k r : (k, r) ∈ lexer_rules → ¬ matches r EmptyString.
Proof.
  rewrite <-nullable_spec. intros Hin Hn.
  assert (forallb (λ kr, negb (nullable kr.2)) lexer_rules = true) as Hall by (vm_compute; reflexivity).
  pose proof (forallb_elem _ _ _ Hall Hin) as H. simpl in H. by rewrite Hn in H.
Qed.

Lemma lexeme_nonempty s k w u : lexeme_at lexer_rules s k w u → w ≠ EmptyString.
Proof.
  intros [_ R _] ->. destruct (first_rule_elem _ _ _ R) as (r & Hin & Hm).
  by apply (rules_not_nullable k r).
Qed.

Lemma lex_fuel_lexes n s : String.length s ≤ n → lexes s (lex_fuel n s).
Proof.
  revert s. induction n as [|n IH]; intros [|a s] Hn; simpl in Hn; try lia; try constructor.
  cbn [lex_fuel]. pose proof (best_spec lexer_rules (String a s)) as Hb.
  destruct (best lexer_rules (String a s)) as [[[k w] u]|].
  - eapply lexes_lexeme; [done|exact Hb|]. apply IH.
    pose proof (lexeme_nonempty _ _ _ _ Hb) as Hw. destruct Hb as [E _ _].
    destruct w as [|b w]; [done|]. apply (f_equal String.length) in E.
    rewrite string_length_app in E. simpl in E. lia.
  - pose proof (dropped_spec lexer_rules.*2 a s) as Hd.
    destruct (dropped lexer_rules.*2 (String a s)) as [w u]. destruct Hd as [Hd Hw].
    apply (lexes_unknown _ w u); [done..|]. apply IH.
    destruct Hd as [E _ _]. apply (f_equal String.length) in E. rewrite string_length_app in E.
    destruct w; [done|]. simpl in E. lia.
Qed.

Lemma lexes_functional s l1 l2 : lexes s l1 → lexes s l2 → l1 = l2.
Proof.
  assert (∀ s k w u, lexeme_at lexer_rules s k w u → ¬ no_lexeme lexer_rules s) as Hboth.
  { intros s' k w u [E R _] Hn. destruct (first_rule_elem _ _ _ R) as (r & Hin & Hm).
    by apply (Hn w u k r). }
  intros H. revert l2. induction H as [|s k w u l Hs Ha _ IH|s w u l Hw Hn Hd _ IH]; intros l2 H2;
    inversion H2 as [|s2 k2 w2 u2 l2' Hs2 Ha2 Hl2|s2 w2 u2 l2' Hw2 Hn2 Hd2 Hl2]; subst; try done.
  - destruct Hd2 as [E _ _]. by apply string_app_nil_inv in E as [-> _].
  - destruct (lexeme_unique _ _ _ _ _ _ _ _ Ha Ha2) as (-> & -> & ->). f_equal. by apply IH.
  - by destruct (Hboth _ _ _ _ Ha).
  - destruct Hd as [E _ _]. by apply string_app_nil_inv in E as [-> _].
  - by destruct (Hboth _ _ _ _ Ha2).
  - destruct (dropped_at_unique _ _ _ _ _ _ Hw Hw2 Hd Hd2) as [-> ->]. f_equal. by apply IH.
Qed.

(** [lex] cuts a text into its lexemes, and nothing of the text is lost. *)
Lemma lexes_lex s l : lexes s l ↔ l = lex s.
Proof.
  pose proof (lex_fuel_lexes (String.length s) s ltac:(lia)) as Hlex.
  split; [intros H; by eapply lexes_functional|by intros ->].
Qed.

Lemma lex_text s : concat_text (lexeme_text <$> lex s) = s.
Proof.
  pose proof (proj2 (lexes_lex s (lex s)) eq_refl) as Hlex.
  induction Hlex as [|s k w u l Hs Ha _ IH|s w u l Hw Hn Hd _ IH]; [done|..];
    cbn [fmap list_fmap concat_text]; rewrite IH.
  - destruct Ha as [-> _ _]. by destruct k.
  - by destruct Hd as [-> _ _].
Qed.
