(* ===== verification/LexerTokens.v ===== *)
(** What each lexer rule matches, in closed form, the lexer as a function of these languages, and
    two consequences: a list of tokens written out with spaces between them is read back as it
    was, and two includes are read as one. *)
From S2P Require Import Prelude Syntax Lexer LexerProps.

(** ** What the rules match *)
Definition quote_free : string → bool := all_chars (λ a, negb (bool_decide (a ∈ [char_quote]))).
Definition line_text : string → bool :=
  all_chars (λ a, negb (bool_decide (a ∈ [char_return; char_newline]))).
Definition in_rule (k : option token_kind) (w : string) : Prop :=
  match k with
  | Some K_literal => w ∈ literals
  | Some K_INTEGER => w ≠ EmptyString ∧ all_chars is_digit w = true
  | Some K_STRING =>
      ∃ u, quote_free u = true ∧ w = String char_quote (u +:+ String char_quote EmptyString)
  | Some K_INCLUDE_STRING => ∃ u, quote_free u = true ∧ w = "<" +:+ u +:+ ">" +:+ nl
  | Some K_IDENTIFIER => is_identifier w = true
  | None =>
      (w ≠ EmptyString ∧ all_chars is_blank w = true) ∨ ∃ u, line_text u = true ∧ w = "//" +:+ u
  end.

Lemma all_chars_app f (s1 s2 : string) :
  all_chars f (s1 +:+ s2) = all_chars f s1 && all_chars f s2.
Proof.
  induction s1 as [|a s1 IH]; [done|]. rewrite string_app_cons. simpl. by rewrite IH, andb_assoc.
Qed.

Lemma matches_star_chars p w : matches (Rx_star (Rx_char p)) w ↔ all_chars p w = true.
Proof.
  split.
  - remember (Rx_star (Rx_char p)) as r eqn:E. intros H. revert E.
    induction H as [| | | | | |r w1 w2 H1 _ H2 IH]; intros E; try done. injection E as ->.
    apply matches_char_inv in H1 as (a & Ha & ->).
    change (p a && all_chars p w2 = true). by rewrite Ha, IH.
  - induction w as [|a w IH]; [constructor|]. simpl. intros [Ha Hw]%andb_prop.
    apply (m_star_more _ (String a EmptyString) w); [by constructor|by apply IH].
Qed.

Lemma matches_is c w : matches (rx_is c) w ↔ w = String c EmptyString.
Proof.
  split.
  - intros (a & Ha%bool_decide_eq_true & ->)%matches_char_inv. by subst.
  - intros ->. constructor. by rewrite bool_decide_true.
Qed.

Lemma matches_string l w : matches (rx_string l) w ↔ w = l.
Proof.
  revert w. induction l as [|a l IH]; intros w; simpl.
  - split; [apply matches_empty_inv|]. intros ->. constructor.
  - split.
    + intros (w1 & w2 & -> & ->%matches_is & ->%IH)%matches_seq_inv. done.
    + intros ->. apply (m_seq _ _ (String a EmptyString) l); [by apply matches_is|by apply IH].
Qed.

Lemma matches_plus_chars p w :
  matches (rx_plus (Rx_char p)) w ↔ w ≠ EmptyString ∧ all_chars p w = true.
Proof.
  unfold rx_plus. split.
  - intros (w1 & w2 & -> & (a & Ha & ->)%matches_char_inv & H%matches_star_chars)%matches_seq_inv.
    split; [done|]. change (p a && all_chars p w2 = true). by rewrite Ha.
  - intros [Hw Ha]. destruct w as [|a w]; [done|]. simpl in Ha. apply andb_prop in Ha as [Ha Hs].
    apply (m_seq _ _ (String a EmptyString) w); [by constructor|by apply matches_star_chars].
Qed.

Lemma matches_INTEGER w : matches INTEGER w ↔ in_rule (Some K_INTEGER) w.
Proof. apply matches_plus_chars. Qed.

Lemma matches_STRING w : matches STRING w ↔ in_rule (Some K_STRING) w.
Proof.
  unfold STRING, rx_not. cbn [in_rule]. split.
  - intros (w1 & w2 & -> & ->%matches_is & (u & w3 & -> & Hu%matches_star_chars & ->%matches_is)
      %matches_seq_inv)%matches_seq_inv. by exists u.
  - intros (u & Hu & ->). apply (m_seq _ _ (String char_quote EmptyString)); [by apply matches_is|].
    apply m_seq; [by apply matches_star_chars|by apply matches_is].
Qed.

Lemma matches_INCLUDE_STRING w : matches INCLUDE_STRING w ↔ in_rule (Some K_INCLUDE_STRING) w.
Proof.
  unfold INCLUDE_STRING, rx_not. cbn [in_rule]. split.
  - intros (w1 & w2 & -> & ->%matches_is & (u & w3 & -> & Hu%matches_star_chars &
      (w4 & w5 & -> & ->%matches_is & ->%matches_is)%matches_seq_inv)%matches_seq_inv)%matches_seq_inv.
    by exists u.
  - intros (u & Hu & ->). apply (m_seq _ _ "<"); [by apply matches_is|].
    apply m_seq; [by apply matches_star_chars|].
    apply (m_seq _ _ ">" nl); by apply matches_is.
Qed.

Lemma matches_IDENTIFIER w : matches IDENTIFIER w ↔ is_identifier w = true.
Proof.
  unfold IDENTIFIER. split.
  - intros (w1 & w2 & -> & (a & Ha & ->)%matches_char_inv & H%matches_star_chars)%matches_seq_inv.
    change (is_letter a && all_chars (λ a, is_letter a || is_digit a) w2 = true). by rewrite Ha.
  - destruct w as [|a w]; [done|]. intros [Ha Hw]%andb_prop.
    apply (m_seq _ _ (String a EmptyString) w); [by constructor|by apply matches_star_chars].
Qed.

Lemma matches_COMMENT w : matches COMMENT w ↔ ∃ u, line_text u = true ∧ w = "//" +:+ u.
Proof.
  unfold COMMENT, rx_not. split.
  - intros (w1 & w2 & -> & ->%matches_string & H%matches_star_chars)%matches_seq_inv. by exists w2.
  - intros (u & Hu & ->). apply (m_seq _ _ "//" u); [by apply matches_string|].
    by apply matches_star_chars.
Qed.

Lemma in_rules k r w : (k, r) ∈ lexer_rules → matches r w → in_rule k w.
Proof.
  unfold lexer_rules. intros [(l & [= -> ->] & Hl)%list_elem_of_fmap|Hin]%elem_of_app Hm.
  - apply matches_string in Hm as ->. exact Hl.
  - repeat (apply elem_of_cons in Hin as [[= -> ->]|Hin]); [..|by apply not_elem_of_nil in Hin].
    + by apply matches_INTEGER.
    + by apply matches_STRING.
    + by apply matches_INCLUDE_STRING.
    + by apply matches_IDENTIFIER.
    + left. by apply matches_plus_chars in Hm.
    + right. by apply matches_COMMENT.
Qed.

Lemma in_rule_matches k w : in_rule k w → ∃ r, (k, r) ∈ lexer_rules ∧ matches r w.
Proof.
  assert (∀ r, (k, r) ∈ drop (length literals) lexer_rules → (k, r) ∈ lexer_rules) as Htail.
  { intros r Hr. rewrite <-(take_drop (length literals) lexer_rules), elem_of_app. by right. }
  destruct k as [[]|]; cbn [in_rule]; intros Hw.
  - exists (rx_string w). split; [|by apply matches_string].
    apply elem_of_app. left. apply list_elem_of_fmap. eauto.
  - exists INTEGER. split; [apply Htail; repeat constructor|by apply matches_INTEGER].
  - exists STRING. split; [apply Htail; repeat constructor|by apply matches_STRING].
  - exists INCLUDE_STRING. split; [apply Htail; repeat constructor|by apply matches_INCLUDE_STRING].
  - exists IDENTIFIER. split; [apply Htail; repeat constructor|by apply matches_IDENTIFIER].
  - destruct Hw as [Hw|Hw].
    + exists WS. split; [apply Htail; repeat constructor|by apply matches_plus_chars].
    + exists COMMENT. split; [apply Htail; repeat constructor|by apply matches_COMMENT].
Qed.

(** The rule of a text is the one of its kind, when no kind before matches it. *)
Definition earlier (k : option token_kind) : list (option token_kind) :=
  match k with
  | Some K_literal => []
  | Some K_INTEGER => [Some K_literal]
  | Some K_STRING => [Some K_literal; Some K_INTEGER]
  | Some K_INCLUDE_STRING => [Some K_literal; Some K_INTEGER; Some K_STRING]
  | Some K_IDENTIFIER => [Some K_literal; Some K_INTEGER; Some K_STRING; Some K_INCLUDE_STRING]
  | None => [Some K_literal; Some K_INTEGER; Some K_STRING; Some K_INCLUDE_STRING; Some K_IDENTIFIER]
  end.

Lemma first_rule_literals ls rules w :
  w ∈ ls → first_rule (((λ s, (Some K_literal, rx_string s)) <$> ls) ++ rules) (Some K_literal) w.
Proof.
  induction 1 as [w ls|w l ls _ IH]; cbn [fmap list_fmap app].
  - apply first_rule_cons. by apply matches_string.
  - destruct (decide (w = l)) as [->|Hne]; [apply first_rule_cons; by apply matches_string|].
    apply first_rule_later; [|done]. by rewrite matches_string.
Qed.

Lemma first_rule_no_literal ls rules k w :
  w ∉ ls → first_rule rules k w →
  first_rule (((λ s, (Some K_literal, rx_string s)) <$> ls) ++ rules) k w.
Proof.
  induction ls as [|l ls IH]; [done|]. intros [Hl Hls]%not_elem_of_cons Hr.
  cbn [fmap list_fmap app]. apply first_rule_later; [by rewrite matches_string|]. by apply IH.
Qed.

Lemma first_rule_kind k w :
  in_rule k w → Forall (λ k', ¬ in_rule k' w) (earlier k) → first_rule lexer_rules k w.
Proof.
  intros Hk He. unfold lexer_rules.
  destruct k as [[]|]; cbn [earlier] in He; rewrite ?Forall_cons in He; destruct_and? He;
    try (apply first_rule_no_literal; [done|]);
    try (apply first_rule_later; [rewrite matches_INTEGER; assumption|]);
    try (apply first_rule_later; [rewrite matches_STRING; assumption|]);
    try (apply first_rule_later; [rewrite matches_INCLUDE_STRING; assumption|]);
    try (apply first_rule_later; [rewrite matches_IDENTIFIER; assumption|]).
  - by apply first_rule_literals.
  - apply first_rule_cons. by apply matches_INTEGER.
  - apply first_rule_cons. by apply matches_STRING.
  - apply first_rule_cons. by apply matches_INCLUDE_STRING.
  - apply first_rule_cons. by apply matches_IDENTIFIER.
  - destruct Hk as [Hw|Hw]; [by apply first_rule_cons, matches_plus_chars|].
    apply first_rule_later; [|by apply first_rule_cons, matches_COMMENT].
    destruct Hw as (u & _ & ->). by intros [_ Hb]%matches_plus_chars.
Qed.

Lemma first_rule_earlier k w :
  first_rule lexer_rules k w → in_rule k w ∧ Forall (λ k', ¬ in_rule k' w) (earlier k).
Proof.
  intros Hfr. split; [destruct (first_rule_elem _ _ _ Hfr) as (r & Hr & Hm); by eapply in_rules|].
  destruct Hfr as (i & r & Hi & Hm & Hf).
  set (tail := [(Some K_INTEGER, INTEGER); (Some K_STRING, STRING);
                (Some K_INCLUDE_STRING, INCLUDE_STRING); (Some K_IDENTIFIER, IDENTIFIER);
                (None, WS); (None, COMMENT)]).
  assert (lexer_rules = ((λ s, (Some K_literal, rx_string s)) <$> literals) ++ tail) as E by done.
  rewrite E in Hi. apply lookup_app_Some in Hi as [Hi|[Hle Hi]].
  { apply list_elem_of_lookup_2, list_elem_of_fmap in Hi as (l & [= -> ->] & _). constructor. }
  rewrite length_fmap in Hle, Hi. remember (i - length literals) as m eqn:Em.
  assert (¬ in_rule (Some K_literal) w) as Hlit.
  { intros (j & Hj)%list_elem_of_lookup. pose proof (lookup_lt_Some _ _ _ Hj).
    apply (Hf j (Some K_literal) (rx_string w)); [lia| |by apply matches_string].
    rewrite E. apply lookup_app_l_Some. by rewrite list_lookup_fmap, Hj. }
  assert (∀ m' k' r', m' < m → tail !! m' = Some (k', r') → ¬ matches r' w) as Htail.
  { intros m' k' r' Hm' Hl. apply (Hf (length literals + m') k' r'); [lia|].
    rewrite E, lookup_app_r by (rewrite length_fmap; lia). rewrite length_fmap.
    by replace (length literals + m' - length literals) with m' by lia. }
  assert (1 <= m → ¬ in_rule (Some K_INTEGER) w) as H1
    by (rewrite <-matches_INTEGER; intros; by eapply (Htail 0)).
  assert (2 <= m → ¬ in_rule (Some K_STRING) w) as H2
    by (rewrite <-matches_STRING; intros; by eapply (Htail 1)).
  assert (3 <= m → ¬ in_rule (Some K_INCLUDE_STRING) w) as H3
    by (rewrite <-matches_INCLUDE_STRING; intros; by eapply (Htail 2)).
  assert (4 <= m → ¬ in_rule (Some K_IDENTIFIER) w) as H4
    by (cbn [in_rule]; rewrite <-matches_IDENTIFIER; intros; by eapply (Htail 3)).
  destruct m as [|[|[|[|[|[|m]]]]]]; try discriminate Hi; injection Hi as <- <-;
    repeat (apply Forall_cons_2; [first [exact Hlit|apply H1; lia|apply H2; lia|apply H3; lia
                                        |apply H4; lia]|]); apply Forall_nil_2.
Qed.

(** ** The lexer, by the languages of its rules *)

(** The longest lexeme at the head of a text, of the first kind that has it. *)
Record first_lexeme (s : string) (k : option token_kind) (w u : string) : Prop := {
  fl_split : s = w +:+ u;
  fl_kind : in_rule k w;
  fl_first : Forall (λ k', ¬ in_rule k' w) (earlier k);
  fl_longest : ∀ k' w' u', s = w' +:+ u' → in_rule k' w' → String.length w' ≤ String.length w
}.
(** The text [w] in front of [u] is reported: no lexeme begins it, up to its last character
    it could go on to one, and with that it cannot, or the text ends. *)
Definition begins_lexeme (w : string) : Prop := ∃ k v, in_rule k (w +:+ v).
Record reported (s w u : string) : Prop := {
  rep_split : s = w +:+ u;
  rep_some : w ≠ EmptyString;
  rep_none : ∀ k w' u', s = w' +:+ u' → ¬ in_rule k w';
  rep_begins : ∀ w1 w2, w = w1 +:+ w2 → w2 ≠ EmptyString → w1 ≠ EmptyString → begins_lexeme w1;
  rep_stop : begins_lexeme w → u = EmptyString
}.

Inductive cut : string → list lexeme → Prop :=
| cut_end : cut EmptyString []
| cut_lexeme s k w u l :
    s ≠ EmptyString → first_lexeme s k w u → cut u l → cut s (lexeme_of k w :: l)
| cut_reported s w u l : reported s w u → cut u l → cut s (Unknown w :: l).

Lemma first_lexeme_at s k w u : first_lexeme s k w u ↔ lexeme_at lexer_rules s k w u.
Proof.
  split.
  - intros [E K F L]. split; [done|by apply first_rule_kind|].
    intros w' u' k' r' E' Hr Hm. apply (L k' w' u'); [done|]. by eapply in_rules.
  - intros [E [K F]%first_rule_earlier L]. split; [done..|].
    intros k' w' u' E' (r & Hr & Hm)%in_rule_matches. by eapply L.
Qed.

Lemma begins_viable w : begins_lexeme w ↔ viable lexer_rules.*2 w.
Proof.
  split.
  - intros (k & v & (r & Hr & Hm)%in_rule_matches). exists r, v. split; [|done].
    apply list_elem_of_fmap. by exists (k, r).
  - intros (r & v & ([k r'] & -> & Hr)%list_elem_of_fmap & Hm). exists k, v. by eapply in_rules.
Qed.

Lemma reported_dropped s w u :
  reported s w u ↔ w ≠ EmptyString ∧ no_lexeme lexer_rules s ∧ dropped_at lexer_rules.*2 s w u.
Proof.
  split.
  - intros [E W N B S]. split; [done|]. split.
    + intros w' u' k r E' Hr Hm. apply (N k w' u'); [done|]. by eapply in_rules.
    + split; [done| |by rewrite <-begins_viable].
      intros w1 w2 -> H2 H1. apply begins_viable. by eapply B.
  - intros (W & N & [E B S]). split; [done..| | |by rewrite begins_viable].
    + intros k w' u' E' (r & Hr & Hm)%in_rule_matches. by eapply N.
    + intros w1 w2 -> H2 H1. apply begins_viable. by eapply B.
Qed.

Lemma cut_lexes s l : cut s l ↔ lexes s l.
Proof.
  split; induction 1; try constructor.
  - by eapply lexes_lexeme; [|apply first_lexeme_at|].
  - apply reported_dropped in H as (? & ? & ?). by eapply lexes_unknown.
  - by eapply cut_lexeme; [|apply first_lexeme_at|].
  - by eapply cut_reported; [apply reported_dropped|].
Qed.

(** C12. The lexer and the token languages.  Every text has exactly one cut into lexemes, and it
    is the one [lex] computes from the rules of the grammar: at each place the longest lexeme of
    any kind -- one of the 44 literal texts, digits, a quoted text, a bracketed file name that ends
    its line, a name, or blanks and comments, which are skipped -- and of the first kind of this
    order that has it; where no lexeme begins, what is reported ends at the first character that
    no lexeme can go on with.  Nothing of the text is lost. *)
Theorem lex_correct s :
  (∀ l, cut s l ↔ l = lex s) ∧ concat_text (lexeme_text <$> lex s) = s.
Proof. split; [|apply lex_text]. intros l. by rewrite cut_lexes, lexes_lex. Qed.

(** ** Writing tokens *)

(** The rest of a string literal: it ends at the first quote. *)
Fixpoint closes (s : string) : bool :=
  match s with
  | EmptyString => false
  | String a s => if decide (a = char_quote) then bool_decide (s = EmptyString) else closes s
  end.
(** Tokens the lexer can give, but for the names of included files. *)
Definition valid_token (t : token) : bool :=
  let w := tk_text t in
  match tk_kind t with
  | K_literal => bool_decide (w ∈ literals)
  | K_INTEGER => negb (bool_decide (w = EmptyString)) && all_chars is_digit w
  | K_STRING => match w with String a w => bool_decide (a = char_quote) && closes w | _ => false end
  | K_INCLUDE_STRING => false
  | K_IDENTIFIER => is_identifier w && negb (bool_decide (w ∈ literals))
  end.

Lemma closes_spec s : closes s = true → ∃ u, quote_free u = true ∧ s = u +:+ String char_quote EmptyString.
Proof.
  induction s as [|a s IH]; [done|]. simpl. case_decide as Ha.
  - intros ->%bool_decide_eq_true. subst. by exists EmptyString.
  - intros (u & Hu & ->)%IH. exists (String a u). split; [|done].
    unfold quote_free in *. simpl. rewrite Hu, bool_decide_false; [done|]. set_solver.
Qed.

Lemma valid_in_rule t : valid_token t = true → in_rule (Some (tk_kind t)) (tk_text t).
Proof.
  destruct t as [[] w]; unfold valid_token; cbn [tk_kind tk_text in_rule].
  - by intros H%bool_decide_eq_true.
  - intros [Hw%negb_true_iff%bool_decide_eq_false H]%andb_prop. done.
  - destruct w as [|a w]; [done|]. intros [->%bool_decide_eq_true H]%andb_prop.
    apply closes_spec in H as (u & Hu & ->). eauto.
  - done.
  - by intros [H _]%andb_prop.
Qed.

(** A property of the texts of all literals, by evaluation. *)
Lemma literals_all (f : string → bool) w : forallb f literals = true → w ∈ literals → f w = true.
Proof. apply forallb_elem. Qed.

Definition head_is (f : ascii → bool) (w : string) : bool :=
  match w with String a _ => f a | EmptyString => false end.

Lemma identifier_head w : is_identifier w = true → head_is is_letter w = true.
Proof. destruct w; [done|]. by intros [? _]%andb_prop. Qed.
Lemma digits_head w : w ≠ EmptyString → all_chars is_digit w = true → head_is is_digit w = true.
Proof. destruct w; [done|]. by intros _ [? _]%andb_prop. Qed.

Lemma head_excludes f g w :
  (∀ a, f a = true → g a = true → False) → head_is f w = true → head_is g w = true → False.
Proof. destruct w; [done|]. simpl. eauto. Qed.

Lemma in_range_disjoint l1 h1 l2 h2 a :
  (h1 < l2)%N → in_range l1 h1 a = true → in_range l2 h2 a = true → False.
Proof. unfold in_range. intros Hlt [_ H1%N.leb_le]%andb_prop [H2%N.leb_le _]%andb_prop. lia. Qed.

Lemma letter_not_digit a : is_letter a = true → is_digit a = true → False.
Proof.
  unfold is_letter, is_digit. intros [[H|H]%orb_prop|H%bool_decide_eq_true]%orb_prop Hd.
  - by apply (in_range_disjoint 48 57 97 122 a).
  - by apply (in_range_disjoint 48 57 65 90 a).
  - by subst a.
Qed.

(** A valid token is of no kind before its own. *)
Lemma valid_first t :
  valid_token t = true → first_rule lexer_rules (Some (tk_kind t)) (tk_text t).
Proof.
  intros Hv. pose proof (valid_in_rule t Hv) as Hin. apply first_rule_kind; [done|].
  destruct t as [[] w]; cbn [tk_kind tk_text earlier in_rule] in *; repeat constructor.
  - intros Hl. destruct Hin as [Hw Hd].
    pose proof (literals_all (λ w, negb (head_is is_digit w)) w eq_refl Hl) as H.
    simpl in H. by rewrite (digits_head w Hw Hd) in H.
  - destruct Hin as (u & _ & ->). intros Hl.
    by pose proof (literals_all (λ w, negb (head_is (λ a, bool_decide (a = char_quote)) w)) _ eq_refl Hl).
  - destruct Hin as (u & _ & ->). by intros [_ H].
  - done.
  - done.
  - done.
  - unfold valid_token in Hv. cbn [tk_kind tk_text] in Hv.
    by apply andb_prop in Hv as [_ Hv%negb_true_iff%bool_decide_eq_false].
  - intros [Hw Hd]. apply (head_excludes is_letter is_digit w letter_not_digit).
    + by apply identifier_head.
    + by apply digits_head.
  - intros (u & _ & ->). done.
  - intros (u & _ & ->). done.
Qed.

(** A text that runs into no newline before a quote: no [INCLUDE_STRING] ends in it. *)
Definition newline_free : string → bool := all_chars (λ a, negb (bool_decide (a = char_newline))).
Definition rest_ok (s : string) : Prop :=
  ∀ v u, s = v +:+ u → quote_free v = true → newline_free v = true.

Lemma app_prefix (s1 s2 v u : string) :
  s1 +:+ s2 = v +:+ u →
  (∃ x, s1 = v +:+ x) ∨ (∃ y, v = s1 +:+ y ∧ s2 = y +:+ u).
Proof.
  revert v. induction s1 as [|a s1 IH]; intros v E; [by right; exists v|].
  destruct v as [|b v]; [by left; exists (String a s1)|]. injection E as <- E.
  destruct (IH v E) as [[x ->]|(y & -> & ->)]; [left; by exists x|right; by exists y].
Qed.

Lemma rest_ok_app s1 s2 :
  newline_free s1 = true → rest_ok s2 → rest_ok (s1 +:+ s2).
Proof.
  intros H1 H2 v u E Hv. destruct (app_prefix _ _ _ _ E) as [[x Hx]|(y & -> & Hy)].
  - unfold newline_free in *. rewrite Hx, all_chars_app in H1. by apply andb_prop in H1 as [? _].
  - unfold quote_free, newline_free in *. rewrite all_chars_app in *.
    apply andb_prop in Hv as [_ Hv]. rewrite H1. by apply (H2 y u).
Qed.

Lemma rest_ok_quote s : rest_ok (String char_quote s).
Proof. intros [|a v] u E Hv; [done|]. injection E as <- E. done. Qed.

Lemma all_chars_mono f g s :
  (∀ a, f a = true → g a = true) → all_chars f s = true → all_chars g s = true.
Proof.
  intros Hfg. induction s as [|a s IH]; [done|]. simpl. intros [Ha Hs]%andb_prop.
  by rewrite (Hfg a Ha), (IH Hs).
Qed.

Lemma letter_digit_not a b : negb (is_letter b || is_digit b) = true → is_letter a || is_digit a = true → a ≠ b.
Proof. intros Hb Ha ->. by rewrite Ha in Hb. Qed.

Lemma valid_newline_free t :
  valid_token t = true → newline_free (tk_text t) = true ∨ ∃ w, tk_text t = String char_quote w.
Proof.
  destruct t as [[] w]; unfold valid_token; cbn [tk_kind tk_text].
  - intros Hw%bool_decide_eq_true. left. by apply (forallb_elem newline_free literals w eq_refl).
  - intros [_ Hd]%andb_prop. left. revert Hd. apply all_chars_mono. intros a Ha.
    apply negb_true_iff, bool_decide_eq_false. apply letter_digit_not; [done|]. by rewrite Ha, orb_true_r.
  - destruct w as [|a w]; [done|]. intros [->%bool_decide_eq_true _]%andb_prop. right. by eexists.
  - done.
  - intros [Hi _]%andb_prop. left. destruct w as [|a w]; [done|]. simpl in Hi.
    apply andb_prop in Hi as [Ha Hw].
    apply (all_chars_mono (λ a, is_letter a || is_digit a)); [|by simpl; rewrite Ha].
    intros b Hb. apply negb_true_iff, bool_decide_eq_false. by apply letter_digit_not.
Qed.

(** Tokens, each followed by a space. *)
Fixpoint unlex (ts : list token) : string :=
  match ts with
  | [] => EmptyString
  | t :: ts => tk_text t +:+ String " "%char (unlex ts)
  end.

Lemma rest_ok_unlex ts : forallb valid_token ts = true → rest_ok (String " "%char (unlex ts)).
Proof.
  assert (∀ s, rest_ok s → rest_ok (String " "%char s)) as Hspace
    by (intros s; exact (rest_ok_app " " s eq_refl)).
  induction ts as [|t ts IH]; intros Hts; apply Hspace; [by intros [] []|].
  simpl in Hts. apply andb_prop in Hts as [Ht Hts]. cbn [unlex].
  destruct (valid_newline_free t Ht) as [Hn|[w Hw]].
  - apply rest_ok_app; [done|by apply IH].
  - rewrite Hw. apply rest_ok_quote.
Qed.

(** No rule goes on over the space behind a token. *)
Lemma quote_split (u u' x y : string) :
  quote_free u = true → quote_free u' = true →
  u +:+ String char_quote x = u' +:+ String char_quote y → x = y.
Proof.
  revert u'. induction u as [|a u IH]; intros u' Hu Hu' E; destruct u' as [|b u'].
  - by injection E.
  - injection E as <- _. done.
  - injection E as -> _. done.
  - injection E as -> E. simpl in *. apply andb_prop in Hu as [_ Hu], Hu' as [_ Hu']. by apply (IH u').
Qed.

Lemma valid_head t :
  valid_token t = true →
  ∃ a w, tk_text t = String a w ∧ is_blank a = false ∧
    (a = char_quote → tk_kind t = K_STRING) ∧
    (a = "<"%char → newline_free w = true) ∧ (a = "/"%char → w = EmptyString).
Proof.
  intros Hv. pose proof (valid_in_rule t Hv) as Hin.
  assert (∀ a w, is_letter a || is_digit a = true →
    is_blank a = false ∧ (a = char_quote → tk_kind t = K_STRING) ∧
    (a = "<"%char → newline_free w = true) ∧ (a = "/"%char → w = EmptyString)) as Halnum.
  { intros a w Ha. split; [|split; [|split]]; try (by intros ->).
    unfold is_blank. apply bool_decide_eq_false. intros Hb.
    repeat (apply elem_of_cons in Hb as [->|Hb]; [done|]). by apply not_elem_of_nil in Hb. }
  destruct t as [[] w]; cbn [tk_kind tk_text in_rule] in *.
  - pose proof (forallb_elem (λ w, match w with
      | String a w => negb (is_blank a) && negb (bool_decide (a = char_quote))
          && (negb (bool_decide (a = "<"%char)) || newline_free w)
          && (negb (bool_decide (a = "/"%char)) || bool_decide (w = EmptyString))
      | EmptyString => false end) literals w eq_refl Hin) as H.
    destruct w as [|a w]; [done|]. cbn beta iota in H.
    apply andb_prop in H as [[[Hb Hq]%andb_prop Hl]%andb_prop Hs].
    exists a, w. split; [done|]. split; [by apply negb_true_iff|].
    apply negb_true_iff, bool_decide_eq_false in Hq.
    apply orb_prop in Hl, Hs. rewrite !negb_true_iff, !bool_decide_eq_false in *.
    rewrite bool_decide_eq_true in Hs. tauto.
  - destruct Hin as [Hw Hd]. destruct w as [|a w]; [done|]. exists a, w. split; [done|].
    apply Halnum. apply andb_prop in Hd as [Hd _]. by rewrite Hd, orb_true_r.
  - destruct Hin as (u & Hu & ->). eexists _, _. split; [done|]. done.
  - done.
  - destruct w as [|a w]; [done|]. exists a, w. split; [done|]. apply Halnum.
    apply andb_prop in Hin as [-> _]. done.
Qed.

Lemma valid_stops t k v u :
  valid_token t = true →
  (head_is (λ a, bool_decide (a = "<"%char)) (tk_text t) = true →
     rest_ok (String " "%char (v +:+ u))) →
  ¬ in_rule k (tk_text t +:+ String " "%char v).
Proof.
  intros Hv Hrest Hin. pose proof (valid_in_rule t Hv) as Ht.
  destruct (valid_head t Hv) as (a & w & E & Hblank & Hquote & Hless & Hslash).
  destruct k as [[]|]; cbn [in_rule] in Hin.
  - pose proof (forallb_elem (all_chars (λ a, negb (bool_decide (a = " "%char)))) literals _ eq_refl Hin)
      as H. by rewrite all_chars_app, andb_false_r in H.
  - destruct Hin as [_ Hd]. by rewrite all_chars_app, andb_false_r in Hd.
  - destruct Hin as (x & Hx & Ex). rewrite E in Ex. injection Ex as -> Ex.
    rewrite (Hquote eq_refl) in Ht. cbn [in_rule] in Ht. destruct Ht as (y & Hy & Ey).
    rewrite E in Ey. injection Ey as ->. rewrite <-string_app_assoc in Ex.
    by pose proof (quote_split _ _ _ _ Hy Hx Ex).
  - destruct Hin as (x & Hx & Ex). rewrite E in Ex. injection Ex as -> Ex.
    specialize (Hless eq_refl). specialize (Hrest ltac:(by rewrite E)).
    assert (quote_free (String " "%char v) = true) as Hqf.
    { assert (quote_free (w +:+ String " "%char v) = true) as H.
      { rewrite Ex. unfold quote_free in *. by rewrite !all_chars_app, Hx. }
      unfold quote_free in *. rewrite all_chars_app in H. by apply andb_prop in H as [_ ?]. }
    pose proof (Hrest (String " "%char v) u eq_refl Hqf) as Hnl.
    assert (newline_free (w +:+ String " "%char v) = true) as H.
    { unfold newline_free in *. by rewrite all_chars_app, Hless. }
    rewrite Ex in H. unfold newline_free in H. rewrite !all_chars_app, !andb_false_r in H. done.
  - destruct (tk_text t +:+ String " "%char v) as [|b x] eqn:Ex; [done|].
    rewrite E in Ex. injection Ex as -> Ex. apply andb_prop in Hin as [_ Hx]. rewrite <-Ex in Hx.
    by rewrite all_chars_app, andb_false_r in Hx.
  - destruct Hin as [[_ Hb]|(x & _ & Ex)].
    + rewrite E in Hb. apply andb_prop in Hb as [Hb _]. congruence.
    + rewrite E in Ex. injection Ex as -> Ex. by rewrite (Hslash eq_refl) in Ex.
Qed.

(** A token is the lexeme in front of a space. *)
Lemma valid_lexeme t rest :
  valid_token t = true →
  (head_is (λ a, bool_decide (a = "<"%char)) (tk_text t) = true → rest_ok (String " "%char rest)) →
  lexeme_at lexer_rules (tk_text t +:+ String " "%char rest) (Some (tk_kind t)) (tk_text t)
    (String " "%char rest).
Proof.
  intros Hv Hrest. split; [done|by apply valid_first|].
  intros w' u' k' r' E Hin Hm. destruct (app_prefix _ _ _ _ E) as [[x Hx]|(y & -> & Hy)].
  - rewrite Hx, string_length_app. lia.
  - destruct y as [|b y]; [by rewrite string_app_nil_r|]. injection Hy as <- ->.
    exfalso. apply (valid_stops t k' y u' Hv Hrest). by eapply in_rules.
Qed.

Lemma space_lexeme rest :
  head_is is_blank rest = false → lexeme_at lexer_rules (String " "%char rest) None " " rest.
Proof.
  intros Hb. split; [done| |].
  - apply first_rule_kind; [by left|]. repeat constructor; cbn [in_rule].
    + intros Hl. by pose proof (forallb_elem (λ w, negb (bool_decide (w = " "))) literals _ eq_refl Hl).
    + by intros [_ H].
    + by intros (u & _ & H).
    + by intros (u & _ & H).
    + done.
  - intros w' u' k' r' E Hin Hm. pose proof (in_rules _ _ _ Hin Hm) as Hr.
    destruct w' as [|a [|b w']]; [simpl; lia|done|]. injection E as <- ->. exfalso.
    destruct k' as [[]|]; cbn [in_rule] in Hr.
    + by pose proof (forallb_elem (λ w, negb (head_is (λ a, bool_decide (a = " "%char)) w)) literals _
        eq_refl Hr).
    + by destruct Hr.
    + by destruct Hr as (u & _ & H).
    + by destruct Hr as (u & _ & H).
    + done.
    + destruct Hr as [[_ H]|(u & _ & H)]; [|done]. simpl in H, Hb. by rewrite Hb in H.
Qed.

Lemma unlex_head ts : forallb valid_token ts = true → head_is is_blank (unlex ts) = false.
Proof.
  destruct ts as [|t ts]; [done|]. simpl. intros [Ht _]%andb_prop.
  by destruct (valid_head t Ht) as (a & w & -> & Hb & _).
Qed.

Definition written (ts : list token) : list lexeme := ts ≫= λ t, [Lexed t; Skipped " "].

Lemma lexes_unlex ts : forallb valid_token ts = true → lexes (unlex ts) (written ts).
Proof.
  induction ts as [|[k w] ts IH]; intros Hts; [constructor|].
  pose proof (rest_ok_unlex ts) as Hrest. pose proof (unlex_head ts) as Hhead.
  simpl in Hts. apply andb_prop in Hts as [Ht Hts]. cbn [unlex written mbind list_bind app].
  change (Lexed (mkToken k w)) with (lexeme_of (Some k) w).
  change (Skipped " ") with (lexeme_of None " ").
  eapply lexes_lexeme; [|apply (valid_lexeme (mkToken k w) (unlex ts) Ht); auto|].
  - destruct (valid_head _ Ht) as (a & w' & E & _). cbn [tk_text] in *. by rewrite E.
  - eapply lexes_lexeme; [done|apply space_lexeme; auto|by apply IH].
Qed.

(** C24. Tokens survive writing and lexing.  A list of valid tokens written out with a space after
    each, whatever keywords, operators, names, numbers and strings stand next to each other, is
    read back by the lexer as that list. *)
Theorem lex_roundtrip ts : forallb valid_token ts = true → tokens (unlex ts) = Some ts.
Proof.
  intros Hts. unfold tokens.
  rewrite (lexes_functional _ _ _ (lex_fuel_lexes _ (unlex ts) (le_n _)) (lexes_unlex ts Hts) :
    lex (unlex ts) = written ts).
  clear Hts. induction ts as [|t ts IH]; [done|]. cbn [written mbind list_bind app tokens_of].
  fold (written ts). by rewrite IH.
Qed.

Definition sample_tokens : list token :=
  [mkToken K_literal "if"; mkToken K_literal "("; mkToken K_IDENTIFIER "a1";
   mkToken K_literal "<="; mkToken K_INTEGER "10"; mkToken K_literal ")";
   mkToken K_IDENTIFIER "x"; mkToken K_literal "->"; mkToken K_IDENTIFIER "y";
   mkToken K_literal "="; mkToken K_literal "new"; mkToken K_IDENTIFIER "Point";
   mkToken K_literal "("; mkToken K_literal ")"; mkToken K_literal ";"].
Lemma lex_roundtrip_witness :
  tokens "if ( a1 <= 10 ) x -> y = new Point ( ) ; " = Some sample_tokens.
Proof. exact (lex_roundtrip sample_tokens eq_refl). Defined.

(** C36. Two includes swallow what is between them.  [INCLUDE_STRING] takes everything up to the
    last [>] at the end of a line before a quote: two include directives and the text between
    them, declarations and all, are one directive to the lexer, when no quote is in the way. *)
Theorem include_swallows h1 mid h2 :
  quote_free (h1 +:+ mid +:+ h2) = true →
  let name := "<" +:+ h1 +:+ ">" +:+ nl +:+ mid +:+ "#include <" +:+ h2 +:+ ">" +:+ nl in
  tokens ("#include " +:+ name) = Some [mkToken K_literal "#include"; mkToken K_INCLUDE_STRING name].
Proof.
  intros Hq name.
  assert (in_rule (Some K_INCLUDE_STRING) name) as Hname.
  { exists (h1 +:+ ">" +:+ nl +:+ mid +:+ "#include <" +:+ h2). split.
    - unfold quote_free in *. rewrite !all_chars_app in *.
      apply andb_prop in Hq as [-> [-> ->]%andb_prop]. done.
    - unfold name. by rewrite !string_app_assoc. }
  assert (lexes ("#include " +:+ name) [Lexed (mkToken K_literal "#include"); Skipped " ";
                                        Lexed (mkToken K_INCLUDE_STRING name)]) as Hlex.
  { eapply (lexes_lexeme _ (Some K_literal));
      [done|by apply (valid_lexeme (mkToken K_literal "#include") name)|].
    eapply (lexes_lexeme _ None); [done|by apply space_lexeme|].
    eapply (lexes_lexeme _ (Some K_INCLUDE_STRING) name EmptyString); [done| |constructor].
    split; [by rewrite string_app_nil_r| |].
    - apply first_rule_kind; [done|]. repeat constructor; cbn [in_rule].
      + intros Hl. pose proof (forallb_elem newline_free literals _ eq_refl Hl) as H.
        unfold newline_free, name in H. rewrite !all_chars_app in H.
        change (all_chars _ nl) with false in H. by rewrite !andb_false_r in H.
      + by intros [_ H].
      + by intros (u & _ & H).
    - intros w' u' k' r' E _ _. rewrite E, string_length_app. lia. }
  unfold tokens. by rewrite (lexes_functional _ _ _ (lex_fuel_lexes _ _ (le_n _)) Hlex :
    lex ("#include " +:+ name) = _).
Qed.

Lemma include_swallows_witness :
  tokens ("#include <a.h>" +:+ nl +:+ "int x;" +:+ nl +:+ "#include <b.h>" +:+ nl)
  = Some [mkToken K_literal "#include";
          mkToken K_INCLUDE_STRING ("<a.h>" +:+ nl +:+ "int x;" +:+ nl +:+ "#include <b.h>" +:+ nl)].
Proof. exact (include_swallows "a.h" ("int x;" +:+ nl) "b.h" eq_refl). Defined.
