(* ===== verification/Visitor.v ===== *)
(** Class [TranspilerVisitor] of include/jblang/ast/TranspilerVisitor.h and
    src/ast/TranspilerVisitor.cpp.

    A visit function is a computation over the visitor's state [VState].  It gets
    what [visit(child)] does as computations, so each handler reads as its
    C++ body; file Transpile ties them together over the parse trees.  An
    expression visitor returns the string every caller casts its result to. *)
From S2P Require Import Prelude Errors CppString Types TypeSystem SymbolTable.
From S2P Require Import CodeGenerator Syntax.
#[local] Open Scope Z_scope.

(** The data members.  [m_codeGen] never changes: it is the class argument of the
    handlers.  The trace written to [std::cout] is not kept. *)
Record VState := mkVState {
  m_symbolTable : SymbolTable;
  m_typeSystem : TypeSystem;
  m_first_pass : bool;
  m_output : string;
  m_tempVarCounter : Z;
  addRefCounts : bool;
  m_classNames : list string
}.

(** The constructor; [m_first_pass] is left uninitialised there. *)
Definition VState_init (indeterminate : bool) : VState :=
  mkVState SymbolTable_default TypeSystem_default indeterminate EmptyString 0 true [].

Abbreviation M := (stM VState).

Definition set_symbolTable x s := mkVState x (m_typeSystem s) (m_first_pass s)
  (m_output s) (m_tempVarCounter s) (addRefCounts s) (m_classNames s).
Definition set_typeSystem x s := mkVState (m_symbolTable s) x (m_first_pass s)
  (m_output s) (m_tempVarCounter s) (addRefCounts s) (m_classNames s).
Definition set_first_pass x s := mkVState (m_symbolTable s) (m_typeSystem s) x
  (m_output s) (m_tempVarCounter s) (addRefCounts s) (m_classNames s).
Definition set_output x s := mkVState (m_symbolTable s) (m_typeSystem s) (m_first_pass s)
  x (m_tempVarCounter s) (addRefCounts s) (m_classNames s).
Definition set_tempVarCounter x s := mkVState (m_symbolTable s) (m_typeSystem s)
  (m_first_pass s) (m_output s) x (addRefCounts s) (m_classNames s).
Definition set_addRefCounts x s := mkVState (m_symbolTable s) (m_typeSystem s)
  (m_first_pass s) (m_output s) (m_tempVarCounter s) x (m_classNames s).
Definition set_classNames x s := mkVState (m_symbolTable s) (m_typeSystem s)
  (m_first_pass s) (m_output s) (m_tempVarCounter s) (addRefCounts s) x.

(** [m_output << s]. *)
Definition out (s : string) : M unit := modify (λ st, set_output (m_output st +:+ s) st).

Definition first_pass : M bool := gets m_first_pass.
Definition sym {A} (f : SymbolTable → A) : M A := gets (λ s, f (m_symbolTable s)).
Definition sym_upd (f : SymbolTable → SymbolTable) : M unit :=
  modify (λ s, set_symbolTable (f (m_symbolTable s)) s).
Definition types {A} (f : TypeSystem → A) : M A := gets (λ s, f (m_typeSystem s)).
Definition types_out {A} (f : TypeSystem → outcome A) : M A :=
  o ← gets (λ s, f (m_typeSystem s)); lift o.
Definition types_upd (f : TypeSystem → outcome TypeSystem) : M unit :=
  ts ← types_out f; modify (set_typeSystem ts).

(** A member function that changes the tables and returns a value. *)
Definition types_res {A} (f : TypeSystem → outcome (A * TypeSystem)) : M A :=
  r ← types_out f;
  _ ← modify (set_typeSystem r.2);
  mret r.1.

Definition indentation : M string := sym getIndentLevel.

(** [addSymbol] with its two default arguments. *)
Definition add_symbol (name : string) (type : Ty) : M unit :=
  st ← sym (addSymbol name type EmptyString EmptyString);
  st ← lift st;
  modify (set_symbolTable st).

Definition setCurrentFunc (f : option Function) : M unit := sym_upd (with_currentFunc f).

Definition is_pointer_var (v : option Variable_) : bool :=
  match v with Some v => m_isPointer (v_type v) | None => false end.

Section visitor.
Context `{CG : CodeGenerator}.

(** ** Types from the source text *)
Definition resolveTypeFromContext (ctx : option typeSpec) : M Ty :=
  match ctx with
  | None => mret (Type_base BVoid)
  | Some ctx =>
      let typeText := typeSpec_text ctx in
      prefix ← lift (substr typeText 0 6);
      if decide (prefix = "struct") then
        structName ← lift (substr typeText 6 npos);
        let size := str_size structName in
        let isPointer :=
          negb (bool_decide (structName = EmptyString))
          && bool_decide (String.get (String.length structName - 1) structName = Some "*"%char) in
        structName ← (if isPointer then lift (substr structName 0 (size_sub size 1))
                      else mret structName);
        structType ← types_out (resolveType structName);
        mret (if isPointer then setPointer true structType else structType)
      else types_out (resolveType typeText)
  end.

Definition getArrayFromCode (ctx : arrayDecl) : M Ty :=
  type ← resolveTypeFromContext (Some (ad_type ctx));
  sizes ← foldM (λ sizes size,
            n ← match size with
                | AS_identifier defineVal =>
                    v ← types (getDefineValue defineVal); lift (stoi v)
                | AS_integer text => lift (stoi text)
                end;
            mret (sizes ++ [n])) (ad_sizes ctx) [];
  mret (setArray (ad_name ctx) sizes type).

(** The branch on [arrayDecl()] that every declaration makes. *)
Definition declaratorFromCode (d : declarator) : M (string * Ty) :=
  match d with
  | D_array a => type ← getArrayFromCode a; mret (getArrayName type, type)
  | D_plain t name => type ← resolveTypeFromContext (Some t); mret (name, type)
  end.

(** The loop over [paramList()->param()], appending to [params]. *)
Definition paramsFromCode (ps : option (list declarator)) (params : list (string * Ty))
    : M (list (string * Ty)) :=
  match ps with
  | None => mret params
  | Some ps => foldM (λ params p, d ← declaratorFromCode p; mret (params ++ [d])) ps params
  end.

Definition getStructFromCode (ctx : structDecl) : M Ty :=
  let structName := sd_name ctx in
  fp ← first_pass;
  _ ← whenM fp (types_upd (λ ts, Ret (registerStruct structName ts).2));
  members ← foldM (λ members m, d ← declaratorFromCode m; mret (members ++ [d]))
              (sd_members ctx) [];
  types_res (setStructMembers structName members).

(** ** Declarations *)
Definition visitFunctionDecl (t : typeSpec) (name : string)
    (params : option (list declarator)) (visit_block : M unit) : M unit :=
  ps ← paramsFromCode params [];
  returnType ← resolveTypeFromContext (Some t);
  let func := mkFunction name ps returnType false false in
  fp ← first_pass;
  _ ← whenM fp (types_upd (registerFunction (Some func)));
  _ ← setCurrentFunc (Some func);
  _ ← whenM (negb fp)
        (decl ← lift (generateFunctionDecl (Some func));
         _ ← out decl;
         visit_block);
  setCurrentFunc None.

Definition visitVarDecl (ctx : varDecl (M string)) : M unit :=
  indentLevel ← indentation;
  d ← declaratorFromCode (vd_decl ctx);
  let '(varName, varType) := d in
  fp ← first_pass;
  global ← sym isGlobalScope;
  _ ← whenM (global && m_isPointer varType && fp) (sym_upd (add_globalVar (varName, varType)));
  _ ← whenM (negb fp)
    (match vd_init ctx with
     | Some visit_expression =>
         initExpr ← visit_expression;
         initVar ← sym (lookupSymbol initExpr);
         initExpr ←
           match initVar with
           | Some initVar =>
               compatible ← types_out (isCompatible (v_type initVar) varType);
               mret (if (compatible : bool) then generateCast initExpr (v_type initVar) varType
                     else initExpr)
           | None => mret initExpr
           end;
         assignedFrom ← sym (lookupSymbol initExpr);
         _ ← match assignedFrom with
             | Some assignedFrom =>
                 whenM (m_isPointer (v_type assignedFrom))
                   (out (indentLevel +:+ generateIncRef assignedFrom incRef_default))
             | None => mret tt
             end;
         decl ← lift (generateVarDecl varName varType (" = " +:+ initExpr));
         out (indentLevel +:+ decl)
     | None =>
         decl ← lift (generateVarDecl varName varType EmptyString);
         out (indentLevel +:+ decl)
     end);
  add_symbol varName varType.

(** The loop that releases the pointers of the current scope. *)
Definition release_scope (indentLevel : string) : M unit :=
  vars ← sym getCurrentScopeSymbols;
  forM_ (λ (var : string * Variable_),
           whenM (m_isPointer (v_type var.2)) (out (indentLevel +:+ generateDecRef var.2)))
        (map_iter vars).

(** ** Statements *)
Definition visitBlock (visit_stmts : list (M unit)) : M unit :=
  _ ← sym_upd enterScope;
  fp ← first_pass;
  _ ← whenM (negb fp) (out generateScopeEntry);
  indentLevel ← indentation;
  _ ← forM_ id visit_stmts;
  fp ← first_pass;
  _ ← whenM (negb fp) (release_scope indentLevel);
  _ ← sym_upd exitScope;
  scopeVars ← sym getCurrentScopeSymbols;
  whenM (negb fp) (out (indentLevel +:+ generateScopeExit scopeVars)).

Definition visitSpawnStmt : M unit := mret tt.

Definition visitReturnStmt (visit_expression : option (M string)) : M unit :=
  _ ← modify (set_addRefCounts false);
  returnExpr ← match visit_expression with
               | Some m => m
               | None => crashM NullDeref
               end;
  _ ← modify (set_addRefCounts true);
  returnedVariable ← sym (lookupSymbol returnExpr);
  fp ← first_pass;
  _ ← match returnedVariable with
      | Some v =>
          whenM (m_isPointer (v_type v) && negb fp)
            (indent ← indentation; out (indent +:+ generateIncRef v incRef_default))
      | None => mret tt
      end;
  indentLevel ← indentation;
  _ ← whenM (negb fp) (release_scope indentLevel);
  whenM (negb fp) (out (indentLevel +:+ generateReturn returnExpr (Type_base NO_TYPE))).

Definition visitExprStmt (visit_expression : M string) : M unit :=
  output ← visit_expression;
  fp ← first_pass;
  whenM (negb fp) (indent ← indentation; out (indent +:+ output +:+ ";" +:+ nl)).

(** [ctx->statement()] is a [StatementContext], so the cast to [BlockContext]
    gives null and the body always takes the [else] branch; [expression(0)] and
    [expression(1)] are the first and second of the expressions present. *)
Definition visitForStmt (init : forInit (M string)) (expressions : list (M string))
    (visit_statement : M unit) : M unit :=
  fp ← first_pass;
  if negb fp then mret tt
  else
    indentLevel ← indentation;
    _ ← out (indentLevel +:+ "for (");
    _ ← match init with
        | FI_var v =>
            d ← declaratorFromCode (vd_decl v);
            let '(varName, varType) := d in
            t ← lift (toString varType);
            _ ← out (t +:+ " " +:+ varName);
            _ ← match vd_init v with
                | Some m => initExpr ← m; out (" = " +:+ initExpr)
                | None => mret tt
                end;
            add_symbol varName varType
        | FI_expr m => exprStr ← m; out exprStr
        | FI_none => mret tt
        end;
    _ ← out "; ";
    _ ← match expressions with
        | m :: _ =>
            _ ← modify (set_addRefCounts false);
            s ← m;
            _ ← out s;
            modify (set_addRefCounts true)
        | [] => mret tt
        end;
    _ ← out "; ";
    _ ← match expressions with
        | _ :: m :: _ => s ← m; out s
        | _ => mret tt
        end;
    _ ← out ") ";
    _ ← out ("{" +:+ nl);
    _ ← visit_statement;
    out (indentLevel +:+ "}" +:+ nl).

Definition visitIfStmt (visit_condition : M string) (visit_then : M unit)
    (visit_else : option (M unit)) : M unit :=
  fp ← first_pass;
  if (fp : bool) then mret tt
  else
    _ ← modify (set_addRefCounts false);
    indent ← indentation;
    _ ← out (indent +:+ "if (");
    c ← visit_condition;
    _ ← out (c +:+ ") {" +:+ nl);
    _ ← modify (set_addRefCounts true);
    _ ← visit_then;
    _ ← out ("}" +:+ nl);
    match visit_else with
    | Some visit_else =>
        indent ← indentation;
        _ ← out (indent +:+ "else {" +:+ nl);
        _ ← visit_else;
        out ("}" +:+ nl)
    | None => mret tt
    end.

Definition visitWhileStmt (visit_condition : M string) (visit_body : M unit) : M unit :=
  fp ← first_pass;
  if (fp : bool) then mret tt
  else
    _ ← modify (set_addRefCounts false);
    indent ← indentation;
    _ ← out (indent +:+ "while (");
    c ← visit_condition;
    _ ← out (c +:+ ") {" +:+ nl);
    _ ← modify (set_addRefCounts true);
    _ ← visit_body;
    out ("}" +:+ nl).

(** ** Expressions *)
Definition visitLiteral (ctx : literal) : M string :=
  mret (match ctx with
        | L_integer text => text
        | L_string text => text
        | L_true => "true"
        | L_false => "false"
        end).

Definition visitPrimary (ctx : primary (M string)) : M string :=
  match ctx with
  | P_paren m => s ← m; mret ("(" +:+ s +:+ ")")
  | P_identifier name => mret name
  | P_literal l => visitLiteral l
  end.

Definition visitLiteralExpr (ctx : literal) : M string := visitLiteral ctx.

(** [VarExpr] has no visit function of its own: the default one returns an
    empty [Any], which the caller's cast rejects. *)
Definition visitVarExpr : M string := throw BadAnyCast.

Definition visitMemberExpr (visit_expression : M string) (field : string) : M string :=
  base ← visit_expression;
  mret (base +:+ "." +:+ field).

Definition visitMulDivExpr (visit_left visit_right : M string) (op : string) : M string :=
  left ← visit_left;
  right ← visit_right;
  mret (left +:+ " " +:+ op +:+ " " +:+ right).

Definition visitAddSubExpr (visit_left visit_right : M string) (op : string) : M string :=
  left ← visit_left;
  right ← visit_right;
  mret (left +:+ " " +:+ op +:+ " " +:+ right).

Definition visitCompareExpr (visit_left visit_right : M string) (op : string) : M string :=
  left ← visit_left;
  right ← visit_right;
  mret (left +:+ " " +:+ op +:+ " " +:+ right).

Definition visitAssignExpr (visit_left visit_right : M string) : M string :=
  fp ← first_pass;
  if (fp : bool) then mret EmptyString
  else
    left ← visit_left;
    right ← visit_right;
    leftVar ← sym (lookupSymbol left);
    rightVar ← sym (lookupSymbol right);
    right ←
      match leftVar, rightVar with
      | Some leftVar, Some rightVar =>
          compatible ← types_out (isCompatible (v_type rightVar) (v_type leftVar));
          mret (if (compatible : bool) then generateCast right (v_type rightVar) (v_type leftVar)
                else right)
      | _, _ => mret right
      end;
    assignedFrom ← sym (lookupSymbol right);
    indent ← indentation;
    _ ← match assignedFrom with
        | Some assignedFrom =>
            whenM (m_isPointer (v_type assignedFrom))
              (let pos := str_find "->" left 0 in
               if negb (pos =? npos) then
                 base ← lift (substr left 0 pos);
                 assignedTo ← sym (lookupSymbol base);
                 match assignedTo with
                 | Some assignedTo =>
                     whenM (m_isPointer (v_type assignedTo))
                       (out (indent +:+ generateIncRef assignedFrom (v_name assignedTo)))
                 | None => mret tt
                 end
               else out (indent +:+ generateIncRef assignedFrom incRef_default))
        | None => mret tt
        end;
    target ← sym (lookupSymbol left);
    _ ← match target with
        | Some target =>
            whenM (m_isPointer (v_type target)) (out (indent +:+ generateDecRef target))
        | None => mret tt
        end;
    mret (left +:+ " = " +:+ right).

(** The prefixes ["METHOD_CALL:"] (12) and ["VIRTUAL_CALL:"] (13) of [funcName]. *)
Definition encoded_call (funcName prefix : string) (len : Z) : M (string * string) :=
  let firstColon := str_find ":" funcName len in
  let secondColon := str_find ":" funcName (size_add firstColon 1) in
  methodName ← lift (substr funcName len (size_sub firstColon len));
  objName ← lift (substr funcName (size_add secondColon 1) npos);
  mret (methodName, objName).

(** The bodies of the two argument loops of [visitFunctionCall]: the first collects
    the arguments and retains the pointers, over the pair (args, pointerArgs); the
    second visits the arguments again and releases the pointers. *)
Definition call_arg (indentLevel : string) (st : list string * bool) (arg : M string)
    : M (list string * bool) :=
  argString ← arg;
  assignedFrom ← sym (lookupSymbol argString);
  add ← gets addRefCounts;
  match assignedFrom with
  | Some v =>
      if add && m_isPointer (v_type v) then
        _ ← out (indentLevel +:+ generateIncRef v incRef_default);
        mret (st.1 ++ [argString], true)
      else mret (st.1 ++ [argString], st.2)
  | None => mret (st.1 ++ [argString], st.2)
  end.

Definition release_arg (indentLevel code : string) (arg : M string) : M string :=
  argString ← arg;
  assignedFrom ← sym (lookupSymbol argString);
  mret (match assignedFrom with
        | Some v => if m_isPointer (v_type v)
                    then code +:+ indentLevel +:+ generateDecRef v else code
        | None => code
        end).

Definition visitFunctionCall (ctx : functionCall (M string)) : M string :=
  fp ← first_pass;
  if (fp : bool) then mret EmptyString
  else
    indentLevel ← indentation;
    let funcName := fc_name ctx in
    if str_find "VIRTUAL_CALL:" funcName 0 =? 0 then
      c ← encoded_call funcName "VIRTUAL_CALL:" 13;
      let '(methodName, objName) := c in
      let code := indentLevel +:+ objName +:+ "->vtable->" +:+ methodName +:+ "(" +:+ objName in
      code ← foldM (λ code arg, a ← arg; mret (code +:+ ", " +:+ a))
               (default [] (fc_args ctx)) code;
      mret (code +:+ ")")
    else
      args ← (if str_find "METHOD_CALL:" funcName 0 =? 0
              then c ← encoded_call funcName "METHOD_CALL:" 12; mret [c.2]
              else mret []);
      r ← foldM (call_arg indentLevel) (default [] (fc_args ctx)) (args, false);
      let '(args, pointerArgs) := r in
      let code := indentLevel +:+ generateFunctionCall funcName args
                    +:+ (if (pointerArgs : bool) then ";" +:+ nl else EmptyString) in
      add ← gets addRefCounts;
      if (add : bool) then foldM (release_arg indentLevel) (default [] (fc_args ctx)) code
      else mret code.

Definition visitFuncCallExpr (ctx : functionCall (M string)) : M string :=
  visitFunctionCall ctx.

Definition visitAddressOfExpr (visit_expression : M string) : M string :=
  s ← visit_expression; mret ("&" +:+ s).
Definition visitDereferenceExpr (visit_expression : M string) : M string :=
  s ← visit_expression; mret ("*" +:+ s).
Definition visitArrayAccessExpr (visit_array visit_index : M string) : M string :=
  array ← visit_array;
  index ← visit_index;
  mret (array +:+ "[" +:+ index +:+ "]").
Definition visitNewExpr (t : typeSpec) : M string :=
  type ← resolveTypeFromContext (Some t);
  lift (generateAlloc type).
Definition visitPostIncrementExpr (visit_expression : M string) : M string :=
  e ← visit_expression; mret (e +:+ "++").
Definition visitPostDecrementExpr (visit_expression : M string) : M string :=
  e ← visit_expression; mret (e +:+ "--").
Definition visitPreIncrementExpr (visit_expression : M string) : M string :=
  e ← visit_expression; mret ("++" +:+ e).
Definition visitPreDecrementExpr (visit_expression : M string) : M string :=
  e ← visit_expression; mret ("--" +:+ e).

(** The initialisers are not visited: [getText()] of their expressions is used. *)
Definition visitInitializerList (inits : list (string * string)) : M string :=
  fp ← first_pass;
  if (fp : bool) then mret EmptyString
  else
    indentLevel ← indentation;
    foldM (λ code (i : string * string),
             let '(field, assignExpr) := i in
             assignedFrom ← sym (lookupSymbol assignExpr);
             _ ← match assignedFrom with
                 | Some v => whenM (m_isPointer (v_type v))
                               (out (indentLevel +:+ generateIncRef v incRef_default))
                 | None => mret tt
                 end;
             mret (code +:+ indentLevel +:+ "." +:+ field +:+ " = " +:+ assignExpr
                     +:+ "," +:+ nl))
          inits EmptyString.

Definition visitStructInitExpr (inits : option (list (string * string))) : M string :=
  l ← match inits with
      | Some inits => visitInitializerList inits
      | None => crashM NullDeref
      end;
  indent ← indentation;
  mret ("{" +:+ nl +:+ l +:+ indent +:+ "}").

Definition visitNewWithConstructorExpr (className : string)
    (args : option (list (M string))) : M string :=
  fp ← first_pass;
  if (fp : bool) then mret EmptyString
  else
    constructor ← types (getClassConstructor className);
    match constructor with
    | None => throw (CompilerError NameError ("No constructor for class: " +:+ className))
    | Some constructor =>
        n ← gets m_tempVarCounter;
        _ ← modify (set_tempVarCounter (n + 1));
        let tempVar := "temp_" +:+ to_string_int n in
        indentLevel ← indentation;
        classType ← types_out (resolveType className);
        let pointerType := setPointer true classType in
        alloc ← lift (generateAlloc classType);
        decl ← lift (generateVarDecl tempVar pointerType (" = " +:+ alloc));
        _ ← out (indentLevel +:+ decl);
        strings ← sequenceM (default [] args);
        _ ← out (indentLevel +:+ generateFunctionCall (f_name constructor) (tempVar :: strings)
                   +:+ ";" +:+ nl);
        mret tempVar
    end.

(** ** Fields and methods *)
Definition resolveFieldAccess (fieldName className : string) : M string :=
  classType ← types_out (resolveType className);
  if existsb (λ m : string * Ty, bool_decide (m.1 = fieldName)) (m_structMembers classType)
  then mret ("this->" +:+ fieldName)
  else if hasParent classType then mret ("this->parent." +:+ fieldName)
  else throw (CompilerError NameError ("Field not found: " +:+ fieldName)).

(** The method loop of [visitPointerMemberExpr]: the first virtual method, or
    the first one of the right name, ends the search. *)
Fixpoint member_as_method (methods : list Function) (className memberName base : string)
    : option string :=
  match methods with
  | [] => None
  | method :: methods =>
      if f_isVirtual method then Some ("VIRTUAL_CALL:" +:+ memberName +:+ ":" +:+ base)
      else if decide (f_name method = className +:+ "_" +:+ memberName)
      then Some ("METHOD_CALL:" +:+ className +:+ "_" +:+ memberName +:+ ":" +:+ base)
      else member_as_method methods className memberName base
  end.

(** [fieldAccess.replace(0, 4, base)]. *)
Definition replace_this (fieldAccess base : string) : string :=
  base +:+ String.substring 4 (String.length fieldAccess - 4) fieldAccess.

Definition visitPointerMemberExpr (visit_expression : M string) (memberName : string)
    : M string :=
  fp ← first_pass;
  if (fp : bool) then mret EmptyString
  else
    base ← visit_expression;
    func ← sym currentFunc;
    own ←
      match func with
      | Some func =>
          if decide (base = "this") then
            let funcName := f_name func in
            let underscore := str_find_char "_"%char funcName in
            if negb (underscore =? npos) then
              className ← lift (substr funcName 0 underscore);
              catch_all
                (classType ← types_out (resolveType className);
                 if isClass classType
                 then a ← resolveFieldAccess memberName className; mret (Some a)
                 else mret None)
                (mret None)
            else mret None
          else mret None
      | None => mret None
      end;
    match own with
    | Some access => mret access
    | None =>
        baseVar ← sym (lookupSymbol base);
        found ←
          match baseVar with
          | Some baseVar =>
              if isClass (v_type baseVar) then
                let className := getClassName (v_type baseVar) in
                methods ← types (getClassMethods className);
                match member_as_method methods className memberName base with
                | Some s => mret (Some s)
                | None =>
                    catch_all
                      (fieldAccess ← resolveFieldAccess memberName className;
                       mret (Some (replace_this fieldAccess base)))
                      (mret None)
                end
              else mret None
          | None => mret None
          end;
        mret (match found with
              | Some s => s
              | None => base +:+ "->" +:+ memberName
              end)
    end.

(** Enough fuel for the loop of [visitMethodCallExpr], which climbs through
    [resolveType]: the parents the tables name, the class it starts from, and the
    last class it looks at. *)
Definition resolve_fuel (ts : TypeSystem) : nat :=
  2 + (size (m_typedefs ts) + size (m_structs ts) + size (m_classes ts)).

(** That loop: the class where the method is found, its full name, and
    whether it is virtual. *)
Fixpoint find_method (fuel : nat) (currentClass className methodName : string)
    (ts : TypeSystem) : outcome (string * string * bool) :=
  match fuel with
  | O => Diverge
  | S fuel =>
      match List.find (λ m, bool_decide (f_name m = currentClass +:+ "_" +:+ methodName))
              (getClassMethods currentClass ts) with
      | Some method => Ret (currentClass, f_name method, f_isVirtual method)
      | None =>
          classType ← resolveType currentClass ts;
          if negb (hasParent classType)
          then Throw (CompilerError NameError
                 ("Method not found: " +:+ methodName +:+ " in class " +:+ className))
          else find_method fuel (getParentClass classType) className methodName ts
      end
  end.

Definition visitMethodCallExpr (visit_expression : M string) (methodName : string)
    (arguments : option (list (M string))) : M string :=
  fp ← first_pass;
  if (fp : bool) then mret EmptyString
  else
    objExpr ← visit_expression;
    objVar ← sym (lookupSymbol objExpr);
    match objVar with
    | None => throw (CompilerError NameError ("Unknown object: " +:+ objExpr))
    | Some objVar =>
        if negb (isClass (v_type objVar))
        then throw (CompilerError TypeError "Method call on non-class type")
        else
          let className := getClassName (v_type objVar) in
          m ← types_out (λ ts, find_method (resolve_fuel ts) className className methodName ts);
          let '(currentClass, fullMethodName, isVirtual) := m in
          if (isVirtual : bool) then
            args ← sequenceM (default [] arguments);
            classType ← types_out (resolveType className);
            let vtableAccess :=
              if hasParent classType then objExpr +:+ "->parent.vtable"
              else objExpr +:+ "->vtable" in
            let call := vtableAccess +:+ "->" +:+ methodName +:+ "(" +:+ objExpr in
            mret (foldl (λ call arg, call +:+ ", " +:+ arg) call args +:+ ")")
          else
            let receiver := if decide (currentClass ≠ className)
                            then "&((" +:+ objExpr +:+ ")->parent)" else objExpr in
            args ← sequenceM (default [] arguments);
            mret (generateFunctionCall fullMethodName (receiver :: args))
    end.

(** ** Types declared in the program *)
Definition visitStructDecl (ctx : structDecl) : M unit :=
  structType ← getStructFromCode ctx;
  fp ← first_pass;
  whenM (negb fp)
    (decl ← lift (generateStructDecl (getStructName structType) structType EmptyString);
     out decl).

Definition visitTypedefDecl (body : typedefBody) (name : string) : M unit :=
  type ← match body with
         | TD_struct s => getStructFromCode s
         | TD_type t => resolveTypeFromContext (Some t)
         end;
  fp ← first_pass;
  if (fp : bool) then types_upd (λ ts, Ret (registerTypeDef name type ts))
  else decl ← lift (generateTypeDef name type); out decl.

Definition visitArrayDecl (ctx : arrayDecl) : M unit :=
  fp ← first_pass;
  whenM (negb fp) (type ← getArrayFromCode ctx; t ← lift (toString type); out t).

Definition getClassFromCode {E B} (className : string) (parent : option string)
    (members : list (classMember E B)) : M Ty :=
  fp ← first_pass;
  _ ← whenM fp (types_upd (λ ts, Ret (registerClass className ts).2));
  _ ← match parent with
      | Some parentName =>
          types_upd (λ ts, r ← setClassParent className parentName ts; Ret r.2)
      | None => mret tt
      end;
  fields ← foldM (λ fields member,
             match member with
             | ClassField d => d ← declaratorFromCode d; mret (fields ++ [d])
             | _ => mret fields
             end) members [];
  types_res (setClassMembers className fields).

Definition generateParentConstructorCall
    (super : option (string * option (list (M string)))) : M string :=
  fp ← first_pass;
  match super with
  | Some (parentName, argumentList) =>
      if negb fp then
        let parentConstructor := parentName +:+ "_" +:+ parentName in
        match argumentList with
        | None => crashM NullDeref
        | Some arguments =>
            args ← sequenceM arguments;
            indent ← indentation;
            mret (indent +:+ generateFunctionCall parentConstructor ("&(this->parent)" :: args)
                    +:+ ";" +:+ nl)
        end
      else mret EmptyString
  | None => mret EmptyString
  end.

(** The two cases of the member loop of [visitClassDecl]. *)
Definition visit_constructor (className : string) (classType : Ty)
    (params : option (list declarator)) (super : option (string * option (list (M string))))
    (visit_block : M unit) : M unit :=
  let thisType := setPointer true classType in
  ps ← paramsFromCode params [("this", thisType)];
  let constructor := mkFunction (className +:+ "_" +:+ className) ps (Type_base BVoid)
                       false false in
  fp ← first_pass;
  _ ← whenM fp (types_upd (registerClassConstructor className (Some constructor)));
  _ ← setCurrentFunc (Some constructor);
  _ ← whenM (negb fp)
    (decl ← lift (generateFunctionDecl (Some constructor));
     _ ← out (decl +:+ " {" +:+ nl);
     call ← generateParentConstructorCall super;
     _ ← out call;
     allVirtuals ← types_out (getAllVirtualMethods className);
     match allVirtuals with
     | [] => mret tt
     | _ =>
         if hasParent classType
         then out ("    (this->parent).vtable = &" +:+ className +:+ "_vtable;" +:+ nl)
         else out ("    this->vtable = &" +:+ className +:+ "_vtable;" +:+ nl)
     end);
  _ ← visit_block;
  _ ← whenM (negb fp) (out ("}" +:+ nl +:+ nl));
  setCurrentFunc None.

(** Whether [methods] holds a method of base name [methodBaseName]. *)
Fixpoint overrides (methods : list Function) (methodBaseName : string) : outcome bool :=
  match methods with
  | [] => Ret false
  | parentMethod :: methods =>
      parentBaseName ← method_base_name (f_name parentMethod);
      if decide (parentBaseName = methodBaseName) then Ret true
      else overrides methods methodBaseName
  end.

Definition visit_method (className : string) (classType : Ty) (methodText : string)
    (t : typeSpec) (name : string) (params : option (list declarator))
    (visit_block : M unit) : M unit :=
  returnType ← resolveTypeFromContext (Some t);
  let isVirtual := negb (str_find "virtual" methodText 0 =? npos) in
  isVirtual ←
    (if negb isVirtual && hasParent classType then
       parentVirtuals ← types_out (getAllVirtualMethods (getParentClass classType));
       lift (overrides parentVirtuals name)
     else mret isVirtual);
  let thisType := setPointer true classType in
  ps ← paramsFromCode params [("this", thisType)];
  let method := mkFunction (className +:+ "_" +:+ name) ps returnType false isVirtual in
  fp ← first_pass;
  _ ← whenM fp (types_upd (registerClassMethod className (Some method)));
  _ ← setCurrentFunc (Some method);
  _ ← whenM (negb fp) (decl ← lift (generateFunctionDecl (Some method)); out decl);
  _ ← (if (isVirtual : bool) then
         whenM (negb fp)
           (_ ← out (" {" +:+ nl +:+ "    struct " +:+ className +:+ "* this = (struct "
                       +:+ className +:+ "*)this_param;" +:+ nl);
            _ ← visit_block;
            out ("}" +:+ nl +:+ nl))
       else visit_block);
  setCurrentFunc None.

(** A member with its text: [getText()] is asked of a method's whole subtree. *)
Definition visitClassDecl (className : string) (parent : option string)
    (members : list (classMember (M string) (M unit) * string)) : M unit :=
  classType ← getClassFromCode className parent (fst <$> members);
  fp ← first_pass;
  _ ← (if (fp : bool) then modify (λ s, set_classNames (m_classNames s ++ [className]) s)
       else
         _ ← out ("struct " +:+ className +:+ " {" +:+ nl);
         hasVirtual ← types (hasVirtualMethods className);
         _ ← (if hasParent classType
              then out ("    struct " +:+ getParentClass classType +:+ " parent;" +:+ nl)
              else whenM hasVirtual (out ("    struct vtable* vtable;" +:+ nl)));
         _ ← forM_ (λ member : string * Ty,
                      t ← lift (toString member.2);
                      out ("    " +:+ t +:+ " " +:+ member.1 +:+ ";" +:+ nl))
                   (m_structMembers classType);
         out ("};" +:+ nl +:+ nl));
  forM_ (λ member : classMember (M string) (M unit) * string,
           match member.1 with
           | ClassConstructor _ params super body =>
               visit_constructor className classType params super body
           | ClassMethod _ t name params body =>
               visit_method className classType member.2 t name params body
           | ClassField _ => mret tt
           end) members.

(** The visit functions of a member on its own, which nothing calls. *)
Definition visitClassConstructor : M unit := mret tt.
Definition visitClassField : M unit := mret tt.
Definition visitClassMethod : M unit := mret tt.

Definition getClassNames : M (list string) := mret [].

(** Not called by [visitProgram]. *)
Definition generateClassMethodBodies : M unit :=
  classNames ← gets m_classNames;
  forM_ (λ className,
    constructor ← types (getClassConstructor className);
    _ ← match constructor with
        | Some constructor =>
            _ ← setCurrentFunc (Some constructor);
            decl ← lift (generateFunctionDecl (Some constructor));
            _ ← out (decl +:+ " {" +:+ nl);
            hasVirtual ← types (hasVirtualMethods className);
            _ ← whenM hasVirtual
                  (out ("    this->vtable = &" +:+ className +:+ "_vtable;" +:+ nl));
            _ ← out ("}" +:+ nl +:+ nl);
            setCurrentFunc None
        | None => mret tt
        end;
    methods ← types (getClassMethods className);
    forM_ (λ method,
      _ ← setCurrentFunc (Some method);
      decl ← lift (generateFunctionDecl (Some method));
      _ ← out decl;
      _ ← (if f_isVirtual method
           then _ ← out (" {" +:+ nl +:+ "    struct " +:+ className +:+ "* this = (struct "
                           +:+ className +:+ "*)this_param;" +:+ nl);
                out ("}" +:+ nl +:+ nl)
           else out (" {" +:+ nl +:+ "}" +:+ nl +:+ nl));
      setCurrentFunc None) methods) classNames.

(** ** The program *)
Definition visitPreprocessorDirective (ctx : directive) : M unit :=
  prefix ← lift (substr (directive_text ctx) 0 7);
  if decide (prefix = "#define") then
    match ctx with
    | PD_define name value =>
        let value := opt_text defineValue_text value in
        _ ← types_upd (λ ts, Ret (registerDefine name value ts));
        out ("#define " +:+ name +:+ " " +:+ value +:+ nl)
    | PD_include _ => crashM NullDeref
    end
  else out (directive_text ctx).

(** The body of both declaration loops: [declared] is [declaredMethods]. *)
Definition declare_method (declared : gset string) (func : Function) : M (gset string) :=
  if decide (f_name func ∈ declared) then mret declared
  else
    decl ← lift (generateFunctionDecl (Some func));
    _ ← out (decl +:+ ";" +:+ nl);
    mret ({[f_name func]} ∪ declared).

Definition declare_virtuals (declared : gset string) (className : string) : M (gset string) :=
  allVirtuals ← types_out (getAllVirtualMethods className);
  declared ← foldM declare_method allVirtuals declared;
  classMethods ← types (getClassMethods className);
  foldM (λ declared method,
           if f_isVirtual method then declare_method declared method else mret declared)
        classMethods declared.

Definition visitProgram (directives : list directive) (visit_stmts : list (M unit))
    : M string :=
  _ ← out ("#include " +:+ dq +:+ "runtime.h" +:+ dq +:+ nl);
  _ ← forM_ (λ d, _ ← visitPreprocessorDirective d; out nl) directives;
  _ ← modify (set_first_pass true);
  _ ← forM_ (λ visit_stmt, _ ← visit_stmt; out nl) visit_stmts;
  vtable ← types_out generateVTableStruct;
  _ ← out vtable;
  classNames ← gets m_classNames;
  _ ← foldM declare_virtuals classNames (∅ : gset string);
  _ ← out nl;
  _ ← forM_ (λ className,
         allVirtuals ← types_out (getAllVirtualMethods className);
         match allVirtuals with
         | [] => mret tt
         | _ => instance ← types_out (generateVTableInstance className); out instance
         end) classNames;
  _ ← modify (set_first_pass false);
  _ ← forM_ (λ visit_stmt, _ ← visit_stmt; out nl) visit_stmts;
  _ ← out ("int main() {" +:+ nl +:+ "    runtime_init();" +:+ nl);
  globals ← sym globalVars;
  _ ← forM_ (λ g : string * Ty, out ("    runtime_register_root(&" +:+ g.1 +:+ ");" +:+ nl))
        globals;
  _ ← out ("    main_();" +:+ nl +:+ "    runtime_shutdown();" +:+ nl +:+ "}" +:+ nl);
  gets m_output.
End visitor.
