(* ===== verification/Transpile.v ===== *)
(** The traversal: which visit function each parse tree is handed to, and the
    transpiler as [main] of src/main.cpp runs it on a tree. *)
From S2P Require Import Prelude Errors CppString Types TypeSystem SymbolTable.
From S2P Require Import CodeGenerator Syntax Visitor.

Section transpile.
Context `{CG : CodeGenerator}.

(** [tree->accept(this)] on expressions.  [PrimaryExpr] has no visit function:
    the default one visits the only child and returns its result. *)
Fixpoint visit_expr (e : expr) : M string :=
  match e with
  | PrimaryExpr (P_paren e) => visitPrimary (P_paren (visit_expr e))
  | PrimaryExpr (P_identifier x) => visitPrimary (P_identifier x)
  | PrimaryExpr (P_literal l) => visitPrimary (P_literal l)
  | MemberExpr e x => visitMemberExpr (visit_expr e) x
  | FuncCallExpr f =>
      visitFuncCallExpr (mkFunctionCall (fc_name f) (option_map (map visit_expr) (fc_args f)))
  | MulDivExpr l op r => visitMulDivExpr (visit_expr l) (visit_expr r) op
  | AddSubExpr l op r => visitAddSubExpr (visit_expr l) (visit_expr r) op
  | CompareExpr l op r => visitCompareExpr (visit_expr l) (visit_expr r) op
  | AssignExpr l r => visitAssignExpr (visit_expr l) (visit_expr r)
  | VarExpr _ => visitVarExpr
  | LiteralExpr l => visitLiteralExpr l
  | NewExpr t => visitNewExpr t
  | NewWithConstructorExpr x args =>
      visitNewWithConstructorExpr x (option_map (map visit_expr) args)
  | PointerMemberExpr e x => visitPointerMemberExpr (visit_expr e) x
  | AddressOfExpr e => visitAddressOfExpr (visit_expr e)
  | DereferenceExpr e => visitDereferenceExpr (visit_expr e)
  | ArrayAccessExpr e i => visitArrayAccessExpr (visit_expr e) (visit_expr i)
  | MethodCallExpr e x args =>
      visitMethodCallExpr (visit_expr e) x (option_map (map visit_expr) args)
  | StructInitExpr l =>
      visitStructInitExpr
        (option_map (λ l, map (λ '(x, e), (x, expr_text e)) (il_inits l)) l)
  | PostIncrementExpr e => visitPostIncrementExpr (visit_expr e)
  | PostDecrementExpr e => visitPostDecrementExpr (visit_expr e)
  | PreIncrementExpr e => visitPreIncrementExpr (visit_expr e)
  | PreDecrementExpr e => visitPreDecrementExpr (visit_expr e)
  end.

Definition visit_args (args : option (list expr)) : option (list (M string)) :=
  option_map (map visit_expr) args.
Definition visit_init (v : varDecl expr) : varDecl (M string) :=
  mkVarDecl (vd_decl v) (option_map visit_expr (vd_init v)).
Definition visit_forInit (i : forInit expr) : forInit (M string) :=
  match i with
  | FI_var v => FI_var (visit_init v)
  | FI_expr e => FI_expr (visit_expr e)
  | FI_none => FI_none
  end.
(** [ctx->expression()] of a [for]: the expressions that are there, in order. *)
Definition for_expressions (cond step : option expr) : list (M string) :=
  map visit_expr (match cond with Some e => [e] | None => [] end
                    ++ match step with Some e => [e] | None => [] end).

Definition visit_member {B} (visit_body : B → M unit) (m : classMember expr B)
    : classMember (M string) (M unit) :=
  match m with
  | ClassField d => ClassField d
  | ClassMethod v t x ps b => ClassMethod v t x ps (visit_body b)
  | ClassConstructor x ps super b =>
      ClassConstructor x ps (option_map (λ '(p, args), (p, visit_args args)) super)
        (visit_body b)
  end.

(** [visit] on statements.  [visitStatement] is the default one. *)
Fixpoint visit_stmt (s : statement) : M unit :=
  match s with
  | S_functionDecl t x ps b => visitFunctionDecl t x ps (visitBlock (map visit_stmt b))
  | S_varDecl v => visitVarDecl (visit_init v)
  | S_spawn _ => visitSpawnStmt
  | S_return e => visitReturnStmt (option_map visit_expr e)
  | S_expr e => visitExprStmt (visit_expr e)
  | S_block b => visitBlock (map visit_stmt b)
  | S_struct s => visitStructDecl s
  | S_class x parent ms _ =>
      visitClassDecl x parent
        (map (λ m, (visit_member (λ b, visitBlock (map visit_stmt b)) m, classMember_text m)) ms)
  | S_if c t e => visitIfStmt (visit_expr c) (visit_stmt t) (option_map visit_stmt e)
  | S_while c b => visitWhileStmt (visit_expr c) (visit_stmt b)
  | S_for i c st b =>
      visitForStmt (visit_forInit i) (for_expressions c st) (visit_stmt b)
  | S_typedef b x => visitTypedefDecl b x
  end.

Definition visit_block (b : list statement) : M unit := visitBlock (map visit_stmt b).

Definition visit_program (p : program) : M string :=
  visitProgram (pr_directives p) (map visit_stmt (pr_statements p)).
End transpile.

(** A visitor run of [main]: a fresh visitor over a [CCodeGenerator]. *)
Definition transpile (useRefCount indeterminate : bool) (p : program) : outcome string :=
  r ← visit_program (CG:=CCodeGenerator useRefCount) p (VState_init indeterminate);
  Ret r.1.
