(* ===== verification/StringFacts.v ===== *)
(** Facts about the string operations of CppString: what [find], [substr] and the
    base-name idiom of the type system compute. *)
From S2P Require Import Prelude Errors CppString Types TypeSystem.
#[local] Open Scope Z_scope.

(** A string whose indices and [npos] cannot be confused. *)
Definition str_ok (s : string) : Prop := str_size s < npos.

#[global] Instance str_ok_dec s : Decision (str_ok s).
Proof. unfold str_ok. apply _. Defined.

(** [s] from index [n] on. *)
Fixpoint str_drop (n : nat) (s : string) : string :=
  match n, s with
  | O, _ => s
  | S n, String _ s => str_drop n s
  | S _, EmptyString => EmptyString
  end.

Lemma substring_0_all s n : (String.length s <= n)%nat → String.substring 0 n s = s.
Proof.
  revert n. induction s as [|a s IH]; intros [|n] Hn; simpl in *; try done; [lia|].
  f_equal. apply IH. lia.
Qed.

Lemma substring_drop i n s :
  (String.length s <= i + n)%nat → String.substring i n s = str_drop i s.
Proof.
  revert i. induction s as [|a s IH]; intros i Hi; [by destruct i, n|].
  destruct i as [|i]; simpl in *.
  - destruct n as [|n]; [lia|]. f_equal. apply substring_0_all. lia.
  - apply IH. lia.
Qed.

Lemma substr_to_end s i :
  0 <= i <= str_size s → str_ok s → substr s i npos = Ret (str_drop (Z.to_nat i) s).
Proof.
  intros Hi Hs. unfold substr, str_ok in *.
  destruct (Z.ltb_spec (str_size s) i); [lia|].
  f_equal. apply substring_drop. unfold str_size in *. lia.
Qed.

Lemma substr_prefix s1 s2 :
  substr (s1 +:+ s2) 0 (str_size s1) = Ret s1.
Proof.
  unfold substr. destruct (Z.ltb_spec (str_size (s1 +:+ s2)) 0); [unfold str_size in *; lia|].
  f_equal. replace (Z.to_nat (Z.min _ _)) with (String.length s1).
  2:{ unfold str_size. rewrite string_length_app. lia. }
  change (Z.to_nat 0) with O.
  induction s1 as [|a s1 IH]; [by destruct s2|]. rewrite string_app_cons. simpl.
  f_equal. apply IH. unfold str_size. lia.
Qed.

Lemma char_index_lt c s i : char_index c s = Some i → (i < String.length s)%nat.
Proof.
  revert i. induction s as [|a s IH]; intros i; simpl; [done|].
  case_decide; [intros; simplify_eq; lia|].
  destruct (char_index c s) as [j|] eqn:E; simpl; [|done].
  intros; simplify_eq. specialize (IH j eq_refl). lia.
Qed.

(** No character of [s] is [c]. *)
Definition char_free (c : ascii) (s : string) : Prop := char_index c s = None.

#[global] Instance char_free_dec c s : Decision (char_free c s).
Proof. unfold char_free. apply _. Defined.

Lemma char_index_app c s1 s2 :
  char_free c s1 → char_index c (s1 +:+ s2) = Nat.add (String.length s1) <$> char_index c s2.
Proof.
  unfold char_free. induction s1 as [|a s1 IH].
  - intros _. rewrite string_app_nil_l. simpl. by destruct (char_index c s2).
  - rewrite string_app_cons. simpl. case_decide; [done|].
    intros Hs. destruct (char_index c s1); [done|]. rewrite IH by done.
    by destruct (char_index c s2).
Qed.

Lemma char_index_here c s1 s2 :
  char_free c s1 → char_index c (s1 +:+ String c s2) = Some (String.length s1).
Proof.
  intros H1. rewrite char_index_app by done. simpl. case_decide; [|done]. simpl. f_equal. lia.
Qed.

Lemma str_drop_app s1 s2 n :
  str_drop (String.length s1 + n) (s1 +:+ s2) = str_drop n s2.
Proof. induction s1 as [|a s1 IH]; [done|]. rewrite string_app_cons. simpl. exact IH. Qed.

(** ** Base names *)

(** What follows the first underscore; the whole name when it has none. *)
Definition base_of (name : string) : string :=
  match char_index "_"%char name with
  | Some i => str_drop (S i) name
  | None => name
  end.

Lemma method_base_name_ok name :
  str_ok name → method_base_name name = Ret (base_of name).
Proof.
  intros Hs. unfold method_base_name, base_of, str_find_char.
  destruct (char_index "_"%char name) as [i|] eqn:E.
  - pose proof (char_index_lt _ _ _ E) as Hi.
    unfold str_ok, str_size, npos, size_t_mod in Hs.
    assert (size_add (Z.of_nat i) 1 = Z.of_nat i + 1) as ->.
    { unfold size_add, size_t_mod. apply Z.mod_small. lia. }
    rewrite substr_to_end; [|unfold str_size; lia|done].
    by replace (Z.to_nat (Z.of_nat i + 1)) with (S i) by lia.
  - change (size_add npos 1) with 0. rewrite substr_to_end; [|unfold str_size; lia|done].
    by destruct name.
Qed.

Lemma base_of_method cls m :
  char_free "_"%char cls → base_of (cls +:+ "_" +:+ m) = m.
Proof.
  intros Hc. unfold base_of.
  change ("_" +:+ m) with (String "_"%char m).
  rewrite char_index_here by done.
  replace (S (String.length cls)) with (String.length cls + 1)%nat by lia.
  rewrite str_drop_app. by destruct m.
Qed.

(** ** Finding a character *)
Lemma str_find_char_free c s : char_free c s → str_find_char c s = npos.
Proof. unfold str_find_char, char_free. by intros ->. Qed.

Lemma str_find_char_here c s1 s2 :
  char_free c s1 → str_find_char c (s1 +:+ String c s2) = str_size s1.
Proof. intros H. unfold str_find_char. by rewrite char_index_here. Qed.

Lemma char_free_app c s1 s2 : char_free c (s1 +:+ s2) ↔ char_free c s1 ∧ char_free c s2.
Proof.
  unfold char_free. induction s1 as [|a s1 IH]; [rewrite string_app_nil_l; simpl; tauto|].
  rewrite string_app_cons. simpl. case_decide; [split; [done|by intros []]|].
  destruct (char_index c (s1 +:+ s2)), (char_index c s1); simpl; naive_solver.
Qed.

Lemma str_size_app s1 s2 : str_size (s1 +:+ s2) = str_size s1 + str_size s2.
Proof. unfold str_size. rewrite string_length_app. lia. Qed.

Lemma str_size_nonneg s : 0 <= str_size s.
Proof. unfold str_size. lia. Qed.
