(* ===== verification/Hierarchy.v ===== *)
(** The class hierarchy: the parent relation a [TypeSystem] stores, its
    well-formedness, and what the loops that climb it compute. *)
From S2P Require Import Prelude Errors CppString Types TypeSystem StringFacts.

(** ** The parent relation *)
Definition parent_of (ts : TypeSystem) (c : string) : option string :=
  match m_classes ts !! c with
  | Some t => if hasParent t then Some (getParentClass t) else None
  | None => None
  end.

Definition extends (ts : TypeSystem) : relation string := λ c p, parent_of ts c = Some p.

(** No class is its own proper ancestor. *)
Definition acyclic (ts : TypeSystem) : Prop := ∀ c, ¬ tc (extends ts) c c.

Lemma parent_of_in ts c : is_Some (parent_of ts c) → c ∈ dom (m_classes ts).
Proof.
  unfold parent_of. destruct (m_classes ts !! c) eqn:E; [|by intros []].
  intros _. by apply elem_of_dom.
Qed.

Lemma extends_values ts c p :
  extends ts c p → p ∈ (λ kv, getParentClass kv.2) <$> map_to_list (m_classes ts).
Proof.
  unfold extends, parent_of. destruct (m_classes ts !! c) as [t|] eqn:E; [|done].
  destruct (hasParent t); [|done]. intros. simplify_eq.
  apply list_elem_of_fmap. exists (c, t). by rewrite elem_of_map_to_list.
Qed.

Lemma tc_last {A} (R : relation A) x y : tc R x y → ∃ z, R z y.
Proof. induction 1; eauto. Qed.

(** A chain shortens along the relation, so a node with a chain is on no cycle. *)
Lemma chain_extends_tc ts c p l :
  tc (extends ts) c p → chain (parent_of ts) c l →
  ∃ l', chain (parent_of ts) p l' ∧ length l' < length l.
Proof.
  intros Htc. revert l. induction Htc as [x y Hxy|x y z Hxy _ IH]; intros l Hl;
    unfold extends in Hxy; inversion Hl; simplify_eq.
  - eexists. split; [done|]. simpl. lia.
  - edestruct IH as (l' & ? & ?); [done|]. exists l'. split; [done|]. simpl. lia.
Qed.

Lemma acyclic_walk_iff ts :
  acyclic ts ↔
  ∀ c, c ∈ dom (m_classes ts) → walk (parent_of ts) (hierarchy_fuel ts) c = None.
Proof.
  split.
  - intros Ha c _. unfold hierarchy_fuel. rewrite <-size_dom.
    cut (∃ n, walk (parent_of ts) n c = None).
    { intros [n Hn]. eapply walk_fuel; [apply parent_of_in|done]. }
    assert (sn (extends ts) c) as Hsn.
    { apply tc_finite_sn; [exact Ha|].
      exists ((λ kv, getParentClass kv.2) <$> map_to_list (m_classes ts)).
      intros p [z Hz]%tc_last. by eapply extends_values. }
    induction Hsn as [c _ IH].
    destruct (parent_of ts c) as [p|] eqn:E.
    + destruct (IH p) as [n Hn]; [exact E|]. exists (S n). simpl. by rewrite E.
    + exists 1. simpl. by rewrite E.
  - intros Hw c Hc.
    assert (c ∈ dom (m_classes ts)) as Hin.
    { apply parent_of_in. inversion Hc; simplify_eq; eexists; eassumption. }
    destruct (walk_chain _ _ _ (Hw c Hin)) as [l Hl].
    destruct (chain_extends_tc _ _ _ _ Hc Hl) as (l' & Hl' & Hlt).
    rewrite (chain_det _ _ _ _ Hl Hl') in Hlt. lia.
Qed.

Lemma acyclic_walk ts c : acyclic ts → walk (parent_of ts) (hierarchy_fuel ts) c = None.
Proof.
  intros Ha. destruct (decide (c ∈ dom (m_classes ts))) as [Hin|Hout].
  - by apply acyclic_walk_iff.
  - unfold hierarchy_fuel. simpl. destruct (parent_of ts c) eqn:E; [|done].
    destruct Hout. apply parent_of_in. by rewrite E.
Qed.

#[global] Instance acyclic_dec ts : Decision (acyclic ts).
Proof.
  refine (cast_if (decide (Forall (λ c, walk (parent_of ts) (hierarchy_fuel ts) c = None)
                             (elements (dom (m_classes ts)))))).
  - abstract (apply acyclic_walk_iff; intros c Hc%elem_of_elements;
              rewrite Forall_forall in f; by apply f).
  - abstract (rewrite acyclic_walk_iff; intros Hw; destruct n; apply Forall_forall;
              intros c Hc%elem_of_elements; by apply Hw).
Defined.

(** ** Lineages *)

(** The registered classes met when climbing from [c], most derived first. *)
Inductive lineage (ts : TypeSystem) : string → list string → Prop :=
| lin_unknown c : m_classes ts !! c = None → lineage ts c []
| lin_root c t : m_classes ts !! c = Some t → hasParent t = false → lineage ts c [c]
| lin_step c t l : m_classes ts !! c = Some t → hasParent t = true →
    lineage ts (getParentClass t) l → lineage ts c (c :: l).

Lemma parent_of_step ts c t :
  m_classes ts !! c = Some t → hasParent t = true → parent_of ts c = Some (getParentClass t).
Proof. unfold parent_of. by intros -> ->. Qed.

Lemma parent_of_root ts c t :
  m_classes ts !! c = Some t → hasParent t = false → parent_of ts c = None.
Proof. unfold parent_of. by intros -> ->. Qed.

Lemma lineage_exists ts n c : walk (parent_of ts) n c = None → ∃ l, lineage ts c l.
Proof.
  revert c. induction n as [|n IH]; intros c; simpl; [done|].
  destruct (m_classes ts !! c) as [t|] eqn:Ec; [|eauto using lineage].
  destruct (hasParent t) eqn:Ep; [|eauto using lineage].
  rewrite (parent_of_step _ _ _ Ec Ep). intros [l Hl]%IH. eauto using lineage.
Qed.

Lemma lineage_acyclic ts c : acyclic ts → ∃ l, lineage ts c l.
Proof. intros Ha. eapply lineage_exists, acyclic_walk, Ha. Qed.

Lemma lineage_det ts c l1 l2 : lineage ts c l1 → lineage ts c l2 → l1 = l2.
Proof.
  intros H1. revert l2. induction H1; inversion 1; simplify_eq; try congruence.
  f_equal. auto.
Qed.

(** The members of a lineage are the class and its registered proper ancestors. *)
Lemma lineage_elem ts c l x :
  lineage ts c l → x ∈ l ↔ (rtc (extends ts) c x ∧ is_Some (m_classes ts !! x)).
Proof.
  induction 1 as [c Ec|c t Ec Ep|c t l Ec Ep Hl IH].
  - split; [by intros ?%not_elem_of_nil|]. intros [[->|(y & Hy & _)]%rtc_inv [t Ht]].
    + congruence.
    + unfold extends, parent_of in Hy. by rewrite Ec in Hy.
  - rewrite list_elem_of_singleton. split.
    + intros ->. split; [done|]. by rewrite Ec.
    + intros [[->|(y & Hy & _)]%rtc_inv _]; [done|].
      unfold extends in Hy. by rewrite (parent_of_root _ _ _ Ec Ep) in Hy.
  - rewrite elem_of_cons, IH. split.
    + intros [->|[Hr ?]]; [split; [done|]; by rewrite Ec|]. split; [|done].
      eapply rtc_l; [exact (parent_of_step _ _ _ Ec Ep)|done].
    + intros [[->|(y & Hy & Hr)]%rtc_inv ?]; [by left|right].
      unfold extends in Hy. rewrite (parent_of_step _ _ _ Ec Ep) in Hy. by simplify_eq.
Qed.

Lemma tc_extends_step ts c t p :
  m_classes ts !! c = Some t → hasParent t = true →
  tc (extends ts) c p ↔ getParentClass t = p ∨ tc (extends ts) (getParentClass t) p.
Proof.
  intros Ec Ep. pose proof (parent_of_step _ _ _ Ec Ep) as Hs. split.
  - inversion 1; unfold extends in *; simplify_eq; auto.
  - intros [<-|?]; [by apply tc_once|]. by eapply tc_l.
Qed.

Lemma tc_extends_stop ts c p : parent_of ts c = None → ¬ tc (extends ts) c p.
Proof. intros E. inversion 1; unfold extends in *; congruence. Qed.

(** ** What the loops compute *)
Lemma isSubclassOf_loop_spec ts n c p :
  walk (parent_of ts) n c = None →
  ∃ b, isSubclassOf_loop n c p ts = Ret b ∧ (b = true ↔ tc (extends ts) c p).
Proof.
  revert c. induction n as [|n IH]; intros c Hw; simpl in Hw; [done|]. simpl.
  destruct (m_classes ts !! c) as [t|] eqn:Ec; cycle 1.
  { exists false. split; [done|]. split; [done|]. intros Ht. exfalso. revert Ht.
    apply tc_extends_stop. unfold parent_of. by rewrite Ec. }
  destruct (hasParent t) eqn:Ep; simpl; cycle 1.
  { exists false. split; [done|]. split; [done|]. intros Ht. exfalso. revert Ht.
    by eapply tc_extends_stop, parent_of_root. }
  rewrite (parent_of_step _ _ _ Ec Ep) in Hw.
  pose proof (tc_extends_step _ _ _ p Ec Ep) as Hiff.
  case_decide as Hd; [exists true; naive_solver|].
  destruct (IH _ Hw) as (b & -> & Hb). exists b. split; [done|]. rewrite Hb. naive_solver.
Qed.

(** [getAllVirtualMethods] folds [collect_virtual] over the methods of the lineage. *)
Definition lineage_methods (ts : TypeSystem) (l : list string) : list Function :=
  concat ((λ c, getClassMethods c ts) <$> l).

Lemma getAllVirtualMethods_loop_spec ts n c l st :
  walk (parent_of ts) n c = None → lineage ts c l →
  getAllVirtualMethods_loop n c st ts = Ret (foldl collect_virtual st (lineage_methods ts l)).1.
Proof.
  intros Hw Hl. revert n st Hw.
  induction Hl as [c Ec|c t Ec Ep|c t l Ec Ep Hl IH]; intros [|n] st Hw; simpl in Hw; try done;
    simpl; rewrite Ec; simpl; [done| |].
  - rewrite Ep. simpl. unfold lineage_methods. simpl. by rewrite app_nil_r.
  - rewrite Ep. simpl. rewrite (parent_of_step _ _ _ Ec Ep) in Hw.
    rewrite IH by done. unfold lineage_methods. simpl. by rewrite foldl_app.
Qed.

Lemma getAllVirtualMethods_loop_diverge ts n c st :
  walk (parent_of ts) n c ≠ None → getAllVirtualMethods_loop n c st ts = Diverge.
Proof.
  revert c st. induction n as [|n IH]; intros c st Hw; simpl in *; [done|].
  destruct (m_classes ts !! c) as [t|] eqn:Ec; simpl.
  - destruct (hasParent t) eqn:Ep; simpl.
    + rewrite (parent_of_step _ _ _ Ec Ep) in Hw. by apply IH.
    + by rewrite (parent_of_root _ _ _ Ec Ep) in Hw.
  - unfold parent_of in Hw. by rewrite Ec in Hw.
Qed.

(** [findMethodImplementation] searches the methods of the lineage in order. *)
Definition first_impl (methods : list Function) (b : string) : option string :=
  f_name <$> List.find (λ m, bool_decide (base_of (f_name m) = b)) methods.

Lemma find_by_base_name_spec methods b :
  Forall (λ m, str_ok (f_name m)) methods →
  find_by_base_name methods b = Ret (first_impl methods b).
Proof.
  unfold first_impl. induction 1 as [|m methods Hm _ IH]; simpl; [done|].
  rewrite method_base_name_ok by done. simpl.
  case_decide as Hd; [by rewrite bool_decide_true|].
  rewrite bool_decide_false by done. exact IH.
Qed.

Lemma first_impl_app l1 l2 b :
  first_impl (l1 ++ l2) b
  = match first_impl l1 b with Some f => Some f | None => first_impl l2 b end.
Proof.
  unfold first_impl. induction l1 as [|m l1 IH]; simpl; [done|].
  by case_bool_decide.
Qed.

Lemma findMethodImplementation_loop_spec ts n c l cls b :
  (∀ x, Forall (λ m, str_ok (f_name m)) (getClassMethods x ts)) →
  (∀ x, m_classes ts !! x = None → getClassMethods x ts = []) →
  walk (parent_of ts) n c = None → lineage ts c l →
  findMethodImplementation_loop n c cls b ts
  = Ret (default (cls +:+ "_" +:+ b) (first_impl (lineage_methods ts l) b)).
Proof.
  intros Hok Hreg Hw Hl. revert n Hw.
  induction Hl as [c Ec|c t Ec Ep|c t l Ec Ep Hl IH]; intros [|n] Hw; simpl in Hw; try done;
    simpl; rewrite find_by_base_name_spec by apply Hok; simpl; rewrite Ec.
  - by rewrite Hreg.
  - rewrite Ep. unfold lineage_methods. simpl. rewrite app_nil_r.
    by destruct (first_impl _ b).
  - rewrite (parent_of_step _ _ _ Ec Ep) in Hw. rewrite Ep. simpl.
    unfold lineage_methods. simpl. rewrite first_impl_app.
    destruct (first_impl (getClassMethods c ts) b); [done|]. by apply IH.
Qed.

Lemma getAllClassMembers_rec_spec ts n c l :
  walk (parent_of ts) n c = None → lineage ts c l →
  is_Some (m_classes ts !! c) →
  (∀ x p, extends ts x p → is_Some (m_classes ts !! p)) →
  getAllClassMembers_rec n c ts
  = Ret (concat ((λ x, default [] (m_structMembers <$> m_classes ts !! x)) <$> rev l)).
Proof.
  intros Hw Hl Hin Hpar. revert n Hw Hin.
  induction Hl as [c Ec|c t Ec Ep|c t l Ec Ep Hl IH]; intros [|n] Hw Hin; simpl in Hw; try done;
    simpl; rewrite Ec; simpl.
  - destruct Hin as [t ?]; congruence.
  - rewrite Ep. simpl. by rewrite app_nil_r.
  - pose proof (parent_of_step _ _ _ Ec Ep) as Hs. rewrite Hs in Hw.
    rewrite Ep, IH; [|done|by eapply Hpar].
    simpl. rewrite fmap_app, concat_app. simpl. by rewrite Ec, app_nil_r.
Qed.
