(* ===== verification/MethodLookup.v ===== *)
(** The climb of [visitMethodCallExpr] (src/ast/TranspilerVisitor.cpp) through
    [resolveType]: where it goes, and why its fuel is enough. *)
From S2P Require Import Prelude Errors CppString Types TypeSystem SymbolTable.
From S2P Require Import CodeGenerator Syntax Visitor StringFacts Hierarchy.
#[local] Open Scope Z_scope.

(** The class the loop of [visitMethodCallExpr] climbs to from [c]. *)
Definition resolve_parent (ts : TypeSystem) (c : string) : option string :=
  match resolveType c ts with
  | Ret t => if hasParent t then Some (getParentClass t) else None
  | _ => None
  end.

(** The method [m] declared in class [c] itself. *)
Definition method_of (ts : TypeSystem) (c m : string) : option Function :=
  List.find (λ f, bool_decide (f_name f = c +:+ "_" +:+ m)) (getClassMethods c ts).

(** The parents the tables name. *)
Definition table_parents (ts : TypeSystem) : gset string :=
  list_to_set (getParentClass <$> (map_to_list (m_typedefs ts)).*2
    ++ (map_to_list (m_structs ts)).*2 ++ (map_to_list (m_classes ts)).*2).

Lemma table_parents_size ts : (size (table_parents ts) ≤
  size (m_typedefs ts) + size (m_structs ts) + size (m_classes ts))%nat.
Proof.
  unfold table_parents. etrans; [apply size_list_to_set_length|].
  rewrite length_fmap, !length_app, !length_fmap, !length_map_to_list. lia.
Qed.

Lemma table_parents_elem ts (tab : gmap string Ty) x t :
  tab = m_typedefs ts ∨ tab = m_structs ts ∨ tab = m_classes ts →
  tab !! x = Some t → getParentClass t ∈ table_parents ts.
Proof.
  intros Htab Hx%elem_of_map_to_list. apply (list_elem_of_fmap_2 snd) in Hx.
  unfold table_parents. apply elem_of_list_to_set, list_elem_of_fmap_2.
  rewrite !elem_of_app. destruct Htab as [->|[->| ->]]; auto.
Qed.

Lemma resolve_parent_elem ts c p : resolve_parent ts c = Some p → p ∈ table_parents ts.
Proof.
  unfold resolve_parent. destruct (resolveType c ts) as [t| | |] eqn:E; try done.
  destruct (hasParent t) eqn:Hp; [|done]. intros [= <-].
  unfold resolveType, translateType in E.
  apply outcome_bind_Ret in E as (b1 & _ & E). apply outcome_bind_Ret in E as (b & _ & E).
  apply outcome_bind_Ret in E as (t0 & E0 & E).
  assert (getParentClass t = getParentClass t0) as Hpar.
  { destruct (negb (_ =? npos)) in E; [destruct (negb (_ =? npos)) in E; [|done]|].
    - apply outcome_bind_Ret in E as (? & _ & E). apply outcome_bind_Ret in E as (? & _ & [= <-]).
      by destruct (negb _).
    - injection E as <-. by destruct (negb _). }
  rewrite Hpar. unfold hasParent in Hp. unfold getParentClass in Hpar. rewrite Hpar in Hp.
  repeat (case_decide; [injection E0 as <-; discriminate Hp|]).
  destruct (m_typedefs ts !! b) eqn:E1; [injection E0 as ->; eauto using table_parents_elem|].
  destruct (m_structs ts !! b) eqn:E2; [injection E0 as ->; eauto using table_parents_elem|].
  destruct (m_classes ts !! b) eqn:E3; [injection E0 as ->; eauto using table_parents_elem|].
  discriminate E0.
Qed.

(** Resolving a name returns or throws. *)
Definition returns_or_throws {A} (o : outcome A) : Prop :=
  match o with Ret _ | Throw _ => True | _ => False end.

Lemma returns_or_throws_bind {A B} (o : outcome A) (f : A → outcome B) :
  returns_or_throws o → (∀ a, returns_or_throws (f a)) → returns_or_throws (o ≫= f).
Proof. intros Ho Hf. destruct o; simpl; auto. Qed.

Lemma resolveType_returns_or_throws c ts : returns_or_throws (resolveType c ts).
Proof.
  assert (∀ s i n, returns_or_throws (substr s i n)) as Hsub
    by (intros; unfold substr; by destruct (_ <? _)).
  assert (∀ s, returns_or_throws (stoi s)) as Hstoi.
  { intros s. unfold stoi. generalize (skip_space s) as s'. intros s'.
    match goal with |- returns_or_throws (let (_, _) := ?p in _) => destruct p as [sg r] end.
    destruct (digit_prefix r None); [|done]. by destruct (_ && _). }
  unfold resolveType, translateType.
  repeat first [ done | apply Hsub | apply Hstoi
    | apply returns_or_throws_bind; [|intros] | case_match ].
Qed.

(** The chain of classes from [c] is shorter than the fuel of the loop. *)
Lemma resolve_chain_length ts c l :
  chain (resolve_parent ts) c l → (S (length l) ≤ resolve_fuel ts)%nat.
Proof.
  intros Hc. pose proof (chain_NoDup _ _ _ Hc) as Hnd.
  assert (∀ x l, chain (resolve_parent ts) x l → ∀ y, y ∈ l → y = x ∨ y ∈ table_parents ts) as Hin.
  { clear. induction 1 as [x Hx|x x' l Hx _ IH]; intros y Hy; [by apply not_elem_of_nil in Hy|].
    apply elem_of_cons in Hy as [->|Hy]; [by left|].
    destruct (IH y Hy) as [->|?]; [|by right]. right. by eapply resolve_parent_elem. }
  assert (size (list_to_set l : gset string) ≤ size ({[c]} ∪ table_parents ts))%nat as Hsz.
  { apply subseteq_size. intros y Hy%elem_of_list_to_set.
    destruct (Hin _ _ Hc y Hy) as [->|?]; set_solver. }
  rewrite size_list_to_set in Hsz by done. rewrite size_union_alt, size_singleton in Hsz.
  pose proof (table_parents_size ts).
  assert (size (table_parents ts ∖ {[c]}) ≤ size (table_parents ts))%nat
    by (apply subseteq_size; set_solver).
  unfold resolve_fuel. lia.
Qed.

Lemma find_method_chain ts m cls : ∀ fuel c l,
  chain (resolve_parent ts) c l → (S (length l) ≤ fuel)%nat →
  (∃ n d f, walk (resolve_parent ts) n c = Some d ∧ method_of ts d m = Some f ∧
     (∀ k e, (k < n)%nat → walk (resolve_parent ts) k c = Some e → method_of ts e m = None) ∧
     find_method fuel c cls m ts = Ret (d, f_name f, f_isVirtual f)) ∨
  ((∀ n d, walk (resolve_parent ts) n c = Some d → method_of ts d m = None) ∧
   ∃ e, find_method fuel c cls m ts = Throw e).
Proof.
  intros fuel c l Hc. revert fuel.
  induction Hc as [c Hc|c c' l Hc Hchain IH]; intros [|fuel] Hf; try (simpl in Hf; lia);
    cbn [find_method]; fold (method_of ts c m);
    (destruct (method_of ts c m) as [f|] eqn:Hm;
      [left; exists O, c, f; split; [done|]; split; [done|]; split; [lia|done]|]).
  - right. split.
    + intros [|n] d; simpl; [by intros [= <-]|]. by rewrite Hc.
    + unfold resolve_parent in Hc. destruct (resolveType c ts) as [t| | |] eqn:E; simpl; eauto.
      * destruct (hasParent t); [done|]. simpl. eauto.
      * pose proof (resolveType_returns_or_throws c ts) as Hrt. by rewrite E in Hrt.
      * pose proof (resolveType_returns_or_throws c ts) as Hrt. by rewrite E in Hrt.
  - unfold resolve_parent in Hc. destruct (resolveType c ts) as [t| | |] eqn:E; try done.
    destruct (hasParent t) eqn:Hp; [|done]. injection Hc as <-. bind_ret. rewrite Hp. simpl negb.
    cbn iota. assert (resolve_parent ts c = Some (getParentClass t)) as Hnext
      by (unfold resolve_parent; by rewrite E, Hp).
    destruct (IH fuel) as [(n & d & f & Hw & Hd & Hbefore & Hr)|[Hnone Hr]]; [simpl in Hf; lia| |].
    + left. exists (S n), d, f. simpl. rewrite Hnext. split; [done|]. split; [done|].
      split; [|done]. intros [|k] e Hk; simpl; [by intros [= <-]|]. rewrite Hnext.
      apply Hbefore. lia.
    + right. split; [|done]. intros [|k] e; simpl; [by intros [= <-]|]. rewrite Hnext. apply Hnone.
Qed.
