(* ===== verification/TypeSystemInv.v ===== *)
(** The invariant of a [TypeSystem], and what its operations do to the hierarchy. *)
From S2P Require Import Prelude Errors CppString Types TypeSystem StringFacts Hierarchy.

Record wf_types (ts : TypeSystem) : Prop := {
  wf_acyclic : acyclic ts;
  wf_parents : ∀ c p, extends ts c p → is_Some (m_classes ts !! p);
  wf_methods : ∀ c, is_Some (m_classMethods ts !! c) → is_Some (m_classes ts !! c);
  wf_names : ∀ c, Forall (λ m, str_ok (f_name m)) (getClassMethods c ts)
}.

Lemma wf_unregistered ts c :
  wf_types ts → m_classes ts !! c = None → getClassMethods c ts = [].
Proof.
  intros Hwf Hc. unfold getClassMethods. destruct (m_classMethods ts !! c) eqn:E; [|done].
  destruct (wf_methods _ Hwf c) as [t Ht]; [by rewrite E|congruence].
Qed.

(** ** Acyclicity under the operations *)
Lemma acyclic_mono ts ts' :
  (∀ c p, extends ts' c p → extends ts c p) → acyclic ts → acyclic ts'.
Proof.
  intros Hsub Ha c Hc. apply (Ha c).
  enough (∀ x y, tc (extends ts') x y → tc (extends ts) x y) by auto.
  induction 1; [by apply tc_once, Hsub|]. eapply tc_l; [by apply Hsub|done].
Qed.

Lemma parent_of_insert ts c t x :
  parent_of (with_classes (<[c := t]> (m_classes ts)) ts) x
  = if decide (x = c) then (if hasParent t then Some (getParentClass t) else None)
    else parent_of ts x.
Proof.
  unfold parent_of. simpl. case_decide as Hx.
  - subst. by rewrite lookup_insert_eq.
  - by rewrite lookup_insert_ne by done.
Qed.

Lemma is_Some_insert_class ts c t x :
  is_Some (m_classes ts !! x) → is_Some (<[c := t]> (m_classes ts) !! x).
Proof. intros [t' Ht]. rewrite lookup_insert. case_decide; eauto. Qed.

(** [registerClass] forgets the parent of the class, if it had one. *)
Lemma registerClass_extends ts c x p :
  extends (registerClass c ts).2 x p ↔ x ≠ c ∧ extends ts x p.
Proof.
  unfold extends, registerClass. cbn [snd]. rewrite parent_of_insert.
  case_decide; simpl; naive_solver.
Qed.

Lemma setClassMembers_classes ts c ms t ts' :
  setClassMembers c ms ts = Ret (t, ts') →
  ∃ t0, m_classes ts !! c = Some t0 ∧ t = setMembers ms t0 ∧
        ts' = with_classes (<[c := t]> (m_classes ts)) ts.
Proof.
  unfold setClassMembers. destruct (m_classes ts !! c); [|done]. intros. simplify_eq. eauto.
Qed.

Lemma setClassMembers_parent ts c ms t ts' x :
  setClassMembers c ms ts = Ret (t, ts') → parent_of ts' x = parent_of ts x.
Proof.
  intros (t0 & E & -> & ->)%setClassMembers_classes.
  rewrite parent_of_insert. case_decide as Hx; [|done]. subst.
  unfold parent_of. by rewrite E.
Qed.

Lemma setClassParent_classes ts c p t ts' :
  setClassParent c p ts = Ret (t, ts') →
  ∃ t0, m_classes ts !! c = Some t0 ∧ is_Some (m_classes ts !! p) ∧
        t = setParentClass p t0 ∧ ts' = with_classes (<[c := t]> (m_classes ts)) ts.
Proof.
  unfold setClassParent. destruct (m_classes ts !! c); [|done].
  destruct (m_classes ts !! p); [|done]. intros. simplify_eq. eauto 6.
Qed.

Lemma setClassParent_parent ts c p t ts' x :
  p ≠ EmptyString → setClassParent c p ts = Ret (t, ts') →
  parent_of ts' x = if decide (x = c) then Some p else parent_of ts x.
Proof.
  intros Hp (t0 & E & _ & -> & ->)%setClassParent_classes.
  rewrite parent_of_insert. case_decide; [|done].
  unfold hasParent. simpl. by rewrite bool_decide_false.
Qed.

(** The climb in the new hierarchy: as before, or through the new edge. *)
Lemma setClassParent_tc ts c p t ts' x y :
  p ≠ EmptyString → setClassParent c p ts = Ret (t, ts') →
  tc (extends ts') x y → tc (extends ts) x y ∨ (rtc (extends ts) x c ∧ rtc (extends ts) p y).
Proof.
  intros Hp Hs Htc.
  assert (∀ a b, extends ts' a b → (a = c ∧ b = p) ∨ extends ts a b) as Hedge.
  { intros a b. unfold extends. rewrite (setClassParent_parent _ _ _ _ _ _ Hp Hs).
    case_decide; naive_solver. }
  induction Htc as [a b Hab|a b d Hab Hbd IH].
  - destruct (Hedge _ _ Hab) as [[-> ->]|?]; [by right|by left; apply tc_once].
  - destruct (Hedge _ _ Hab) as [[-> ->]|Hab'].
    + right. split; [done|]. destruct IH as [?|[? ?]]; [by apply tc_rtc|done].
    + destruct IH as [?|[? ?]]; [left; by eapply tc_l|right; split; [by eapply rtc_l|done]].
Qed.

Lemma setClassParent_rtc ts c p t ts' x :
  p ≠ EmptyString → setClassParent c p ts = Ret (t, ts') →
  rtc (extends ts) x c → rtc (extends ts') x c.
Proof.
  intros Hp Hs Hr. revert Hs.
  induction Hr as [d|a b d Hab Hbd IH]; intros Hs; [done|].
  destruct (decide (a = d)) as [->|Hne]; [done|]. eapply rtc_l; [|exact (IH Hs)].
  unfold extends. rewrite (setClassParent_parent _ _ _ _ _ _ Hp Hs). by rewrite decide_False.
Qed.

Lemma setClassParent_acyclic ts c p t ts' :
  p ≠ EmptyString → setClassParent c p ts = Ret (t, ts') → acyclic ts →
  acyclic ts' ↔ ¬ rtc (extends ts) p c.
Proof.
  intros Hp Hs Ha. split.
  - intros Ha' Hr. apply (Ha' c). eapply tc_rtc_r.
    + apply tc_once. unfold extends.
      rewrite (setClassParent_parent _ _ _ _ _ _ Hp Hs). by rewrite decide_True.
    + by eapply setClassParent_rtc.
  - intros Hn d Hd. destruct (setClassParent_tc _ _ _ _ _ _ _ Hp Hs Hd) as [?|[? ?]].
    + by eapply Ha.
    + apply Hn. by etrans.
Qed.

Lemma TypeSystem_default_wf : wf_types TypeSystem_default.
Proof.
  split.
  - intros c Hc. inversion Hc; unfold extends, parent_of in *; simpl in *; simplify_map_eq.
  - intros c p. unfold extends, parent_of. simpl. by rewrite lookup_empty.
  - intros c. simpl. by rewrite lookup_empty; intros [].
  - intros c. unfold getClassMethods. simpl. rewrite lookup_empty. by constructor.
Qed.

(** ** Compatibility of types *)
Lemma isCompatible_spec ts from to :
  acyclic ts → printable from → printable to →
  ∃ b, isCompatible from to ts = Ret b ∧
       (b = true ↔ ty_text from = ty_text to ∨
          (m_isPointer from = true ∧ m_isPointer to = true ∧ isClass from = true ∧
           isClass to = true ∧ tc (extends ts) (getClassName from) (getClassName to))).
Proof.
  intros Ha Hf Ht. unfold isCompatible. rewrite !toString_ty_text by done. simpl.
  case_decide as Heq; [exists true; split; [done|tauto]|].
  destruct (m_isPointer from), (m_isPointer to), (isClass from), (isClass to); simpl;
    try (exists false; split; [done|]; intuition discriminate).
  unfold isSubclassOf. destruct (m_classes ts !! getClassName from) eqn:E.
  - destruct (isSubclassOf_loop_spec ts (hierarchy_fuel ts) (getClassName from) (getClassName to))
      as (b & -> & Hb); [by apply acyclic_walk|].
    exists b. split; [done|]. rewrite Hb. tauto.
  - exists false. split; [done|]. split; [done|]. intros [?|(_ & _ & _ & _ & Hc)]; [done|].
    exfalso. revert Hc. apply tc_extends_stop. unfold parent_of. by rewrite E.
Qed.
