(* ===== verification/Static.v ===== *)
(** Checks on a parse tree alone, and the tables a program that passes them can build.

    A program is [safe] when no two declarations of a class disagree on its parent, no
    class names itself as its parent, classes have the names the lexer gives and no
    typedef takes one of them, and three constructs the grammar accepts and the visitor
    does not handle are absent: [return;], an empty initialiser [{}], and a parent
    constructor called without arguments. *)
From S2P Require Import Prelude Errors CppString Types TypeSystem Syntax StringFacts Hierarchy.
From S2P Require Import TypeSystemInv.

(** ** Names *)
Lemma all_chars_free f c s : f c = false → all_chars f s = true → char_free c s.
Proof.
  unfold char_free. intros Hc. induction s as [|a s IH]; [done|]. simpl.
  intros [Ha Hs]%andb_prop. case_decide as Hac; [congruence|]. by rewrite IH.
Qed.

Lemma identifier_free c s :
  is_letter c = false → is_digit c = false → is_identifier s = true → char_free c s.
Proof.
  destruct s as [|a s]; [done|]. intros Hl Hd [Ha Hs]%andb_prop.
  apply (all_chars_free (λ a, is_letter a || is_digit a)); [by rewrite Hl, Hd|].
  simpl. by rewrite Ha, Hs.
Qed.

Lemma identifier_nonempty s : is_identifier s = true → s ≠ EmptyString.
Proof. by intros H ->. Qed.

(** ** The checks *)

(** No empty initialiser, and no [VarExpr]: the parser prefers [primary] for a name. *)
Fixpoint expr_complete (e : expr) : bool :=
  let args_complete (args : option (list expr)) :=
    match args with Some l => forallb expr_complete l | None => true end in
  match e with
  | PrimaryExpr (P_paren e) => expr_complete e
  | PrimaryExpr _ | LiteralExpr _ | NewExpr _ => true
  | VarExpr _ => false
  | MemberExpr e _ | PointerMemberExpr e _ | AddressOfExpr e | DereferenceExpr e
  | PostIncrementExpr e | PostDecrementExpr e | PreIncrementExpr e | PreDecrementExpr e =>
      expr_complete e
  | FuncCallExpr f => args_complete (fc_args f)
  | MulDivExpr l _ r | AddSubExpr l _ r | CompareExpr l _ r | AssignExpr l r
  | ArrayAccessExpr l r => expr_complete l && expr_complete r
  | NewWithConstructorExpr _ args => args_complete args
  | MethodCallExpr e _ args => expr_complete e && args_complete args
  | StructInitExpr l => bool_decide (is_Some l)
  end.

Definition opt_complete (e : option expr) : bool :=
  match e with Some e => expr_complete e | None => true end.

Definition super_complete (super : option (string * option (list expr))) : bool :=
  match super with
  | Some (_, Some args) => forallb expr_complete args
  | Some (_, None) => false
  | None => true
  end.

Fixpoint complete (s : statement) : bool :=
  match s with
  | S_functionDecl _ _ _ b => forallb complete b
  | S_varDecl v => opt_complete (vd_init v)
  | S_spawn _ => true
  | S_return e => match e with Some e => expr_complete e | None => false end
  | S_expr e => expr_complete e
  | S_block b => forallb complete b
  | S_struct _ => true
  | S_class _ _ ms _ =>
      forallb (λ m, match m with
                    | ClassField _ => true
                    | ClassMethod _ _ _ _ b => forallb complete b
                    | ClassConstructor _ _ super b => super_complete super && forallb complete b
                    end) ms
  | S_if c t e =>
      expr_complete c && complete t && match e with Some e => complete e | None => true end
  | S_while c b => expr_complete c && complete b
  | S_for i c st b =>
      match i with
      | FI_var v => opt_complete (vd_init v)
      | FI_expr e => expr_complete e
      | FI_none => true
      end && opt_complete c && opt_complete st && complete b
  | S_typedef _ _ => true
  end.

(** The classes a statement declares, at any depth, each with its parent. *)
Fixpoint class_decls (s : statement) : list (string * option string) :=
  match s with
  | S_functionDecl _ _ _ b | S_block b => concat (map class_decls b)
  | S_class c p ms _ =>
      (c, p) :: concat (map (λ m, match m with
                                  | ClassField _ => []
                                  | ClassMethod _ _ _ _ b | ClassConstructor _ _ _ b =>
                                      concat (map class_decls b)
                                  end) ms)
  | S_if _ t e => class_decls t ++ match e with Some e => class_decls e | None => [] end
  | S_while _ b | S_for _ _ _ b => class_decls b
  | _ => []
  end.

(** The names a statement gives to types. *)
Fixpoint typedef_names (s : statement) : list string :=
  match s with
  | S_functionDecl _ _ _ b | S_block b => concat (map typedef_names b)
  | S_class _ _ ms _ =>
      concat (map (λ m, match m with
                        | ClassField _ => []
                        | ClassMethod _ _ _ _ b | ClassConstructor _ _ _ b =>
                            concat (map typedef_names b)
                        end) ms)
  | S_if _ t e => typedef_names t ++ match e with Some e => typedef_names e | None => [] end
  | S_while _ b | S_for _ _ _ b => typedef_names b
  | S_typedef _ x => [x]
  | _ => []
  end.

Definition classes_consistent (D : list (string * option string)) : bool :=
  forallb (λ d1, is_identifier d1.1
                 && negb (bool_decide (d1.2 = Some d1.1))
                 && forallb (λ d2, bool_decide (d1.1 = d2.1 → d1.2 = d2.2)) D) D.

Definition safe (p : program) : bool :=
  let D := concat (map class_decls (pr_statements p)) in
  let T := concat (map typedef_names (pr_statements p)) in
  forallb complete (pr_statements p)
  && classes_consistent D
  && forallb (λ x, negb (bool_decide (x ∈ D.*1))) T.

(** ** The tables of a safe program

    [D] are the class declarations of the program and [T] its typedef names. *)
Section tables.
Context (D : list (string * option string)) (T : list string).

Record static_ok : Prop := {
  so_functional : ∀ c p1 p2, (c, p1) ∈ D → (c, p2) ∈ D → p1 = p2;
  so_no_self : ∀ c, (c, Some c) ∉ D;
  so_identifier : ∀ c, c ∈ D.*1 → is_identifier c = true;
  so_disjoint : ∀ x, x ∈ T → x ∉ D.*1
}.

(** A type that prints, with members that print, below a declared class if any. *)
Record ty_ok (t : Ty) : Prop := {
  to_printable : printable t;
  to_members : Forall (λ m, printable m.2) (m_structMembers t);
  to_parent : hasParent t = true → getParentClass t ∈ D.*1
}.

Record fn_ok (f : Function) : Prop := {
  fo_return : printable (f_returnType f);
  fo_params : Forall (λ p, ty_ok p.2) (f_params f)
}.

Record tables_ok (ts : TypeSystem) : Prop := {
  tb_acyclic : acyclic ts;
  tb_parents : ∀ c p, extends ts c p → is_Some (m_classes ts !! p);
  tb_classes : ∀ c, is_Some (m_classes ts !! c) → (c, parent_of ts c) ∈ D;
  tb_typedefs : ∀ x, is_Some (m_typedefs ts !! x) → x ∈ T;
  tb_typedef_ty : map_Forall (λ _, ty_ok) (m_typedefs ts);
  tb_struct_ty : map_Forall (λ _ t, ty_ok t ∧ hasParent t = false) (m_structs ts);
  tb_class_ty : map_Forall (λ _, ty_ok) (m_classes ts);
  tb_methods : ∀ c, Forall fn_ok (getClassMethods c ts)
}.

Lemma ty_ok_base b : b ≠ NO_TYPE → ty_ok (Type_base b).
Proof. intros Hb. split; [done|by constructor|done]. Qed.

Lemma ty_ok_setPointer b t : ty_ok t → ty_ok (setPointer b t).
Proof. intros []. by split. Qed.

Lemma ty_ok_setArray n sizes t : ty_ok t → ty_ok (setArray n sizes t).
Proof. intros []. by split. Qed.

Lemma ty_ok_setMembers ms t :
  Forall (λ m, ty_ok m.2) ms → ty_ok t → ty_ok (setMembers ms t).
Proof.
  intros Hms [Hp _ Hpar]. split; [done| |done]. simpl.
  eapply Forall_impl; [exact Hms|]. intros m Hm. apply Hm.
Qed.

Lemma ty_ok_setParentClass p t : p ∈ D.*1 → ty_ok t → ty_ok (setParentClass p t).
Proof. intros Hp []. by split. Qed.

Lemma ty_ok_named b x : b ≠ NO_TYPE → ty_ok (setStruct x (Type_base b)).
Proof. intros Hb. split; [done|by constructor|done]. Qed.

Lemma tables_ok_default : tables_ok TypeSystem_default.
Proof.
  destruct TypeSystem_default_wf as [Ha Hp _ _].
  split; try done; simpl; try (intros ? []%lookup_empty_is_Some); try apply map_Forall_empty.
Qed.

(** The parent relation is all [acyclic] and [extends] look at. *)
Lemma tables_ok_same ts ts' :
  m_classes ts' = m_classes ts → m_typedefs ts' = m_typedefs ts → m_structs ts' = m_structs ts →
  m_classMethods ts' = m_classMethods ts → tables_ok ts → tables_ok ts'.
Proof.
  intros Hc Ht Hs Hm [Ha Hp Hcl Htd Htt Hst Hct Hme].
  assert (∀ x, parent_of ts' x = parent_of ts x) as Hpar.
  { intros x. unfold parent_of. by rewrite Hc. }
  split.
  - eapply acyclic_mono, Ha. unfold extends. intros x p. by rewrite Hpar.
  - unfold extends. intros x p. rewrite Hpar, Hc. apply Hp.
  - intros c. rewrite Hpar, Hc. apply Hcl.
  - intros c. rewrite Ht. apply Htd.
  - by rewrite Ht.
  - by rewrite Hs.
  - by rewrite Hc.
  - intros c. unfold getClassMethods. rewrite Hm. apply Hme.
Qed.

Lemma tables_ok_define k v ts : tables_ok ts → tables_ok (registerDefine k v ts).
Proof. by apply tables_ok_same. Qed.

Lemma tables_ok_function f ts ts' :
  registerFunction (Some f) ts = Ret ts' → tables_ok ts → tables_ok ts'.
Proof. intros [= <-]. by apply tables_ok_same. Qed.

Lemma tables_ok_constructor c f ts ts' :
  registerClassConstructor c (Some f) ts = Ret ts' → tables_ok ts → tables_ok ts'.
Proof. intros [= <-]. by apply tables_ok_same. Qed.

Lemma tables_ok_typedef x t ts :
  x ∈ T → ty_ok t → tables_ok ts → tables_ok (registerTypeDef x t ts).
Proof.
  intros Hx Ht [Ha Hp Hcl Htd Htt Hst Hct Hme]. split; try done; simpl.
  - intros y [->|[_ Hy]]%lookup_insert_is_Some; [done|by apply Htd].
  - by apply map_Forall_insert_2.
Qed.

Lemma tables_ok_with_struct x t ts :
  ty_ok t → hasParent t = false → tables_ok ts →
  tables_ok (with_structs (<[x := t]> (m_structs ts)) ts).
Proof.
  intros Ht Hpar [Ha Hp Hcl Htd Htt Hst Hct Hme]. split; try done.
  by apply map_Forall_insert_2.
Qed.

Lemma tables_ok_struct x ts : tables_ok ts → tables_ok (registerStruct x ts).2.
Proof. apply tables_ok_with_struct; [by apply ty_ok_named|done]. Qed.

Lemma tables_ok_struct_members x ms t ts ts' :
  setStructMembers x ms ts = Ret (t, ts') → Forall (λ m, ty_ok m.2) ms →
  tables_ok ts → tables_ok ts' ∧ ty_ok t.
Proof.
  unfold setStructMembers. destruct (m_structs ts !! x) as [t0|] eqn:E; [|done].
  intros [= <- <-] Hms Hts. destruct (tb_struct_ty _ Hts _ _ E) as [Ht0 Hpar].
  split; [|by apply ty_ok_setMembers].
  apply tables_ok_with_struct; [by apply ty_ok_setMembers|done..].
Qed.

Lemma tables_ok_class_members c ms t ts ts' :
  setClassMembers c ms ts = Ret (t, ts') → Forall (λ m, ty_ok m.2) ms →
  tables_ok ts → tables_ok ts' ∧ ty_ok t.
Proof.
  intros Hs Hms Hts. pose proof (λ x, setClassMembers_parent _ _ _ _ _ x Hs) as Hpar.
  apply setClassMembers_classes in Hs as (t0 & E & -> & ->).
  assert (ty_ok (setMembers ms t0)) as Ht.
  { apply ty_ok_setMembers; [done|]. apply (tb_class_ty _ Hts _ _ E). }
  split; [|done]. destruct Hts as [Ha Hp Hcl Htd Htt Hst Hct Hme]. split; try done.
  - eapply acyclic_mono, Ha. unfold extends. intros x p. by rewrite Hpar.
  - unfold extends. intros x p. rewrite Hpar. intros Hx. by apply is_Some_insert_class, (Hp x).
  - intros x. rewrite Hpar. simpl. intros [->|[_ Hx]]%lookup_insert_is_Some; apply Hcl; by eauto.
  - by apply map_Forall_insert_2.
Qed.

Lemma tables_ok_method c f ts ts' :
  registerClassMethod c (Some f) ts = Ret ts' → fn_ok f → tables_ok ts → tables_ok ts'.
Proof.
  intros [= <-] Hf [Ha Hp Hcl Htd Htt Hst Hct Hme]. split; try done.
  intros x. unfold getClassMethods. simpl. rewrite lookup_insert.
  case_decide; [|apply Hme]. simpl. apply Forall_app. split; [apply Hme|by constructor].
Qed.

(** A class declaration: the parent the tables end with is the declared one, so the
    first visit of a class and every later one leave the hierarchy acyclic. *)
Lemma registerClass_parent c ts x :
  parent_of (registerClass c ts).2 x = if decide (x = c) then None else parent_of ts x.
Proof. apply parent_of_insert. Qed.

Lemma tables_ok_class c ts : (c, None) ∈ D → tables_ok ts → tables_ok (registerClass c ts).2.
Proof.
  intros Hc [Ha Hp Hcl Htd Htt Hst Hct Hme]. split; try done.
  - eapply acyclic_mono, Ha. intros x p Hx%registerClass_extends. tauto.
  - intros x p [_ Hx]%registerClass_extends. by apply is_Some_insert_class, (Hp x).
  - intros x. rewrite registerClass_parent. simpl. rewrite lookup_insert_is_Some.
    case_decide; [by subst|]. intros [?|[_ Hx]]; [congruence|]. by apply Hcl.
  - apply map_Forall_insert_2; [by apply ty_ok_named|done].
Qed.

Lemma registerClass_registered c ts x :
  is_Some (m_classes (registerClass c ts).2 !! x) ↔ x = c ∨ is_Some (m_classes ts !! x).
Proof. simpl. rewrite lookup_insert_is_Some. destruct (decide (x = c)); naive_solver. Qed.

(** Before [setClassParent] runs, the tables are those of the last visit of the class,
    or [registerClass] has just reset the class. *)
Definition before_parent (c : string) (ts ts0 : TypeSystem) : Prop :=
  ts0 = ts ∨ ts0 = (registerClass c ts).2.

Lemma before_parent_of c ts ts0 x :
  before_parent c ts ts0 →
  parent_of ts0 x = parent_of ts x ∨ (x = c ∧ parent_of ts0 x = None).
Proof.
  intros [->| ->]; [by left|]. rewrite registerClass_parent. case_decide; auto.
Qed.

Lemma before_parent_extends c ts ts0 x q :
  before_parent c ts ts0 → extends ts0 x q → extends ts x q.
Proof.
  intros Hb. unfold extends. by destruct (before_parent_of _ _ _ x Hb) as [->|[_ ->]].
Qed.

Lemma before_parent_ty c ts ts0 :
  before_parent c ts ts0 → tables_ok ts → map_Forall (λ _, ty_ok) (m_classes ts0).
Proof.
  intros [->| ->] Hts; [apply Hts|]. by apply map_Forall_insert_2; [apply ty_ok_named|apply Hts].
Qed.

Lemma before_parent_registered c ts ts0 x :
  before_parent c ts ts0 → is_Some (m_classes ts0 !! x) → x = c ∨ is_Some (m_classes ts !! x).
Proof. intros [->| ->]; [auto|]. apply registerClass_registered. Qed.

Lemma before_parent_kept c ts ts0 x :
  before_parent c ts ts0 → is_Some (m_classes ts !! x) → is_Some (m_classes ts0 !! x).
Proof. intros [->| ->]; [auto|]. intros. apply registerClass_registered. auto. Qed.

(** The declared parent closes no cycle. *)
Lemma declared_parent_no_cycle c p ts ts0 :
  static_ok → (c, Some p) ∈ D → tables_ok ts → before_parent c ts ts0 →
  ¬ rtc (extends ts0) p c.
Proof.
  intros HD Hc Hts Hb Hr.
  assert (rtc (extends ts) p c) as Hr'.
  { eapply rtc_subrel; [|exact Hr]. intros x q. by apply (before_parent_extends c). }
  assert (is_Some (m_classes ts !! c)) as Hreg.
  { apply rtc_inv_r in Hr' as [->|(y & _ & Hy)]; [by destruct (so_no_self HD c)|].
    by apply (tb_parents _ Hts y). }
  apply (tb_acyclic _ Hts c). eapply tc_rtc_r; [|exact Hr']. apply tc_once.
  by apply (so_functional HD c), Hc; apply (tb_classes _ Hts).
Qed.

Lemma tables_ok_parent c p t ts ts0 ts' :
  static_ok → (c, Some p) ∈ D → tables_ok ts → before_parent c ts ts0 →
  setClassParent c p ts0 = Ret (t, ts') → tables_ok ts'.
Proof.
  intros HD Hc Hts Hb Hs. pose proof (declared_parent_no_cycle _ _ _ _ HD Hc Hts Hb) as Hn.
  assert (is_Some (m_classes ts !! p)) as Hreg.
  { apply setClassParent_classes in Hs as (_ & _ & Hp & _).
    apply (before_parent_registered _ _ _ _ Hb) in Hp as [->|?]; [|done].
    by destruct (so_no_self HD c). }
  pose proof (list_elem_of_fmap_2 fst _ _ (tb_classes _ Hts _ Hreg)) as HpD.
  assert (p ≠ EmptyString) as Hpe by (by apply identifier_nonempty, (so_identifier HD)).
  pose proof (λ x, setClassParent_parent _ _ _ _ _ x Hpe Hs) as Hpar.
  assert (acyclic ts') as Hacy.
  { eapply setClassParent_acyclic; [exact Hpe|exact Hs| |exact Hn].
    eapply acyclic_mono, Hts. intros x q. by apply (before_parent_extends c). }
  apply setClassParent_classes in Hs as (t0 & E & _ & -> & Hts').
  pose proof (before_parent_ty _ _ _ Hb Hts) as Hty.
  assert (∀ x, is_Some (m_classes ts !! x) → is_Some (m_classes ts' !! x)) as Hdom.
  { intros x Hx. rewrite Hts'. by apply is_Some_insert_class, (before_parent_kept c ts). }
  assert (m_typedefs ts' = m_typedefs ts ∧ m_structs ts' = m_structs ts ∧
          m_classMethods ts' = m_classMethods ts) as (Etd & Est & Eme).
  { rewrite Hts'. by destruct Hb as [->| ->]. }
  destruct Hts as [_ Hp Hcl Htd Htt Hst Hct Hme].
  split; rewrite ?Etd, ?Est; try done.
  - unfold extends. intros x q. rewrite Hpar. case_decide; [intros [= <-]; auto|].
    intros Hx. apply Hdom, (Hp x), (before_parent_extends _ _ _ _ _ Hb), Hx.
  - intros x. rewrite Hpar, Hts'. simpl. rewrite lookup_insert_is_Some.
    case_decide; [by subst|]. intros [?|[_ Hx]]; [congruence|].
    destruct (before_parent_of _ _ _ x Hb) as [->|[? _]]; [|done].
    apply Hcl. by destruct (before_parent_registered _ _ _ _ Hb Hx) as [->|?].
  - rewrite Hts'. apply map_Forall_insert_2; [|exact Hty].
    apply ty_ok_setParentClass; [done|]. apply (Hty _ _ E).
  - intros x. unfold getClassMethods. rewrite Eme. apply Hme.
Qed.
End tables.
