(* ===== verification/VTable.v ===== *)
(** Virtual methods and vtables: what [getAllVirtualMethods],
    [generateVTableStruct] and [generateVTableInstance] of
    src/types/TypeSystem.cpp produce on a well-formed type system. *)
From S2P Require Import Prelude Errors CppString Types TypeSystem StringFacts Hierarchy.
From S2P Require Import TypeSystemInv.

(** ** Collecting virtual methods *)
Definition collected (ms : list Function) : list Function :=
  (foldl collect_virtual ([], ∅) ms).1.

(** The names seen are those of the methods collected. *)
Lemma collect_virtual_seen ms n :
  n ∈ (foldl collect_virtual ([], ∅) ms).2 ↔ n ∈ f_name <$> collected ms.
Proof.
  unfold collected. induction ms as [|m ms IH] using rev_ind; [set_solver|].
  rewrite foldl_snoc. unfold collect_virtual at 1 3.
  destruct (f_isVirtual m && _); [|exact IH]. simpl.
  rewrite fmap_app, elem_of_app, elem_of_union, elem_of_singleton, IH.
  simpl. rewrite list_elem_of_singleton. tauto.
Qed.

Lemma collected_snoc ms m :
  collected (ms ++ [m])
  = if f_isVirtual m && negb (bool_decide (f_name m ∈ f_name <$> collected ms))
    then collected ms ++ [m] else collected ms.
Proof.
  unfold collected at 1. rewrite foldl_snoc. unfold collect_virtual at 1.
  rewrite (bool_decide_ext _ _ (collect_virtual_seen ms (f_name m))).
  by destruct (f_isVirtual m && _).
Qed.

(** Every collected method is a virtual one of the list. *)
Lemma collected_sound ms m : m ∈ collected ms → m ∈ ms ∧ f_isVirtual m = true.
Proof.
  induction ms as [|m' ms IH] using rev_ind; [by intros ?%not_elem_of_nil|].
  rewrite collected_snoc, elem_of_app.
  destruct (f_isVirtual m') eqn:Ev; simpl; [|naive_solver].
  destruct (negb _); [|naive_solver].
  rewrite elem_of_app. intros [?%IH|Hm]; [naive_solver|].
  assert (m = m') as -> by (by apply list_elem_of_singleton). auto.
Qed.

(** Every virtual method of the list is collected, up to its name. *)
Lemma collected_complete ms m :
  m ∈ ms → f_isVirtual m = true → f_name m ∈ f_name <$> collected ms.
Proof.
  intros Hm Hv. induction ms as [|m' ms IH] using rev_ind; [by apply not_elem_of_nil in Hm|].
  rewrite collected_snoc. apply elem_of_app in Hm as [Hm|Hm].
  - specialize (IH Hm). destruct (f_isVirtual m' && _); [|done].
    rewrite fmap_app, elem_of_app. by left.
  - assert (m' = m) as -> by (symmetry; by apply list_elem_of_singleton). rewrite Hv. simpl.
    case_bool_decide; simpl; [done|].
    rewrite fmap_app, elem_of_app. right. by left.
Qed.

Lemma collected_NoDup ms : NoDup (f_name <$> collected ms).
Proof.
  induction ms as [|m ms IH] using rev_ind; [constructor|].
  rewrite collected_snoc. destruct (f_isVirtual m); simpl; [|done].
  case_bool_decide as Hn; simpl; [done|].
  rewrite fmap_app. apply NoDup_app. split; [done|]. split; [|apply NoDup_singleton].
  intros n Hn1 Hn2. assert (n = f_name m) as -> by (by apply list_elem_of_singleton). done.
Qed.

Lemma getAllVirtualMethods_wf ts c l :
  wf_types ts → lineage ts c l →
  getAllVirtualMethods c ts = Ret (collected (lineage_methods ts l)).
Proof.
  intros Hwf Hl. unfold getAllVirtualMethods.
  rewrite (getAllVirtualMethods_loop_spec _ _ _ l) by (done || apply acyclic_walk, Hwf).
  done.
Qed.

Lemma lineage_methods_ok ts l :
  wf_types ts → Forall (λ m, str_ok (f_name m)) (lineage_methods ts l).
Proof.
  intros Hwf. unfold lineage_methods. apply Forall_concat, Forall_fmap, Forall_true.
  intros c. apply (wf_names _ Hwf).
Qed.

Lemma collected_ok ts l :
  wf_types ts → Forall (λ m, str_ok (f_name m)) (collected (lineage_methods ts l)).
Proof.
  intros Hwf. apply Forall_forall. intros m [Hm _]%collected_sound.
  pose proof (lineage_methods_ok ts l Hwf) as Hall. rewrite Forall_forall in Hall. by apply Hall.
Qed.

(** ** The slots of a vtable *)

(** The virtual base names of a list of methods, first occurrences only. *)
Definition slot_step (st : list string * gset string) (b : string)
    : list string * gset string :=
  if decide (b ∈ st.2) then st else (st.1 ++ [b], {[b]} ∪ st.2).
Definition first_occurrences (l : list string) : list string :=
  (foldl slot_step ([], ∅) l).1.
Definition virtual_bases (ms : list Function) : list string :=
  (λ m, base_of (f_name m)) <$> collected ms.

Lemma slot_step_seen l n :
  n ∈ (foldl slot_step ([], ∅) l).2 ↔ n ∈ first_occurrences l.
Proof.
  unfold first_occurrences. induction l as [|b l IH] using rev_ind; [set_solver|].
  rewrite foldl_snoc. unfold slot_step at 1 3.
  case_decide; [exact IH|]. simpl.
  rewrite elem_of_app, elem_of_union, elem_of_singleton, IH, list_elem_of_singleton. tauto.
Qed.

Lemma first_occurrences_snoc l b :
  first_occurrences (l ++ [b])
  = if decide (b ∈ first_occurrences l) then first_occurrences l
    else first_occurrences l ++ [b].
Proof.
  unfold first_occurrences at 1. rewrite foldl_snoc. unfold slot_step at 1.
  pose proof (slot_step_seen l b) as Hiff. repeat case_decide; done || tauto.
Qed.

Lemma elem_of_first_occurrences l b : b ∈ first_occurrences l ↔ b ∈ l.
Proof.
  induction l as [|b' l IH] using rev_ind; [done|].
  rewrite first_occurrences_snoc, (elem_of_app l), <-IH, list_elem_of_singleton.
  case_decide; [|rewrite elem_of_app, list_elem_of_singleton; tauto].
  split; [tauto|]. by intros [?| ->].
Qed.

Lemma first_occurrences_NoDup l : NoDup (first_occurrences l).
Proof.
  induction l as [|b l IH] using rev_ind; [constructor|].
  rewrite first_occurrences_snoc. case_decide; [done|].
  apply NoDup_app. split; [done|]. split; [|apply NoDup_singleton].
  intros n Hn1 Hn2. assert (n = b) as -> by (by apply list_elem_of_singleton). done.
Qed.

Lemma elem_of_virtual_bases ms b :
  b ∈ virtual_bases ms ↔ ∃ m, m ∈ ms ∧ f_isVirtual m = true ∧ base_of (f_name m) = b.
Proof.
  unfold virtual_bases. rewrite list_elem_of_fmap. split.
  - intros (m & -> & [Hm Hv]%collected_sound). eauto.
  - intros (m & Hm & Hv & <-). pose proof (collected_complete _ _ Hm Hv) as Hin.
    apply list_elem_of_fmap in Hin as (m' & Hn & Hm'). exists m'. by rewrite Hn.
Qed.

(** The slot names and implementations for a class [c] of lineage [l]. *)
Definition vtable_slots (ts : TypeSystem) (c : string) (l : list string)
    : list (string * string) :=
  (λ b, (b, default (c +:+ "_" +:+ b) (first_impl (lineage_methods ts l) b)))
    <$> first_occurrences (virtual_bases (lineage_methods ts l)).

(** The initialiser the slots are printed as. *)
Definition slot_text (slot : string * string) : string :=
  "    ." +:+ slot.1 +:+ " = " +:+ slot.2 +:+ "," +:+ nl.
Definition vtable_text (c : string) (slots : list (string * string)) : string :=
  match slots with
  | [] => EmptyString
  | _ => foldl (λ acc slot, acc +:+ slot_text slot)
           ("static struct vtable " +:+ c +:+ "_vtable = {" +:+ nl) slots
           +:+ "};" +:+ nl +:+ nl
  end.

Lemma foldM_outcome_fold {A B} (f : B → A → outcome B) (P : B → Prop) (g : B → A → B) l b :
  P b → (∀ b a, P b → a ∈ l → f b a = Ret (g b a) ∧ P (g b a)) →
  foldM f l b = Ret (foldl g b l).
Proof.
  revert b. induction l as [|a l IH]; intros b Hb Hf; simpl; [done|].
  destruct (Hf b a Hb) as [-> Hg]; [by left|]. simpl. apply IH; [done|].
  intros. apply Hf; [done|by right].
Qed.

Lemma findMethodImplementation_wf ts c l b :
  wf_types ts → lineage ts c l →
  findMethodImplementation c b ts
  = Ret (default (c +:+ "_" +:+ b) (first_impl (lineage_methods ts l) b)).
Proof.
  intros Hwf Hl. unfold findMethodImplementation.
  apply (findMethodImplementation_loop_spec ts _ c l).
  - apply (wf_names _ Hwf).
  - intros x Hx. by apply wf_unregistered.
  - apply acyclic_walk, Hwf.
  - done.
Qed.

(** The slot loop appends the text of each new slot to the initialiser. *)
Lemma slot_loop_text (f : string → string * string) header bs :
  foldl (λ (st : string * gset string) b,
           if decide (b ∈ st.2) then st else (st.1 +:+ slot_text (f b), {[b]} ∪ st.2))
        (header, ∅) bs
  = (foldl (λ acc slot, acc +:+ slot_text slot) header (f <$> first_occurrences bs),
     (foldl slot_step ([], ∅) bs).2).
Proof.
  induction bs as [|b bs IH] using rev_ind; [done|].
  rewrite foldl_snoc, IH, first_occurrences_snoc, foldl_snoc. cbn [fst snd].
  pose proof (slot_step_seen bs b) as Hiff. repeat case_decide; try tauto; f_equal.
  - symmetry. unfold slot_step at 1. by rewrite decide_True.
  - by rewrite fmap_app, foldl_app.
  - symmetry. unfold slot_step at 1. by rewrite decide_False.
Qed.

Lemma slot_loop_methods (f : string → string * string) header (ms : list Function) :
  foldl (λ (st : string * gset string) m,
           if decide (base_of (f_name m) ∈ st.2) then st
           else (st.1 +:+ slot_text (f (base_of (f_name m))), {[base_of (f_name m)]} ∪ st.2))
        (header, ∅) ms
  = (foldl (λ acc slot, acc +:+ slot_text slot) header
       (f <$> first_occurrences ((λ m, base_of (f_name m)) <$> ms)),
     (foldl slot_step ([], ∅) ((λ m, base_of (f_name m)) <$> ms)).2).
Proof. rewrite <-slot_loop_text, foldl_fmap. done. Qed.

Lemma generateVTableInstance_wf ts c l :
  wf_types ts → lineage ts c l →
  generateVTableInstance c ts = Ret (vtable_text c (vtable_slots ts c l)).
Proof.
  intros Hwf Hl. unfold generateVTableInstance, vtable_slots, virtual_bases.
  rewrite (getAllVirtualMethods_wf _ _ _ Hwf Hl). bind_ret.
  pose proof (collected_ok ts l Hwf) as Hok.
  destruct (collected (lineage_methods ts l)) as [|m ms] eqn:E; [done|].
  set (f := λ b, (b, default (c +:+ "_" +:+ b) (first_impl (lineage_methods ts l) b))).
  erewrite (foldM_outcome_fold _ (λ _, True)
    (λ (st : string * gset string) m,
       if decide (base_of (f_name m) ∈ st.2) then st
       else (st.1 +:+ slot_text (f (base_of (f_name m))), {[base_of (f_name m)]} ∪ st.2)));
    [|done|].
  2:{ intros [inst seen] m' _ Hm'. split; [|done]. rewrite Forall_forall in Hok.
      rewrite method_base_name_ok by (by apply Hok). bind_ret. simpl.
      case_decide; [done|]. by rewrite (findMethodImplementation_wf _ _ l). }
  bind_ret. f_equal.
  rewrite slot_loop_methods.
  cbn [fst]. unfold vtable_text.
  destruct (f <$> first_occurrences _) as [|slot slots] eqn:Es; [|done].
  apply fmap_nil_inv in Es. exfalso.
  apply (not_elem_of_nil (base_of (f_name m))). rewrite <-Es.
  apply elem_of_first_occurrences. by left.
Qed.

(** ** The vtable struct *)
Lemma elem_of_foldl_collect {A} (P : A → string → Prop) (g : gset string → A → gset string) l s x :
  (∀ s a, x ∈ g s a ↔ x ∈ s ∨ P a x) →
  x ∈ foldl g s l ↔ x ∈ s ∨ ∃ a, a ∈ l ∧ P a x.
Proof.
  intros Hg. revert s. induction l as [|a l IH]; intros s; simpl.
  - split; [by left|]. intros [?|(a & ?%not_elem_of_nil & _)]; done.
  - rewrite IH, Hg. split.
    + intros [[?|?]|(a' & ? & ?)]; [by left|right..].
      * exists a. split; [by left|done].
      * exists a'. split; [by right|done].
    + intros [?|(a' & [->|?]%elem_of_cons & ?)]; [tauto..|]. right. eauto.
Qed.

(** The virtual base names visible from a class. *)
Definition class_bases (ts : TypeSystem) (c : string) : list string :=
  match getAllVirtualMethods c ts with
  | Ret ms => (λ m, base_of (f_name m)) <$> ms
  | _ => []
  end.

Definition vtable_field_text (b : string) : string :=
  "    void (*" +:+ b +:+ ")(void* this);" +:+ nl.

Lemma generateVTableStruct_wf ts :
  wf_types ts →
  ∃ fields : gset string,
    generateVTableStruct ts
      = Ret (foldl (λ acc b, acc +:+ vtable_field_text b) ("struct vtable {" +:+ nl)
               (set_iter fields) +:+ "};" +:+ nl +:+ nl) ∧
    ∀ b, b ∈ fields ↔ ∃ c, is_Some (m_classes ts !! c) ∧ b ∈ class_bases ts c.
Proof.
  intros Hwf. unfold generateVTableStruct.
  exists (foldl (λ (s : gset string) (kv : string * Ty),
            foldl (λ s b, {[b]} ∪ s) s (class_bases ts kv.1)) ∅ (map_iter (m_classes ts))).
  split.
  - rewrite (foldM_outcome_pure _ (λ (s : gset string) (kv : string * Ty),
      foldl (λ s b, {[b]} ∪ s) s (class_bases ts kv.1))); [done|].
    intros s [c t] _. simpl. unfold class_bases.
    destruct (lineage_acyclic ts c (wf_acyclic _ Hwf)) as [l Hl].
    rewrite (getAllVirtualMethods_wf _ _ _ Hwf Hl). bind_ret.
    rewrite (foldM_outcome_pure _ (λ s m, {[base_of (f_name m)]} ∪ s)).
    { by rewrite foldl_fmap. }
    intros s' m Hm. pose proof (collected_ok ts l Hwf) as Hok. rewrite Forall_forall in Hok.
    by rewrite method_base_name_ok by (by apply Hok).
  - intros b. rewrite (elem_of_foldl_collect (λ kv b, b ∈ class_bases ts kv.1)).
    + split.
      * intros [?%not_elem_of_empty|([c t] & Hin%elem_of_map_iter & Hb)]; [done|]. eauto.
      * intros (c & [t Ht] & Hb). right. exists (c, t). by rewrite elem_of_map_iter.
    + intros s [c t]. rewrite (elem_of_foldl_collect (λ b' b, b' = b)); [|set_solver].
      simpl. split; [intros [?|(? & ? & ->)]; auto|intros [?|?]; eauto].
Qed.

Lemma class_bases_lineage ts c l b :
  wf_types ts → lineage ts c l →
  b ∈ class_bases ts c ↔ b ∈ (vtable_slots ts c l).*1.
Proof.
  intros Hwf Hl. unfold class_bases. rewrite (getAllVirtualMethods_wf _ _ _ Hwf Hl).
  unfold vtable_slots. rewrite <-list_fmap_compose. simpl.
  rewrite (list_fmap_ext _ id), list_fmap_id by done.
  by rewrite elem_of_first_occurrences.
Qed.

(** [first_impl] is the first method of that base name. *)
Lemma first_impl_Some ms b f :
  first_impl ms b = Some f ↔
  ∃ ms1 m ms2, ms = ms1 ++ m :: ms2 ∧ f_name m = f ∧ base_of (f_name m) = b ∧
               ∀ m', m' ∈ ms1 → base_of (f_name m') ≠ b.
Proof.
  unfold first_impl. split.
  - induction ms as [|m ms IH]; simpl; [done|].
    case_bool_decide as Hb; simpl; [intros; simplify_eq|].
    + exists [], m, ms. repeat split; try done. by intros ? ?%not_elem_of_nil.
    + intros (ms1 & m' & ms2 & -> & ? & ? & Hne)%IH. exists (m :: ms1), m', ms2.
      repeat split; try done. intros m'' [->|?]%elem_of_cons; auto.
  - intros (ms1 & m & ms2 & -> & <- & Hb & Hne).
    induction ms1 as [|m1 ms1 IH]; simpl.
    + by rewrite bool_decide_true.
    + rewrite bool_decide_false by (apply Hne; by left). apply IH. intros. apply Hne. by right.
Qed.

Lemma first_impl_is_Some ms b :
  (∃ m, m ∈ ms ∧ base_of (f_name m) = b) → is_Some (first_impl ms b).
Proof.
  unfold first_impl. intros (m & Hm & Hb). induction ms as [|m' ms IH]; simpl.
  - by apply not_elem_of_nil in Hm.
  - case_bool_decide; simpl; [by eexists|]. apply elem_of_cons in Hm as [->|Hm]; [done|auto].
Qed.

Lemma vtable_slots_fst ts c l :
  (vtable_slots ts c l).*1 = first_occurrences (virtual_bases (lineage_methods ts l)).
Proof.
  unfold vtable_slots. rewrite <-list_fmap_compose.
  rewrite (list_fmap_ext _ id), list_fmap_id by done. done.
Qed.

Lemma vtable_slots_impl ts c l b f :
  (b, f) ∈ vtable_slots ts c l → first_impl (lineage_methods ts l) b = Some f.
Proof.
  unfold vtable_slots. intros (b' & Hb & Hin)%list_elem_of_fmap. simplify_eq.
  apply elem_of_first_occurrences, elem_of_virtual_bases in Hin as (m & Hm & _ & Hbase).
  destruct (first_impl_is_Some (lineage_methods ts l) b') as [f' ->]; eauto.
Qed.
