(* ===== verification/TypeSystemProps.v ===== *)
(** The properties of the type system: the parents it accepts, the hierarchy queries, type
    resolution, compatibility and the vtables. *)
From S2P Require Import Prelude Errors CppString Types TypeSystem StringFacts Hierarchy.
From S2P Require Import TypeSystemInv VTable.
#[local] Open Scope Z_scope.

(** ** The hierarchy *)

(** A small hierarchy for the witnesses: [Dog] and [Puppy] below [Animal]. *)
Definition ty_int : Ty := Type_base BInt.
Definition fn (name : string) (virt : bool) : Function :=
  mkFunction name [] (Type_base BVoid) false virt.

Definition animal_ops : outcome TypeSystem :=
  let ts := (registerClass "Animal" TypeSystem_default).2 in
  r ← setClassMembers "Animal" [("age", ty_int)] ts;
  ts ← registerClassMethod "Animal" (Some (fn "Animal_speak" true)) r.2;
  ts ← registerClassMethod "Animal" (Some (fn "Animal_sleep" false)) ts;
  let ts := (registerClass "Dog" ts).2 in
  r ← setClassParent "Dog" "Animal" ts;
  r ← setClassMembers "Dog" [("breed", ty_int)] r.2;
  ts ← registerClassMethod "Dog" (Some (fn "Dog_speak" true)) r.2;
  let ts := (registerClass "Puppy" ts).2 in
  r ← setClassParent "Puppy" "Dog" ts;
  r ← setClassMembers "Puppy" [] r.2;
  Ret r.2.

Definition animals : TypeSystem :=
  match animal_ops with Ret ts => ts | _ => TypeSystem_default end.

(** [wf_types] of a concrete type system, by evaluation. *)
Definition wf_check (ts : TypeSystem) : bool :=
  bool_decide (acyclic ts)
  && bool_decide (map_Forall (λ _ t, hasParent t = true → is_Some (m_classes ts !! getParentClass t))
                    (m_classes ts))
  && bool_decide (map_Forall (λ c ms, is_Some (m_classes ts !! c) ∧
                                Forall (λ m, str_ok (f_name m)) ms) (m_classMethods ts)).

Lemma wf_check_sound ts : wf_check ts = true → wf_types ts.
Proof.
  unfold wf_check. intros [[Ha Hp]%andb_prop Hm]%andb_prop.
  apply bool_decide_eq_true in Ha, Hp, Hm. split; [done|..].
  - intros c p. unfold extends, parent_of.
    destruct (m_classes ts !! c) as [t|] eqn:E; [|done].
    pose proof (Hp _ _ E) as Ht. simpl in Ht. destruct (hasParent t); [|done].
    intros. simplify_eq. auto.
  - intros c [ms E]. by destruct (Hm _ _ E).
  - intros c. unfold getClassMethods. destruct (m_classMethods ts !! c) as [ms|] eqn:E; simpl.
    + by destruct (Hm _ _ E).
    + by constructor.
Qed.

(** C27. [setClassParent].  It checks that the class and the parent are registered, in this order,
    and nothing else: when one is not, it throws and says which; when both are, the class gets the
    parent, in its type and in the table, and nothing else changes.  So a hierarchy without cycles
    stays one exactly when the new parent is not the class itself or one of its descendants. *)
Theorem setClassParent_acyclic_iff ts c p :
  p ≠ EmptyString → acyclic ts →
  match m_classes ts !! c, m_classes ts !! p with
  | None, _ => setClassParent c p ts = Throw (CompilerError TypeError ("Class not found: " +:+ c))
  | Some _, None =>
      setClassParent c p ts = Throw (CompilerError TypeError ("Parent class not found: " +:+ p))
  | Some t, Some _ =>
      ∃ ts', setClassParent c p ts = Ret (setParentClass p t, ts') ∧
        ts' = with_classes (m_classes ts') ts ∧
        (∀ x, m_classes ts' !! x = if decide (x = c) then Some (setParentClass p t)
                                   else m_classes ts !! x) ∧
        (∀ x, parent_of ts' x = if decide (x = c) then Some p else parent_of ts x) ∧
        (acyclic ts' ↔ ¬ rtc (extends ts) p c)
  end.
Proof.
  intros Hp Ha. destruct (m_classes ts !! c) as [t|] eqn:Ec; [destruct (m_classes ts !! p) as [u|] eqn:Ep|].
  - assert (setClassParent c p ts = Ret (setParentClass p t,
      with_classes (<[c := setParentClass p t]> (m_classes ts)) ts)) as E
      by (unfold setClassParent; by rewrite Ec, Ep).
    eexists. split; [exact E|]. split; [done|]. split; [|split].
    + intros x. simpl. rewrite lookup_insert. by repeat case_decide; subst.
    + intros x. by eapply setClassParent_parent.
    + by eapply setClassParent_acyclic.
  - unfold setClassParent. by rewrite Ec, Ep.
  - unfold setClassParent. by rewrite Ec.
Qed.

Lemma setClassParent_acyclic_iff_witness :
  match setClassParent "Animal" "Puppy" animals with
  | Ret (_, ts') => ¬ acyclic ts'
  | _ => False
  end.
Proof.
  assert (acyclic animals) as Hacyc by (apply (bool_decide_unpack _); vm_compute; exact I).
  pose proof (setClassParent_acyclic_iff animals "Animal" "Puppy" ltac:(discriminate) Hacyc) as H.
  destruct (m_classes animals !! "Animal") as [t|] eqn:Ec; [|vm_compute in Ec; discriminate Ec].
  destruct (m_classes animals !! "Puppy") as [u|] eqn:Ep; [|vm_compute in Ep; discriminate Ep].
  destruct H as (ts' & -> & _ & _ & _ & Hiff). intros Ha. apply (proj1 Hiff Ha).
  eapply rtc_l with "Dog"; [vm_compute; reflexivity|].
  eapply rtc_l with "Animal"; [vm_compute; reflexivity|]. apply rtc_refl.
Defined.

(** A class that names itself as its parent is accepted, and from then on every
    climb from it runs for ever: no fuel is enough for the virtual methods, the
    members, or a search for another ancestor. *)
Theorem self_parent_diverges ts c t ts' :
  c ≠ EmptyString → setClassParent c c ts = Ret (t, ts') →
  ∀ n, (∀ st, getAllVirtualMethods_loop n c st ts' = Diverge) ∧
       getAllClassMembers_rec n c ts' = Diverge ∧
       (∀ p, p ≠ c → isSubclassOf_loop n c p ts' = Diverge).
Proof.
  intros Hc Hs n.
  pose proof (setClassParent_parent _ _ _ _ _ c Hc Hs) as Hp. rewrite decide_True in Hp by done.
  unfold parent_of in Hp. destruct (m_classes ts' !! c) as [u|] eqn:Eu; [|done].
  destruct (hasParent u) eqn:Ep; [injection Hp as Hp|done].
  split; [|split].
  - intros st. apply getAllVirtualMethods_loop_diverge.
    rewrite walk_self_loop; [done|]. unfold parent_of. by rewrite Eu, Ep, Hp.
  - induction n as [|n IH]; simpl; [done|]. by rewrite Eu, Ep, Hp, IH.
  - intros p Hpc. induction n as [|n IH]; simpl; [done|].
    rewrite Eu, Ep. simpl. rewrite Hp, decide_False by done. exact IH.
Qed.

Lemma self_parent_diverges_witness :
  match setClassParent "Puppy" "Puppy" animals with
  | Ret (_, ts') => getAllVirtualMethods "Puppy" ts' = Diverge
  | _ => False
  end.
Proof.
  destruct (setClassParent "Puppy" "Puppy" animals) as [[t ts']| | |] eqn:E;
    [|vm_compute in E; discriminate E..].
  eapply (self_parent_diverges animals "Puppy" t ts'); [done|exact E].
Defined.

(** The fuel is enough: if the climb of [getAllVirtualMethods] ends with some
    fuel, it ends with the fuel the model gives it, with the same result.  A
    [Diverge] of the model is a loop that does not end. *)
Theorem getAllVirtualMethods_fuel ts c n ms :
  getAllVirtualMethods_loop n c ([], ∅) ts = Ret ms → getAllVirtualMethods c ts = Ret ms.
Proof.
  intros Hn. destruct (walk (parent_of ts) n c) eqn:Ew.
  { rewrite getAllVirtualMethods_loop_diverge in Hn by (by rewrite Ew). done. }
  assert (walk (parent_of ts) (hierarchy_fuel ts) c = None) as Hw.
  { unfold hierarchy_fuel. rewrite <-size_dom. eapply walk_fuel; [apply parent_of_in|done]. }
  destruct (lineage_exists _ _ _ Ew) as [l Hl]. unfold getAllVirtualMethods.
  rewrite (getAllVirtualMethods_loop_spec _ _ _ l) in Hn by done.
  by rewrite (getAllVirtualMethods_loop_spec _ _ _ l).
Qed.

Lemma getAllVirtualMethods_fuel_witness :
  getAllVirtualMethods "Puppy" animals = Ret [fn "Dog_speak" true; fn "Animal_speak" true].
Proof. apply (getAllVirtualMethods_fuel animals "Puppy" 17). vm_compute. reflexivity. Defined.

(** C28. In an acyclic hierarchy [isSubclassOf] ends and decides the proper-ancestor
    relation. *)
Theorem isSubclassOf_correct ts child parent :
  acyclic ts →
  ∃ b, isSubclassOf child parent ts = Ret b ∧ (b = true ↔ tc (extends ts) child parent).
Proof.
  intros Ha. unfold isSubclassOf. destruct (m_classes ts !! child) eqn:E.
  - by apply isSubclassOf_loop_spec, acyclic_walk.
  - exists false. split; [done|]. split; [done|]. intros Ht. exfalso. revert Ht.
    apply tc_extends_stop. unfold parent_of. by rewrite E.
Qed.

Lemma isSubclassOf_correct_witness :
  acyclic animals ∧ ∃ b, isSubclassOf "Puppy" "Animal" animals = Ret b
                         ∧ (b = true ↔ tc (extends animals) "Puppy" "Animal").
Proof.
  assert (acyclic animals) as Ha by (apply (bool_decide_unpack _); vm_compute; exact I).
  split; [exact Ha|]. apply (isSubclassOf_correct animals "Puppy" "Animal"). exact Ha.
Defined.

(** The members of a derived class are those of its parent, in the same order,
    followed by its own: the parent's layout is a prefix of the child's. *)
Theorem getAllClassMembers_prefix ts c p t :
  wf_types ts → extends ts c p → m_classes ts !! c = Some t →
  ∃ inherited, getAllClassMembers p ts = Ret inherited ∧
               getAllClassMembers c ts = Ret (inherited ++ m_structMembers t).
Proof.
  intros Hwf Hcp Ec. unfold getAllClassMembers.
  assert (hasParent t = true ∧ getParentClass t = p) as [Ep Ht].
  { unfold extends, parent_of in Hcp. rewrite Ec in Hcp. by destruct (hasParent t); simplify_eq. }
  destruct (lineage_acyclic ts p (wf_acyclic _ Hwf)) as [l Hl].
  assert (lineage ts c (c :: l)) as Hcl by (eapply lin_step; [done..|by rewrite Ht]).
  rewrite (getAllClassMembers_rec_spec _ _ p l), (getAllClassMembers_rec_spec _ _ c (c :: l));
    try done; try (by apply acyclic_walk, Hwf); try (apply (wf_parents _ Hwf)); try (by eauto).
  - eexists. split; [done|]. simpl. rewrite fmap_app, concat_app. simpl.
    by rewrite Ec, app_nil_r.
  - by eapply wf_parents.
Qed.

Lemma getAllClassMembers_prefix_witness :
  ∃ inherited, getAllClassMembers "Animal" animals = Ret inherited ∧
               getAllClassMembers "Dog" animals = Ret (inherited ++ [("breed", ty_int)]).
Proof.
  destruct (m_classes animals !! "Dog") as [t|] eqn:E; [|vm_compute in E; discriminate E].
  pose proof (getAllClassMembers_prefix animals "Dog" "Animal" t) as Hp.
  vm_compute in E. injection E as <-. apply Hp.
  - apply wf_check_sound. vm_compute. reflexivity.
  - vm_compute. reflexivity.
  - vm_compute. reflexivity.
Defined.

(** C4. Dynamic dispatch: for every class the generated vtable has exactly one slot
    per virtual method visible from it, by base name, and the slot holds the most
    derived implementation - the first method of that base name met when climbing
    from the class. *)
Theorem vtable_dispatch ts c :
  wf_types ts →
  ∃ l slots,
    lineage ts c l ∧
    generateVTableInstance c ts = Ret (vtable_text c slots) ∧
    NoDup slots.*1 ∧
    (∀ b, b ∈ slots.*1 ↔
       ∃ m, m ∈ lineage_methods ts l ∧ f_isVirtual m = true ∧ base_of (f_name m) = b) ∧
    (∀ b f, (b, f) ∈ slots →
       ∃ ms1 m ms2, lineage_methods ts l = ms1 ++ m :: ms2 ∧ f_name m = f ∧
         base_of (f_name m) = b ∧ ∀ m', m' ∈ ms1 → base_of (f_name m') ≠ b).
Proof.
  intros Hwf. destruct (lineage_acyclic ts c (wf_acyclic _ Hwf)) as [l Hl].
  exists l, (vtable_slots ts c l). split; [done|].
  split; [by apply generateVTableInstance_wf|].
  rewrite vtable_slots_fst. split; [apply first_occurrences_NoDup|]. split.
  - intros b. by rewrite elem_of_first_occurrences, elem_of_virtual_bases.
  - intros b f Hbf. by apply first_impl_Some, (vtable_slots_impl _ c).
Qed.

Lemma vtable_dispatch_witness :
  wf_types animals ∧
  ∃ l slots, lineage animals "Puppy" l ∧ NoDup slots.*1 ∧
    generateVTableInstance "Puppy" animals = Ret (vtable_text "Puppy" slots).
Proof.
  assert (wf_types animals) as Hwf by (apply wf_check_sound; vm_compute; reflexivity).
  split; [exact Hwf|].
  destruct (vtable_dispatch animals "Puppy" Hwf) as (l & slots & Hl & Hi & Hn & _).
  exists l, slots. auto.
Defined.

(** The text behind the witness: both [Dog_speak] and [Animal_speak] are visible from
    [Puppy], and the slot holds the first. *)
Example puppy_vtable :
  generateVTableInstance "Puppy" animals
  = Ret (vtable_text "Puppy" [("speak", "Dog_speak")]).
Proof. vm_compute. reflexivity. Qed.

(** The vtable struct and the vtables agree: the struct has one field per base
    name of a virtual method of some class, each once and in increasing order, so every
    slot a vtable initialises is a field of the struct. *)
Theorem vtable_struct_fields ts :
  wf_types ts →
  ∃ fields : list string,
    generateVTableStruct ts
      = Ret (foldl (λ acc b, acc +:+ vtable_field_text b) ("struct vtable {" +:+ nl) fields
               +:+ "};" +:+ nl +:+ nl) ∧
    NoDup fields ∧ StronglySorted String.le fields ∧
    ∀ b, b ∈ fields ↔
      ∃ c l, is_Some (m_classes ts !! c) ∧ lineage ts c l ∧ b ∈ (vtable_slots ts c l).*1.
Proof.
  intros Hwf. destruct (generateVTableStruct_wf _ Hwf) as (fields & Hg & Hf).
  exists (set_iter fields). split; [done|].
  split; [apply set_iter_NoDup|]. split; [apply set_iter_sorted|].
  intros b. rewrite elem_of_set_iter, Hf. split.
  - intros (c & Hc & Hb). destruct (lineage_acyclic ts c (wf_acyclic _ Hwf)) as [l Hl].
    exists c, l. by rewrite <-(class_bases_lineage _ _ _ _ Hwf Hl).
  - intros (c & l & Hc & Hl & Hb). exists c.
    by rewrite (class_bases_lineage _ _ _ _ Hwf Hl).
Qed.

Lemma vtable_struct_fields_witness :
  wf_types animals ∧ ∃ fields : list string, NoDup fields ∧ StronglySorted String.le fields.
Proof.
  assert (wf_types animals) as Hwf by (apply wf_check_sound; vm_compute; reflexivity).
  split; [exact Hwf|].
  destruct (vtable_struct_fields animals Hwf) as (fields & _ & Hn & Hs & _).
  exists fields. auto.
Defined.

(** [isCompatible] on printable types of an acyclic hierarchy: it never throws,
    and accepts exactly equal spellings and pointers from a class to a proper
    ancestor. *)
Theorem isCompatible_correct ts from to :
  acyclic ts → printable from → printable to →
  ∃ b, isCompatible from to ts = Ret b ∧
       (b = true ↔ ty_text from = ty_text to ∨
          (m_isPointer from = true ∧ m_isPointer to = true ∧ isClass from = true ∧
           isClass to = true ∧ tc (extends ts) (getClassName from) (getClassName to))).
Proof. apply isCompatible_spec. Qed.

Definition class_ptr (c : string) : Ty := setPointer true (setStruct c (Type_base BClass)).

Lemma isCompatible_correct_witness :
  acyclic animals ∧ isCompatible (class_ptr "Puppy") (class_ptr "Animal") animals = Ret true.
Proof.
  assert (acyclic animals) as Ha by (apply (bool_decide_unpack _); vm_compute; exact I).
  split; [exact Ha|].
  destruct (isCompatible_correct animals (class_ptr "Puppy") (class_ptr "Animal"))
    as (b & Hb & _); [exact Ha|discriminate|discriminate|].
  rewrite Hb. vm_compute in Hb. exact (eq_sym Hb).
Defined.

(** ** Types by name *)

(** The type a plain name stands for: the built-in names, then typedefs, structs and
    classes. *)
Definition named_type (name : string) (ts : TypeSystem) : option Ty :=
  if decide (name = "void") then Some (Type_base BVoid)
  else if decide (name = "int") then Some (Type_base BInt)
  else if decide (name = "string") then Some (Type_ BString true false)
  else if decide (name = "bool") then Some (Type_base BBool)
  else match m_typedefs ts !! name with Some t => Some t | None =>
       match m_structs ts !! name with Some t => Some t | None => m_classes ts !! name end end.

(** [resolveType] on a name without brackets, followed or not by stars: the
    built-in names come first, then typedefs, structs and classes, and an unknown name
    is an error carrying the text.  However many stars follow, the type is one
    pointer: [int**] resolves to [int*]. *)
Theorem resolveType_named name stars ts :
  char_free "["%char name → char_free "*"%char name → str_ok name →
  char_free "["%char stars →
  resolveType name ts
    = match named_type name ts with
      | Some t => Ret t
      | None => Throw (RuntimeError ("Unknown type: " +:+ name))
      end ∧
  resolveType (name +:+ String "*" stars) ts
    = match named_type name ts with
      | Some t => Ret (setPointer true t)
      | None => Throw (RuntimeError ("Unknown type: " +:+ name +:+ String "*" stars))
      end.
Proof.
  intros Hb Hs Hok Hst. unfold resolveType, translateType, named_type.
  assert (char_free "["%char (name +:+ String "*" stars)) as Hb'.
  { apply char_free_app. split; [done|]. unfold char_free in *. simpl. by rewrite Hst. }
  rewrite !(str_find_char_free "["%char) by done.
  rewrite (str_find_char_free "*"%char name) by done.
  rewrite str_find_char_here by done.
  assert (str_size name =? npos = false)%Z as -> by (unfold str_ok in Hok; lia).
  rewrite Z.eqb_refl. cbn [negb mbind outcome_bind]. rewrite substr_prefix. cbn [mbind outcome_bind].
  split; repeat case_decide; try done;
    destruct (m_typedefs ts !! name), (m_structs ts !! name), (m_classes ts !! name); done.
Qed.

Lemma resolveType_named_witness :
  resolveType "Dog**" animals = resolveType "Dog*" animals.
Proof.
  destruct (resolveType_named "Dog" EmptyString animals) as [_ H1];
    [vm_compute; reflexivity..|].
  destruct (resolveType_named "Dog" "*" animals) as [_ H2]; [vm_compute; reflexivity..|].
  change (resolveType "Dog**" animals) with (resolveType ("Dog" +:+ String "*" "*") animals).
  change (resolveType "Dog*" animals) with (resolveType ("Dog" +:+ String "*" EmptyString) animals).
  rewrite H1, H2. vm_compute. reflexivity.
Defined.

(** The spelling of [string]: the type resolves to a [char*] base that is a
    pointer as well, so declarations print [char**]. *)
Theorem string_type_spelling ts x :
  ∃ t, resolveType "string" ts = Ret t ∧ outputVariable t x = Ret ("char** " +:+ x).
Proof. eexists. split; [reflexivity|]. reflexivity. Qed.

(** C37. Base names.  A method is registered as [Class_method], and the type system
    recovers [method] as what follows the first underscore: it gets the method back
    when the class name has no underscore, and [rest_method] for a class
    [first_rest]. *)
Theorem method_base_name_roundtrip cls m first rest :
  char_free "_"%char cls → char_free "_"%char first →
  str_ok (cls +:+ "_" +:+ m) → str_ok ((first +:+ "_" +:+ rest) +:+ "_" +:+ m) →
  method_base_name (cls +:+ "_" +:+ m) = Ret m ∧
  method_base_name ((first +:+ "_" +:+ rest) +:+ "_" +:+ m) = Ret (rest +:+ "_" +:+ m).
Proof.
  intros Hc Hf Hok1 Hok2. split.
  - by rewrite method_base_name_ok, base_of_method.
  - rewrite method_base_name_ok by done. f_equal.
    rewrite <-!string_app_assoc. by apply base_of_method.
Qed.

Lemma method_base_name_roundtrip_witness :
  method_base_name "Dog_speak" = Ret "speak" ∧
  method_base_name "My_Dog_speak" = Ret "Dog_speak".
Proof.
  apply (method_base_name_roundtrip "Dog" "speak" "My" "Dog"); vm_compute; reflexivity.
Defined.
