(* ===== verification/CodeGenProps.v ===== *)
(** The properties of the symbol table and of the C code generator. *)
From S2P Require Import Prelude Errors CppString Types TypeSystem SymbolTable.
From S2P Require Import CodeGenerator StringFacts Hierarchy TypeSystemInv VTable.
From S2P Require Import TypeSystemProps.

(** ** The symbol table *)

(** A run of declarations in the current scope. *)
Definition declare_all (decls : list (string * Ty)) (st : SymbolTable) : outcome SymbolTable :=
  foldM (λ st (d : string * Ty), addSymbol d.1 d.2 EmptyString EmptyString st) decls st.

Lemma declare_all_scopes decls s rest st st' :
  scopes st = s :: rest → declare_all decls st = Ret st' →
  ∃ s', st' = with_scopes (s' :: rest) st ∧
        ∀ x, s' !! x = match list_find (λ d : string * Ty, d.1 = x) (rev decls) with
                       | Some (_, d) => Some (Variable_of x d.2)
                       | None => s !! x
                       end.
Proof.
  revert st' . induction decls as [|[y t] decls IH] using rev_ind; intros st' Hs.
  - intros Hd. unfold declare_all in Hd. simpl in Hd. injection Hd as <-.
    exists s. split; [|done]. destruct st. unfold with_scopes. simpl in *. by rewrite Hs.
  - unfold declare_all. assert (∀ (o : outcome SymbolTable), foldM
      (λ st (d : string * Ty), addSymbol d.1 d.2 EmptyString EmptyString st) (decls ++ [(y, t)]) st
      = declare_all decls st ≫= addSymbol y t EmptyString EmptyString) as Hsnoc.
    { intros _. unfold declare_all. clear IH Hs. revert st.
      induction decls as [|d decls IH]; intros st; simpl.
      - by destruct (addSymbol y t EmptyString EmptyString st).
      - destruct (addSymbol d.1 d.2 EmptyString EmptyString st); simpl; [|done..]. apply IH. }
    rewrite (Hsnoc Diverge). rewrite outcome_bind_Ret. intros (st1 & H1 & H2).
    destruct (IH st1 Hs H1) as (s1 & -> & Hs1).
    unfold addSymbol in H2. simpl in H2. injection H2 as <-.
    exists (<[y := Variable_of y t]> s1). split; [done|].
    intros x. rewrite rev_app_distr. simpl. destruct (decide (y = x)) as [<-|Hne]; simpl.
    + by rewrite lookup_insert_eq.
    + rewrite lookup_insert_ne, Hs1 by done.
      by destruct (list_find _ (rev decls)) as [[? ?]|].
Qed.

(** Lexical scoping.  After entering a scope and declaring names in it, a lookup
    gives the latest declaration of the name in that scope and otherwise what the
    enclosing scopes and the parameters gave; leaving the scope restores the table. *)
Theorem scope_shadowing decls st st' :
  declare_all decls (enterScope st) = Ret st' →
  (∀ x, lookupSymbol x st'
        = match list_find (λ d : string * Ty, d.1 = x) (rev decls) with
          | Some (_, d) => Some (Variable_of x d.2)
          | None => lookupSymbol x st
          end) ∧
  exitScope st' = st.
Proof.
  intros Hd.
  destruct (declare_all_scopes decls ∅ (scopes st) (enterScope st) st') as (s & -> & Hs); [done..|].
  split.
  - intros x. unfold lookupSymbol. simpl. rewrite Hs.
    destruct (list_find _ (rev decls)) as [[? ?]|]; [done|]. by rewrite lookup_empty.
  - unfold exitScope, enterScope, with_scopes. simpl. by destruct st.
Qed.

Lemma scope_shadowing_witness :
  match declare_all [("x", ty_int); ("x", Type_ BBool false false)]
          (enterScope SymbolTable_default) with
  | Ret st' => lookupSymbol "x" st' = Some (Variable_of "x" (Type_ BBool false false))
               ∧ exitScope st' = SymbolTable_default
  | _ => False
  end.
Proof.
  destruct (declare_all _ _) as [st'| | |] eqn:E; [|vm_compute in E; discriminate E..].
  destruct (scope_shadowing _ _ _ E) as [Hl He]. split; [rewrite Hl; reflexivity|exact He].
Defined.

(** ** Declarations *)
Definition printable_function (f : Function) : Prop :=
  printable (f_returnType f) ∧ Forall (λ p : string * Ty, printable p.2) (f_params f).

(** The parameter list of a virtual method: its receiver is [void*]. *)
Definition virtual_params (params : list (string * Ty)) : string :=
  foldr (λ (p : string * Ty) r, (", " +:+ ty_text p.2 +:+ " " +:+ p.1) +:+ r) EmptyString params.

Lemma foldl_app_text {A} (f : A → string) acc l :
  foldl (λ acc a, acc +:+ f a) acc l = acc +:+ foldr (λ a r, f a +:+ r) EmptyString l.
Proof.
  revert acc. induction l as [|a l IH]; intros acc; simpl; [by rewrite string_app_nil_r|].
  by rewrite IH, string_app_assoc.
Qed.

(** The prototype of a function with printable types.  An ordinary function prints
    its return type, its name ([main] becomes [main_]) and its parameters separated by
    commas; a virtual method replaces its receiver by [void* this_param] and keeps the
    other parameters. *)
Theorem generateFunctionDecl_text useRC f :
  printable_function f →
  C_generateFunctionDecl (Some f)
  = Ret (if f_isVirtual f
         then ty_text (f_returnType f) +:+ " " +:+ f_name f +:+ "(void* this_param"
                +:+ virtual_params (drop 1 (f_params f)) +:+ ")"
         else ty_text (f_returnType f) +:+ " "
                +:+ (if decide (f_name f = "main") then "main_" else f_name f)
                +:+ "(" +:+ join ", " ((λ p, var_text p.2 p.1) <$> f_params f) +:+ ")")
  ∧ @generateFunctionDecl (CCodeGenerator useRC) (Some f) = C_generateFunctionDecl (Some f)
  ∧ C_generateFunctionDecl None
    = Throw (RuntimeError "Cannot generate declaration for null function").
Proof.
  intros [Hr Hp]. split; [|done]. unfold C_generateFunctionDecl.
  destruct (f_isVirtual f); [|by apply getSignature_fold].
  rewrite toString_ty_text by done. bind_ret.
  rewrite (foldM_outcome_pure _ (λ acc (p : string * Ty),
    acc +:+ (", " +:+ ty_text p.2 +:+ " " +:+ p.1))).
  2:{ intros acc p Hin. rewrite toString_ty_text; [done|].
      rewrite Forall_forall in Hp. apply Hp. rewrite <-(take_drop 1 (f_params f)).
      apply elem_of_app. by right. }
  bind_ret. f_equal. rewrite foldl_app_text. unfold virtual_params.
  by rewrite !string_app_assoc.
Qed.

Definition speak_decl : Function :=
  mkFunction "Dog_speak" [("this", class_ptr "Dog"); ("n", ty_int)] (Type_base BVoid) false true.

Lemma generateFunctionDecl_text_witness :
  C_generateFunctionDecl (Some speak_decl) = Ret "void Dog_speak(void* this_param, int n)".
Proof.
  assert (printable_function speak_decl) as Hp.
  { split; [discriminate|]. repeat (constructor; [discriminate|]). constructor. }
  destruct (generateFunctionDecl_text true speak_decl Hp) as [-> _].
  vm_compute. reflexivity.
Defined.

(** A call prints its name and its arguments separated by commas. *)
Lemma generateFunctionCall_text name args :
  C_generateFunctionCall name args = name +:+ "(" +:+ join ", " args +:+ ")".
Proof.
  unfold C_generateFunctionCall.
  transitivity ((foldl comma_step (name +:+ "(", true) args).1 +:+ ")").
  - f_equal. f_equal. generalize (name +:+ "(", true).
    induction args as [|a args IH]; intros [acc first]; simpl; [done|]. rewrite IH.
    unfold comma_step at 3. simpl. by destruct first.
  - by rewrite comma_loop, !string_app_assoc.
Qed.

(** Reference counting is a switch of the generator: without it both updates print
    nothing, with it they print the runtime call on the variable; a field's header
    offset is passed to the decrement. *)
Theorem refcount_switch v other :
  C_generateIncRef false v other = EmptyString ∧
  C_generateDecRef false v = EmptyString ∧
  C_generateIncRef true v other
    = "runtime_inc_ref_count(" +:+ v_name v +:+ ", " +:+ other +:+ ");" +:+ nl ∧
  C_generateDecRef true v
    = "runtime_dec_ref_count(" +:+ v_name v +:+ ", "
        +:+ (if decide (v_field_name v = EmptyString) then "0"
             else "offsetof(" +:+ v_struct_name v +:+ ", " +:+ v_field_name v +:+ ")")
        +:+ ");" +:+ nl.
Proof.
  split; [done|]. split; [done|]. split.
  - unfold C_generateIncRef. simpl. by rewrite !string_app_assoc.
  - unfold C_generateDecRef. simpl. case_bool_decide; case_decide; simpl; try done;
      by rewrite !string_app_assoc.
Qed.

(** ** Upcasts *)

(** The C expression for the base-class subobject [n] levels up: derived structs start
    with a member [parent]. *)
Fixpoint upcast_path (n : nat) (e : string) : string :=
  match n with
  | O => e
  | S n => "&((" +:+ upcast_path n e +:+ ")->parent)"
  end.

Lemma upcast_path_length n e : String.length (upcast_path n e) = String.length e + 13 * n.
Proof.
  induction n as [|n IH]; [simpl; lia|]. simpl upcast_path.
  rewrite !string_length_app, IH. simpl. lia.
Qed.

Lemma upcast_path_inj n m e : upcast_path n e = upcast_path m e → n = m.
Proof. intros H%(f_equal String.length). rewrite !upcast_path_length in H. lia. Qed.

Lemma nsteps_acyclic_neq ts n c p :
  acyclic ts → nsteps (extends ts) (S n) c p → c ≠ p.
Proof.
  intros Ha Hn ->. eapply (Ha p). inversion Hn; simplify_eq.
  eapply tc_rtc_r; [by apply tc_once|]. apply rtc_nsteps; eauto.
Qed.

(** The cast [generateCast] prints for an upcast climbs one [parent] member at
    most: it is the base-class subobject exactly when the target is the class itself or
    its direct parent.  For a grandparent it still prints one level. *)
Theorem generateCast_one_level ts n c p e :
  acyclic ts → nsteps (extends ts) n c p →
  C_generateCast e (class_ptr c) (class_ptr p) = upcast_path (min n 1) e ∧
  (C_generateCast e (class_ptr c) (class_ptr p) = upcast_path n e ↔ n ≤ 1).
Proof.
  intros Ha Hn.
  assert (C_generateCast e (class_ptr c) (class_ptr p) = upcast_path (min n 1) e) as Heq.
  { unfold C_generateCast. simpl. destruct n as [|n].
    - inversion Hn; simplify_eq. by rewrite decide_True.
    - rewrite decide_False by (by eapply nsteps_acyclic_neq). by destruct n. }
  split; [done|]. rewrite Heq. split.
  - intros H%upcast_path_inj. lia.
  - intros Hle. f_equal. lia.
Qed.

Lemma generateCast_one_level_witness :
  C_generateCast "p" (class_ptr "Puppy") (class_ptr "Animal") = "&((p)->parent)" ∧
  C_generateCast "p" (class_ptr "Puppy") (class_ptr "Animal") ≠ upcast_path 2 "p".
Proof.
  destruct (generateCast_one_level animals 2 "Puppy" "Animal" "p") as [H1 H2].
  - apply (bool_decide_unpack _). vm_compute. exact I.
  - eapply nsteps_l with "Dog"; [vm_compute; reflexivity|].
    eapply nsteps_l with "Animal"; [vm_compute; reflexivity|]. apply nsteps_O.
  - split; [exact H1|]. intros H. apply H2 in H. lia.
Defined.

(** ** Struct declarations *)

(** An array member of a struct prints its element type, but only a [Struct]
    element prints its name: a member that is an array of objects of a class [c]
    is declared with the bare keyword [struct], while a plain member of that class
    prints the name. *)
Theorem class_array_member c x sizes acc :
  let t := setStruct c (Type_base BClass) in
  C_struct_member acc (x, setArray x sizes t)
    = Ret (acc +:+ String "009"%char EmptyString +:+ "struct" +:+ " " +:+ x +:+ dims_text sizes
             +:+ ";" +:+ nl) ∧
  C_struct_member acc (x, t)
    = Ret (acc +:+ String "009"%char EmptyString +:+ "struct " +:+ c +:+ " " +:+ x
             +:+ ";" +:+ nl).
Proof.
  intros t. unfold C_struct_member, toString, isStruct, isClass, t. simpl.
  split; f_equal; by string_norm.
Qed.

(** ** The unit tests of tests/test_core.cpp *)

(** The expectations of tests/test_core.cpp on the type system and the code
    generator.  The one on [generateAlloc] of a struct does not hold: the test expects
    [sizeof(Point)] and the generator prints [sizeof(struct Point)]. *)
Theorem core_unit_tests :
  let ts := TypeSystem_default in
  let test := mkFunction "test" [] (Type_base BInt) false false in
  let params := [("a", Type_base BInt); ("b", Type_base BBool)] in
  (∃ t, resolveType "int" ts = Ret t ∧ m_baseType t = BInt) ∧
  (∃ t, resolveType "bool" ts = Ret t ∧ m_baseType t = BBool) ∧
  (∃ t, resolveType "void" ts = Ret t ∧ m_baseType t = BVoid) ∧
  (∃ t, resolveType "int*" ts = Ret t ∧ m_isPointer t = true) ∧
  (∃ t, resolveType "string" ts = Ret t ∧ m_isPointer t = true) ∧
  C_generateFunctionDecl (Some test) = Ret "int test()" ∧
  C_generateFunctionDecl (Some (mkFunction "test" params (Type_base BInt) false false))
    = Ret "int test(int a, bool b)" ∧
  C_generateFunctionDecl (Some (mkFunction "main" params (Type_base BInt) false false))
    = Ret "int main_(int a, bool b)" ∧
  isStruct (registerStruct "Point" ts).1 = true ∧
  getStructName (registerStruct "Point" ts).1 = "Point" ∧
  (∃ r, setStructMembers "Point" [("x", Type_base BInt); ("y", Type_base BInt)]
          (registerStruct "Point" ts).2 = Ret r ∧ (m_structMembers r.1).*1 = ["x"; "y"]) ∧
  C_generateVarDecl "x" (Type_base BInt) EmptyString = Ret ("int x;" +:+ nl) ∧
  C_generateVarDecl "y" (Type_base BBool) " = true" = Ret ("bool y = true;" +:+ nl) ∧
  C_generateVarDecl "ptr" (setPointer true (Type_base BInt)) EmptyString
    = Ret ("int* ptr;" +:+ nl) ∧
  C_generateAlloc (Type_base BInt) = Ret "runtime_alloc(sizeof(int))" ∧
  C_generateAlloc (setStruct "Point" (Type_base BStruct))
    = Ret "runtime_alloc(sizeof(struct Point))" ∧
  C_generateFunctionCall "printf" [dq +:+ "hello" +:+ dq]
    = "printf(" +:+ dq +:+ "hello" +:+ dq +:+ ")".
Proof.
  intros ts test params. repeat split; try (vm_compute; reflexivity);
    eexists; split; vm_compute; reflexivity.
Qed.
