(* ===== verification/SyntaxInd.v ===== *)
(** Induction over parse trees, whose children sit in lists, options and class
    members. *)
From S2P Require Import Prelude Syntax.

Definition opt_P {A} (P : A → Prop) (o : option A) : Prop :=
  match o with Some a => P a | None => True end.

Section expr_ind.
Variable P : expr → Prop.
Hypothesis H_paren : ∀ e, P e → P (PrimaryExpr (P_paren e)).
Hypothesis H_ident : ∀ x, P (PrimaryExpr (P_identifier x)).
Hypothesis H_lit : ∀ l, P (PrimaryExpr (P_literal l)).
Hypothesis H_member : ∀ e x, P e → P (MemberExpr e x).
Hypothesis H_call : ∀ x args, opt_P (Forall P) args → P (FuncCallExpr (mkFunctionCall x args)).
Hypothesis H_muldiv : ∀ l op r, P l → P r → P (MulDivExpr l op r).
Hypothesis H_addsub : ∀ l op r, P l → P r → P (AddSubExpr l op r).
Hypothesis H_compare : ∀ l op r, P l → P r → P (CompareExpr l op r).
Hypothesis H_assign : ∀ l r, P l → P r → P (AssignExpr l r).
Hypothesis H_var : ∀ x, P (VarExpr x).
Hypothesis H_litexpr : ∀ l, P (LiteralExpr l).
Hypothesis H_new : ∀ t, P (NewExpr t).
Hypothesis H_newc : ∀ x args, opt_P (Forall P) args → P (NewWithConstructorExpr x args).
Hypothesis H_arrow : ∀ e x, P e → P (PointerMemberExpr e x).
Hypothesis H_addr : ∀ e, P e → P (AddressOfExpr e).
Hypothesis H_deref : ∀ e, P e → P (DereferenceExpr e).
Hypothesis H_index : ∀ e i, P e → P i → P (ArrayAccessExpr e i).
Hypothesis H_method : ∀ e x args, P e → opt_P (Forall P) args → P (MethodCallExpr e x args).
Hypothesis H_init : ∀ l, opt_P (λ l, Forall (λ xe : string * expr, P xe.2) (il_inits l)) l →
  P (StructInitExpr l).
Hypothesis H_postinc : ∀ e, P e → P (PostIncrementExpr e).
Hypothesis H_postdec : ∀ e, P e → P (PostDecrementExpr e).
Hypothesis H_preinc : ∀ e, P e → P (PreIncrementExpr e).
Hypothesis H_predec : ∀ e, P e → P (PreDecrementExpr e).

Fixpoint expr_tree_ind (e : expr) : P e :=
  let args_ind (args : option (list expr)) : opt_P (Forall P) args :=
    match args with
    | Some l => (fix go l : Forall P l :=
                   match l with
                   | [] => Forall_nil_2 P
                   | e :: l => Forall_cons_2 P e l (expr_tree_ind e) (go l)
                   end) l
    | None => I
    end in
  match e with
  | PrimaryExpr (P_paren e) => H_paren e (expr_tree_ind e)
  | PrimaryExpr (P_identifier x) => H_ident x
  | PrimaryExpr (P_literal l) => H_lit l
  | MemberExpr e x => H_member e x (expr_tree_ind e)
  | FuncCallExpr (mkFunctionCall x args) => H_call x args (args_ind args)
  | MulDivExpr l op r => H_muldiv l op r (expr_tree_ind l) (expr_tree_ind r)
  | AddSubExpr l op r => H_addsub l op r (expr_tree_ind l) (expr_tree_ind r)
  | CompareExpr l op r => H_compare l op r (expr_tree_ind l) (expr_tree_ind r)
  | AssignExpr l r => H_assign l r (expr_tree_ind l) (expr_tree_ind r)
  | VarExpr x => H_var x
  | LiteralExpr l => H_litexpr l
  | NewExpr t => H_new t
  | NewWithConstructorExpr x args => H_newc x args (args_ind args)
  | PointerMemberExpr e x => H_arrow e x (expr_tree_ind e)
  | AddressOfExpr e => H_addr e (expr_tree_ind e)
  | DereferenceExpr e => H_deref e (expr_tree_ind e)
  | ArrayAccessExpr e i => H_index e i (expr_tree_ind e) (expr_tree_ind i)
  | MethodCallExpr e x args => H_method e x args (expr_tree_ind e) (args_ind args)
  | StructInitExpr l => H_init l
      (match l with
       | Some l => (fix go (l : list (string * expr)) : Forall (λ xe : string * expr, P xe.2) l :=
                      match l with
                      | [] => Forall_nil_2 _
                      | xe :: l => Forall_cons_2 _ xe l (expr_tree_ind xe.2) (go l)
                      end) (il_inits l)
       | None => I
       end)
  | PostIncrementExpr e => H_postinc e (expr_tree_ind e)
  | PostDecrementExpr e => H_postdec e (expr_tree_ind e)
  | PreIncrementExpr e => H_preinc e (expr_tree_ind e)
  | PreDecrementExpr e => H_predec e (expr_tree_ind e)
  end.
End expr_ind.

(** The property of the block of a class member. *)
Definition member_P {E B} (P : B → Prop) (m : classMember E B) : Prop :=
  match m with
  | ClassField _ => True
  | ClassMethod _ _ _ _ b => P b
  | ClassConstructor _ _ _ b => P b
  end.

Section stmt_ind.
Variable P : statement → Prop.
Hypothesis H_func : ∀ t x ps b, Forall P b → P (S_functionDecl t x ps b).
Hypothesis H_var : ∀ v, P (S_varDecl v).
Hypothesis H_spawn : ∀ e, P (S_spawn e).
Hypothesis H_return : ∀ e, P (S_return e).
Hypothesis H_expr : ∀ e, P (S_expr e).
Hypothesis H_block : ∀ b, Forall P b → P (S_block b).
Hypothesis H_struct : ∀ s, P (S_struct s).
Hypothesis H_class : ∀ x p ms semi, Forall (member_P (Forall P)) ms → P (S_class x p ms semi).
Hypothesis H_if : ∀ c t e, P t → opt_P P e → P (S_if c t e).
Hypothesis H_while : ∀ c b, P b → P (S_while c b).
Hypothesis H_for : ∀ i c st b, P b → P (S_for i c st b).
Hypothesis H_typedef : ∀ b x, P (S_typedef b x).

Fixpoint stmt_tree_ind (s : statement) : P s :=
  let block_ind := (fix go (b : list statement) : Forall P b :=
    match b with
    | [] => Forall_nil_2 P
    | s :: b => Forall_cons_2 P s b (stmt_tree_ind s) (go b)
    end) in
  let member_ind (m : classMember expr (list statement)) : member_P (Forall P) m :=
    match m with
    | ClassField _ => I
    | ClassMethod _ _ _ _ b => block_ind b
    | ClassConstructor _ _ _ b => block_ind b
    end in
  match s with
  | S_functionDecl t x ps b => H_func t x ps b (block_ind b)
  | S_varDecl v => H_var v
  | S_spawn e => H_spawn e
  | S_return e => H_return e
  | S_expr e => H_expr e
  | S_block b => H_block b (block_ind b)
  | S_struct s => H_struct s
  | S_class x p ms semi => H_class x p ms semi
      ((fix go ms : Forall (member_P (Forall P)) ms :=
          match ms with
          | [] => Forall_nil_2 _
          | m :: ms => Forall_cons_2 _ m ms (member_ind m) (go ms)
          end) ms)
  | S_if c t e => H_if c t e (stmt_tree_ind t)
      (match e with Some e => stmt_tree_ind e | None => I end)
  | S_while c b => H_while c b (stmt_tree_ind b)
  | S_for i c st b => H_for i c st b (stmt_tree_ind b)
  | S_typedef b x => H_typedef b x
  end.
End stmt_ind.
