(* ===== verification/Yield.v ===== *)
(** The tokens of a parse tree.

    A tree is a derivation of the grammar; [_tokens] reads its leaves off in order, which is the
    list of tokens the parser made it from.  The text of a tree, as [getText] gives it, is the
    concatenation of theirs. *)
From S2P Require Import Prelude Syntax Lexer SyntaxInd.

(** ** Leaves *)
Definition lit (s : string) : token := mkToken K_literal s.
Definition ident_token (x : string) : token := mkToken K_IDENTIFIER x.
Definition opt_tokens {A} (f : A → list token) (o : option A) : list token :=
  match o with Some a => f a | None => [] end.
Fixpoint comma_tokens (l : list (list token)) : list token :=
  match l with
  | [] => []
  | [s] => s
  | s :: l => s ++ lit "," :: comma_tokens l
  end.
Definition paren_tokens (l : list token) : list token := lit "(" :: l ++ [lit ")"].
Definition brace_tokens (l : list token) : list token := lit "{" :: l ++ [lit "}"].
Definition semi_tokens (b : bool) : list token := if b then [lit ";"] else [].

Fixpoint typeSpec_tokens (t : typeSpec) : list token :=
  match t with
  | TS_void => [lit "void"]
  | TS_int => [lit "int"]
  | TS_bool => [lit "bool"]
  | TS_string => [lit "string"]
  | TS_named kw name =>
      opt_tokens (λ k, [lit (match k with KW_struct => "struct" | KW_class => "class" end)]) kw
        ++ [ident_token name]
  | TS_pointer t => typeSpec_tokens t ++ [lit "*"]
  end.

Definition arraySize_tokens (a : arraySize) : list token :=
  [lit "["; match a with AS_integer s => mkToken K_INTEGER s | AS_identifier s => ident_token s end;
   lit "]"].
Definition arrayDecl_tokens (a : arrayDecl) : list token :=
  typeSpec_tokens (ad_type a) ++ ident_token (ad_name a)
    :: concat (map arraySize_tokens (ad_sizes a)).
Definition declarator_tokens (d : declarator) : list token :=
  match d with
  | D_plain t name => typeSpec_tokens t ++ [ident_token name]
  | D_array a => arrayDecl_tokens a
  end.
Definition params_tokens (ps : option (list declarator)) : list token :=
  paren_tokens (opt_tokens (λ l, comma_tokens (map declarator_tokens l)) ps).
Definition literal_tokens (l : literal) : list token :=
  match l with
  | L_integer s => [mkToken K_INTEGER s]
  | L_string s => [mkToken K_STRING s]
  | L_true => [lit "true"]
  | L_false => [lit "false"]
  end.

(** ** Expressions *)
Fixpoint expr_tokens (e : expr) : list token :=
  let args_tokens (args : option (list expr)) :=
    paren_tokens (match args with Some l => comma_tokens (map expr_tokens l) | None => [] end) in
  match e with
  | PrimaryExpr (P_paren e) => paren_tokens (expr_tokens e)
  | PrimaryExpr (P_identifier x) => [ident_token x]
  | PrimaryExpr (P_literal l) => literal_tokens l
  | MemberExpr e x => expr_tokens e ++ [lit "."; ident_token x]
  | FuncCallExpr f => ident_token (fc_name f) :: args_tokens (fc_args f)
  | MulDivExpr l op r | AddSubExpr l op r | CompareExpr l op r =>
      expr_tokens l ++ lit op :: expr_tokens r
  | AssignExpr l r => expr_tokens l ++ lit "=" :: expr_tokens r
  | VarExpr x => [ident_token x]
  | LiteralExpr l => literal_tokens l
  | NewExpr t => lit "new" :: typeSpec_tokens t
  | NewWithConstructorExpr x args => lit "new" :: ident_token x :: args_tokens args
  | PointerMemberExpr e x => expr_tokens e ++ [lit "->"; ident_token x]
  | AddressOfExpr e => lit "&" :: expr_tokens e
  | DereferenceExpr e => lit "*" :: expr_tokens e
  | ArrayAccessExpr e i => expr_tokens e ++ lit "[" :: expr_tokens i ++ [lit "]"]
  | MethodCallExpr e x args => expr_tokens e ++ lit "->" :: ident_token x :: args_tokens args
  | StructInitExpr l =>
      brace_tokens (match l with
        | Some l =>
            comma_tokens (map (λ '(x, e), lit "." :: ident_token x :: lit "=" :: expr_tokens e)
                            (il_inits l))
              ++ (if il_trailing l then [lit ","] else [])
        | None => []
        end)
  | PostIncrementExpr e => expr_tokens e ++ [lit "++"]
  | PostDecrementExpr e => expr_tokens e ++ [lit "--"]
  | PreIncrementExpr e => lit "++" :: expr_tokens e
  | PreDecrementExpr e => lit "--" :: expr_tokens e
  end.

(** ** Statements *)
Definition structDecl_tokens (s : structDecl) : list token :=
  lit "struct" :: ident_token (sd_name s)
    :: brace_tokens (concat (map (λ d, declarator_tokens d ++ [lit ";"]) (sd_members s)))
    ++ semi_tokens (sd_semi s).
Definition varDecl_tokens (v : varDecl expr) : list token :=
  declarator_tokens (vd_decl v) ++ opt_tokens (λ e, lit "=" :: expr_tokens e) (vd_init v)
    ++ [lit ";"].
Definition forInit_tokens (i : forInit expr) : list token :=
  match i with
  | FI_var v => varDecl_tokens v
  | FI_expr e => expr_tokens e ++ [lit ";"]
  | FI_none => [lit ";"]
  end.
Definition member_tokens {B} (block_tokens : B → list token) (m : classMember expr B)
    : list token :=
  match m with
  | ClassField d => declarator_tokens d ++ [lit ";"]
  | ClassMethod v t name ps b =>
      (if v then [lit "virtual"] else []) ++ typeSpec_tokens t ++ ident_token name
        :: params_tokens ps ++ block_tokens b
  | ClassConstructor name ps super b =>
      ident_token name :: params_tokens ps
        ++ opt_tokens (λ '(p, args), lit ":" :: ident_token p
             :: paren_tokens (opt_tokens (λ l, comma_tokens (map expr_tokens l)) args)) super
        ++ block_tokens b
  end.
Fixpoint stmt_tokens (s : statement) : list token :=
  let block_tokens (b : list statement) := brace_tokens (concat (map stmt_tokens b)) in
  match s with
  | S_functionDecl t name ps b =>
      typeSpec_tokens t ++ ident_token name :: params_tokens ps ++ block_tokens b
  | S_varDecl v => varDecl_tokens v
  | S_spawn e => lit "spawn" :: expr_tokens e ++ [lit ";"]
  | S_return e => lit "return" :: opt_tokens expr_tokens e ++ [lit ";"]
  | S_expr e => expr_tokens e ++ [lit ";"]
  | S_block b => block_tokens b
  | S_struct s => structDecl_tokens s
  | S_class name parent ms semi =>
      lit "class" :: ident_token name :: opt_tokens (λ p, [lit ":"; ident_token p]) parent
        ++ brace_tokens (concat (map (member_tokens block_tokens) ms)) ++ semi_tokens semi
  | S_if c t e =>
      lit "if" :: paren_tokens (expr_tokens c) ++ stmt_tokens t
        ++ match e with Some e => lit "else" :: stmt_tokens e | None => [] end
  | S_while c b => lit "while" :: paren_tokens (expr_tokens c) ++ stmt_tokens b
  | S_for i c st b =>
      lit "for" :: paren_tokens (forInit_tokens i ++ opt_tokens expr_tokens c ++ lit ";"
                                   :: opt_tokens expr_tokens st) ++ stmt_tokens b
  | S_typedef b name =>
      lit "typedef"
        :: match b with TD_type t => typeSpec_tokens t | TD_struct s => structDecl_tokens s end
        ++ [ident_token name; lit ";"]
  end.
Definition block_tokens (b : list statement) : list token :=
  brace_tokens (concat (map stmt_tokens b)).

(** ** Programs *)
Definition defineValue_tokens (v : defineValue) : list token :=
  match v with DV_integer s => [mkToken K_INTEGER s] | DV_string s => [mkToken K_STRING s] end.
(** An include names its file in quotes or between angle brackets. *)
Definition directive_tokens (d : directive) : list token :=
  match d with
  | PD_include text =>
      [lit "#include";
       mkToken (match text with
                | String a _ => if decide (a = char_quote) then K_STRING else K_INCLUDE_STRING
                | EmptyString => K_INCLUDE_STRING
                end) text]
  | PD_define name value => lit "#define" :: ident_token name :: opt_tokens defineValue_tokens value
  end.
Definition program_tokens (p : program) : list token :=
  concat (map directive_tokens (pr_directives p)) ++ concat (map stmt_tokens (pr_statements p)).

(** ** [getText] *)
Definition tokens_text (l : list token) : string := concat_text (tk_text <$> l).

Lemma tokens_text_app l1 l2 : tokens_text (l1 ++ l2) = tokens_text l1 +:+ tokens_text l2.
Proof.
  unfold tokens_text. induction l1 as [|t l1 IH]; [done|]. cbn [app fmap list_fmap concat_text].
  by rewrite IH, string_app_assoc.
Qed.

Lemma tokens_text_cons t l : tokens_text (t :: l) = tk_text t +:+ tokens_text l.
Proof. done. Qed.

Lemma tokens_text_lit s : tokens_text [lit s] = s.
Proof. apply string_app_nil_r. Qed.

Lemma tokens_text_nil : tokens_text [] = EmptyString.
Proof. done. Qed.

(** The text of a list of tokens, piece by piece. *)
Ltac yield_norm :=
  unfold paren_tokens, brace_tokens;
  repeat (rewrite tokens_text_app || rewrite tokens_text_cons || rewrite tokens_text_nil);
  cbn [tk_text lit ident_token];
  rewrite ?string_app_nil_r.

Lemma comma_tokens_text {A} (f : A → list token) (g : A → string) l :
  Forall (λ a, tokens_text (f a) = g a) l →
  tokens_text (comma_tokens (map f l)) = comma_text (map g l).
Proof.
  induction 1 as [|a l Ha Hl IH]; [done|]. cbn [map comma_tokens comma_text].
  destruct l as [|b l]; [exact Ha|]. cbn [map] in *. rewrite tokens_text_app, tokens_text_cons, Ha, IH.
  done.
Qed.

Lemma concat_tokens_text {A} (f : A → list token) (g : A → string) l :
  Forall (λ a, tokens_text (f a) = g a) l →
  tokens_text (concat (map f l)) = concat_text (map g l).
Proof.
  induction 1 as [|a l Ha Hl IH]; [done|]. cbn [map concat concat_text].
  by rewrite tokens_text_app, Ha, IH.
Qed.

Lemma typeSpec_yield t : tokens_text (typeSpec_tokens t) = typeSpec_text t.
Proof.
  induction t as [| | | |[[]|] name|t IH]; try done; cbn [typeSpec_tokens typeSpec_text opt_tokens opt_text app];
    yield_norm; [by string_norm..|]. by rewrite IH.
Qed.

Lemma declarator_yield d : tokens_text (declarator_tokens d) = declarator_text d.
Proof.
  destruct d as [t name|[t name sizes]]; cbn [declarator_tokens declarator_text].
  - yield_norm. by rewrite typeSpec_yield.
  - unfold arrayDecl_tokens, arrayDecl_text. cbn [ad_type ad_name ad_sizes]. yield_norm.
    rewrite typeSpec_yield. do 2 f_equal. apply concat_tokens_text, Forall_true.
    intros []; unfold arraySize_tokens, arraySize_text; by yield_norm.
Qed.

Lemma params_yield ps : tokens_text (params_tokens ps) = params_text ps.
Proof.
  unfold params_tokens, params_text. yield_norm. destruct ps as [l|]; [|done].
  cbn [opt_tokens opt_text]. do 2 f_equal.
  apply comma_tokens_text, Forall_true. apply declarator_yield.
Qed.

Lemma literal_yield l : tokens_text (literal_tokens l) = literal_text l.
Proof. destruct l; apply string_app_nil_r. Qed.

Lemma expr_yield e : tokens_text (expr_tokens e) = expr_text e.
Proof.
  assert (∀ args : option (list expr),
    opt_P (Forall (λ e, tokens_text (expr_tokens e) = expr_text e)) args →
    tokens_text (match args with Some l => comma_tokens (map expr_tokens l) | None => [] end)
    = match args with Some l => comma_text (map expr_text l) | None => EmptyString end) as Hargs.
  { intros [l|]; [apply comma_tokens_text|done]. }
  induction e using expr_tree_ind; cbn [expr_tokens expr_text fc_name fc_args];
    try (yield_norm; congruence); try (yield_norm; rewrite ?Hargs by done; congruence).
  - apply literal_yield.
  - apply literal_yield.
  - yield_norm. by rewrite typeSpec_yield.
  - yield_norm. destruct l as [[inits trailing]|]; [|done]. cbn [il_inits il_trailing opt_P] in *.
    rewrite tokens_text_app.
    rewrite (comma_tokens_text _ (λ '(x, e), "." +:+ x +:+ "=" +:+ expr_text e)).
    + destruct trailing; [done|]. by rewrite tokens_text_nil.
    + eapply Forall_impl; [exact H|]. intros [x e] He. simpl in He. yield_norm. by rewrite He.
Qed.

Lemma structDecl_yield s : tokens_text (structDecl_tokens s) = structDecl_text s.
Proof.
  destruct s as [name members semi]. unfold structDecl_tokens, structDecl_text.
  cbn [sd_name sd_members sd_semi]. yield_norm.
  rewrite (concat_tokens_text _ (λ d, declarator_text d +:+ ";")).
  - destruct semi; cbn [semi_tokens semi_text]; yield_norm; by rewrite ?string_app_assoc.
  - apply Forall_true. intros d. yield_norm. by rewrite declarator_yield.
Qed.

Lemma varDecl_yield v : tokens_text (varDecl_tokens v) = varDecl_text v.
Proof.
  destruct v as [d [e|]]; unfold varDecl_tokens, varDecl_text; cbn [vd_decl vd_init opt_tokens opt_text];
    yield_norm; rewrite declarator_yield, ?expr_yield; by rewrite ?string_app_assoc.
Qed.

Lemma member_yield {B} (f : B → list token) (g : B → string) (m : classMember expr B) :
  member_P (λ b, tokens_text (f b) = g b) m →
  tokens_text (member_tokens f m) = member_text g m.
Proof.
  destruct m as [d|v t name ps b|name ps super b]; cbn [member_P member_tokens member_text]; intros Hb.
  - yield_norm. by rewrite declarator_yield.
  - destruct v; yield_norm; by rewrite typeSpec_yield, params_yield, Hb.
  - yield_norm. rewrite params_yield, Hb. do 3 f_equal.
    destruct super as [[p args]|]; [|done]. cbn [opt_tokens opt_text]. yield_norm.
    destruct args as [l|]; cbn [opt_tokens opt_text]; [|done].
    rewrite (comma_tokens_text _ expr_text); [done|]. apply Forall_true. apply expr_yield.
Qed.

Lemma stmt_yield s : tokens_text (stmt_tokens s) = stmt_text s.
Proof.
  assert (∀ b, Forall (λ s, tokens_text (stmt_tokens s) = stmt_text s) b →
    tokens_text (brace_tokens (concat (map stmt_tokens b)))
    = "{" +:+ concat_text (map stmt_text b) +:+ "}") as Hblock.
  { intros b Hb. yield_norm. by rewrite (concat_tokens_text _ stmt_text). }
  assert (∀ o : option expr, tokens_text (opt_tokens expr_tokens o) = opt_text expr_text o) as Hopt.
  { intros [e|]; [apply expr_yield|done]. }
  induction s as [t x ps b Hb|v|e|e|e|b Hb|s|x p ms semi Hms|c t e IHt IHe|c b IHb|i c st b IHb|b x]
    using stmt_tree_ind; cbn [stmt_tokens stmt_text].
  - rewrite tokens_text_app, tokens_text_cons, tokens_text_app, Hblock by done.
    by rewrite typeSpec_yield, params_yield.
  - apply varDecl_yield.
  - yield_norm. by rewrite expr_yield.
  - yield_norm. by rewrite Hopt.
  - yield_norm. by rewrite expr_yield.
  - by apply Hblock.
  - apply structDecl_yield.
  - yield_norm. rewrite (concat_tokens_text _
      (member_text (λ b, "{" +:+ concat_text (map stmt_text b) +:+ "}"))).
    + destruct p, semi; cbn [opt_tokens opt_text semi_tokens semi_text]; yield_norm;
        by rewrite ?string_app_assoc.
    + eapply Forall_impl; [exact Hms|]. intros m Hm. apply member_yield.
      destruct m; cbn [member_P] in *; [done|by apply Hblock..].
  - yield_norm. rewrite expr_yield, IHt. destruct e as [e|]; cbn [opt_P] in *.
    + rewrite tokens_text_cons, IHe. cbn [tk_text lit]. by rewrite ?string_app_assoc.
    + rewrite tokens_text_nil. by rewrite ?string_app_assoc.
  - yield_norm. rewrite expr_yield, IHb. by rewrite ?string_app_assoc.
  - yield_norm. rewrite !Hopt, IHb. destruct i as [v|e|]; cbn [forInit_tokens forInit_text].
    + rewrite varDecl_yield. by rewrite ?string_app_assoc.
    + yield_norm. rewrite expr_yield. by rewrite ?string_app_assoc.
    + yield_norm. by rewrite ?string_app_assoc.
  - yield_norm. destruct b as [t|s]; [rewrite typeSpec_yield|rewrite structDecl_yield]; done.
Qed.

Lemma directive_yield d : tokens_text (directive_tokens d) = directive_text d.
Proof.
  destruct d as [t|x [[]|]]; cbn [directive_tokens directive_text opt_tokens opt_text
    defineValue_tokens defineValue_text]; by yield_norm.
Qed.

(** The text of a tree is that of its tokens.  What [getText] gives for an expression, a
    statement, a class member or a directive, which the visitor looks names up by and prints, is
    the concatenation of the texts of the tokens the tree was made from, whatever blanks and
    comments stood between them. *)
Lemma getText_yield :
  (∀ e, expr_text e = tokens_text (expr_tokens e)) ∧
  (∀ s, stmt_text s = tokens_text (stmt_tokens s)) ∧
  (∀ m, classMember_text m = tokens_text (member_tokens block_tokens m)) ∧
  (∀ d, directive_text d = tokens_text (directive_tokens d)).
Proof.
  split; [intros e; by rewrite expr_yield|]. split; [intros s; by rewrite stmt_yield|].
  split; [|intros d; by rewrite directive_yield]. intros m. symmetry. apply member_yield.
  assert (∀ b, tokens_text (block_tokens b) = block_text b) as Hblock.
  { intros b. unfold block_tokens, block_text. yield_norm.
    rewrite (concat_tokens_text _ stmt_text); [done|]. apply Forall_true. apply stmt_yield. }
  destruct m; cbn [member_P]; auto.
Qed.
