(* ===== verification/Soundness.v ===== *)
(** A postcondition logic for the visitor, and what the parts of the translator promise
    it on the tables of a safe program.

    [fine o Q] says that an outcome is a value in [Q] or an exception that reports an
    error of the source: it is no crash, no loop, and none of the exceptions by which one
    part of the translator tells another that it was misused.  [sound m Q] says so of a
    computation of the visitor started in a good state, and that the state it leaves is
    good.  The rules follow the monad; [sound_auto] applies them along a handler. *)
From S2P Require Import Prelude Errors CppString Types TypeSystem SymbolTable CodeGenerator.
From S2P Require Import Syntax Visitor Transpile StringFacts Hierarchy MethodLookup.
From S2P Require Import TypeSystemInv VTable Static SyntaxInd.
#[local] Open Scope Z_scope.

(** The exceptions by which the translator reports an error of the source: a name or a
    type that is not there, and a number [stoi] rejects. *)
Fixpoint begins_with (p s : string) : bool :=
  match p, s with
  | EmptyString, _ => true
  | String a p, String b s => Ascii.eqb a b && begins_with p s
  | _, EmptyString => false
  end.
Definition begins_with_one_of (l : list string) (m : string) : bool :=
  existsb (λ p, begins_with p m) l.
Definition source_error (e : exn) : bool :=
  match e with
  | CompilerErrorAt TypeError m _ _ =>
      begins_with_one_of ["Struct not found: "; "Class not found: "; "Parent class not found: ";
                          "Method call on non-class type"] m
  | CompilerErrorAt NameError m _ _ =>
      begins_with_one_of ["No constructor for class: "; "Field not found: "; "Method not found: ";
                          "Unknown object: "] m
  | RuntimeError m => begins_with_one_of ["Unknown type: "; "Invalid array type: "] m
  | InvalidArgument | OutOfRange => true
  | _ => false
  end.

Definition fine {A} (o : outcome A) (Q : A → Prop) : Prop :=
  match o with
  | Ret a => Q a
  | Throw e => source_error e = true
  | Crash _ | Diverge => False
  end.

(** What the visitor asks of a code generator: what it prints of types that print never
    fails. *)
Class SafeGenerator (CG : CodeGenerator) : Prop := {
  safe_function f :
    printable (f_returnType f) → Forall (λ p, printable p.2) (f_params f) →
    ∃ s, generateFunctionDecl (Some f) = Ret s;
  safe_var x t i : printable t → ∃ s, generateVarDecl x t i = Ret s;
  safe_struct x t i :
    Forall (λ m, printable m.2) (m_structMembers t) → ∃ s, generateStructDecl x t i = Ret s;
  safe_typedef x t :
    printable t → Forall (λ m, printable m.2) (m_structMembers t) →
    ∃ s, generateTypeDef x t = Ret s;
  safe_alloc t : printable t → ∃ s, generateAlloc t = Ret s
}.

(** ** Outcomes *)
Section fine.
Implicit Types (e : exn).

Lemma fine_ret {A} (a : A) (Q : A → Prop) : Q a → fine (Ret a) Q.
Proof. done. Qed.

Lemma fine_mono {A} (o : outcome A) (P Q : A → Prop) :
  fine o P → (∀ a, P a → Q a) → fine o Q.
Proof. destruct o; simpl; auto. Qed.

Lemma fine_bind {A B} (o : outcome A) (f : A → outcome B) P Q :
  fine o P → (∀ a, P a → fine (f a) Q) → fine (o ≫= f) Q.
Proof. destruct o; simpl; auto. Qed.

Lemma fine_foldM {A B} (f : B → A → outcome B) (P : B → Prop) l b :
  P b → (∀ b a, a ∈ l → P b → fine (f b a) P) → fine (foldM f l b) P.
Proof.
  revert b. induction l as [|a l IH]; intros b Hb Hf; simpl; [done|].
  eapply fine_bind; [apply Hf; [by left|done]|]. intros b' Hb'.
  apply IH; [done|]. intros. apply Hf; [by right|done].
Qed.

Lemma fine_exists {A} (o : outcome A) : (∃ a, o = Ret a) → fine o (λ _, True).
Proof. by intros [a ->]. Qed.

Lemma fine_substr s i n : fine (substr s i n) (λ _, True).
Proof. unfold substr. by destruct (_ <? _). Qed.

Lemma fine_stoi s : fine (stoi s) (λ _, True).
Proof.
  unfold stoi. generalize (skip_space s) as s'. intros s'.
  match goal with |- fine (let (_, _) := ?p in _) _ => destruct p as [sg r] end.
  destruct (digit_prefix r None); [|done]. by destruct (_ && _).
Qed.

Lemma fine_method_base_name x : fine (method_base_name x) (λ _, True).
Proof. apply fine_substr. Qed.

Lemma fine_toString t : printable t → fine (toString t) (λ _, True).
Proof. intros Ht. by rewrite toString_ty_text. Qed.

Lemma fine_overrides ms x : fine (overrides ms x) (λ _, True).
Proof.
  induction ms as [|f ms IH]; simpl; [done|].
  eapply fine_bind; [apply fine_method_base_name|]. intros b _. by case_decide.
Qed.
End fine.

Create HintDb sound.
#[export] Hint Resolve fine_substr fine_stoi fine_method_base_name fine_toString
  fine_overrides : sound.

(** ** The type system *)
Section types.
Context (D : list (string * option string)) (T : list string).
Context (ts : TypeSystem) (Hts : tables_ok D T ts).

(** The branches of [translateType]: built-in names, then the three tables. *)
Lemma fine_named_type b s :
  fine (if decide (b = "void") then Ret (Type_base BVoid)
        else if decide (b = "int") then Ret (Type_base BInt)
        else if decide (b = "string") then Ret (Type_ BString true false)
        else if decide (b = "bool") then Ret (Type_base BBool)
        else match m_typedefs ts !! b with
        | Some t => Ret t
        | None =>
        match m_structs ts !! b with
        | Some t => Ret t
        | None =>
        match m_classes ts !! b with
        | Some t => Ret t
        | None => Throw (RuntimeError ("Unknown type: " +:+ s))
        end end end) (ty_ok D).
Proof.
  repeat (case_decide; [by apply ty_ok_base || (split; [done|by constructor|done])|]).
  destruct (m_typedefs ts !! b) eqn:E1; [exact (tb_typedef_ty _ _ _ Hts _ _ E1)|].
  destruct (m_structs ts !! b) eqn:E2; [exact (proj1 (tb_struct_ty _ _ _ Hts _ _ E2))|].
  by destruct (m_classes ts !! b) eqn:E3; [exact (tb_class_ty _ _ _ Hts _ _ E3)|].
Qed.

Lemma fine_resolveType x : fine (resolveType x ts) (ty_ok D).
Proof.
  unfold resolveType, translateType.
  eapply fine_bind; [by destruct (negb _); [apply fine_substr|apply fine_ret]|]. intros b1 _.
  eapply fine_bind; [by destruct (negb _); [apply fine_substr|apply fine_ret]|]. intros b _.
  eapply fine_bind; [apply fine_named_type|]. intros t Ht.
  assert (∀ c : bool, ty_ok D (if c then setPointer true t else t)) as Hp
    by (intros []; [by apply ty_ok_setPointer|done]).
  destruct (negb (str_find_char "["%char x =? npos)); [|apply Hp].
  destruct (negb (str_find_char "]"%char x =? npos)); [|done].
  eapply fine_bind; [apply fine_substr|]. intros n _.
  eapply (fine_bind _ _ (λ _, True)); [by case_decide; [|apply fine_stoi]|].
  intros k _. apply fine_ret. by apply ty_ok_setArray, Hp.
Qed.

(** The climb through [resolveType] leaves the typedefs after one step and then follows
    the hierarchy. *)
Lemma resolve_parent_declared x p : resolve_parent ts x = Some p → p ∈ D.*1.
Proof.
  unfold resolve_parent. pose proof (fine_resolveType x) as Hf.
  destruct (resolveType x ts) as [t| | |]; try done. simpl in Hf.
  destruct (hasParent t) eqn:Hp; [|done]. intros [= <-]. by apply (to_parent _ _ Hf).
Qed.

Lemma resolve_parent_class c p :
  static_ok D T → c ∈ D.*1 → resolve_parent ts c = Some p → parent_of ts c = Some p.
Proof.
  intros HD Hc. pose proof (so_identifier _ _ HD _ Hc) as Hid.
  unfold resolve_parent, resolveType, translateType.
  rewrite !str_find_char_free by (apply identifier_free; [done..|exact Hid]).
  cbn [negb mbind outcome_bind]. rewrite Z.eqb_refl. cbn [negb mbind outcome_bind].
  repeat (case_decide; [done|]).
  destruct (m_typedefs ts !! c) eqn:E1.
  { exfalso. apply (so_disjoint _ _ HD c); [|done]. by apply (tb_typedefs _ _ _ Hts). }
  destruct (m_structs ts !! c) as [t|] eqn:E2.
  { destruct (tb_struct_ty _ _ _ Hts _ _ E2) as [_ Hn]. bind_ret. by rewrite Hn. }
  unfold parent_of. by destruct (m_classes ts !! c).
Qed.

Lemma resolve_chain_class c l :
  static_ok D T → c ∈ D.*1 → chain (parent_of ts) c l → ∃ l', chain (resolve_parent ts) c l'.
Proof.
  intros HD Hc Hl. induction Hl as [c Hn|c p l Hp _ IH].
  - exists []. constructor. destruct (resolve_parent ts c) eqn:E; [|done].
    apply (resolve_parent_class _ _ HD Hc) in E. congruence.
  - destruct (resolve_parent ts c) as [q|] eqn:E; [|exists []; by constructor].
    pose proof (resolve_parent_class _ _ HD Hc E). simplify_eq.
    destruct IH as [l' Hl']; [by eapply resolve_parent_declared|].
    exists (c :: l'). by econstructor.
Qed.

Lemma resolve_chain c : static_ok D T → ∃ l, chain (resolve_parent ts) c l.
Proof.
  intros HD. destruct (resolve_parent ts c) as [p|] eqn:E; [|exists []; by constructor].
  pose proof (resolve_parent_declared _ _ E) as Hp.
  destruct (walk_chain _ _ _ (acyclic_walk ts p (tb_acyclic _ _ _ Hts))) as [l Hl].
  destruct (resolve_chain_class _ _ HD Hp Hl) as [l' Hl'].
  exists (c :: l'). by econstructor.
Qed.

Lemma fine_find_method_chain cls m : ∀ fuel c l,
  chain (resolve_parent ts) c l → (S (length l) ≤ fuel)%nat →
  fine (find_method fuel c cls m ts) (λ _, True).
Proof.
  intros fuel c l Hl. revert fuel.
  induction Hl as [c Hn|c p l Hp _ IH]; intros [|fuel] Hf; try (simpl in Hf; lia);
    cbn [find_method]; (destruct (List.find _ _); [done|]);
    (eapply (fine_bind _ _ (λ t, resolveType c ts = Ret t));
      [pose proof (fine_resolveType c) as Hr; by destruct (resolveType c ts)|]);
    intros t Ht; unfold resolve_parent in *; rewrite Ht in *;
    destruct (hasParent t); simpl; try done.
  simplify_eq. apply IH. simpl in Hf. lia.
Qed.

Lemma fine_find_method cls m c :
  static_ok D T → fine (find_method (resolve_fuel ts) c cls m ts) (λ _, True).
Proof.
  intros HD. destruct (resolve_chain c HD) as [l Hl].
  eapply fine_find_method_chain; [exact Hl|]. by apply (resolve_chain_length ts c).
Qed.

Lemma fine_isCompatible from to :
  printable from → printable to → fine (isCompatible from to ts) (λ _, True).
Proof.
  intros Hf Ht. destruct (isCompatible_spec ts from to (tb_acyclic _ _ _ Hts) Hf Ht) as (b & -> & _).
  done.
Qed.

Lemma fine_getAllVirtualMethods c : fine (getAllVirtualMethods c ts) (Forall (fn_ok D)).
Proof.
  destruct (lineage_acyclic ts c (tb_acyclic _ _ _ Hts)) as [l Hl].
  unfold getAllVirtualMethods.
  rewrite (getAllVirtualMethods_loop_spec _ _ _ l)
    by (done || apply acyclic_walk, (tb_acyclic _ _ _ Hts)).
  assert (Forall (fn_ok D) (lineage_methods ts l)) as Hall.
  { apply Forall_concat, Forall_fmap, Forall_true. apply (tb_methods _ _ _ Hts). }
  simpl. apply Forall_forall. intros f [Hf _]%collected_sound.
  by eapply Forall_forall.
Qed.

Lemma fine_find_by_base_name ms b : fine (find_by_base_name ms b) (λ _, True).
Proof.
  induction ms as [|f ms IH]; simpl; [done|].
  eapply fine_bind; [apply fine_method_base_name|]. intros x _. by case_decide.
Qed.

Lemma fine_findMethodImplementation_loop c b : ∀ n d,
  walk (parent_of ts) n d = None →
  fine (findMethodImplementation_loop n d c b ts) (λ _, True).
Proof.
  induction n as [|n IH]; intros d Hw; simpl in *; [done|].
  eapply fine_bind; [apply fine_find_by_base_name|]. intros [f|] _; [done|].
  destruct (m_classes ts !! d) as [t|] eqn:E; [|done].
  destruct (hasParent t) eqn:Hp; simpl; [|done].
  apply IH. by rewrite (parent_of_step _ _ _ E Hp) in Hw.
Qed.

Lemma fine_findMethodImplementation c b : fine (findMethodImplementation c b ts) (λ _, True).
Proof. by apply fine_findMethodImplementation_loop, acyclic_walk, (tb_acyclic _ _ _ Hts). Qed.

Lemma fine_generateVTableStruct : fine (generateVTableStruct ts) (λ _, True).
Proof.
  unfold generateVTableStruct. eapply (fine_bind _ _ (λ _, True)); [|done].
  apply fine_foldM; [done|]. intros s c _ _.
  eapply fine_bind; [apply fine_getAllVirtualMethods|]. intros ms _.
  apply fine_foldM; [done|]. intros s' f _ _.
  eapply fine_bind; [apply fine_method_base_name|]. done.
Qed.

Lemma fine_generateVTableInstance c : fine (generateVTableInstance c ts) (λ _, True).
Proof.
  unfold generateVTableInstance.
  eapply fine_bind; [apply fine_getAllVirtualMethods|]. intros [|f ms] _; [done|].
  eapply (fine_bind _ _ (λ _, True)); [|done].
  apply fine_foldM; [done|]. intros [inst seen] f' _ _.
  eapply fine_bind; [apply fine_method_base_name|]. intros b _. case_decide; [done|].
  eapply fine_bind; [apply fine_findMethodImplementation|]. done.
Qed.
End types.

(** ** Computations of the visitor *)
Section sound.
Context (D : list (string * option string)) (T : list string).

(** A good state with [n] scopes above the global one. *)
Record state_ok (n : nat) (s : VState) : Prop := {
  st_tables : tables_ok D T (m_typeSystem s);
  st_depth : length (scopes (m_symbolTable s)) = S n;
  st_scopes : Forall (map_Forall (λ _ v, ty_ok D (v_type v))) (scopes (m_symbolTable s));
  st_func : ∀ f, currentFunc (m_symbolTable s) = Some f → fn_ok D f
}.

Definition sound {A} (m : M A) (Q : A → Prop) : Prop :=
  ∀ n s, state_ok n s → fine (m s) (λ r, state_ok n r.2 ∧ Q r.1).

Lemma sound_mono {A} (m : M A) (P Q : A → Prop) :
  sound m P → (∀ a, P a → Q a) → sound m Q.
Proof.
  intros Hm HPQ n s Hs. eapply fine_mono; [by apply Hm|]. intros [a s'] [? ?]. auto.
Qed.

Lemma sound_ret {A} (a : A) (Q : A → Prop) : Q a → sound (mret a) Q.
Proof. by intros Ha n s Hs. Qed.

Lemma sound_bind {A B} (m : M A) (k : A → M B) P Q :
  sound m P → (∀ a, P a → sound (k a) Q) → sound (m ≫= k) Q.
Proof.
  intros Hm Hk n s Hs. specialize (Hm n s Hs). unfold mbind, stM_bind.
  destruct (m s) as [[a s1]| | |]; simpl in *; try done.
  destruct Hm as [Hs1 Ha]. by apply Hk.
Qed.

Lemma sound_gets {A} (f : VState → A) : sound (gets f) (λ _, True).
Proof. by intros n s Hs. Qed.

Lemma sound_lift {A} (o : outcome A) Q : fine o Q → sound (lift o) Q.
Proof. intros Ho n s Hs. unfold lift. by destruct o. Qed.

Lemma sound_throw {A} e (Q : A → Prop) : source_error e = true → sound (throw e) Q.
Proof. by intros He n s Hs. Qed.

Lemma sound_catch_all {A} (m h : M A) Q : sound m Q → sound h Q → sound (catch_all m h) Q.
Proof.
  intros Hm Hh n s Hs. specialize (Hm n s Hs). specialize (Hh n s Hs). unfold catch_all.
  by destruct (m s) as [[a s1]| | |].
Qed.

Lemma sound_whenM c (m : M unit) :
  (c = true → sound m (λ _, True)) → sound (whenM c m) (λ _, True).
Proof. intros Hm. destruct c; simpl; [by apply Hm|by apply sound_ret]. Qed.

Lemma sound_foldM {A B} (f : B → A → M B) (P : B → Prop) l b :
  P b → (∀ b a, a ∈ l → P b → sound (f b a) P) → sound (foldM f l b) P.
Proof.
  revert b. induction l as [|a l IH]; intros b Hb Hf; simpl; [by apply sound_ret|].
  eapply sound_bind; [apply Hf; [by left|done]|]. intros b' Hb'.
  apply IH; [done|]. intros. apply Hf; [by right|done].
Qed.

Lemma sound_forM {A} (f : A → M unit) l :
  (∀ a, a ∈ l → sound (f a) (λ _, True)) → sound (forM_ f l) (λ _, True).
Proof.
  induction l as [|a l IH]; intros Hf; simpl; [by apply sound_ret|].
  eapply sound_bind; [apply Hf; by left|]. intros _ _. apply IH. intros. apply Hf. by right.
Qed.

Lemma sound_sequenceM {A} (l : list (M A)) :
  (∀ m, m ∈ l → sound m (λ _, True)) → sound (sequenceM l) (λ _, True).
Proof.
  intros Hl%Forall_forall. induction Hl as [|m l Hm _ IH]; simpl; [by apply sound_ret|].
  eapply sound_bind; [done|]. intros a _. eapply sound_bind; [done|]. intros r _.
  by apply sound_ret.
Qed.

(** The primitives. *)
Lemma sound_modify (f : VState → VState) :
  (∀ n s, state_ok n s → state_ok n (f s)) → sound (modify f) (λ _, True).
Proof. intros Hf n s Hs. split; [by apply Hf|done]. Qed.

Lemma state_ok_same n s s' :
  m_typeSystem s' = m_typeSystem s → m_symbolTable s' = m_symbolTable s →
  state_ok n s → state_ok n s'.
Proof. intros Ht Hy []. split; by rewrite ?Ht, ?Hy. Qed.

Lemma sound_out t : sound (out t) (λ _, True).
Proof. apply sound_modify. intros n s. by apply state_ok_same. Qed.

Lemma sound_sym {A} (f : SymbolTable → A) : sound (sym f) (λ _, True).
Proof. apply sound_gets. Qed.

Lemma sound_types {A} (f : TypeSystem → A) : sound (types f) (λ _, True).
Proof. apply sound_gets. Qed.

Lemma sound_lookup x :
  sound (sym (lookupSymbol x)) (λ o, ∀ v, o = Some v → ty_ok D (v_type v)).
Proof.
  intros n s Hs. split; [done|]. simpl. intros v Hv. unfold lookupSymbol in Hv.
  destruct (lookup_scopes x (scopes (m_symbolTable s))) as [v'|] eqn:E.
  - injection Hv as <-. pose proof (st_scopes _ _ Hs) as Hsc. revert E.
    induction Hsc as [|sc l Hsc _ IH]; simpl; [done|].
    destruct (sc !! x) eqn:Ex; [intros [= <-]; by apply (Hsc _ _ Ex)|done].
  - destruct (currentFunc (m_symbolTable s)) as [f|] eqn:Ef; [|done].
    pose proof (fo_params _ _ (st_func _ _ Hs _ Ef)) as Hps. revert Hv. clear E.
    induction Hps as [|[y t] ps Ht _ IH]; simpl; [done|].
    case_decide; [by intros [= <-]|done].
Qed.

Lemma sound_methods c : sound (types (getClassMethods c)) (Forall (fn_ok D)).
Proof. intros n s Hs. split; [done|]. apply (tb_methods _ _ _ (st_tables _ _ Hs)). Qed.

Lemma sound_types_out {A} (f : TypeSystem → outcome A) Q :
  (∀ ts, tables_ok D T ts → fine (f ts) Q) → sound (types_out f) Q.
Proof.
  intros Hf n s Hs. unfold types_out, mbind, stM_bind, gets, lift.
  specialize (Hf _ (st_tables _ _ Hs)). by destruct (f (m_typeSystem s)).
Qed.

Lemma state_ok_types n s ts :
  tables_ok D T ts → state_ok n s → state_ok n (set_typeSystem ts s).
Proof. intros Hts []. by split. Qed.

Lemma sound_types_res {A} (f : TypeSystem → outcome (A * TypeSystem)) Q :
  (∀ ts, tables_ok D T ts → fine (f ts) (λ r, tables_ok D T r.2 ∧ Q r.1)) →
  sound (types_res f) Q.
Proof.
  intros Hf n s Hs. unfold types_res, types_out, mbind, stM_bind, gets, lift.
  specialize (Hf _ (st_tables _ _ Hs)).
  destruct (f (m_typeSystem s)) as [[a ts]| | |]; try done. destruct Hf as [Hts Ha].
  split; [by apply state_ok_types|done].
Qed.

Lemma sound_types_upd (f : TypeSystem → outcome TypeSystem) :
  (∀ ts, tables_ok D T ts → fine (f ts) (tables_ok D T)) → sound (types_upd f) (λ _, True).
Proof.
  intros Hf n s Hs. unfold types_upd, types_out, mbind, stM_bind, gets, lift.
  specialize (Hf _ (st_tables _ _ Hs)).
  destruct (f (m_typeSystem s)) as [ts| | |]; try done. split; [by apply state_ok_types|done].
Qed.

Lemma fine_types_upd {A} (f : TypeSystem → outcome TypeSystem) (k : unit → M A) s P Q :
  fine (f (m_typeSystem s)) P → (∀ ts, P ts → fine (k tt (set_typeSystem ts s)) Q) →
  fine ((types_upd f ≫= k) s) Q.
Proof.
  intros Hf Hk. unfold types_upd, types_out, mbind, stM_bind, gets, lift, modify.
  destruct (f (m_typeSystem s)) as [ts| | |]; try done. by apply Hk.
Qed.

Lemma state_ok_symbols n s st :
  length (scopes st) = S n → Forall (map_Forall (λ _ v, ty_ok D (v_type v))) (scopes st) →
  (∀ f, currentFunc st = Some f → fn_ok D f) →
  ∀ m, state_ok m s → state_ok n (set_symbolTable st s).
Proof. intros Hl Hsc Hf m []. by split. Qed.

Lemma sound_setCurrentFunc f :
  (∀ g, f = Some g → fn_ok D g) → sound (setCurrentFunc f) (λ _, True).
Proof.
  intros Hf. apply sound_modify. intros n s Hs. eapply state_ok_symbols; [..|exact Hs]; try apply Hs.
  done.
Qed.

Lemma sound_add_globalVar g : sound (sym_upd (add_globalVar g)) (λ _, True).
Proof.
  apply sound_modify. intros n s Hs. eapply state_ok_symbols; [..|exact Hs]; apply Hs.
Qed.

Lemma sound_add_symbol x t : ty_ok D t → sound (add_symbol x t) (λ _, True).
Proof.
  intros Ht n s Hs. unfold add_symbol, sym, mbind, stM_bind, gets, lift, modify, addSymbol.
  pose proof (st_depth _ _ Hs) as Hd. pose proof (st_scopes _ _ Hs) as Hsc.
  destruct (scopes (m_symbolTable s)) as [|back rest] eqn:E; [done|].
  apply Forall_cons in Hsc as [Hback Hrest].
  split; [|done]. eapply state_ok_symbols; [..|exact Hs]; [done| |apply Hs].
  constructor; [|done]. by apply map_Forall_insert_2.
Qed.

(** A computation that closes the scope it is started in. *)
Definition closes {A} (m : M A) (Q : A → Prop) : Prop :=
  ∀ n s, state_ok (S n) s → fine (m s) (λ r, state_ok n r.2 ∧ Q r.1).

Lemma closes_bind {A B} (m : M A) (k : A → M B) P Q :
  sound m P → (∀ a, P a → closes (k a) Q) → closes (m ≫= k) Q.
Proof.
  intros Hm Hk n s Hs. specialize (Hm _ s Hs). unfold mbind, stM_bind.
  destruct (m s) as [[a s1]| | |]; simpl in *; try done.
  destruct Hm as [Hs1 Ha]. by apply Hk.
Qed.

Lemma closes_exit {A} (k : unit → M A) Q :
  sound (k tt) Q → closes (sym_upd exitScope ≫= k) Q.
Proof.
  intros Hk n s Hs. apply Hk. pose proof (st_depth _ _ Hs) as Hd.
  pose proof (st_scopes _ _ Hs) as Hsc. unfold exitScope.
  destruct (scopes (m_symbolTable s)) as [|sc rest] eqn:E; [done|].
  apply Forall_cons in Hsc as [_ Hrest].
  eapply state_ok_symbols; [..|exact Hs]; [|done|apply Hs]. simpl in *. lia.
Qed.

Lemma sound_enter {A} (k : unit → M A) Q :
  closes (k tt) Q → sound (sym_upd enterScope ≫= k) Q.
Proof.
  intros Hk n s Hs. apply Hk.
  eapply state_ok_symbols; [..|exact Hs]; simpl; [by rewrite (st_depth _ _ Hs)| |apply Hs].
  constructor; [apply map_Forall_empty|apply Hs].
Qed.
End sound.

#[export] Hint Resolve sound_gets sound_out sound_sym sound_types sound_lookup sound_methods
  sound_add_globalVar sound_add_symbol : sound.
#[export] Hint Resolve to_printable ty_ok_setPointer ty_ok_setArray : sound.

(** One step along a handler.  The postcondition of the first part of a bind is the one a
    hint gives, or nothing. *)
Ltac sound_side := solve [done | eauto with sound | naive_solver eauto with sound].
Ltac sound_step :=
  match goal with
  | |- ∀ _, _ => intro
  | |- True => exact I
  | |- sound _ _ (mret _) _ => apply sound_ret; try sound_side
  | |- sound _ _ (mbind _ _) _ =>
      first [ eapply sound_bind; [solve [eauto with sound]|]
            | apply (sound_bind _ _ _ _ (λ _, True)) ]
  | |- sound _ _ (whenM _ _) _ => apply sound_whenM
  | |- sound _ _ (forM_ _ _) _ => apply sound_forM
  | |- sound _ _ (sequenceM _) _ => apply sound_sequenceM
  | |- sound _ _ (catch_all _ _) _ => apply sound_catch_all
  | |- sound _ _ (throw _) _ => apply sound_throw; done
  | |- sound _ _ (lift _) _ => apply sound_lift; try sound_side
  | |- sound _ _ _ _ => solve [eauto with sound]
  | |- sound _ _ (types_out _) _ => apply sound_types_out; intros; try sound_side
  | |- sound _ _ (modify _) _ => apply sound_modify; intros; try (eapply state_ok_same; [| |eassumption]; done)
  | |- sound _ _ (match ?x with _ => _ end) _ => destruct x eqn:?
  end.
Ltac sound_auto := repeat (sound_step; cbn [whenM negb andb fst snd default]).
