(* ===== verification/SafePrograms.v ===== *)
(** Safe programs: the visitor runs to its end, or reports an error of the source, on
    every program that passes the checks of file Static. *)
From S2P Require Import Prelude Errors CppString Types TypeSystem SymbolTable CodeGenerator.
From S2P Require Import Syntax Visitor Transpile StringFacts Hierarchy MethodLookup.
From S2P Require Import TypeSystemInv Static SyntaxInd Soundness.
#[local] Open Scope Z_scope.

(** ** The C generator *)
Lemma printable_getSignature f :
  printable (f_returnType f) → Forall (λ p, printable p.2) (f_params f) →
  ∃ s, getSignature f = Ret s.
Proof.
  intros Hr Hps. unfold getSignature. rewrite toString_ty_text by done. bind_ret.
  erewrite (foldM_outcome_pure _ (λ (st : string * bool) p,
    ((if negb st.2 then st.1 +:+ ", " else st.1) +:+ var_text p.2 p.1, false))); [by eexists|].
  intros [sig b] p Hp. rewrite Forall_forall in Hps.
  by rewrite outputVariable_var_text by (by apply Hps).
Qed.

Lemma printable_struct_members ms acc :
  Forall (λ m, printable m.2) ms → ∃ s, foldM (λ acc m, C_struct_member acc m) ms acc = Ret s.
Proof.
  intros Hms. revert acc. induction Hms as [|[x t] ms Ht _ IH]; intros acc; [by eexists|].
  assert (∃ s, C_struct_member acc (x, t) = Ret s) as [s Hs].
  { unfold C_struct_member. simpl in *. rewrite toString_ty_text by done.
    destruct (isArray t); [|by eexists].
    destruct (isStruct t); [by eexists|]. unfold printable in Ht.
    destruct (m_baseType t); try done; by eexists. }
  cbn [foldM]. rewrite Hs. apply IH.
Qed.

#[export] Instance CCodeGenerator_safe useRC : SafeGenerator (CCodeGenerator useRC).
Proof.
  split; simpl.
  - intros f Hr Hps. unfold C_generateFunctionDecl.
    destruct (f_isVirtual f); [|by apply printable_getSignature].
    rewrite toString_ty_text by done. bind_ret.
    erewrite (foldM_outcome_pure _ (λ s p, s +:+ ", " +:+ ty_text p.2 +:+ " " +:+ p.1));
      [by eexists|].
    intros s p Hp. rewrite toString_ty_text; [done|].
    eapply (Forall_forall (λ p, printable p.2)); [exact Hps|].
    rewrite <-(take_drop 1 (f_params f)). apply elem_of_app. by right.
  - intros x t i Ht. unfold C_generateVarDecl. rewrite outputVariable_var_text by done. by eexists.
  - intros x t i Hms. unfold C_generateStructDecl.
    destruct (printable_struct_members _ ("struct " +:+ x +:+ " {" +:+ nl) Hms) as [s Hs].
    rewrite Hs. by eexists.
  - intros x t Ht Hms. unfold C_generateTypeDef, C_generateStructDecl.
    destruct (printable_struct_members _ ("struct " +:+ getStructName t +:+ " {" +:+ nl) Hms)
      as [s Hs].
    rewrite Hs, toString_ty_text by done. destruct (isStruct t); by eexists.
  - intros t Ht. unfold C_generateAlloc. rewrite toString_ty_text by done. by eexists.
Qed.

(** ** The handlers *)
Section handlers.
Context `{CG : CodeGenerator} {HCG : SafeGenerator CG}.
Context (D : list (string * option string)) (T : list string) (HD : static_ok D T).
Abbreviation sound m Q := (sound D T m Q).
Abbreviation ok m := (sound m (λ _, True)).

Lemma fine_function f : fn_ok D f → fine (generateFunctionDecl (Some f)) (λ _, True).
Proof.
  intros [Hr Hps]. apply fine_exists, safe_function; [done|].
  eapply Forall_impl; [exact Hps|]. intros p []. done.
Qed.
Lemma fine_var x t i : ty_ok D t → fine (generateVarDecl x t i) (λ _, True).
Proof. intros []. by apply fine_exists, safe_var. Qed.
Lemma fine_struct x t i : ty_ok D t → fine (generateStructDecl x t i) (λ _, True).
Proof. intros []. by apply fine_exists, safe_struct. Qed.
Lemma fine_typedef x t : ty_ok D t → fine (generateTypeDef x t) (λ _, True).
Proof. intros []. by apply fine_exists, safe_typedef. Qed.
Lemma fine_alloc t : ty_ok D t → fine (generateAlloc t) (λ _, True).
Proof. intros []. by apply fine_exists, safe_alloc. Qed.
#[local] Hint Resolve fine_function fine_var fine_struct fine_typedef fine_alloc : sound.

Lemma sound_resolveType x : sound (types_out (resolveType x)) (ty_ok D).
Proof. apply sound_types_out. intros. by eapply fine_resolveType. Qed.
Lemma sound_getAllVirtualMethods c :
  sound (types_out (getAllVirtualMethods c)) (Forall (fn_ok D)).
Proof. apply sound_types_out. intros. by eapply fine_getAllVirtualMethods. Qed.
Lemma sound_find_method c m :
  ok (types_out (λ ts, find_method (resolve_fuel ts) c c m ts)).
Proof. apply sound_types_out. intros. by eapply fine_find_method. Qed.
Lemma sound_isCompatible t1 t2 :
  ty_ok D t1 → ty_ok D t2 → ok (types_out (isCompatible t1 t2)).
Proof. intros [] []. apply sound_types_out. intros. by eapply fine_isCompatible. Qed.
#[local] Hint Resolve sound_resolveType sound_getAllVirtualMethods sound_find_method
  sound_isCompatible : sound.

Lemma sound_resolveTypeFromContext t : sound (resolveTypeFromContext t) (ty_ok D).
Proof.
  unfold resolveTypeFromContext.
  sound_auto. case_match; auto using ty_ok_setPointer.
Qed.
#[local] Hint Resolve sound_resolveTypeFromContext : sound.

Lemma sound_getArrayFromCode a : sound (getArrayFromCode a) (ty_ok D).
Proof.
  unfold getArrayFromCode. eapply sound_bind; [eauto with sound|]. intros t Ht.
  apply (sound_bind _ _ _ _ (λ _, True)); [apply sound_foldM|]; sound_auto.
Qed.
#[local] Hint Resolve sound_getArrayFromCode : sound.

Lemma sound_declaratorFromCode d : sound (declaratorFromCode d) (λ p, ty_ok D p.2).
Proof. unfold declaratorFromCode. sound_auto. Qed.
#[local] Hint Resolve sound_declaratorFromCode : sound.

(** The loops that collect declarators. *)
Lemma declared_app ps (p : string * Ty) :
  Forall (λ p, ty_ok D p.2) ps → ty_ok D p.2 → Forall (λ p, ty_ok D p.2) (ps ++ [p]).
Proof. intros. apply Forall_app. split; [done|by constructor]. Qed.
#[local] Hint Resolve declared_app : sound.

Lemma sound_declarators l ps :
  Forall (λ p, ty_ok D p.2) ps →
  sound (foldM (λ ps p, d ← declaratorFromCode p; mret (ps ++ [d])) l ps)
    (Forall (λ p, ty_ok D p.2)).
Proof. intros. apply sound_foldM; [done|]. sound_auto. Qed.

Lemma sound_members l :
  sound (foldM (λ ps p, d ← declaratorFromCode p; mret (ps ++ [d])) l [])
    (Forall (λ p, ty_ok D p.2)).
Proof. by apply sound_declarators. Qed.

Lemma sound_fields {E B} (l : list (classMember E B)) :
  sound (foldM (λ fields member,
                  match member with
                  | ClassField d => d ← declaratorFromCode d; mret (fields ++ [d])
                  | _ => mret fields
                  end) l [])
    (Forall (λ p, ty_ok D p.2)).
Proof. apply sound_foldM; [done|]. sound_auto. Qed.

Lemma sound_paramsFromCode ps l :
  Forall (λ p, ty_ok D p.2) l → sound (paramsFromCode ps l) (Forall (λ p, ty_ok D p.2)).
Proof. intros Hl. destruct ps as [ps|]; simpl; [by apply sound_declarators|by apply sound_ret]. Qed.

Lemma sound_params ps : sound (paramsFromCode ps []) (Forall (λ p, ty_ok D p.2)).
Proof. by apply sound_paramsFromCode. Qed.

Lemma sound_method_params ps t :
  ty_ok D t → sound (paramsFromCode ps [("this", setPointer true t)]) (Forall (λ p, ty_ok D p.2)).
Proof. intros. apply sound_paramsFromCode. constructor; [by apply ty_ok_setPointer|done]. Qed.
#[local] Hint Resolve sound_members sound_fields sound_params sound_method_params : sound.

(** The expressions. *)
Lemma sound_visitAssignExpr m m' : ok m → ok m' → ok (visitAssignExpr m m').
Proof. intros. unfold visitAssignExpr. sound_auto. Qed.

Lemma sound_visitFunctionCall x args :
  (∀ a, a ∈ default [] args → ok a) → ok (visitFunctionCall (mkFunctionCall x args)).
Proof.
  intros Hargs. unfold visitFunctionCall, encoded_call. sound_auto.
  - apply sound_foldM; [done|]. sound_auto.
  - apply sound_foldM; [done|]. unfold call_arg. sound_auto.
  - apply sound_foldM; [done|]. unfold release_arg. sound_auto.
Qed.

Lemma sound_visitNewWithConstructorExpr x args :
  (∀ a, a ∈ default [] args → ok a) → ok (visitNewWithConstructorExpr x args).
Proof. intros Hargs. unfold visitNewWithConstructorExpr. sound_auto. Qed.

Lemma sound_resolveFieldAccess x c : ok (resolveFieldAccess x c).
Proof. unfold resolveFieldAccess. sound_auto. Qed.
#[local] Hint Resolve sound_resolveFieldAccess : sound.

Lemma sound_visitPointerMemberExpr m x : ok m → ok (visitPointerMemberExpr m x).
Proof. intros. unfold visitPointerMemberExpr. sound_auto. Qed.

Lemma sound_visitMethodCallExpr m x args :
  ok m → (∀ a, a ∈ default [] args → ok a) → ok (visitMethodCallExpr m x args).
Proof. intros Hm Hargs. unfold visitMethodCallExpr. sound_auto. Qed.

Lemma sound_visitInitializerList l : ok (visitInitializerList l).
Proof. unfold visitInitializerList. sound_auto. apply sound_foldM; [done|]. sound_auto. Qed.
#[local] Hint Resolve sound_visitInitializerList : sound.

Lemma sound_args (args : option (list expr)) :
  opt_P (Forall (λ e, expr_complete e = true → ok (visit_expr e))) args →
  match args with Some l => forallb expr_complete l | None => true end = true →
  ∀ m, m ∈ default [] (option_map (map visit_expr) args) → ok m.
Proof.
  destruct args as [l|]; simpl; [|by intros _ _ m ?%not_elem_of_nil].
  intros Hl Hc m (e & -> & He)%list_elem_of_fmap. rewrite Forall_forall in Hl.
  apply Hl; [done|]. by eapply forallb_elem.
Qed.

Lemma sound_visit_expr e : expr_complete e = true → ok (visit_expr e).
Proof.
  induction e using expr_tree_ind; cbn [visit_expr expr_complete fc_name fc_args]; intros Hc;
    rewrite ?andb_true_iff in Hc; destruct_and?;
    unfold visitPrimary, visitMemberExpr, visitFuncCallExpr, visitLiteralExpr, visitLiteral,
      visitAddSubExpr, visitCompareExpr, visitMulDivExpr, visitVarExpr, visitNewExpr,
      visitAddressOfExpr, visitDereferenceExpr, visitArrayAccessExpr,
      visitPostIncrementExpr, visitPostDecrementExpr, visitPreIncrementExpr,
      visitPreDecrementExpr;
    try (eauto using sound_args, sound_visitAssignExpr, sound_visitFunctionCall,
      sound_visitNewWithConstructorExpr, sound_visitPointerMemberExpr,
      sound_visitMethodCallExpr; fail);
    sound_auto; eauto with sound.
  unfold visitStructInitExpr. apply bool_decide_eq_true in Hc as [i ->]. cbn [option_map]. sound_auto.
Qed.

(** The changes of the tables. *)
Lemma sound_registerStruct x : ok (types_upd (λ ts, Ret (registerStruct x ts).2)).
Proof. apply sound_types_upd. intros ts Hts. by apply tables_ok_struct. Qed.

Lemma sound_setStructMembers x ms :
  Forall (λ p, ty_ok D p.2) ms → sound (types_res (setStructMembers x ms)) (ty_ok D).
Proof.
  intros Hms. apply sound_types_res. intros ts Hts.
  pose proof (λ t ts', tables_ok_struct_members D T x ms t ts ts') as Hok. revert Hok.
  unfold setStructMembers. destruct (m_structs ts !! x); [|done]. intros Hok. by apply Hok.
Qed.

Lemma sound_setClassMembers c ms :
  Forall (λ p, ty_ok D p.2) ms → sound (types_res (setClassMembers c ms)) (ty_ok D).
Proof.
  intros Hms. apply sound_types_res. intros ts Hts.
  pose proof (λ t ts', tables_ok_class_members D T c ms t ts ts') as Hok. revert Hok.
  unfold setClassMembers. destruct (m_classes ts !! c); [|done]. intros Hok. by apply Hok.
Qed.

Lemma sound_registerTypeDef x t :
  x ∈ T → ty_ok D t → ok (types_upd (λ ts, Ret (registerTypeDef x t ts))).
Proof. intros. apply sound_types_upd. intros ts Hts. by apply tables_ok_typedef. Qed.

Lemma sound_registerFunction f : ok (types_upd (registerFunction (Some f))).
Proof. apply sound_types_upd. intros ts Hts. by eapply tables_ok_function. Qed.

Lemma sound_registerClassConstructor c f : ok (types_upd (registerClassConstructor c (Some f))).
Proof. apply sound_types_upd. intros ts Hts. by eapply tables_ok_constructor. Qed.

Lemma sound_registerClassMethod c f :
  fn_ok D f → ok (types_upd (registerClassMethod c (Some f))).
Proof. intros. apply sound_types_upd. intros ts Hts. by eapply tables_ok_method. Qed.

Lemma sound_registerDefine x v : ok (types_upd (λ ts, Ret (registerDefine x v ts))).
Proof. apply sound_types_upd. intros ts Hts. by apply tables_ok_define. Qed.

Lemma sound_currentFunc f : fn_ok D f → ok (setCurrentFunc (Some f)).
Proof. intros. apply sound_setCurrentFunc. by intros ? [= <-]. Qed.

Lemma sound_no_currentFunc : ok (setCurrentFunc None).
Proof. by apply sound_setCurrentFunc. Qed.
#[local] Hint Resolve sound_registerStruct sound_setStructMembers sound_setClassMembers
  sound_registerTypeDef sound_registerFunction sound_registerClassConstructor
  sound_registerClassMethod sound_registerDefine sound_currentFunc sound_no_currentFunc : sound.

(** The declarations. *)
Lemma sound_getStructFromCode d : sound (getStructFromCode d) (ty_ok D).
Proof. unfold getStructFromCode. sound_auto. Qed.
#[local] Hint Resolve sound_getStructFromCode : sound.

Lemma sound_visitStructDecl d : ok (visitStructDecl d).
Proof. unfold visitStructDecl. sound_auto. Qed.

Lemma sound_visitTypedefDecl b x : x ∈ T → ok (visitTypedefDecl b x).
Proof.
  intros Hx. unfold visitTypedefDecl.
  apply (sound_bind _ _ _ _ (ty_ok D)); [sound_auto|]. intros t Ht. sound_auto.
Qed.

(** [registerClass] in the first pass, and [setClassParent]. *)
Lemma fine_setClassParent c p ts ts0 :
  (c, Some p) ∈ D → tables_ok D T ts → before_parent c ts ts0 →
  fine (r ← setClassParent c p ts0; Ret r.2) (tables_ok D T).
Proof.
  intros Hc Hts Hb. destruct (setClassParent c p ts0) as [[t ts']|e| |] eqn:E; bind_ret; simpl.
  - by eapply tables_ok_parent.
  - unfold setClassParent in E. destruct (m_classes ts0 !! c); [|by injection E as <-].
    by destruct (m_classes ts0 !! p); simplify_eq.
  - unfold setClassParent in E. by repeat case_match.
  - unfold setClassParent in E. by repeat case_match.
Qed.

Lemma sound_enter_class {A} c p (fp : bool) (k : unit → M A) Q :
  (c, p) ∈ D → sound (k tt) Q →
  sound (_ ← whenM fp (types_upd (λ ts, Ret (registerClass c ts).2));
         u ← match p with
             | Some parentName =>
                 types_upd (λ ts, r ← setClassParent c parentName ts; Ret r.2)
             | None => mret tt
             end; k u) Q.
Proof.
  intros Hc Hk. destruct p as [p|].
  - intros n s Hs. pose proof (st_tables _ _ _ _ Hs) as Hts.
    assert (∀ ts0, before_parent c (m_typeSystem s) ts0 →
      fine ((u ← types_upd (λ ts, r ← setClassParent c p ts; Ret r.2); k u) (set_typeSystem ts0 s))
        (λ r, state_ok D T n r.2 ∧ Q r.1)) as Hset.
    { intros ts0 Hb. pose proof (fine_setClassParent c p _ _ Hc Hts Hb) as Hf.
      eapply fine_types_upd; [exact Hf|]. intros ts' Hts'.
      apply Hk. exact (state_ok_types _ _ n s ts' Hts' Hs). }
    destruct fp; [exact (Hset _ (or_intror eq_refl))|].
    specialize (Hset (m_typeSystem s) (or_introl eq_refl)). by destruct s.
  - apply (sound_bind _ _ _ _ (λ _, True)).
    2:{ intros _ _. apply (sound_bind _ _ _ _ (λ _, True)); [by apply sound_ret|by intros [] _]. }
    apply sound_whenM. intros _. apply sound_types_upd. intros ts Hts. by apply tables_ok_class.
Qed.

Lemma sound_getClassFromCode {E B} c p (ms : list (classMember E B)) :
  (c, p) ∈ D → sound (getClassFromCode c p ms) (ty_ok D).
Proof.
  intros Hc. unfold getClassFromCode. eapply sound_bind; [apply sound_gets|]. intros fp _.
  apply sound_enter_class; [done|]. sound_auto.
Qed.

Lemma sound_visit_constructor c t ps super m :
  ty_ok D t → ok m → ok (generateParentConstructorCall super) →
  ok (visit_constructor c t ps super m).
Proof.
  intros Ht Hm Hs. unfold visit_constructor. eapply sound_bind; [eauto with sound|].
  intros ps' Hps'.
  assert (fn_ok D (mkFunction (c +:+ "_" +:+ c) ps' (Type_base BVoid) false false)) by by split.
  sound_auto.
Qed.

Lemma sound_visit_method c t text rt x ps m :
  ty_ok D t → ok m → ok (visit_method c t text rt x ps m).
Proof.
  intros Ht Hm. unfold visit_method. eapply sound_bind; [eauto with sound|]. intros r Hr.
  apply (sound_bind _ _ _ _ (λ _, True)); [sound_auto|]. intros v _.
  eapply sound_bind; [eauto with sound|]. intros ps' Hps'.
  assert (fn_ok D (mkFunction (c +:+ "_" +:+ x) ps' r false v)) by (split; [apply Hr|done]).
  sound_auto.
Qed.

Lemma sound_visitFunctionDecl t x ps m : ok m → ok (visitFunctionDecl t x ps m).
Proof.
  intros Hm. unfold visitFunctionDecl. eapply sound_bind; [eauto with sound|]. intros ps' Hps'.
  eapply sound_bind; [eauto with sound|]. intros r Hr.
  assert (fn_ok D (mkFunction x ps' r false false)) by (split; [apply Hr|done]).
  sound_auto.
Qed.

Lemma sound_visitVarDecl d i : (∀ m, i = Some m → ok m) → ok (visitVarDecl (mkVarDecl d i)).
Proof.
  intros Hi. unfold visitVarDecl. cbn [vd_decl vd_init].
  eapply sound_bind; [eauto with sound|]. intros indent _.
  eapply sound_bind; [eauto with sound|]. intros [x t] Ht. simpl in Ht. sound_auto.
Qed.

(** The statements. *)
Lemma sound_release_scope i : ok (release_scope i).
Proof. unfold release_scope. sound_auto. Qed.
#[local] Hint Resolve sound_release_scope : sound.

Lemma sound_visitBlock l : (∀ m, m ∈ l → ok m) → ok (visitBlock l).
Proof.
  intros Hl. unfold visitBlock. apply sound_enter.
  do 6 (apply (closes_bind _ _ _ _ (λ _, True)); [sound_auto; auto|intros ? _]).
  apply closes_exit. sound_auto.
Qed.

Lemma sound_visitReturnStmt m : ok m → ok (visitReturnStmt (Some m)).
Proof. intros Hm. unfold visitReturnStmt. sound_auto. Qed.

Lemma sound_visitForStmt i es m :
  match i with
  | FI_var v => opt_P (λ m, ok m) (vd_init v)
  | FI_expr e => ok e
  | FI_none => True
  end →
  (∀ e, e ∈ es → ok e) → ok m → ok (visitForStmt i es m).
Proof.
  intros Hi Hes Hm. unfold visitForStmt.
  assert (∀ e1 l, es = e1 :: l → ok e1) by (intros ?? ->; apply Hes; by left).
  assert (∀ e1 e2 l, es = e1 :: e2 :: l → ok e2) by (intros ??? ->; apply Hes; by right; left).
  sound_auto; eauto.
Qed.

Lemma sound_visitIfStmt c t e :
  ok c → ok t → (∀ m, e = Some m → ok m) → ok (visitIfStmt c t e).
Proof. intros Hc Ht He. unfold visitIfStmt. sound_auto. Qed.

Lemma sound_visitWhileStmt c m : ok c → ok m → ok (visitWhileStmt c m).
Proof. intros Hc Hm. unfold visitWhileStmt. sound_auto. Qed.

Definition member_sound (m : classMember (M string) (M unit)) : Prop :=
  match m with
  | ClassField _ => True
  | ClassMethod _ _ _ _ body => ok body
  | ClassConstructor _ _ super body => ok (generateParentConstructorCall super) ∧ ok body
  end.

Lemma sound_visitClassDecl c p ms :
  (c, p) ∈ D → (∀ m, m ∈ ms → member_sound m.1) → ok (visitClassDecl c p ms).
Proof.
  intros Hc Hms. unfold visitClassDecl.
  eapply sound_bind; [by apply sound_getClassFromCode|]. intros t Ht.
  eapply sound_bind; [eauto with sound|]. intros fp _.
  apply (sound_bind _ _ _ _ (λ _, True)).
  - sound_auto. apply fine_toString.
    eapply (Forall_forall (λ m, printable m.2)); [apply Ht|done].
  - intros _ _. apply sound_forM. intros [[d|v rt x ps body|x ps super body] text] Hin;
      specialize (Hms _ Hin); simpl in *.
    + sound_auto.
    + by apply sound_visit_method.
    + destruct Hms. by apply sound_visit_constructor.
Qed.

Lemma sound_super (super : option (string * option (list expr))) :
  super_complete super = true →
  ok (generateParentConstructorCall (option_map (λ '(p, args), (p, visit_args args)) super)).
Proof.
  intros Hs. unfold generateParentConstructorCall.
  destruct super as [[p [args|]]|]; simpl in *; [|done|sound_auto].
  assert (∀ m, m ∈ map visit_expr args → ok m); [|by sound_auto].
  intros m (e & -> & He)%list_elem_of_fmap. apply sound_visit_expr. by eapply forallb_elem.
Qed.

(** What a statement needs of the program it is part of. *)
Definition within (s : statement) : Prop :=
  complete s = true ∧ (∀ d, d ∈ class_decls s → d ∈ D) ∧ (∀ x, x ∈ typedef_names s → x ∈ T).

Lemma in_concat_map {A B} (f : A → list B) l a b : a ∈ l → b ∈ f a → b ∈ concat (map f l).
Proof.
  intros Ha Hb. induction Ha as [|a a' l _ IH]; simpl; apply elem_of_app; auto.
Qed.

Lemma within_list l :
  forallb complete l = true →
  (∀ d, d ∈ concat (map class_decls l) → d ∈ D) →
  (∀ x, x ∈ concat (map typedef_names l) → x ∈ T) → ∀ s, s ∈ l → within s.
Proof.
  intros Hc Hd Ht s Hs. split; [by eapply forallb_elem|].
  split; intros; [apply Hd|apply Ht]; by eapply in_concat_map.
Qed.

Lemma sound_block l :
  Forall (λ s, within s → ok (visit_stmt s)) l →
  forallb complete l = true →
  (∀ d, d ∈ concat (map class_decls l) → d ∈ D) →
  (∀ x, x ∈ concat (map typedef_names l) → x ∈ T) →
  ok (visitBlock (map visit_stmt l)).
Proof.
  intros Hl Hc Hd Ht. apply sound_visitBlock. intros m (s & -> & Hs)%list_elem_of_fmap.
  rewrite Forall_forall in Hl. by apply Hl, (within_list l).
Qed.

Lemma sound_visit_stmt s : within s → ok (visit_stmt s).
Proof.
  induction s using stmt_tree_ind; intros (Hc & Hd & Ht); cbn [complete class_decls typedef_names] in *;
    cbn [visit_stmt].
  - apply sound_visitFunctionDecl. by apply sound_block.
  - destruct v as [d [e|]]; apply sound_visitVarDecl; [|done]. intros ? [= <-].
    by apply sound_visit_expr.
  - by apply sound_ret.
  - destruct e; [|done]. by apply sound_visitReturnStmt, sound_visit_expr.
  - pose proof (sound_visit_expr _ Hc). unfold visitExprStmt. sound_auto.
  - by apply sound_block.
  - apply sound_visitStructDecl.
  - apply sound_visitClassDecl; [apply Hd; by left|].
    intros m (x0 & -> & Hin)%list_elem_of_fmap. simpl.
    assert (∀ d b, d ∈ concat (map class_decls b) →
      (match x0 with ClassField _ => [] | ClassMethod _ _ _ _ b' | ClassConstructor _ _ _ b' =>
         concat (map class_decls b') end) = concat (map class_decls b) → d ∈ D) as Hd'.
    { intros d b Hdb Hb. apply Hd. right. eapply in_concat_map; [exact Hin|]. by rewrite Hb. }
    assert (∀ x b, x ∈ concat (map typedef_names b) →
      (match x0 with ClassField _ => [] | ClassMethod _ _ _ _ b' | ClassConstructor _ _ _ b' =>
         concat (map typedef_names b') end) = concat (map typedef_names b) → x ∈ T) as Ht'.
    { intros y b Hyb Hb. apply Ht. eapply in_concat_map; [exact Hin|]. by rewrite Hb. }
    pose proof (forallb_elem _ _ _ Hc Hin) as Hcm.
    rewrite Forall_forall in H. specialize (H _ Hin).
    destruct x0 as [d|v rt y ps bd|y ps super bd]; simpl in *; [done| |].
    + apply sound_block; [done..| |]; intros; [by eapply Hd'|by eapply Ht'].
    + apply andb_prop in Hcm as [Hsup Hcm]. split; [by apply sound_super|].
      apply sound_block; [done..| |]; intros; [by eapply Hd'|by eapply Ht'].
  - rewrite !andb_true_iff in Hc. destruct Hc as [[Hcc Hct] Hce].
    apply sound_visitIfStmt; [by apply sound_visit_expr|..].
    + apply IHs. split; [done|]. split; intros; [apply Hd|apply Ht]; apply elem_of_app; by left.
    + intros m Hm. destruct e as [e|]; [|done]. injection Hm as <-. apply H.
      split; [done|]. split; intros; [apply Hd|apply Ht]; apply elem_of_app; by right.
  - apply andb_prop in Hc as [Hcc Hcb].
    apply sound_visitWhileStmt; [by apply sound_visit_expr|]. by apply IHs.
  - rewrite !andb_true_iff in Hc. destruct Hc as [[[Hi Hcc] Hcs] Hcb].
    apply sound_visitForStmt; [| |by apply IHs].
    + destruct i as [[d [e|]]|e|]; simpl in *; try done; by apply sound_visit_expr.
    + intros m (e & -> & He)%list_elem_of_fmap. apply sound_visit_expr.
      destruct c, st; simpl in *; by decompose_list_elem_of; simplify_eq.
  - apply sound_visitTypedefDecl, Ht. by left.
Qed.

(** ** A program *)
Lemma include_no_define text : substr ("#include" +:+ text) 0 7 ≠ Ret "#define".
Proof.
  unfold substr. destruct (_ <? _); [done|]. intros [= H]. revert H.
  destruct (Z.to_nat _) as [|[|[|[|[|[|[|[|]]]]]]]]; done.
Qed.

Lemma sound_visitPreprocessorDirective d : ok (visitPreprocessorDirective d).
Proof.
  unfold visitPreprocessorDirective.
  destruct d as [text|x v]; [|by sound_auto].
  pose proof (include_no_define text) as Hn. change (directive_text (PD_include text)) with ("#include" +:+ text).
  apply (sound_bind _ _ _ _ (λ p, substr ("#include" +:+ text) 0 7 = Ret p)).
  - apply sound_lift. pose proof (fine_substr ("#include" +:+ text) 0 7).
    by destruct (substr _ _ _).
  - intros p Hp. case_decide; [by subst|]. sound_auto.
Qed.

Lemma sound_declare_method d f : fn_ok D f → ok (declare_method d f).
Proof. intros Hf. unfold declare_method. sound_auto. Qed.
#[local] Hint Resolve sound_declare_method : sound.

Lemma sound_declare_virtuals d c : ok (declare_virtuals d c).
Proof.
  unfold declare_virtuals. eapply sound_bind; [eauto with sound|]. intros fs Hfs.
  apply (sound_bind _ _ _ _ (λ _, True)).
  { apply sound_foldM; [done|]. intros d' f Hf _. apply sound_declare_method.
    by eapply Forall_forall. }
  intros d' _. eapply sound_bind; [eauto with sound|]. intros ms Hms.
  apply sound_foldM; [done|]. intros d'' f Hf _.
  destruct (f_isVirtual f); [|by apply sound_ret]. apply sound_declare_method.
  by eapply Forall_forall.
Qed.

Lemma sound_vtable_struct : ok (types_out generateVTableStruct).
Proof. apply sound_types_out. intros. by eapply fine_generateVTableStruct. Qed.
Lemma sound_vtable c : ok (types_out (generateVTableInstance c)).
Proof. apply sound_types_out. intros. by eapply fine_generateVTableInstance. Qed.
#[local] Hint Resolve sound_visitPreprocessorDirective sound_declare_virtuals
  sound_vtable_struct sound_vtable : sound.

Lemma sound_visitProgram ds l : (∀ m, m ∈ l → ok m) → ok (visitProgram ds l).
Proof.
  intros Hl. unfold visitProgram. sound_auto.
  apply sound_foldM; [done|]. eauto with sound.
Qed.
End handlers.

(** [safe] decides what the sections above assume. *)
Lemma classes_consistent_spec D T :
  classes_consistent D = true → forallb (λ x, negb (bool_decide (x ∈ D.*1))) T = true →
  static_ok D T.
Proof.
  intros Hc HT.
  assert (∀ c p, (c, p) ∈ D → is_identifier c = true ∧ p ≠ Some c ∧
            ∀ p', (c, p') ∈ D → p = p') as Hd.
  { intros c p Hin. pose proof (forallb_elem _ _ _ Hc Hin) as H. simpl in H.
    rewrite !andb_true_iff, negb_true_iff, bool_decide_eq_false in H.
    destruct H as [[Hi Hs] Hf]. split_and!; [done..|]. intros p' Hin'.
    pose proof (forallb_elem _ _ _ Hf Hin') as H. simpl in H.
    apply bool_decide_eq_true in H. by apply H. }
  split.
  - intros c p1 p2 H1 H2. by apply (Hd c p1).
  - intros c Hin. by destruct (Hd c _ Hin) as (_ & [] & _).
  - intros c ([c' p] & -> & Hin)%list_elem_of_fmap. by apply (Hd c' p).
  - intros x Hx Hin. pose proof (forallb_elem _ _ _ HT Hx) as H.
    by rewrite negb_true_iff, bool_decide_eq_false in H.
Qed.

Definition program_classes (p : program) := concat (map class_decls (pr_statements p)).
Definition program_typedefs (p : program) := concat (map typedef_names (pr_statements p)).

Lemma safe_spec p :
  safe p = true →
  static_ok (program_classes p) (program_typedefs p) ∧
  ∀ s, s ∈ pr_statements p → within (program_classes p) (program_typedefs p) s.
Proof.
  unfold safe. rewrite !andb_true_iff. intros [[Hc Hd] Ht].
  split; [by apply classes_consistent_spec|]. by apply within_list.
Qed.

Lemma state_ok_init b D T : state_ok D T 0 (VState_init b).
Proof.
  split; simpl; [apply tables_ok_default|done|by repeat constructor|done].
Qed.

Lemma sound_visit_program `{CG : CodeGenerator} {HCG : SafeGenerator CG} p :
  safe p = true →
  sound (program_classes p) (program_typedefs p) (visit_program p) (λ _, True).
Proof.
  intros [HD Hs]%safe_spec. apply sound_visitProgram. intros m (s & -> & Hin)%list_elem_of_fmap.
  by apply sound_visit_stmt, Hs.
Qed.

Lemma fine_transpile useRC b p : safe p = true → fine (transpile useRC b p) (λ _, True).
Proof.
  intros Hp. unfold transpile. eapply fine_bind; [|done].
  exact (sound_visit_program (CG:=CCodeGenerator useRC) p Hp 0%nat _ (state_ok_init b _ _)).
Qed.
