(* ===== verification/VisitorFrame.v ===== *)
(** What a visit function may change.

    [frame b q] relates the visitor's states around a visit in the first
    ([b = true]) or second pass: output only grows, the temporaries' counter never
    decreases, the scopes below the innermost are untouched, and in the second pass
    the registration tables stay as they are.  With [q] (quiet) the first pass
    emits nothing.  The lemmas [runs_*] follow the structure of the handlers, and
    the tactic [frame_auto] applies them. *)
From S2P Require Import Prelude Errors CppString Types TypeSystem SymbolTable.
From S2P Require Import CodeGenerator Syntax Visitor Transpile SyntaxInd.
#[local] Open Scope Z_scope.

(** The tables only the first pass fills. *)
Definition same_tables (ts ts' : TypeSystem) : Prop :=
  m_typedefs ts' = m_typedefs ts ∧ m_funcs ts' = m_funcs ts ∧
  m_defines ts' = m_defines ts ∧
  dom (m_structs ts') = dom (m_structs ts) ∧ dom (m_classes ts') = dom (m_classes ts) ∧
  m_classMethods ts' = m_classMethods ts ∧
  m_classConstructors ts' = m_classConstructors ts.

#[global] Instance same_tables_preorder : PreOrder same_tables.
Proof.
  split; [by intros ts; repeat split|].
  intros a b c (?&?&?&?&?&?&?) (?&?&?&?&?&?&?). repeat split; congruence.
Qed.

Record frame (b q : bool) (s s' : VState) : Prop := {
  fr_pass : m_first_pass s' = m_first_pass s;
  fr_output : ∃ t, m_output s' = m_output s +:+ t;
  fr_quiet : b = true → q = true → m_output s' = m_output s;
  fr_counter : m_tempVarCounter s <= m_tempVarCounter s';
  fr_scopes : tail (scopes (m_symbolTable s')) = tail (scopes (m_symbolTable s));
  fr_depth : length (scopes (m_symbolTable s')) = length (scopes (m_symbolTable s));
  fr_tables : b = false →
    same_tables (m_typeSystem s) (m_typeSystem s') ∧
    m_classNames s' = m_classNames s ∧
    globalVars (m_symbolTable s') = globalVars (m_symbolTable s)
}.

Lemma frame_refl b q s : frame b q s s.
Proof.
  split; try done; try lia. exists EmptyString. by rewrite string_app_nil_r.
Qed.

Lemma frame_trans b q s1 s2 s3 : frame b q s1 s2 → frame b q s2 s3 → frame b q s1 s3.
Proof.
  intros [P1 [t1 O1] Q1 C1 S1 D1 T1] [P2 [t2 O2] Q2 C2 S2 D2 T2]. split; try congruence; try lia.
  - exists (t1 +:+ t2). by rewrite O2, O1, string_app_assoc.
  - intros. rewrite Q2, Q1 by done. done.
  - intros Hb. destruct (T1 Hb) as (? & ? & ?), (T2 Hb) as (? & ? & ?).
    split; [by etrans|]. split; congruence.
Qed.

(** The pass a state is in, kept folded so that it is never substituted. *)
Definition in_pass (b : bool) (s : VState) : Prop := m_first_pass s = b.

Definition runs (b q : bool) {A} (m : M A) : Prop :=
  ∀ s a s', in_pass b s → m s = Ret (a, s') → frame b q s s'.

Lemma frame_in_pass b q s s' : frame b q s s' → in_pass b s → in_pass b s'.
Proof. intros Hf Hb. unfold in_pass. by rewrite (fr_pass _ _ _ _ Hf). Qed.

Section runs.
Context {b q : bool}.

Lemma runs_ret {A} (a : A) : runs b q (mret a).
Proof. intros s a' s' _ Hr. cbv in Hr. simplify_eq. apply frame_refl. Qed.

Lemma runs_bind {A B} (m : M A) (k : A → M B) :
  runs b q m → (∀ a, runs b q (k a)) → runs b q (m ≫= k).
Proof.
  intros Hm Hk s c s' Hb (a & s1 & H1 & H2)%stM_bind_Ret.
  pose proof (Hm _ _ _ Hb H1) as Hf. eapply frame_trans; [exact Hf|].
  eapply Hk; [|exact H2]. eapply frame_in_pass; [exact Hf|exact Hb].
Qed.

(** Reading the pass gives the pass. *)
Lemma runs_first_pass {B} (k : bool → M B) : runs b q (k b) → runs b q (first_pass ≫= k).
Proof.
  intros Hk s c s' Hb (a & s1 & H1 & H2)%stM_bind_Ret.
  unfold first_pass, gets in H1. simplify_eq. unfold in_pass in Hb.
  rewrite Hb in H2. by eapply Hk.
Qed.

Lemma runs_gets {A} (f : VState → A) : runs b q (gets f).
Proof. intros s a s' _ Hr. unfold gets in Hr. simplify_eq. apply frame_refl. Qed.

Lemma runs_lift {A} (o : outcome A) : runs b q (lift o).
Proof.
  intros s a s' _ Hr. unfold lift in Hr. destruct o; simplify_eq. apply frame_refl.
Qed.

Lemma runs_throw {A} e : runs b q (throw (A:=A) e).
Proof. by intros s a s' _ Hr. Qed.

Lemma runs_crash {A} c : runs b q (crashM (A:=A) c).
Proof. by intros s a s' _ Hr. Qed.

Lemma runs_catch_all {A} (m h : M A) : runs b q m → runs b q h → runs b q (catch_all m h).
Proof.
  intros Hm Hh s a s' Hb. unfold catch_all.
  destruct (m s) as [[a1 s1]| | |] eqn:E; intros Hr; simplify_eq; eauto.
Qed.

Lemma runs_whenM c (m : M unit) : (c = true → runs b q m) → runs b q (whenM c m).
Proof. intros Hm. destruct c; simpl; [by apply Hm|apply runs_ret]. Qed.

Lemma runs_foldM {A B} (f : B → A → M B) l x :
  (∀ x a, a ∈ l → runs b q (f x a)) → runs b q (foldM f l x).
Proof.
  revert x. induction l as [|a l IH]; intros x Hf; simpl; [apply runs_ret|].
  apply runs_bind; [apply Hf; by left|]. intros x'. apply IH. intros. apply Hf. by right.
Qed.

Lemma runs_forM {A} (f : A → M unit) l :
  (∀ a, a ∈ l → runs b q (f a)) → runs b q (forM_ f l).
Proof.
  induction l as [|a l IH]; intros Hf; simpl; [apply runs_ret|].
  apply runs_bind; [apply Hf; by left|]. intros _. apply IH. intros. apply Hf. by right.
Qed.

Lemma runs_sequenceM {A} (l : list (M A)) :
  (∀ m, m ∈ l → runs b q m) → runs b q (sequenceM l).
Proof.
  intros Hl%Forall_forall. induction Hl as [|m l Hm _ IH]; simpl; [apply runs_ret|].
  apply runs_bind; [done|]. intros a. apply runs_bind; [done|]. intros r. apply runs_ret.
Qed.

(** The primitive changes. *)
Lemma runs_out t : b = false ∨ q = false → runs b q (out t).
Proof.
  intros Hbq s a s' _ Hr. unfold out, modify in Hr. simplify_eq.
  split; simpl; try done; try lia; [by eexists|].
  by destruct Hbq as [->| ->].
Qed.

Lemma runs_sym {A} (f : SymbolTable → A) : runs b q (sym f).
Proof. apply runs_gets. Qed.

Lemma runs_types {A} (f : TypeSystem → A) : runs b q (types f).
Proof. apply runs_gets. Qed.

Lemma runs_types_out {A} (f : TypeSystem → outcome A) : runs b q (types_out f).
Proof. apply runs_bind; [apply runs_gets|]. intros. apply runs_lift. Qed.

Lemma frame_of_modify f s :
  m_first_pass (f s) = m_first_pass s → m_output (f s) = m_output s →
  m_tempVarCounter s <= m_tempVarCounter (f s) →
  tail (scopes (m_symbolTable (f s))) = tail (scopes (m_symbolTable s)) →
  length (scopes (m_symbolTable (f s))) = length (scopes (m_symbolTable s)) →
  (b = false → same_tables (m_typeSystem s) (m_typeSystem (f s)) ∧
               m_classNames (f s) = m_classNames s ∧
               globalVars (m_symbolTable (f s)) = globalVars (m_symbolTable s)) →
  frame b q s (f s).
Proof.
  intros ? Ho. split; try done. exists EmptyString. by rewrite Ho, string_app_nil_r.
Qed.

Lemma runs_setCurrentFunc f : runs b q (setCurrentFunc f).
Proof.
  intros s a s' _ Hr. unfold setCurrentFunc, sym_upd, modify in Hr. simplify_eq.
  apply (frame_of_modify (λ s, set_symbolTable (with_currentFunc f (m_symbolTable s)) s));
    by try lia.
Qed.

Lemma runs_set_addRefCounts x : runs b q (modify (set_addRefCounts x)).
Proof.
  intros s a s' _ Hr. unfold modify in Hr. simplify_eq.
  apply frame_of_modify; by try (simpl; lia).
Qed.

Lemma runs_next_temp {B} (k : Z → M B) :
  (∀ n, runs b q (k n)) →
  runs b q (n ← gets m_tempVarCounter; _ ← modify (set_tempVarCounter (n + 1)); k n).
Proof.
  intros Hk s c s' Hb (n & s1 & H1 & (u & s2 & H2 & H3)%stM_bind_Ret)%stM_bind_Ret.
  unfold gets, modify in H1, H2. simplify_eq.
  eapply frame_trans; [|by eapply Hk; [|exact H3]].
  apply frame_of_modify; by try (simpl; lia).
Qed.

Lemma runs_add_symbol x t : runs b q (add_symbol x t).
Proof.
  intros s a s' _ (o & s1 & H1 & (st & s2 & H2 & H3)%stM_bind_Ret)%stM_bind_Ret.
  unfold sym, gets, modify, lift in H1, H2, H3. simplify_eq.
  destruct (addSymbol x t EmptyString EmptyString (m_symbolTable _)) as [st'| | |] eqn:E;
    simplify_eq.
  unfold addSymbol in E. destruct (scopes (m_symbolTable _)) as [|back rest] eqn:Es; simplify_eq.
  apply frame_of_modify; simpl; rewrite ?Es; by try lia.
Qed.

Lemma runs_add_globalVar g : b = true → runs b q (sym_upd (add_globalVar g)).
Proof.
  intros Hb s a s' _ Hr. unfold sym_upd, modify in Hr. injection Hr as <- <-.
  apply (frame_of_modify (λ s, set_symbolTable (add_globalVar g (m_symbolTable s)) s)); try (intros; congruence); try done; simpl; lia.
Qed.

Lemma runs_add_className c :
  b = true → runs b q (modify (λ s, set_classNames (m_classNames s ++ [c]) s)).
Proof.
  intros Hb s a s' _ Hr. unfold modify in Hr. injection Hr as <- <-.
  apply (frame_of_modify (λ s, set_classNames (m_classNames s ++ [c]) s)); try (intros; congruence); try done; simpl; lia.
Qed.

(** Changes of the type system: any in the first pass; in the second, those that
    leave the registration tables as they are. *)
Lemma runs_types_upd f :
  (b = false → ∀ ts ts', f ts = Ret ts' → same_tables ts ts') → runs b q (types_upd f).
Proof.
  intros Hf s a s' _ (ts & s1 & (o & s2 & H1 & H2)%stM_bind_Ret & H3)%stM_bind_Ret.
  unfold gets, lift, modify in H1, H2, H3. simplify_eq.
  destruct (f (m_typeSystem _)) eqn:E; simplify_eq.
  apply frame_of_modify; simpl; try done; try lia. eauto.
Qed.

Lemma runs_types_res {A} (f : TypeSystem → outcome (A * TypeSystem)) :
  (b = false → ∀ ts r, f ts = Ret r → same_tables ts r.2) → runs b q (types_res f).
Proof.
  intros Hf s c s' Hb (r & s1 & (o & s2 & H1 & H2)%stM_bind_Ret
    & (u & s3 & H3 & H4)%stM_bind_Ret)%stM_bind_Ret.
  unfold gets, lift, modify in H1, H2, H3. cbv in H4. simplify_eq.
  destruct (f (m_typeSystem _)) eqn:E; simplify_eq.
  apply frame_of_modify; simpl; try done; try lia. eauto.
Qed.
End runs.

(** Quietness can be forgotten, and says nothing of the second pass. *)
Lemma runs_weaken b q q' {A} (m : M A) :
  (b = true → q' = true → q = true) → runs b q m → runs b q' m.
Proof. intros Hq Hm s a s' Hb Hr. destruct (Hm _ _ _ Hb Hr). split; auto. Qed.

(** A scope around a computation: whatever the computation does, the scopes are
    afterwards what they were, and the rest of the state changes as a visit may. *)
Lemma frame_scoped b q s s1 s2 s3 :
  m_symbolTable s1 = enterScope (m_symbolTable s) →
  s1 = set_symbolTable (m_symbolTable s1) s →
  frame b q s1 s2 →
  s3 = set_symbolTable (exitScope (m_symbolTable s2)) s2 →
  frame b q s s3 ∧ scopes (m_symbolTable s3) = scopes (m_symbolTable s).
Proof.
  intros He Hs1 Hf ->. destruct Hf as [P O Q C S D T]. rewrite He in S, D, T.
  rewrite Hs1 in P, O, Q, C, T. simpl in *.
  assert (scopes (exitScope (m_symbolTable s2)) = scopes (m_symbolTable s)) as Hsc.
  { unfold exitScope. destruct (scopes (m_symbolTable s2)) as [|sc rest]; simpl in *; [done|].
    by rewrite S. }
  split; [|done]. split; simpl; rewrite ?Hsc; try done.
  intros Hb. destruct (T Hb) as (? & ? & Hg). split; [done|]. split; [done|].
  unfold exitScope. by destruct (scopes (m_symbolTable s2)).
Qed.

(** ** Running a handler on a known state *)
Lemma bind_out {B} t (k : unit → M B) s :
  (out t ≫= k) s = k tt (set_output (m_output s +:+ t) s).
Proof. done. Qed.

Lemma bind_types_out {A B} (f : TypeSystem → outcome A) a (k : A → M B) s :
  f (m_typeSystem s) = Ret a → (types_out f ≫= k) s = k a s.
Proof. intros Hf. unfold types_out, mbind, stM_bind, gets, lift. by rewrite Hf. Qed.

(** Runs the queries and the prints at the head of a handler. *)
Ltac run_heads :=
  unfold first_pass, sym, types, indentation;
  repeat (first [ rewrite bind_gets | rewrite bind_mret | rewrite bind_modify
                | rewrite bind_lift | rewrite bind_out ]; cbv beta).

(** ** Automation *)
Create HintDb frame.
#[export] Hint Resolve runs_ret runs_gets runs_lift runs_throw runs_crash runs_sym runs_types
  runs_types_out runs_setCurrentFunc runs_set_addRefCounts runs_add_symbol : frame.

(** The side conditions on the pass, once it is known. *)
Ltac frame_side :=
  solve [ tauto | congruence | intros; congruence
        | intros; rewrite ?andb_false_r in *; simpl in *; congruence ].

(** One step along the structure of a handler. *)
Ltac frame_step :=
  match goal with
  | |- ∀ _, _ => intro
  | |- runs _ _ (mbind _ first_pass) => apply runs_first_pass
  | |- runs _ _ (mbind _ (gets m_tempVarCounter)) => apply runs_next_temp
  | |- runs _ _ (mbind _ _) => apply runs_bind
  | |- runs _ _ (whenM _ _) => apply runs_whenM
  | |- runs _ _ (foldM _ _ _) => apply runs_foldM
  | |- runs _ _ (forM_ _ _) => apply runs_forM
  | |- runs _ _ (sequenceM _) => apply runs_sequenceM
  | |- runs _ _ (catch_all _ _) => apply runs_catch_all
  | |- runs _ _ (out _) => apply runs_out; frame_side
  | |- runs _ _ (sym_upd (add_globalVar _)) => apply runs_add_globalVar; frame_side
  | |- runs _ _ (types_res _) => apply runs_types_res; first [frame_side | intros _]
  | |- runs _ _ (types_upd _) => apply runs_types_upd; first [frame_side | intros _]
  | |- runs _ _ (match ?x with _ => _ end) => destruct x
  | |- runs _ _ _ => solve [eauto with frame]
  end.
Ltac frame_auto := repeat (frame_step; cbn [whenM negb andb fst snd default]).
