(* ===== verification/VisitorProps.v ===== *)
(** The properties of the visitor: what a visit may change, lexical scoping,
    the two passes, and the text of expressions. *)
From S2P Require Import Prelude Errors CppString Types TypeSystem SymbolTable.
From S2P Require Import CodeGenerator Syntax Visitor Transpile SyntaxInd VisitorFrame.
#[local] Open Scope Z_scope.

Lemma setStructMembers_tables x ms ts r :
  setStructMembers x ms ts = Ret r → same_tables ts r.2.
Proof.
  unfold setStructMembers. destruct (m_structs ts !! x) eqn:E; [|done]. intros. simplify_eq.
  repeat split; simpl. apply dom_insert_lookup_L. by rewrite E.
Qed.

Lemma setClassMembers_tables x ms ts r :
  setClassMembers x ms ts = Ret r → same_tables ts r.2.
Proof.
  unfold setClassMembers. destruct (m_classes ts !! x) eqn:E; [|done]. intros. simplify_eq.
  repeat split; simpl. apply dom_insert_lookup_L. by rewrite E.
Qed.

Lemma setClassParent_tables x p ts r :
  setClassParent x p ts = Ret r → same_tables ts r.2.
Proof.
  unfold setClassParent. destruct (m_classes ts !! x) eqn:E; [|done].
  destruct (m_classes ts !! p); [|done]. intros. simplify_eq.
  repeat split; simpl. apply dom_insert_lookup_L. by rewrite E.
Qed.

Section frames.
Context `{CG : CodeGenerator}.
Implicit Types (b q : bool).

(** ** The helpers and the expressions *)
Lemma runs_resolveTypeFromContext b q t : runs b q (resolveTypeFromContext t).
Proof. unfold resolveTypeFromContext. frame_auto. Qed.
#[local] Hint Resolve runs_resolveTypeFromContext : frame.

Lemma runs_getArrayFromCode b q a : runs b q (getArrayFromCode a).
Proof. unfold getArrayFromCode. frame_auto. Qed.
#[local] Hint Resolve runs_getArrayFromCode : frame.

Lemma runs_declaratorFromCode b q d : runs b q (declaratorFromCode d).
Proof. unfold declaratorFromCode. frame_auto. Qed.
#[local] Hint Resolve runs_declaratorFromCode : frame.

Lemma runs_paramsFromCode b q ps l : runs b q (paramsFromCode ps l).
Proof. unfold paramsFromCode. frame_auto. Qed.
#[local] Hint Resolve runs_paramsFromCode : frame.

Lemma runs_getStructFromCode b q s : runs b q (getStructFromCode s).
Proof.
  unfold getStructFromCode. destruct b; frame_auto.
  all: eauto using setStructMembers_tables.
Qed.
#[local] Hint Resolve runs_getStructFromCode : frame.

Lemma runs_getClassFromCode b q {E B} x p (ms : list (classMember E B)) :
  runs b q (getClassFromCode x p ms).
Proof.
  unfold getClassFromCode. destruct b; frame_auto.
  all: try (eauto using setClassMembers_tables).
  apply outcome_bind_Ret in H as (r & Hr & [= <-]). eauto using setClassParent_tables.
Qed.
#[local] Hint Resolve runs_getClassFromCode : frame.

Lemma runs_resolveFieldAccess b q x c : runs b q (resolveFieldAccess x c).
Proof. unfold resolveFieldAccess. frame_auto. Qed.
#[local] Hint Resolve runs_resolveFieldAccess : frame.

(** The expression handlers, in either pass and without output in the first. *)
Lemma runs_visitAssignExpr b q m m' :
  runs b q m → runs b q m' → runs b q (visitAssignExpr m m').
Proof. unfold visitAssignExpr. destruct b; frame_auto. Qed.

Lemma runs_visitFunctionCall b q x args :
  (∀ a, a ∈ default [] args → runs b q a) → runs b q (visitFunctionCall (mkFunctionCall x args)).
Proof. unfold visitFunctionCall, encoded_call, call_arg, release_arg. destruct b; frame_auto. Qed.

Lemma runs_visitNewWithConstructorExpr b q x args :
  (∀ a, a ∈ default [] args → runs b q a) → runs b q (visitNewWithConstructorExpr x args).
Proof. unfold visitNewWithConstructorExpr. destruct b; frame_auto. Qed.

Lemma runs_visitPointerMemberExpr b q m x : runs b q m → runs b q (visitPointerMemberExpr m x).
Proof. unfold visitPointerMemberExpr. destruct b; frame_auto. Qed.

Lemma runs_visitMethodCallExpr b q m x args :
  runs b q m → (∀ a, a ∈ default [] args → runs b q a) →
  runs b q (visitMethodCallExpr m x args).
Proof. unfold visitMethodCallExpr. destruct b; frame_auto. Qed.

Lemma runs_visitStructInitExpr b q l : runs b q (visitStructInitExpr l).
Proof. unfold visitStructInitExpr, visitInitializerList. destruct b; frame_auto. Qed.

Lemma map_visit_all b q (args : option (list expr)) :
  opt_P (Forall (λ e, runs b q (visit_expr e))) args →
  ∀ m, m ∈ default [] (option_map (map visit_expr) args) → runs b q m.
Proof.
  destruct args as [l|]; simpl; [|by intros _ m ?%not_elem_of_nil].
  intros Hl m (e & -> & He)%list_elem_of_fmap. rewrite Forall_forall in Hl. auto.
Qed.

Lemma runs_visit_expr b q e : runs b q (visit_expr e).
Proof.
  induction e using expr_tree_ind; cbn [visit_expr fc_name fc_args];
    unfold visitPrimary, visitMemberExpr, visitFuncCallExpr, visitLiteralExpr, visitLiteral,
      visitAddSubExpr, visitCompareExpr, visitMulDivExpr, visitVarExpr, visitNewExpr,
      visitAddressOfExpr, visitDereferenceExpr, visitArrayAccessExpr,
      visitPostIncrementExpr, visitPostDecrementExpr, visitPreIncrementExpr,
      visitPreDecrementExpr; frame_auto;
    eauto using map_visit_all, runs_visitAssignExpr, runs_visitFunctionCall,
      runs_visitNewWithConstructorExpr, runs_visitPointerMemberExpr,
      runs_visitMethodCallExpr, runs_visitStructInitExpr.
Qed.
#[local] Hint Resolve runs_visit_expr : frame.

(** ** Statements *)

(** A visit of a block ends in the scopes it began in. *)
Lemma visitBlock_frame b q l :
  (∀ m, m ∈ l → runs b q m) →
  ∀ s a s', in_pass b s → visitBlock l s = Ret (a, s') →
  frame b q s s' ∧ scopes (m_symbolTable s') = scopes (m_symbolTable s).
Proof.
  intros Hl s a s' Hb Hr. unfold visitBlock in Hr.
  apply stM_bind_Ret in Hr as (? & s1 & H1 & Hr).
  apply stM_bind_Ret in Hr as (fp & s2 & H2 & Hr).
  apply stM_bind_Ret in Hr as (? & s3 & H3 & Hr).
  apply stM_bind_Ret in Hr as (indent & s4 & H4 & Hr).
  apply stM_bind_Ret in Hr as (? & s5 & H5 & Hr).
  apply stM_bind_Ret in Hr as (fp' & s6 & H6 & Hr).
  apply stM_bind_Ret in Hr as (? & s7 & H7 & Hr).
  apply stM_bind_Ret in Hr as (? & s8 & H8 & Hr).
  assert (in_pass b s1) as Hb1 by (injection H1 as _ <-; exact Hb).
  assert (fp = b ∧ s2 = s1) as [-> ->] by (injection H2 as <- <-; done).
  assert (frame b q s1 s3) as F3.
  { eapply (runs_whenM (b:=b) (q:=q) (negb b) (out generateScopeEntry)); [|done|exact H3].
    destruct b; frame_auto. }
  assert (frame b q s3 s5) as F5.
  { injection H4 as _ <-. eapply (runs_forM (b:=b) (q:=q) id); [|by eapply frame_in_pass|exact H5].
    exact Hl. }
  assert (in_pass b s5) as Hb5 by (eapply frame_in_pass, frame_in_pass; eauto).
  assert (fp' = b ∧ s6 = s5) as [-> ->] by (injection H6 as <- <-; done).
  assert (frame b q s5 s7) as F7.
  { eapply (runs_whenM (b:=b) (q:=q) (negb b) (release_scope indent)); [|done|exact H7].
    unfold release_scope. destruct b; frame_auto. }
  assert (frame b q s s8 ∧ scopes (m_symbolTable s8) = scopes (m_symbolTable s)) as [F8 S8].
  { eapply (frame_scoped b q s s1 s7 s8).
    - by injection H1 as _ <-.
    - by injection H1 as _ <-.
    - by do 2 (eapply frame_trans; [eassumption|]).
    - by injection H8 as _ <-. }
  apply stM_bind_Ret in Hr as (vars & s9 & [= _ <-] & Hr).
  assert (scopes (m_symbolTable s') = scopes (m_symbolTable s8)) as ->
    by (destruct b; by injection Hr as _ <-).
  split; [|done]. eapply frame_trans; [exact F8|].
  eapply (runs_whenM (b:=b) (q:=q) (negb b) (out _)); [|by eapply frame_in_pass|exact Hr].
  destruct b; frame_auto.
Qed.

Lemma runs_visitBlock b q l : (∀ m, m ∈ l → runs b q m) → runs b q (visitBlock l).
Proof. intros Hl s a s' Hb Hr. by eapply visitBlock_frame. Qed.

Lemma runs_visitFunctionDecl b q t x ps m :
  (b = false → runs b q m) → runs b q (visitFunctionDecl t x ps m).
Proof. intros Hm. unfold visitFunctionDecl. destruct b; frame_auto. Qed.

Lemma runs_visitVarDecl b q d i :
  (∀ m, i = Some m → runs b q m) → runs b q (visitVarDecl (mkVarDecl d i)).
Proof. intros Hm. unfold visitVarDecl. destruct b; cbn [vd_decl vd_init]; frame_auto. Qed.

Lemma runs_visitReturnStmt b q e :
  (∀ m, e = Some m → runs b q m) → runs b q (visitReturnStmt e).
Proof. intros Hm. unfold visitReturnStmt, release_scope. destruct b; frame_auto. Qed.

Lemma runs_visitExprStmt b q m : runs b q m → runs b q (visitExprStmt m).
Proof. intros Hm. unfold visitExprStmt. destruct b; frame_auto. Qed.

(** The header and body of a [for]. *)
Lemma runs_visitForStmt b i es m :
  match i with
  | FI_var v => opt_P (runs b false) (vd_init v)
  | FI_expr e => runs b false e
  | FI_none => True
  end →
  (∀ e, e ∈ es → runs b false e) → runs b false m → runs b false (visitForStmt i es m).
Proof.
  intros Hi Hes Hm. unfold visitForStmt. destruct b; [|frame_auto].
  assert (∀ e1, es = [e1] → runs true false e1) by (intros ? ->; apply Hes; by left).
  assert (∀ e1 e2 l, es = e1 :: e2 :: l → runs true false e1 ∧ runs true false e2)
    by (intros ??? ->; split; apply Hes; [by left|by right; left]).
  destruct i as [[d [e|]]|e|]; destruct es as [|e1 [|e2 es]]; cbn [vd_decl vd_init opt_P] in *;
    naive_solver frame_auto.
Qed.

Lemma runs_visitIfStmt b q c t e :
  runs b q c → runs b q t → (∀ m, e = Some m → runs b q m) → runs b q (visitIfStmt c t e).
Proof. intros Hc Ht He. unfold visitIfStmt. destruct b; frame_auto. Qed.

Lemma runs_visitWhileStmt b q c m : runs b q c → runs b q m → runs b q (visitWhileStmt c m).
Proof. intros Hc Ht. unfold visitWhileStmt. destruct b; frame_auto. Qed.

Lemma runs_visitStructDecl b q s : runs b q (visitStructDecl s).
Proof. unfold visitStructDecl. destruct b; frame_auto. Qed.

Lemma runs_visitTypedefDecl b q d x : runs b q (visitTypedefDecl d x).
Proof. unfold visitTypedefDecl. destruct b; frame_auto. Qed.

(** A member of a class: what its expressions and its block do. *)
Definition runs_member b q (m : classMember (M string) (M unit)) : Prop :=
  match m with
  | ClassField _ => True
  | ClassMethod _ _ _ _ body => runs b q body
  | ClassConstructor _ _ super body =>
      opt_P (λ s : string * option (list (M string)),
               ∀ a, a ∈ default [] s.2 → runs b q a) super ∧ runs b q body
  end.

Lemma runs_visit_constructor b q c t x ps super m :
  runs_member b q (ClassConstructor x ps super m) →
  runs b q (visit_constructor c t ps super m).
Proof.
  intros [Hs Hm]. unfold visit_constructor, generateParentConstructorCall.
  destruct super as [[p [l|]]|]; cbn [opt_P snd default] in Hs; destruct b; frame_auto.
Qed.

Lemma runs_visit_method b q c t text rt x ps m :
  runs b q m → runs b q (visit_method c t text rt x ps m).
Proof. intros Hm. unfold visit_method. destruct b; frame_auto. Qed.

Lemma runs_visitClassDecl b q c p ms :
  (∀ m, m ∈ ms → runs_member b q m.1) → runs b q (visitClassDecl c p ms).
Proof.
  intros Hms. unfold visitClassDecl. apply runs_bind; [apply runs_getClassFromCode|].
  intros t. apply runs_first_pass. apply runs_bind.
  - destruct b; frame_auto. by apply runs_add_className.
  - intros _. apply runs_forM. intros [[d|v rt x ps body|x ps super body] text] Hin; simpl.
    + frame_auto.
    + apply runs_visit_method, (Hms _ Hin).
    + apply (runs_visit_constructor _ _ _ _ x), (Hms _ Hin).
Qed.

(** A statement whose visit in the first pass emits nothing: no [for] where that
    pass goes.  It does not enter the bodies of functions, [if] and [while]. *)
Fixpoint silent (s : statement) : bool :=
  match s with
  | S_for _ _ _ _ => false
  | S_block b => forallb silent b
  | S_class _ _ ms _ =>
      forallb (λ m, match m with
                    | ClassField _ => true
                    | ClassMethod _ _ _ _ b => forallb silent b
                    | ClassConstructor _ _ _ b => forallb silent b
                    end) ms
  | _ => true
  end.

Lemma runs_block b l :
  Forall (λ s, runs b (silent s) (visit_stmt s)) l →
  ∀ q, (b = true → q = true → forallb silent l = true) →
  runs b q (visitBlock (map visit_stmt l)).
Proof.
  intros Hl q Hq. apply runs_visitBlock. intros m (s & -> & Hs)%list_elem_of_fmap.
  rewrite Forall_forall in Hl. eapply runs_weaken; [|by apply Hl].
  intros Hb Hqt. by eapply forallb_elem; [apply Hq|].
Qed.

Lemma visit_args_all b q args m :
  m ∈ default [] (visit_args args) → runs b q m.
Proof.
  destruct args as [l|]; simpl; [|by intros ?%not_elem_of_nil].
  intros (e & -> & _)%list_elem_of_fmap. apply runs_visit_expr.
Qed.

Lemma runs_visit_stmt b s : runs b (silent s) (visit_stmt s).
Proof.
  induction s using stmt_tree_ind; cbn [visit_stmt silent].
  - apply runs_visitFunctionDecl. intros ->. by eapply runs_block.
  - destruct v as [d [e|]]; apply runs_visitVarDecl; [|done]. intros ? [= <-].
    apply runs_visit_expr.
  - apply runs_ret.
  - apply runs_visitReturnStmt. destruct e; [|done]. intros ? [= <-]. apply runs_visit_expr.
  - apply runs_visitExprStmt, runs_visit_expr.
  - by apply runs_block.
  - apply runs_visitStructDecl.
  - apply runs_visitClassDecl. intros m (x0 & -> & Hin)%list_elem_of_fmap. simpl.
    rewrite Forall_forall in H. specialize (H _ Hin).
    destruct x0 as [d|v rt y ps bd|y ps super bd]; simpl in *; [done| |split].
    + eapply runs_block; [done|]. intros _ Hq. apply (forallb_elem _ _ _ Hq Hin).
    + destruct super as [[p' args]|]; [|done]. intros a. apply visit_args_all.
    + eapply runs_block; [done|]. intros _ Hq. apply (forallb_elem _ _ _ Hq Hin).
  - destruct b; [|apply runs_visitIfStmt].
    + unfold visitIfStmt. apply runs_first_pass. apply runs_ret.
    + apply runs_visit_expr.
    + eapply runs_weaken; [|eassumption]; done.
    + intros m Hm. destruct e as [e|]; [|done]. injection Hm as <-. eapply runs_weaken; [|eassumption]; done.
  - destruct b; [|apply runs_visitWhileStmt].
    + unfold visitWhileStmt. apply runs_first_pass. apply runs_ret.
    + apply runs_visit_expr.
    + eapply runs_weaken; [|eassumption]; done.
  - apply runs_visitForStmt.
    + destruct i as [[d [e|]]|e|]; simpl; try done; apply runs_visit_expr.
    + intros m (e & -> & _)%list_elem_of_fmap. apply runs_visit_expr.
    + eapply runs_weaken; [|eassumption]; done.
  - apply runs_visitTypedefDecl.
Qed.
End frames.
