(* ===== verification/StmtProps.v ===== *)
(** The properties of statements: what they may change, the two passes, blocks,
    [for] and [return]. *)
From S2P Require Import Prelude Errors CppString Types TypeSystem SymbolTable.
From S2P Require Import CodeGenerator Syntax Visitor Transpile SyntaxInd VisitorFrame.
From S2P Require Import VisitorProps.
#[local] Open Scope Z_scope.

(** ** Samples the witnesses run on *)
Abbreviation CRef := (CCodeGenerator true).
Definition start (pass : bool) : VState := set_first_pass pass (VState_init true).

(** A state inside one scope with the symbols [vars]. *)
Definition with_vars (vars : list (string * Ty)) (s : VState) : VState :=
  set_symbolTable (with_scopes
    (list_to_map ((λ v : string * Ty, (v.1, Variable_of v.1 v.2)) <$> vars)
       :: scopes (m_symbolTable s)) (m_symbolTable s)) s.

Definition lit (n : string) : expr := PrimaryExpr (P_literal (L_integer n)).
Definition ident (x : string) : expr := PrimaryExpr (P_identifier x).
Definition int_decl (x : string) : statement := S_varDecl (mkVarDecl (D_plain TS_int x) None).

(** C29. What a statement may do.  If its visit returns, the pass is the same, the
    output has only grown, the counter of temporaries has not gone back, and of the
    scopes only the innermost one may have changed. *)
Theorem visit_stmt_effect `{CG : CodeGenerator} s st st' :
  visit_stmt s st = Ret (tt, st') →
  m_first_pass st' = m_first_pass st ∧
  (∃ t, m_output st' = m_output st +:+ t) ∧
  m_tempVarCounter st <= m_tempVarCounter st' ∧
  tail (scopes (m_symbolTable st')) = tail (scopes (m_symbolTable st)) ∧
  length (scopes (m_symbolTable st')) = length (scopes (m_symbolTable st)).
Proof.
  intros Hv. by destruct (runs_visit_stmt (m_first_pass st) s st tt st' eq_refl Hv).
Qed.

Lemma visit_stmt_effect_witness :
  match visit_stmt (CG:=CRef) (S_block [int_decl "x"]) (start false) with
  | Ret (_, st') => length (scopes (m_symbolTable st')) = 1%nat
  | _ => False
  end.
Proof.
  destruct (visit_stmt (CG:=CRef) (S_block [int_decl "x"]) (start false)) as [[[] st']| | |] eqn:E;
    [|vm_compute in E; discriminate E..].
  destruct (visit_stmt_effect (CG:=CRef) _ _ _ E) as (_ & _ & _ & _ & ->). reflexivity.
Defined.

(** C30. The two passes.  The first one emits nothing for a statement without a [for]
    in its way; the second one registers nothing: type definitions, functions, defines,
    methods, constructors, class names and roots are those of the first pass. *)
Theorem passes_separate `{CG : CodeGenerator} s st st' :
  visit_stmt s st = Ret (tt, st') →
  (m_first_pass st = true → silent s = true → m_output st' = m_output st) ∧
  (m_first_pass st = false →
     same_tables (m_typeSystem st) (m_typeSystem st') ∧
     m_classNames st' = m_classNames st ∧
     globalVars (m_symbolTable st') = globalVars (m_symbolTable st)).
Proof.
  intros Hv. destruct (runs_visit_stmt (m_first_pass st) s st tt st' eq_refl Hv). auto.
Qed.

Lemma passes_separate_witness :
  match visit_stmt (CG:=CRef) (S_functionDecl TS_void "f" None [int_decl "x"]) (start true) with
  | Ret (_, st') => m_output st' = EmptyString
  | _ => False
  end.
Proof.
  destruct (visit_stmt (CG:=CRef) _ (start true)) as [[[] st']| | |] eqn:E;
    [|vm_compute in E; discriminate E..].
  destruct (passes_separate (CG:=CRef) _ _ _ E) as [H _]. rewrite H; reflexivity.
Defined.

(** ** Loops *)

Lemma visit_for_second `{CG : CodeGenerator} i c st b s :
  m_first_pass s = false → visit_stmt (S_for i c st b) s = Ret (tt, s).
Proof.
  intros Hs. cbn [visit_stmt]. unfold visitForStmt, mbind, stM_bind at 1, first_pass, gets.
  by rewrite Hs.
Qed.

(** Two computations that do the same in a pass. *)
Definition agree (b : bool) {A} (m m' : M A) : Prop := ∀ s, in_pass b s → m s = m' s.

Definition keeps_pass (b : bool) {A} (m : M A) : Prop :=
  ∀ s a s', in_pass b s → m s = Ret (a, s') → in_pass b s'.

Lemma runs_keeps_pass b q {A} (m : M A) : runs b q m → keeps_pass b m.
Proof. intros Hr s a s' Hs Hm. eapply frame_in_pass; [by eapply Hr|done]. Qed.

Lemma sym_upd_keeps_pass b f : keeps_pass b (sym_upd f).
Proof. by intros s a s' Hs [= _ <-]. Qed.

Lemma agree_bind b {A B} (m m' : M A) (k k' : A → M B) :
  keeps_pass b m → agree b m m' → (∀ a, agree b (k a) (k' a)) → agree b (m ≫= k) (m' ≫= k').
Proof.
  intros Hr Hm Hk s Hs. unfold mbind, stM_bind. rewrite <-(Hm s Hs).
  destruct (m s) as [[a s']| | |] eqn:E; try done.
  apply Hk. by eapply Hr.
Qed.

Lemma agree_first_pass b {B} (k k' : bool → M B) :
  agree b (k b) (k' b) → agree b (first_pass ≫= k) (first_pass ≫= k').
Proof.
  intros Hk s Hs. unfold mbind, stM_bind, first_pass, gets. rewrite Hs. by apply Hk.
Qed.

#[local] Ltac agree_step :=
  apply agree_bind; [eapply (runs_keeps_pass _ false); frame_auto| |].

Lemma agree_visitFunctionDecl `{CG : CodeGenerator} b t x ps m m' :
  runs false false m → agree false m m' →
  agree b (visitFunctionDecl t x ps m) (visitFunctionDecl t x ps m').
Proof.
  intros Hr Hm. unfold visitFunctionDecl.
  apply agree_bind; [eapply runs_keeps_pass, (runs_paramsFromCode _ false)|done|]. intros l.
  apply agree_bind; [eapply runs_keeps_pass, (runs_resolveTypeFromContext _ false)|done|].
  intros rt. apply agree_first_pass. destruct b; [done|].
  agree_step; [done|]. intros _. agree_step; [done|]. intros _.
  agree_step; [|done]. cbn [whenM negb].
  agree_step; [done|]. intros decl. agree_step; done.
Qed.

Lemma runs_second_pass `{CG : CodeGenerator} l m :
  m ∈ map visit_stmt l → runs false false m.
Proof.
  intros (x & -> & _)%list_elem_of_fmap. eapply runs_weaken; [|apply runs_visit_stmt]. done.
Qed.

(** A statement that does nothing in the second pass can be taken out of a block. *)
Lemma agree_visitBlock_skip `{CG : CodeGenerator} b1 s b2 :
  (∀ st, in_pass false st → visit_stmt s st = Ret (tt, st)) →
  agree false (visitBlock (map visit_stmt (b1 ++ s :: b2)))
              (visitBlock (map visit_stmt (b1 ++ b2))).
Proof.
  intros Hs. unfold visitBlock.
  apply agree_bind; [apply sym_upd_keeps_pass|done|]. intros _.
  apply agree_first_pass. cbn [whenM negb].
  agree_step; [done|]. intros _. agree_step; [done|]. intros indent.
  assert (∀ l, keeps_pass false (forM_ id (map visit_stmt l))) as Hl.
  { intros l. apply (runs_keeps_pass _ false), runs_forM. apply runs_second_pass. }
  apply agree_bind; [apply Hl| |done].
  intros st Hst. rewrite !map_app, !forM_app. unfold mbind, stM_bind.
  destruct (forM_ id (map visit_stmt b1) st) as [[[] st']| | |] eqn:E; try done.
  cbn [map forM_]. unfold mbind, stM_bind, id at 1. rewrite Hs; [done|]. by eapply Hl.
Qed.


(** C26. A [for] statement is lost.  [visitForStmt] prints it in the first pass and skips
    it in the second, while the body of a function is visited in the second pass only:
    a [for] among the statements of a function has no effect on the translation, whatever
    its header and its body are. *)
Theorem for_lost `{CG : CodeGenerator} t f ps b1 i c st body b2 s :
  visit_stmt (S_functionDecl t f ps (b1 ++ S_for i c st body :: b2)) s
  = visit_stmt (S_functionDecl t f ps (b1 ++ b2)) s.
Proof.
  cbn [visit_stmt].
  apply (agree_visitFunctionDecl (m_first_pass s)); [| |done].
  - apply runs_visitBlock, runs_second_pass.
  - apply agree_visitBlock_skip. intros st' Hst. by apply visit_for_second.
Qed.

(** ** Blocks and returns *)

(** The releases of the pointers among [vars], in name order. *)
Definition release_text `{CG : CodeGenerator} (indent : string) (vars : gmap string Variable_)
    : string :=
  foldr (λ (var : string * Variable_) r,
           (if m_isPointer (v_type var.2) then indent +:+ generateDecRef var.2 else EmptyString)
             +:+ r) EmptyString (map_iter vars).

Lemma set_output_id s : set_output (m_output s +:+ EmptyString) s = s.
Proof. rewrite string_app_nil_r. by destruct s. Qed.

Lemma release_scope_text `{CG : CodeGenerator} indent s :
  release_scope indent s
  = Ret (tt, set_output (m_output s +:+ release_text indent
                           (getCurrentScopeSymbols (m_symbolTable s))) s).
Proof.
  unfold release_scope, release_text. unfold mbind, stM_bind, sym, gets.
  generalize (map_iter (getCurrentScopeSymbols (m_symbolTable s))) as l. intros l.
  revert s. induction l as [|v l IH]; intros s; cbn [forM_ foldr]; [by rewrite set_output_id|].
  unfold mbind, stM_bind. destruct (m_isPointer (v_type v.2)); cbn.
  - rewrite IH. simpl. by rewrite !string_app_assoc.
  - rewrite IH. by rewrite string_app_nil_l.
Qed.

(** The state of a run of statements. *)
Definition run_stmts `{CG : CodeGenerator} (l : list statement) : M unit := forM_ visit_stmt l.

(** A block in the second pass.  It runs its statements in a fresh scope, then
    releases each pointer of that scope once, in name order, closes the brace at the
    indentation of its statements, and leaves the scopes as they were. *)
Theorem visit_block_text `{CG : CodeGenerator} l s s' :
  m_first_pass s = false →
  visit_block l s = Ret (tt, s') →
  ∃ st, run_stmts l (set_output (m_output s +:+ generateScopeEntry)
          (set_symbolTable (enterScope (m_symbolTable s)) s)) = Ret (tt, st) ∧
    let vars := getCurrentScopeSymbols (m_symbolTable st) in
    let indent := spaces ((length (scopes (m_symbolTable s)) + 1) * 4) in
    m_output s' = m_output st +:+ release_text indent vars +:+ indent
                    +:+ generateScopeExit (getCurrentScopeSymbols (m_symbolTable s')) ∧
    scopes (m_symbolTable s') = scopes (m_symbolTable s).
Proof.
  intros Hs Hr. unfold visit_block in Hr.
  destruct (visitBlock_frame false false (map visit_stmt l) (runs_second_pass l)
              s tt s' Hs Hr) as [_ Hsc].
  unfold visitBlock in Hr.
  apply stM_bind_Ret in Hr as (? & s1 & [= _ <-] & Hr).
  apply stM_bind_Ret in Hr as (fp & s2 & H2 & Hr).
  assert (fp = false ∧ s2 = set_symbolTable (enterScope (m_symbolTable s)) s) as [-> ->]
    by (injection H2 as <- <-; done).
  apply stM_bind_Ret in Hr as (? & s3 & [= _ <-] & Hr).
  apply stM_bind_Ret in Hr as (indent & s4 & [= <- <-] & Hr).
  apply stM_bind_Ret in Hr as ([] & st & H5 & Hr).
  exists st. split; [rewrite forM_map in H5; exact H5|].
  apply stM_bind_Ret in Hr as (fp & s6 & H6 & Hr).
  assert (fp = false ∧ s6 = st) as [-> ->].
  { injection H6 as <- <-. split; [|done].
    eapply (frame_in_pass false false).
    - eapply (runs_forM (b:=false) (q:=false) id (map visit_stmt l) (runs_second_pass l));
        [|exact H5]. exact Hs.
    - exact Hs. }
  apply stM_bind_Ret in Hr as (? & s7 & H7 & Hr).
  cbn [whenM negb] in H7. rewrite release_scope_text in H7. injection H7 as _ <-.
  apply stM_bind_Ret in Hr as (? & s8 & [= _ <-] & Hr).
  apply stM_bind_Ret in Hr as (vars & s9 & [= <- <-] & Hr).
  assert (getIndentLevel (enterScope (m_symbolTable s))
          = spaces ((length (scopes (m_symbolTable s)) + 1) * 4)) as Hi.
  { unfold getIndentLevel, enterScope, with_scopes. cbn [scopes length]. f_equal. lia. }
  rewrite Hi in Hr. injection Hr as <-. split; [|exact Hsc].
  simpl. by rewrite !string_app_assoc.
Qed.

(** Two pointers and an integer, declared out of order. *)
Definition three_decls : list statement :=
  [S_varDecl (mkVarDecl (D_plain (TS_pointer TS_int) "q") None);
   int_decl "n";
   S_varDecl (mkVarDecl (D_plain (TS_pointer TS_int) "p") None)].

Lemma visit_block_text_witness :
  match visit_block (CG:=CRef) three_decls (start false) with
  | Ret (_, s') =>
      ∃ t, m_output s' = t +:+ "        runtime_dec_ref_count(p, 0);" +:+ nl
                           +:+ "        runtime_dec_ref_count(q, 0);" +:+ nl
                           +:+ "        }" +:+ nl
  | _ => False
  end.
Proof.
  destruct (visit_block (CG:=CRef) three_decls (start false)) as [[[] s']| | |] eqn:E;
    [|vm_compute in E; discriminate E..].
  destruct (visit_block_text (CG:=CRef) three_decls (start false) s' eq_refl E) as (st & Hst & Ho & _).
  exists (m_output st). rewrite Ho. vm_compute in Hst. injection Hst as <-.
  vm_compute in E. injection E as <-. vm_compute. reflexivity.
Defined.

Lemma visit_return_state `{CG : CodeGenerator} e s t s1 :
  m_first_pass s = false →
  visit_expr e (set_addRefCounts false s) = Ret (t, s1) →
  let indent := getIndentLevel (m_symbolTable s1) in
  let retain := match lookupSymbol t (m_symbolTable s1) with
                | Some v => if m_isPointer (v_type v)
                            then indent +:+ generateIncRef v incRef_default else EmptyString
                | None => EmptyString
                end in
  visit_stmt (S_return (Some e)) s
  = Ret (tt, set_output (m_output s1 +:+ retain
                 +:+ release_text indent (getCurrentScopeSymbols (m_symbolTable s1))
                 +:+ indent +:+ generateReturn t (Type_base NO_TYPE))
               (set_addRefCounts true s1)).
Proof.
  intros Hs He indent retain.
  assert (m_first_pass s1 = false) as Hs1.
  { pose proof (runs_visit_expr false false e (set_addRefCounts false s) t s1 Hs He) as Hf.
    rewrite (fr_pass _ _ _ _ Hf). exact Hs. }
  cbn [visit_stmt option_map]. unfold visitReturnStmt.
  unfold mbind, stM_bind at 1, modify. cbn beta iota.
  unfold stM_bind at 1. rewrite He. unfold stM_bind at 1. cbn beta iota.
  unfold stM_bind at 1, sym at 1, gets. cbn beta iota.
  unfold stM_bind at 1, first_pass, gets. cbn [m_first_pass set_addRefCounts]. rewrite Hs1.
  subst retain indent. cbn [m_symbolTable set_addRefCounts negb whenM].
  destruct (lookupSymbol t (m_symbolTable s1)) as [v|];
    [destruct (m_isPointer (v_type v))|]; cbn [andb whenM]; unfold stM_bind;
    cbn; rewrite release_scope_text; cbn; unfold out, modify, set_output; simpl;
    by string_norm.
Qed.

(** [return e] in the second pass.  The returned pointer variable is retained before
    the pointers of the innermost scope, and no others, are released; a [return]
    without expression dereferences a null pointer in both passes. *)
Theorem visit_return_text `{CG : CodeGenerator} e s t s1 :
  m_first_pass s = false →
  visit_expr e (set_addRefCounts false s) = Ret (t, s1) →
  let indent := getIndentLevel (m_symbolTable s1) in
  let retain := match lookupSymbol t (m_symbolTable s1) with
                | Some v => if m_isPointer (v_type v)
                            then indent +:+ generateIncRef v incRef_default else EmptyString
                | None => EmptyString
                end in
  visit_stmt (S_return (Some e)) s
  = Ret (tt, set_output (m_output s1 +:+ retain
                 +:+ release_text indent (getCurrentScopeSymbols (m_symbolTable s1))
                 +:+ indent +:+ generateReturn t (Type_base NO_TYPE))
               (set_addRefCounts true s1)) ∧
  visit_stmt (S_return None) s = Crash NullDeref.
Proof. intros Hs He indent retain. split; [|done]. by apply visit_return_state. Qed.

Lemma visit_return_text_witness :
  let s := with_vars [("p", setPointer true (Type_base BInt))] (start false) in
  match visit_stmt (CG:=CRef) (S_return (Some (ident "p"))) s with
  | Ret (_, s') => m_output s' = "        runtime_inc_ref_count(p, NULL);" +:+ nl
                     +:+ "        runtime_dec_ref_count(p, 0);" +:+ nl
                     +:+ "        return p;" +:+ nl
  | _ => False
  end.
Proof.
  intros s. destruct (visit_return_text (CG:=CRef) (ident "p") s "p" (set_addRefCounts false s))
    as [H _]; [reflexivity..|].
  rewrite H. vm_compute. reflexivity.
Defined.
