(* ===== verification/ProgramProps.v ===== *)
(** The layout of the generated file and the order of the two passes. *)
From S2P Require Import Prelude Errors CppString Types TypeSystem SymbolTable.
From S2P Require Import CodeGenerator Syntax Visitor Transpile SyntaxInd StringFacts.
From S2P Require Import VisitorFrame VisitorProps StmtProps.
#[local] Open Scope Z_scope.

(** ** Reading the type system *)
Lemma types_out_Ret {A} (f : TypeSystem → outcome A) s a s' :
  types_out f s = Ret (a, s') → f (m_typeSystem s) = Ret a ∧ s' = s.
Proof.
  unfold types_out, mbind, stM_bind, gets, lift. destruct (f (m_typeSystem s)); try done.
  by intros [= -> <-].
Qed.

(** ** The parts of the file *)

(** A directive's line: [#include] is copied without its white space, [#define] is
    printed again from its parts. *)
Definition directive_line (d : directive) : string :=
  match d with
  | PD_include text => "#include" +:+ text
  | PD_define name value => "#define " +:+ name +:+ " " +:+ opt_text defineValue_text value +:+ nl
  end +:+ nl.

Definition directives_text (ds : list directive) : string :=
  foldr (λ d r, directive_line d +:+ r) EmptyString ds.

(** The defines after the directives. *)
Definition register_directives (ds : list directive) (ts : TypeSystem) : TypeSystem :=
  foldl (λ ts d, match d with
                 | PD_define name value => registerDefine name (opt_text defineValue_text value) ts
                 | PD_include _ => ts
                 end) ts ds.

Fixpoint newlines (n : nat) : string :=
  match n with O => EmptyString | S n => nl +:+ newlines n end.

(** The texts of the elements of a list, one after the other. *)
Fixpoint concatM {A} (f : A → outcome string) (l : list A) : outcome string :=
  match l with
  | [] => Ret EmptyString
  | x :: l => t ← f x; r ← concatM f l; Ret (t +:+ r)
  end.

(** The virtual methods that get a prototype: for each class in order those of its table and
    then its own, a name only the first time it comes. *)
Fixpoint virtuals_in (classNames : list string) (ts : TypeSystem) : outcome (list Function) :=
  match classNames with
  | [] => Ret []
  | c :: classNames =>
      vs ← getAllVirtualMethods c ts;
      r ← virtuals_in classNames ts;
      Ret (vs ++ filter f_isVirtual (getClassMethods c ts) ++ r)
  end.

Fixpoint first_named (seen : gset string) (fs : list Function) : list Function :=
  match fs with
  | [] => []
  | f :: fs =>
      if decide (f_name f ∈ seen) then first_named seen fs
      else f :: first_named ({[f_name f]} ∪ seen) fs
  end.

Definition prototypes_text `{CG : CodeGenerator} : list Function → outcome string :=
  concatM (λ f, d ← generateFunctionDecl (Some f); Ret (d +:+ ";" +:+ nl)).

(** The vtable instances of [classNames], in order. *)
Definition instances_text (classNames : list string) (ts : TypeSystem) : outcome string :=
  concatM (λ c, generateVTableInstance c ts) classNames.

Definition roots_text (globals : list (string * Ty)) : string :=
  foldr (λ (g : string * Ty) r, "    runtime_register_root(&" +:+ g.1 +:+ ");" +:+ nl +:+ r)
    EmptyString globals.

Lemma visitPreprocessorDirective_line d s :
  (_ ← visitPreprocessorDirective d; out nl) s
  = Ret (tt, set_output (m_output s +:+ directive_line d)
               (set_typeSystem (register_directives [d] (m_typeSystem s)) s)).
Proof.
  unfold visitPreprocessorDirective, directive_line. destruct d as [text|name value]; simpl directive_text.
  - pose proof (substr_prefix "#includ" ("e" +:+ text)) as Hp.
    change ("#includ" +:+ ("e" +:+ text)) with ("#include" +:+ text) in Hp.
    change (str_size "#includ") with 7 in Hp. rewrite Hp.
    destruct s. unfold set_output, set_typeSystem. simpl. unfold mbind, stM_bind. simpl.
    unfold out, modify, set_output. simpl. by string_norm.
  - pose proof (substr_prefix "#define" (name +:+ opt_text defineValue_text value)) as Hp.
    change (str_size "#define") with 7 in Hp. rewrite Hp.
    destruct s. unfold set_output, set_typeSystem. simpl. unfold mbind, stM_bind. simpl.
    unfold out, modify, set_output. simpl. by string_norm.
Qed.

Lemma directives_loop ds s :
  forM_ (λ d, _ ← visitPreprocessorDirective d; out nl) ds s
  = Ret (tt, set_output (m_output s +:+ directives_text ds)
               (set_typeSystem (register_directives ds (m_typeSystem s)) s)).
Proof.
  revert s. induction ds as [|d ds IH]; intros s.
  - destruct s. unfold set_output, set_typeSystem. simpl. by rewrite string_app_nil_r.
  - cbn [forM_]. unfold mbind at 1, stM_bind at 1. rewrite visitPreprocessorDirective_line, IH.
    unfold set_output, set_typeSystem. simpl. by rewrite string_app_assoc.
Qed.

(** One pass over the statements of the program. *)
Definition run_pass `{CG : CodeGenerator} (l : list statement) : M unit :=
  forM_ (λ s, _ ← visit_stmt s; out nl) l.

Lemma run_pass_first `{CG : CodeGenerator} l s s' :
  m_first_pass s = true → forallb silent l = true → run_pass l s = Ret (tt, s') →
  m_output s' = m_output s +:+ newlines (length l) ∧ m_first_pass s' = true.
Proof.
  revert s. induction l as [|x l IH]; intros s Hs Hsil Hr.
  - injection Hr as <-. by rewrite string_app_nil_r.
  - cbn [forallb] in Hsil. apply andb_true_iff in Hsil as [Hx Hl].
    apply stM_bind_Ret in Hr as (? & s2 & (u & s1 & H1 & [= _ <-])%stM_bind_Ret & Hr).
    destruct (runs_visit_stmt true x s u s1 Hs H1) as [P _ Q _ _ _ _].
    destruct (IH (set_output (m_output s1 +:+ nl) s1) (eq_trans P Hs) Hl Hr) as [-> ->]. simpl.
    rewrite (Q eq_refl Hx). by rewrite string_app_assoc.
Qed.

Lemma run_pass_second `{CG : CodeGenerator} l s s' :
  m_first_pass s = false → run_pass l s = Ret (tt, s') → frame false false s s'.
Proof.
  intros Hs. apply (runs_forM (b:=false) (q:=false)); [|done]. intros x _.
  apply runs_bind; [eapply runs_weaken; [|apply runs_visit_stmt]; done|].
  intros _. apply runs_out. auto.
Qed.

(** *** The prototypes *)
Lemma concatM_app {A} (f : A → outcome string) l1 l2 t1 t2 :
  concatM f l1 = Ret t1 → concatM f l2 = Ret t2 → concatM f (l1 ++ l2) = Ret (t1 +:+ t2).
Proof.
  revert t1. induction l1 as [|x l1 IH]; intros t1; cbn [concatM app]; [by intros [= <-]|].
  intros (t & -> & (r & Hr & [= <-])%outcome_bind_Ret)%outcome_bind_Ret H2.
  bind_ret. rewrite (IH _ Hr H2). bind_ret. by rewrite string_app_assoc.
Qed.

Lemma first_named_app seen l1 l2 :
  first_named seen (l1 ++ l2)
  = first_named seen l1 ++ first_named (list_to_set (f_name <$> l1) ∪ seen) l2.
Proof.
  revert seen. induction l1 as [|f l1 IH]; intros seen; cbn [app first_named fmap list_fmap list_to_set].
  - f_equal. set_solver.
  - destruct (decide (f_name f ∈ seen)) as [Hf|Hf]; rewrite IH; cbn [app]; [|f_equal];
      f_equal; apply (f_equal (λ X, first_named X l2)); set_solver.
Qed.

Section prototypes.
Context `{CG : CodeGenerator}.

(** A computation declares the methods [fs]: it prints the prototypes of those whose name was not
    declared before, and changes nothing else. *)
Definition declares (m : gset string → M (gset string)) (fs : list Function) : Prop :=
  ∀ d s d' s', m d s = Ret (d', s') →
  d' = list_to_set (f_name <$> fs) ∪ d ∧
  ∃ t, prototypes_text (first_named d fs) = Ret t ∧ s' = set_output (m_output s +:+ t) s.

Lemma declares_nothing : declares mret [].
Proof.
  intros d s d' s' [= <- <-]. split; [set_solver|]. exists EmptyString. by rewrite set_output_id.
Qed.

Lemma declares_method f : declares (λ d, declare_method d f) [f].
Proof.
  intros d s d' s'. unfold declare_method. cbn [first_named fmap list_fmap list_to_set].
  case_decide as Hd.
  - intros [= <- <-]. split; [set_solver|]. exists EmptyString. by rewrite set_output_id.
  - intros (t & s1 & Ht & (? & s2 & [= _ <-] & [= <- <-])%stM_bind_Ret)%stM_bind_Ret.
    unfold lift in Ht. destruct (generateFunctionDecl (Some f)) as [t'| | |] eqn:E; try done.
    injection Ht as -> <-. split; [set_solver|]. exists (t +:+ ";" +:+ nl). split; [|done].
    cbn. rewrite E. bind_ret. by rewrite string_app_nil_r.
Qed.

Lemma declares_bind m k fs1 fs2 :
  declares m fs1 → declares k fs2 → declares (λ d, d' ← m d; k d') (fs1 ++ fs2).
Proof.
  intros Hm Hk d s d' s' (d1 & s1 & H1 & H2)%stM_bind_Ret.
  destruct (Hm _ _ _ _ H1) as (-> & t1 & Ht1 & ->). destruct (Hk _ _ _ _ H2) as (-> & t2 & Ht2 & ->).
  split; [rewrite fmap_app, list_to_set_app_L; set_solver|].
  exists (t1 +:+ t2). unfold prototypes_text. rewrite first_named_app. split.
  - by apply concatM_app.
  - unfold set_output. simpl. by rewrite string_app_assoc.
Qed.

Lemma declares_methods fs : declares (foldM declare_method fs) fs.
Proof.
  induction fs as [|f fs IH]; [exact declares_nothing|].
  exact (declares_bind _ _ [f] fs (declares_method f) IH).
Qed.

Lemma declares_own fs :
  declares (foldM (λ d f, if f_isVirtual f then declare_method d f else mret d) fs)
    (filter f_isVirtual fs).
Proof.
  induction fs as [|f fs IH]; [exact declares_nothing|]. rewrite filter_cons.
  destruct (f_isVirtual f) eqn:Hf; case_decide as Hv; rewrite ?Hf in Hv; try done.
  - apply (declares_bind (λ d, if f_isVirtual f then declare_method d f else mret d) _ [f]); [|exact IH].
    rewrite Hf. apply declares_method.
  - apply (declares_bind (λ d, if f_isVirtual f then declare_method d f else mret d) _ []); [|exact IH].
    rewrite Hf. exact declares_nothing.
Qed.

Lemma declare_virtuals_loop names s d d' s' :
  foldM declare_virtuals names d s = Ret (d', s') →
  ∃ fs t, virtuals_in names (m_typeSystem s) = Ret fs ∧
          prototypes_text (first_named d fs) = Ret t ∧ s' = set_output (m_output s +:+ t) s.
Proof.
  revert s d. induction names as [|c names IH]; intros s d Hr.
  - injection Hr as _ <-. exists [], EmptyString. by rewrite set_output_id.
  - apply stM_bind_Ret in Hr as (d1 & s1 & Hc & Hr). unfold declare_virtuals in Hc.
    apply stM_bind_Ret in Hc as (vs & s2 & [Hvs ->]%types_out_Ret & Hc).
    assert (declares (λ d, d' ← foldM declare_method vs d; foldM (λ d f,
              if f_isVirtual f then declare_method d f else mret d)
              (getClassMethods c (m_typeSystem s)) d')
            (vs ++ filter f_isVirtual (getClassMethods c (m_typeSystem s)))) as Hd
      by exact (declares_bind _ _ _ _ (declares_methods vs) (declares_own _)).
    destruct (Hd d s d1 s1) as (-> & t1 & Ht1 & ->).
    { apply stM_bind_Ret in Hc as (d2 & s2 & H2 & (ms & s3 & [= <- <-] & H3)%stM_bind_Ret).
      destruct (declares_methods _ _ _ _ _ H2) as (_ & t & _ & E).
      apply stM_bind_Ret. exists d2, s2. split; [done|]. rewrite E in H3 |- *. exact H3. }
    destruct (IH _ _ Hr) as (fs & t2 & Hfs & Ht2 & ->). simpl in Hfs.
    eexists _, (t1 +:+ t2). cbn [virtuals_in]. rewrite Hvs, Hfs. bind_ret. split; [done|].
    rewrite app_assoc, first_named_app. split; [by apply concatM_app|].
    unfold set_output. simpl. by rewrite string_app_assoc.
Qed.
End prototypes.

Lemma instances_loop names s u s' :
  forM_ (λ className,
           allVirtuals ← types_out (getAllVirtualMethods className);
           match allVirtuals with
           | [] => mret tt
           | _ => instance ← types_out (generateVTableInstance className); out instance
           end) names s = Ret (u, s') →
  ∃ t, instances_text names (m_typeSystem s) = Ret t ∧ s' = set_output (m_output s +:+ t) s.
Proof.
  revert s. induction names as [|c names IH]; intros s Hr.
  - injection Hr as _ <-. exists EmptyString. by rewrite set_output_id.
  - cbn [forM_] in Hr. apply stM_bind_Ret in Hr as (? & s1 & H1 & Hr).
    assert (∃ t, generateVTableInstance c (m_typeSystem s) = Ret t ∧
                 s1 = set_output (m_output s +:+ t) s) as (t & Ht & ->).
    { apply stM_bind_Ret in H1 as (vs & s2 & [E ->]%types_out_Ret & H2).
      destruct vs as [|v vs].
      - injection H2 as _ <-. exists EmptyString. rewrite set_output_id.
        unfold generateVTableInstance. by rewrite E.
      - apply stM_bind_Ret in H2 as (t & s2 & [Ht ->]%types_out_Ret & [= _ <-]). eauto. }
    destruct (IH _ Hr) as (t' & Ht' & ->). simpl in Ht'.
    exists (t +:+ t'). unfold instances_text in *. cbn [concatM]. rewrite Ht. bind_ret. rewrite Ht'.
    unfold set_output. simpl. by string_norm.
Qed.

Lemma roots_loop globals s :
  forM_ (λ g : string * Ty, out ("    runtime_register_root(&" +:+ g.1 +:+ ");" +:+ nl)) globals s
  = Ret (tt, set_output (m_output s +:+ roots_text globals) s).
Proof.
  revert s. induction globals as [|g globals IH]; intros s; [by rewrite set_output_id|].
  cbn [forM_]. unfold mbind, stM_bind, out at 1, modify. rewrite IH.
  unfold set_output. simpl. by string_norm.
Qed.

(** ** The file *)

(** The visitor when the first pass begins. *)
Definition before_pass_1 (indeterminate : bool) (ds : list directive) : VState :=
  set_first_pass true
    (set_typeSystem (register_directives ds TypeSystem_default)
       (set_output ("#include " +:+ dq +:+ "runtime.h" +:+ dq +:+ nl +:+ directives_text ds)
          (VState_init indeterminate))).

(** What is between the passes: the vtable structure, the prototypes of the virtual
    methods, each name once, an empty line and the vtable instances. *)
Definition vtable_part `{CG : CodeGenerator} (s1 : VState) (part : string) : Prop :=
  ∃ vt virtuals decls insts,
    generateVTableStruct (m_typeSystem s1) = Ret vt ∧
    virtuals_in (m_classNames s1) (m_typeSystem s1) = Ret virtuals ∧
    prototypes_text (first_named ∅ virtuals) = Ret decls ∧
    instances_text (m_classNames s1) (m_typeSystem s1) = Ret insts ∧
    part = vt +:+ decls +:+ nl +:+ insts.

Definition main_text (globals : list (string * Ty)) : string :=
  "int main() {" +:+ nl +:+ "    runtime_init();" +:+ nl +:+ roots_text globals
    +:+ "    main_();" +:+ nl +:+ "    runtime_shutdown();" +:+ nl +:+ "}" +:+ nl.

(** What [visitProgram] does between its passes, before [k]. *)
Lemma between_passes `{CG : CodeGenerator} {A} (k : M A) s1 r :
  (vtable ← types_out generateVTableStruct;
   _ ← out vtable;
   classNames ← gets m_classNames;
   _ ← foldM declare_virtuals classNames (∅ : gset string);
   _ ← out nl;
   _ ← forM_ (λ className,
          allVirtuals ← types_out (getAllVirtualMethods className);
          match allVirtuals with
          | [] => mret tt
          | _ => instance ← types_out (generateVTableInstance className); out instance
          end) classNames;
   _ ← modify (set_first_pass false);
   k) s1 = Ret r →
  ∃ part, vtable_part s1 part ∧
          k (set_first_pass false (set_output (m_output s1 +:+ part) s1)) = Ret r.
Proof.
  destruct r as [a s2]. intros (vt & s & [Hvt ->]%types_out_Ret & Hr)%stM_bind_Ret.
  apply stM_bind_Ret in Hr as (? & s & [= _ <-] & Hr).
  apply stM_bind_Ret in Hr as (names & s & [= <- <-] & Hr).
  apply stM_bind_Ret in Hr as (declared & s & Hdecl & Hr).
  apply declare_virtuals_loop in Hdecl as (virtuals & decls & Hvirt & Hdecls & ->).
  apply stM_bind_Ret in Hr as (? & s & [= _ <-] & Hr).
  apply stM_bind_Ret in Hr as (? & s & Hi & Hr).
  apply instances_loop in Hi as (insts & Hinst & ->).
  apply stM_bind_Ret in Hr as (? & s & [= _ <-] & Hr).
  exists (vt +:+ decls +:+ nl +:+ insts). split; [by exists vt, virtuals, decls, insts|].
  rewrite <-Hr. f_equal.
  unfold set_first_pass, set_output. simpl. by string_norm.
Qed.

(** What [visitProgram] prints after its passes. *)
Lemma after_passes s text s' :
  (_ ← out ("int main() {" +:+ nl +:+ "    runtime_init();" +:+ nl);
   globals ← sym globalVars;
   _ ← forM_ (λ g : string * Ty, out ("    runtime_register_root(&" +:+ g.1 +:+ ");" +:+ nl)) globals;
   _ ← out ("    main_();" +:+ nl +:+ "    runtime_shutdown();" +:+ nl +:+ "}" +:+ nl);
   gets m_output) s = Ret (text, s') →
  text = m_output s +:+ main_text (globalVars (m_symbolTable s)).
Proof.
  intros (? & s1 & [= _ <-] & Hr)%stM_bind_Ret.
  apply stM_bind_Ret in Hr as (globals & s2 & [= <- <-] & Hr).
  apply stM_bind_Ret in Hr as (? & s3 & Hg & Hr). rewrite roots_loop in Hg. injection Hg as _ <-.
  apply stM_bind_Ret in Hr as (? & s4 & [= _ <-] & [= <- _]).
  unfold main_text, set_output. simpl. by string_norm.
Qed.

(** C6. The generated file.  When a program whose first pass is silent is translated, the text is
    made of five parts, one after the other: the include of the runtime and the directives; what
    the first pass prints, an empty line per statement; then, from the type system the first pass
    built, the vtable structure, the prototypes of the virtual methods of the classes in the order
    of their declarations (each name once) and the vtable instances; then what the second pass
    prints, started from the state the first one left, in which it registers nothing more; and
    last a [main] that registers every global pointer of the first pass as a root. *)
Theorem transpile_layout useRC ind p text :
  forallb silent (pr_statements p) = true →
  transpile useRC ind p = Ret text →
  let CG := CCodeGenerator useRC in
  let s0 := before_pass_1 ind (pr_directives p) in
  ∃ s1 part s2 body,
    run_pass (pr_statements p) s0 = Ret (tt, s1) ∧
    m_output s1 = m_output s0 +:+ newlines (length (pr_statements p)) ∧
    vtable_part s1 part ∧
    run_pass (pr_statements p)
      (set_first_pass false (set_output (m_output s1 +:+ part) s1)) = Ret (tt, s2) ∧
    m_output s2 = m_output s1 +:+ part +:+ body ∧
    same_tables (m_typeSystem s1) (m_typeSystem s2) ∧
    m_classNames s2 = m_classNames s1 ∧
    text = m_output s2 +:+ main_text (globalVars (m_symbolTable s1)).
Proof.
  intros Hsil Ht CG s0. unfold transpile in Ht.
  apply outcome_bind_Ret in Ht as ([text' sf] & Hr & [= <-]).
  unfold visit_program, visitProgram in Hr. cbn [fst].
  apply stM_bind_Ret in Hr as (? & sa & [= _ <-] & Hr).
  apply stM_bind_Ret in Hr as (? & sb & Hd & Hr).
  rewrite directives_loop in Hd. injection Hd as _ <-.
  apply stM_bind_Ret in Hr as (? & sc & [= _ <-] & Hr).
  apply stM_bind_Ret in Hr as ([] & s1 & H1 & Hr). rewrite forM_map in H1.
  change (run_pass (pr_statements p) s0 = Ret (tt, s1)) in H1.
  destruct (run_pass_first _ s0 _ eq_refl Hsil H1) as [Ho1 Hp1].
  apply between_passes in Hr as (part & Hpart & Hr).
  apply stM_bind_Ret in Hr as ([] & s2 & H2 & Hr). rewrite forM_map in H2.
  apply after_passes in Hr as ->.
  set (s1' := set_first_pass false _) in H2. change (run_pass (pr_statements p) s1' = Ret (tt, s2)) in H2.
  pose proof (run_pass_second _ s1' s2 eq_refl H2) as [_ [body Hbody] _ _ _ _ Htab].
  destruct (Htab eq_refl) as (Htypes & Hnames & Hglob).
  exists s1, part, s2, body. do 4 (split; [done|]).
  split; [by rewrite Hbody; unfold s1', set_first_pass, set_output; simpl; rewrite string_app_assoc|].
  split; [exact Htypes|]. split; [exact Hnames|]. by rewrite Hglob.
Qed.

Definition sample_program : program :=
  mkProgram [PD_define "N" (Some (DV_integer "4"))]
    [S_varDecl (mkVarDecl (D_plain (TS_pointer TS_int) "g") None);
     S_functionDecl TS_void "main" None [int_decl "x"]].

Lemma transpile_layout_witness :
  ∃ part body,
    transpile true false sample_program
    = Ret ("#include " +:+ dq +:+ "runtime.h" +:+ dq +:+ nl
             +:+ "#define N 4" +:+ nl +:+ nl +:+ nl +:+ nl +:+ part +:+ body
             +:+ main_text [("g", setPointer true (Type_base BInt))]).
Proof.
  destruct (transpile true false sample_program) as [text| | |] eqn:E;
    [|vm_compute in E; discriminate E..].
  destruct (transpile_layout true false sample_program text eq_refl E)
    as (s1 & part & s2 & body & H1 & _ & _ & _ & -> & _ & _ & ->).
  exists part, body. vm_compute in H1. injection H1 as <-.
  rewrite !string_app_assoc. reflexivity.
Defined.
