(* ===== verification/ClassTables.v ===== *)
(** The class tables of the type system in any program: what every visit keeps true of them, and
    that a translation gets past its first pass only when no class is its own ancestor. *)
From S2P Require Import Prelude Errors CppString Types TypeSystem SymbolTable StringFacts.
From S2P Require Import CodeGenerator Syntax Visitor Transpile SyntaxInd Hierarchy TypeSystemInv.
From S2P Require Import VisitorFrame VisitorProps ProgramProps.

(** ** The invariant *)

(** The type of a class is a class type of its name; parents are registered; a method or a
    constructor belongs to a registered class, whose name its own begins with. *)
Record classes_ok (ts : TypeSystem) : Prop := {
  cl_types : ∀ c t, m_classes ts !! c = Some t → isClass t = true ∧ getClassName t = c;
  cl_parents : ∀ c p, extends ts c p → is_Some (m_classes ts !! p);
  cl_methods : ∀ c ms, m_classMethods ts !! c = Some ms →
    is_Some (m_classes ts !! c) ∧ Forall (λ m, ∃ n, f_name m = c +:+ "_" +:+ n) ms;
  cl_constructors : ∀ c f, getClassConstructor c ts = Some f →
    is_Some (m_classes ts !! c) ∧ f_name f = c +:+ "_" +:+ c
}.

(** A change of the tables keeps the invariant and takes no class away. *)
Definition tables_grow (ts ts' : TypeSystem) : Prop :=
  classes_ok ts' ∧ dom (m_classes ts) ⊆ dom (m_classes ts').

Lemma classes_default : classes_ok TypeSystem_default.
Proof.
  split.
  - intros c t. simpl. by rewrite lookup_empty.
  - intros c p. unfold extends, parent_of. simpl. by rewrite lookup_empty.
  - intros c ms. simpl. by rewrite lookup_empty.
  - intros c f. unfold getClassConstructor. simpl. by rewrite lookup_empty.
Qed.

Lemma tables_grow_same ts ts' :
  m_classes ts' = m_classes ts → m_classMethods ts' = m_classMethods ts →
  m_classConstructors ts' = m_classConstructors ts → classes_ok ts → tables_grow ts ts'.
Proof.
  intros Hc Hm Hk [T P M K]. split; [|by rewrite Hc].
  split; unfold extends, parent_of, getClassConstructor in *; by rewrite ?Hc, ?Hm, ?Hk.
Qed.

(** A class gets a new type of the same name, with no new parent but a registered one. *)
Lemma tables_grow_class ts c t :
  classes_ok ts → isClass t = true → getClassName t = c →
  (hasParent t = true → extends ts c (getParentClass t) ∨ is_Some (m_classes ts !! getParentClass t)) →
  tables_grow ts (with_classes (<[c := t]> (m_classes ts)) ts).
Proof.
  intros [T P M K] Ht Hn Hp. split; [|simpl; set_solver]. split.
  - intros d u. simpl. rewrite lookup_insert. case_decide; [intros [= <-]; by subst|apply T].
  - intros d p. unfold extends. rewrite parent_of_insert. case_decide as Hd.
    + destruct (hasParent t); [|done]. intros [= <-].
      apply is_Some_insert_class. destruct (Hp eq_refl) as [?|?]; [by eapply P|done].
    + intros Hdp. apply is_Some_insert_class. by eapply P.
  - intros d ms Hm. destruct (M d ms Hm). split; [by apply is_Some_insert_class|done].
  - intros d f Hf. destruct (K d f Hf). split; [by apply is_Some_insert_class|done].
Qed.

Section operations.
Context (ts : TypeSystem) (Hok : classes_ok ts).

Lemma registerClass_grows c : tables_grow ts (registerClass c ts).2.
Proof. by apply tables_grow_class. Qed.

Lemma setClassParent_grows c p r : setClassParent c p ts = Ret r → tables_grow ts r.2.
Proof.
  destruct r as [t ts']. intros (t0 & E & Hp & -> & ->)%setClassParent_classes.
  destruct (cl_types _ Hok _ _ E). apply tables_grow_class; [done..|]. by right.
Qed.

Lemma setClassMembers_grows c ms r : setClassMembers c ms ts = Ret r → tables_grow ts r.2.
Proof.
  destruct r as [t ts']. intros (t0 & E & -> & ->)%setClassMembers_classes.
  destruct (cl_types _ Hok _ _ E). apply tables_grow_class; [done..|].
  intros Hp. left. exact (parent_of_step _ _ _ E Hp).
Qed.

Lemma registerClassMethod_grows c n ps rt st v ts' :
  is_Some (m_classes ts !! c) →
  registerClassMethod c (Some (mkFunction (c +:+ "_" +:+ n) ps rt st v)) ts = Ret ts' →
  tables_grow ts ts'.
Proof.
  intros Hc [= <-]. split; [|done]. destruct Hok as [T P M K]. split; [done..| |done].
  intros d ms. simpl. rewrite lookup_insert. case_decide as Hd; [|apply M]. subst d.
  intros [= <-]. split; [done|]. apply Forall_app. split; [|by constructor; [exists n|constructor]].
  destruct (m_classMethods ts !! c) as [ms|] eqn:E; [by apply (M c)|constructor].
Qed.

Lemma registerClassConstructor_grows c ps rt st v ts' :
  is_Some (m_classes ts !! c) →
  registerClassConstructor c (Some (mkFunction (c +:+ "_" +:+ c) ps rt st v)) ts = Ret ts' →
  tables_grow ts ts'.
Proof.
  intros Hc [= <-]. split; [|done]. destruct Hok as [T P M K]. split; [done..|].
  intros d f. unfold getClassConstructor. simpl. rewrite lookup_insert.
  case_decide as Hd; [|apply K]. subst d. by intros [= <-].
Qed.
End operations.

Lemma setStructMembers_grows ts x ms r :
  classes_ok ts → setStructMembers x ms ts = Ret r → tables_grow ts r.2.
Proof.
  unfold setStructMembers. destruct (m_structs ts !! x); [|done].
  intros Hok [= <-]. by apply tables_grow_same.
Qed.

(** With names of the length of a string, and without cycles, these are the tables that the
    theorems on the vtables ask for. *)
Lemma classes_wf ts :
  classes_ok ts → acyclic ts → (∀ c, Forall (λ m, str_ok (f_name m)) (getClassMethods c ts)) →
  wf_types ts.
Proof.
  intros [T P M K] Ha Hn. split; [done..| |done]. intros c [ms Hms]. by destruct (M c ms Hms).
Qed.

(** ** Computations that keep it

    [keeps D]: started where the classes [D] are registered. *)
Definition keeps (D : gset string) {A} (m : M A) : Prop :=
  ∀ s a s', classes_ok (m_typeSystem s) → D ⊆ dom (m_classes (m_typeSystem s)) →
    m s = Ret (a, s') → tables_grow (m_typeSystem s) (m_typeSystem s').

Section keeps.
Context {D : gset string}.

Lemma keeps_same {A} (m : M A) :
  (∀ s a s', m s = Ret (a, s') → m_typeSystem s' = m_typeSystem s) → keeps D m.
Proof. intros Hm s a s' Hok _ Hr. by rewrite (Hm _ _ _ Hr). Qed.

Lemma keeps_ret {A} (a : A) : keeps D (mret a).
Proof. apply keeps_same. by intros s a' s' [= _ <-]. Qed.

Lemma keeps_gets {A} (f : VState → A) : keeps D (gets f).
Proof. apply keeps_same. by intros s a s' [= _ <-]. Qed.

Lemma keeps_modify f : (∀ s, m_typeSystem (f s) = m_typeSystem s) → keeps D (modify f).
Proof. intros Hf. apply keeps_same. by intros s a s' [= _ <-]. Qed.

Lemma keeps_lift {A} (o : outcome A) : keeps D (lift o).
Proof. apply keeps_same. intros s a s'. unfold lift. by destruct o; intros [=]; subst. Qed.

Lemma keeps_throw {A} e : keeps D (throw (A:=A) e).
Proof. by intros s a s' _ _ Hr. Qed.

Lemma keeps_crash {A} c : keeps D (crashM (A:=A) c).
Proof. by intros s a s' _ _ Hr. Qed.

Lemma keeps_bind {A B} (m : M A) (k : A → M B) :
  keeps D m → (∀ a, keeps D (k a)) → keeps D (m ≫= k).
Proof.
  intros Hm Hk s b s' Hok HD (a & s1 & H1 & H2)%stM_bind_Ret.
  destruct (Hm _ _ _ Hok HD H1) as [Hok1 H1d].
  destruct (Hk a _ _ _ Hok1 ltac:(set_solver) H2) as [Hok2 H2d]. split; [done|set_solver].
Qed.

Lemma keeps_catch_all {A} (m h : M A) : keeps D m → keeps D h → keeps D (catch_all m h).
Proof.
  intros Hm Hh s a s' Hok HD. unfold catch_all.
  destruct (m s) as [[a1 s1]| | |] eqn:E; intros Hr; simplify_eq; eauto.
Qed.

Lemma keeps_whenM b (m : M unit) : (b = true → keeps D m) → keeps D (whenM b m).
Proof. intros Hm. destruct b; [by apply Hm|apply keeps_ret]. Qed.

Lemma keeps_foldM {A B} (f : B → A → M B) l x :
  (∀ x a, a ∈ l → keeps D (f x a)) → keeps D (foldM f l x).
Proof.
  revert x. induction l as [|a l IH]; intros x Hf; [apply keeps_ret|].
  apply keeps_bind; [apply Hf; by left|]. intros x'. apply IH. intros. apply Hf. by right.
Qed.

Lemma keeps_forM {A} (f : A → M unit) l : (∀ a, a ∈ l → keeps D (f a)) → keeps D (forM_ f l).
Proof.
  induction l as [|a l IH]; intros Hf; [apply keeps_ret|].
  apply keeps_bind; [apply Hf; by left|]. intros _. apply IH. intros. apply Hf. by right.
Qed.

Lemma keeps_sequenceM {A} (l : list (M A)) : (∀ m, m ∈ l → keeps D m) → keeps D (sequenceM l).
Proof.
  induction l as [|m l IH]; intros Hl; [apply keeps_ret|].
  apply keeps_bind; [apply Hl; by left|]. intros a. apply keeps_bind; [|intros; apply keeps_ret].
  apply IH. intros. apply Hl. by right.
Qed.

Lemma keeps_types_out {A} (f : TypeSystem → outcome A) : keeps D (types_out f).
Proof. apply keeps_bind; [apply keeps_gets|]. intros. apply keeps_lift. Qed.

(** The two ways to change the type system. *)
Lemma keeps_types_upd f :
  (∀ ts ts', classes_ok ts → D ⊆ dom (m_classes ts) → f ts = Ret ts' → tables_grow ts ts') →
  keeps D (types_upd f).
Proof.
  intros Hf s a s' Hok HD (ts & s1 & [Hr ->]%types_out_Ret & [= _ <-])%stM_bind_Ret. by eapply Hf.
Qed.

Lemma keeps_types_res {A} (f : TypeSystem → outcome (A * TypeSystem)) :
  (∀ ts r, classes_ok ts → f ts = Ret r → tables_grow ts r.2) → keeps D (types_res f).
Proof.
  intros Hf s a s' Hok HD (r & s1 & [Hr ->]%types_out_Ret & (? & s2 & [= _ <-] & [= _ <-])
    %stM_bind_Ret)%stM_bind_Ret. by eapply Hf.
Qed.
End keeps.

Lemma keeps_more D D' {A} (m : M A) : D ⊆ D' → keeps D m → keeps D' m.
Proof. intros HD Hm s a s' Hok HD'. apply Hm; [done|set_solver]. Qed.

(** ** The handlers *)
Create HintDb keeps.
#[export] Hint Resolve keeps_ret keeps_gets keeps_lift keeps_throw keeps_crash keeps_types_out : keeps.

Ltac keeps_step :=
  match goal with
  | |- ∀ _, _ => intro
  | |- keeps _ (mbind _ _) => apply keeps_bind
  | |- keeps _ (whenM _ _) => apply keeps_whenM
  | |- keeps _ (foldM _ _ _) => apply keeps_foldM
  | |- keeps _ (forM_ _ _) => apply keeps_forM
  | |- keeps _ (sequenceM _) => apply keeps_sequenceM
  | |- keeps _ (catch_all _ _) => apply keeps_catch_all
  | |- keeps _ (modify _) => apply keeps_modify; intros; reflexivity
  | |- keeps _ (types_upd _) =>
      apply keeps_types_upd; intros ts ts' Hts _ [= <-]; by apply tables_grow_same
  | |- keeps _ (match ?x with _ => _ end) => destruct x
  | |- keeps _ _ => solve [eauto with keeps]
  end.
Ltac keeps_auto :=
  unfold setCurrentFunc, add_symbol, indentation, first_pass, sym, sym_upd, types, out;
  repeat (keeps_step; cbn [whenM negb andb fst snd default]).

Section handlers.
Context `{CG : CodeGenerator} (D : gset string).

Lemma keeps_resolveTypeFromContext t : keeps D (resolveTypeFromContext t).
Proof. unfold resolveTypeFromContext. keeps_auto. Qed.
#[local] Hint Resolve keeps_resolveTypeFromContext : keeps.

Lemma keeps_getArrayFromCode a : keeps D (getArrayFromCode a).
Proof. unfold getArrayFromCode. keeps_auto. Qed.
#[local] Hint Resolve keeps_getArrayFromCode : keeps.

Lemma keeps_declaratorFromCode d : keeps D (declaratorFromCode d).
Proof. unfold declaratorFromCode. keeps_auto. Qed.
#[local] Hint Resolve keeps_declaratorFromCode : keeps.

Lemma keeps_paramsFromCode ps l : keeps D (paramsFromCode ps l).
Proof. unfold paramsFromCode. keeps_auto. Qed.
#[local] Hint Resolve keeps_paramsFromCode : keeps.

Lemma keeps_getStructFromCode s : keeps D (getStructFromCode s).
Proof.
  unfold getStructFromCode. keeps_auto. apply keeps_types_res. intros. by eapply setStructMembers_grows.
Qed.
#[local] Hint Resolve keeps_getStructFromCode : keeps.

Lemma keeps_visitFunctionCall x args :
  (∀ a, a ∈ default [] args → keeps D a) → keeps D (visitFunctionCall (mkFunctionCall x args)).
Proof. intros Ha. unfold visitFunctionCall, encoded_call, call_arg, release_arg. keeps_auto. Qed.

Lemma map_visit_keeps (args : option (list expr)) :
  opt_P (Forall (λ e, keeps D (visit_expr e))) args →
  ∀ m, m ∈ default [] (option_map (map visit_expr) args) → keeps D m.
Proof.
  destruct args as [l|]; simpl; [|by intros _ m ?%not_elem_of_nil].
  intros Hl m (e & -> & He)%list_elem_of_fmap. rewrite Forall_forall in Hl. auto.
Qed.

Lemma keeps_visit_expr e : keeps D (visit_expr e).
Proof.
  induction e using expr_tree_ind; cbn [visit_expr fc_name fc_args];
    unfold visitPrimary, visitMemberExpr, visitFuncCallExpr, visitLiteralExpr, visitLiteral,
      visitAddSubExpr, visitCompareExpr, visitMulDivExpr, visitVarExpr, visitNewExpr,
      visitAddressOfExpr, visitDereferenceExpr, visitArrayAccessExpr,
      visitPostIncrementExpr, visitPostDecrementExpr, visitPreIncrementExpr,
      visitPreDecrementExpr, visitAssignExpr, visitPointerMemberExpr, visitMethodCallExpr,
      visitNewWithConstructorExpr, visitStructInitExpr, visitInitializerList, resolveFieldAccess;
    first [by eauto using map_visit_keeps, keeps_visitFunctionCall | keeps_auto;
           eauto using map_visit_keeps].
Qed.
#[local] Hint Resolve keeps_visit_expr : keeps.

Lemma keeps_visitBlock l : (∀ m, m ∈ l → keeps D m) → keeps D (visitBlock l).
Proof. intros Hl. unfold visitBlock, release_scope. keeps_auto. Qed.
End handlers.

Section statements.
Context `{CG : CodeGenerator}.
#[local] Hint Resolve keeps_resolveTypeFromContext keeps_getArrayFromCode keeps_declaratorFromCode
  keeps_paramsFromCode keeps_getStructFromCode keeps_visit_expr : keeps.

Lemma keeps_visitFunctionDecl D t x ps m : keeps D m → keeps D (visitFunctionDecl t x ps m).
Proof.
  intros Hm. unfold visitFunctionDecl. keeps_auto.
Qed.

Lemma keeps_visitVarDecl D d i : (∀ m, i = Some m → keeps D m) → keeps D (visitVarDecl (mkVarDecl d i)).
Proof. intros Hm. unfold visitVarDecl. cbn [vd_decl vd_init]. keeps_auto. Qed.

Lemma keeps_visitReturnStmt D e : (∀ m, e = Some m → keeps D m) → keeps D (visitReturnStmt e).
Proof. intros Hm. unfold visitReturnStmt, release_scope. keeps_auto. Qed.

Lemma keeps_visitExprStmt D m : keeps D m → keeps D (visitExprStmt m).
Proof. intros Hm. unfold visitExprStmt. keeps_auto. Qed.

Lemma keeps_visitForStmt D i es m :
  match i with
  | FI_var v => opt_P (keeps D) (vd_init v)
  | FI_expr e => keeps D e
  | FI_none => True
  end →
  (∀ e, e ∈ es → keeps D e) → keeps D m → keeps D (visitForStmt i es m).
Proof.
  intros Hi Hes Hm. unfold visitForStmt.
  assert (∀ e1, es = [e1] → keeps D e1) by (intros ? ->; apply Hes; by left).
  assert (∀ e1 e2 l, es = e1 :: e2 :: l → keeps D e1 ∧ keeps D e2)
    by (intros ??? ->; split; apply Hes; [by left|by right; left]).
  destruct i as [[d [e|]]|e|]; destruct es as [|e1 [|e2 es]]; cbn [vd_decl vd_init opt_P] in *;
    naive_solver keeps_auto.
Qed.

Lemma keeps_visitIfStmt D c t e :
  keeps D c → keeps D t → (∀ m, e = Some m → keeps D m) → keeps D (visitIfStmt c t e).
Proof. intros Hc Ht He. unfold visitIfStmt. keeps_auto. Qed.

Lemma keeps_visitWhileStmt D c m : keeps D c → keeps D m → keeps D (visitWhileStmt c m).
Proof. intros Hc Ht. unfold visitWhileStmt. keeps_auto. Qed.

Lemma keeps_visitStructDecl D s : keeps D (visitStructDecl s).
Proof. unfold visitStructDecl. keeps_auto. Qed.

Lemma keeps_visitTypedefDecl D d x : keeps D (visitTypedefDecl d x).
Proof. unfold visitTypedefDecl. keeps_auto. Qed.

(** *** Classes *)
Lemma keeps_getClassFromCode D {E B} c p (ms : list (classMember E B)) :
  keeps D (getClassFromCode c p ms).
Proof.
  unfold getClassFromCode. keeps_auto.
  - apply keeps_types_upd. intros ts ts' Hok _ [= <-]. by apply registerClass_grows.
  - apply keeps_types_upd. intros ts ts' Hok _ (r & Hr & [= <-])%outcome_bind_Ret.
    by eapply setClassParent_grows.
  - apply keeps_types_res. intros. by eapply setClassMembers_grows.
Qed.

(** Afterwards the class is registered: its members were set. *)
Lemma getClassFromCode_registers {E B} c p (ms : list (classMember E B)) s t s' :
  getClassFromCode c p ms s = Ret (t, s') → c ∈ dom (m_classes (m_typeSystem s')).
Proof.
  unfold getClassFromCode. intros (fp & s1 & _ & (? & s2 & _ & Hr)%stM_bind_Ret)%stM_bind_Ret.
  apply stM_bind_Ret in Hr as (? & s3 & _ & (fields & s4 & _ & Hr)%stM_bind_Ret).
  apply stM_bind_Ret in Hr as ([t' ts'] & s5 & [Hs ->]%types_out_Ret & Hr).
  apply stM_bind_Ret in Hr as (? & s6 & [= _ <-] & [= _ <-]).
  apply setClassMembers_classes in Hs as (t0 & _ & _ & ->). simpl. set_solver.
Qed.

Lemma keeps_visit_constructor D c t ps super m :
  c ∈ D → opt_P (λ s : string * option (list (M string)), ∀ a, a ∈ default [] s.2 → keeps D a) super →
  keeps D m → keeps D (visit_constructor c t ps super m).
Proof.
  intros Hc Hs Hm. unfold visit_constructor, generateParentConstructorCall.
  destruct super as [[p [l|]]|]; cbn [opt_P snd default] in Hs; keeps_auto.
  all: apply keeps_types_upd; intros ts ts' Hok HD; apply registerClassConstructor_grows;
    [done|by apply elem_of_dom, HD].
Qed.

Lemma keeps_visit_method D c t text rt x ps m :
  c ∈ D → keeps D m → keeps D (visit_method c t text rt x ps m).
Proof.
  intros Hc Hm. unfold visit_method. keeps_auto.
  all: apply keeps_types_upd; intros ts ts' Hok HD; apply registerClassMethod_grows;
    [done|by apply elem_of_dom, HD].
Qed.

Definition keeps_member (m : classMember (M string) (M unit)) : Prop :=
  match m with
  | ClassField _ => True
  | ClassMethod _ _ _ _ body => keeps ∅ body
  | ClassConstructor _ _ super body =>
      opt_P (λ s : string * option (list (M string)), ∀ a, a ∈ default [] s.2 → keeps ∅ a) super
      ∧ keeps ∅ body
  end.

Lemma keeps_visitClassDecl c p ms :
  (∀ m, m ∈ ms → keeps_member m.1) → keeps ∅ (visitClassDecl c p ms).
Proof.
  intros Hms s u s' Hok HD (t & s1 & H1 & H2)%stM_bind_Ret.
  destruct (keeps_getClassFromCode ∅ _ _ _ _ _ _ Hok HD H1) as [Hok1 Hd1].
  pose proof (getClassFromCode_registers _ _ _ _ _ _ H1) as Hc.
  match type of H2 with ?k s1 = _ => assert (keeps {[c]} k) as Hk end.
  { apply keeps_bind; [apply keeps_gets|]. intros fp. apply keeps_bind; [keeps_auto|]. intros _.
    apply keeps_forM. intros [[d|v rt x ps body|x ps super body] text] Hin; cbn [fst snd].
    - apply keeps_ret.
    - apply keeps_visit_method; [set_solver|]. eapply keeps_more, (Hms _ Hin). set_solver.
    - destruct (Hms _ Hin) as [Hs Hb].
      apply keeps_visit_constructor; [set_solver| |eapply keeps_more, Hb; set_solver].
      destruct super as [sp|]; [|done]. intros a Ha. eapply keeps_more, (Hs a Ha). set_solver. }
  destruct (Hk _ _ _ Hok1 ltac:(set_solver) H2) as [Hok2 Hd2]. split; [done|set_solver].
Qed.

Lemma keeps_block l :
  Forall (λ s, keeps ∅ (visit_stmt s)) l → keeps ∅ (visitBlock (map visit_stmt l)).
Proof.
  intros Hl. apply keeps_visitBlock. intros m (s & -> & Hs)%list_elem_of_fmap.
  rewrite Forall_forall in Hl. by apply Hl.
Qed.

Lemma keeps_args args m : m ∈ default [] (visit_args args) → keeps ∅ m.
Proof.
  destruct args as [l|]; simpl; [|by intros ?%not_elem_of_nil].
  intros (e & -> & _)%list_elem_of_fmap. apply keeps_visit_expr.
Qed.

Lemma keeps_visit_stmt s : keeps ∅ (visit_stmt s).
Proof.
  induction s using stmt_tree_ind; cbn [visit_stmt].
  - by apply keeps_visitFunctionDecl, keeps_block.
  - destruct v as [d [e|]]; apply keeps_visitVarDecl; [|done]. intros ? [= <-]. apply keeps_visit_expr.
  - apply keeps_ret.
  - apply keeps_visitReturnStmt. destruct e; [|done]. intros ? [= <-]. apply keeps_visit_expr.
  - apply keeps_visitExprStmt, keeps_visit_expr.
  - by apply keeps_block.
  - apply keeps_visitStructDecl.
  - apply keeps_visitClassDecl. intros m (x0 & -> & Hin)%list_elem_of_fmap. simpl.
    rewrite Forall_forall in H. specialize (H _ Hin).
    destruct x0 as [d|v rt y ps bd|y ps super bd]; simpl in *; [done|by apply keeps_block|].
    split; [|by apply keeps_block].
    destruct super as [[p' args]|]; [|done]. intros a. apply keeps_args.
  - apply keeps_visitIfStmt; [apply keeps_visit_expr|done|].
    intros m Hm. destruct e as [e|]; [|done]. by injection Hm as <-.
  - apply keeps_visitWhileStmt; [apply keeps_visit_expr|done].
  - apply keeps_visitForStmt; [| |done].
    + destruct i as [[d [e|]]|e|]; simpl; try done; apply keeps_visit_expr.
    + intros m (e & -> & _)%list_elem_of_fmap. apply keeps_visit_expr.
  - apply keeps_visitTypedefDecl.
Qed.

Lemma keeps_run_pass l : keeps ∅ (run_pass l).
Proof.
  apply keeps_forM. intros x _. apply keeps_bind; [apply keeps_visit_stmt|].
  intros _. by apply keeps_modify.
Qed.
End statements.

(** ** The vtable structure *)
Lemma method_base_name_total n : ∃ b, method_base_name n = Ret b.
Proof.
  unfold method_base_name, substr. eexists.
  rewrite (proj2 (Z.ltb_ge _ _)); [done|]. unfold str_find_char, str_size, size_add.
  destruct (char_index _ n) as [i|] eqn:E; [|vm_compute (_ `mod` _)%Z; lia].
  apply char_index_lt in E. etrans; [apply Z.mod_le; [lia|done]|]. lia.
Qed.

Lemma foldM_total {A B} (f : B → A → outcome B) l b :
  (∀ b a, a ∈ l → ∃ b', f b a = Ret b') → ∃ b', foldM f l b = Ret b'.
Proof.
  revert b. induction l as [|a l IH]; intros b Hf; [by exists b|]. cbn [foldM].
  destruct (Hf b a) as [b' ->]; [by left|]. bind_ret. apply IH. intros. apply Hf. by right.
Qed.

Lemma foldM_diverge {A B} (f : B → A → outcome B) l b x :
  (∀ b a, a ∈ l → (∃ b', f b a = Ret b') ∨ f b a = Diverge) →
  x ∈ l → (∀ b, f b x = Diverge) → foldM f l b = Diverge.
Proof.
  revert b. induction l as [|a l IH]; intros b Hf Hx Hd; [by apply not_elem_of_nil in Hx|].
  cbn [foldM]. destruct (Hf b a) as [[b' E]|E]; [by left| |by rewrite E].
  rewrite E. bind_ret. apply elem_of_cons in Hx as [->|Hx]; [by rewrite Hd in E|].
  apply IH; [|done..]. intros. apply Hf. by right.
Qed.

(** The climb from [c] never ends. *)
Definition endless (ts : TypeSystem) (c : string) : Prop :=
  ∀ n st, getAllVirtualMethods_loop n c st ts = Diverge.

Lemma climb_cases ts c :
  (∃ ms, getAllVirtualMethods c ts = Ret ms) ∨ endless ts c.
Proof.
  destruct (walk (parent_of ts) (hierarchy_fuel ts) c) eqn:E.
  - right. intros n st. apply getAllVirtualMethods_loop_diverge. intros Hn.
    apply (walk_fuel _ (dom (m_classes ts))) in Hn; [|apply parent_of_in].
    unfold hierarchy_fuel in E. rewrite <-size_dom in E. congruence.
  - left. destruct (lineage_exists _ _ _ E) as [l Hl]. eexists.
    by apply (getAllVirtualMethods_loop_spec _ _ _ l).
Qed.

Lemma acyclic_or_endless ts :
  acyclic ts ∨ ∃ c, is_Some (m_classes ts !! c) ∧ endless ts c.
Proof.
  destruct (decide (Exists (λ c, walk (parent_of ts) (hierarchy_fuel ts) c ≠ None)
                      (elements (dom (m_classes ts))))) as [Hex|Hno].
  - right. apply Exists_exists in Hex as (c & Hc%elem_of_elements & Hw). exists c.
    split; [by apply elem_of_dom|]. destruct (climb_cases ts c) as [[ms Hms]|]; [|done].
    unfold getAllVirtualMethods in Hms. by rewrite (getAllVirtualMethods_loop_diverge _ _ _ _ Hw) in Hms.
  - left. apply acyclic_walk_iff. intros c Hc.
    destruct (walk _ _ c) eqn:E; [|done]. destruct Hno. apply Exists_exists. exists c.
    split; [by apply elem_of_elements|]. by rewrite E.
Qed.

Lemma endless_cyclic ts c : endless ts c → ¬ acyclic ts.
Proof.
  intros He Ha. destruct (lineage_acyclic ts c Ha) as [l Hl].
  pose proof (getAllVirtualMethods_loop_spec ts _ c l ([], ∅) (acyclic_walk ts c Ha) Hl) as H.
  by rewrite He in H.
Qed.

Lemma vtable_collect_total (s : gset string) (ms : list Function) :
  ∃ s', foldM (λ (s : gset string) method, b ← method_base_name (f_name method); Ret ({[b]} ∪ s)) ms s
        = Ret s'.
Proof.
  apply foldM_total. intros b a _. destruct (method_base_name_total (f_name a)) as [n ->].
  by eexists.
Qed.

Lemma generateVTableStruct_returns ts : acyclic ts → ∃ vt, generateVTableStruct ts = Ret vt.
Proof.
  intros Ha. unfold generateVTableStruct.
  match goal with |- context [foldM ?f ?l ?b] =>
    destruct (foldM_total f l b) as [vs ->]; [|bind_ret; by eexists] end.
  intros s [c t] _. cbn [fst].
  destruct (climb_cases ts c) as [[ms ->]|He]; [|by destruct (endless_cyclic _ _ He)].
  bind_ret. apply vtable_collect_total.
Qed.

Lemma generateVTableStruct_endless ts c :
  is_Some (m_classes ts !! c) → endless ts c → generateVTableStruct ts = Diverge.
Proof.
  intros [t Ht] He. unfold generateVTableStruct.
  rewrite (foldM_diverge _ _ _ (c, t)); [done| |by apply elem_of_map_iter|].
  - intros s [d u] _. cbn [fst]. destruct (climb_cases ts d) as [[ms ->]|Hd].
    + left. bind_ret. apply vtable_collect_total.
    + right. unfold getAllVirtualMethods. by rewrite Hd.
  - intros s. cbn [fst]. unfold getAllVirtualMethods. by rewrite He.
Qed.

Lemma registered_acyclic ts vt : generateVTableStruct ts = Ret vt → acyclic ts.
Proof.
  intros Hvt. destruct (acyclic_or_endless ts) as [|(c & Hc & He)]; [done|].
  by rewrite (generateVTableStruct_endless _ _ Hc He) in Hvt.
Qed.

(** ** Whole programs *)
Lemma before_pass_1_ok ind ds : classes_ok (m_typeSystem (before_pass_1 ind ds)).
Proof.
  unfold before_pass_1, set_first_pass, set_typeSystem, register_directives. simpl.
  assert (∀ ts, classes_ok ts → classes_ok (foldl (λ ts d, match d with
    | PD_include _ => ts
    | PD_define name value => registerDefine name (opt_text defineValue_text value) ts
    end) ts ds)) as H; [|apply H, classes_default].
  induction ds as [|[t|n v] ds IH]; intros ts Hts; [done|by apply IH|].
  apply IH. by apply (tables_grow_same ts).
Qed.

Lemma first_pass_diverges useRC ind p s1 :
  run_pass (CG:=CCodeGenerator useRC) (pr_statements p) (before_pass_1 ind (pr_directives p))
  = Ret (tt, s1) →
  generateVTableStruct (m_typeSystem s1) = Diverge → transpile useRC ind p = Diverge.
Proof.
  intros H1 Hvt. unfold transpile, visit_program, visitProgram.
  rewrite bind_out, (bind_step _ _ _ _ _ (directives_loop _ _)), bind_modify.
  erewrite bind_step; [|rewrite forM_map; exact H1].
  unfold types_out, mbind, stM_bind, gets, lift. by rewrite Hvt.
Qed.

(** C32. The class tables of a translated program.  Whatever a program declares, and however often,
    when it is translated the tables its first pass leaves are in order: the type of a class is a
    class type of its name, a parent is a registered class, no class is its own ancestor, and
    methods and constructors belong to registered classes and are named after them -- the tables
    that the theorems on the vtables ask for, as far as the names have the length of a string.
    The second pass, which sets parents and members again, keeps all of it but the absence of
    cycles. *)
Theorem reachable_types_wf useRC ind p text :
  transpile useRC ind p = Ret text →
  let CG := CCodeGenerator useRC in
  ∃ s1 part s2,
    run_pass (pr_statements p) (before_pass_1 ind (pr_directives p)) = Ret (tt, s1) ∧
    classes_ok (m_typeSystem s1) ∧ acyclic (m_typeSystem s1) ∧
    ((∀ c, Forall (λ m, str_ok (f_name m)) (getClassMethods c (m_typeSystem s1))) →
     wf_types (m_typeSystem s1)) ∧
    run_pass (pr_statements p)
      (set_first_pass false (set_output (m_output s1 +:+ part) s1)) = Ret (tt, s2) ∧
    classes_ok (m_typeSystem s2) ∧ dom (m_classes (m_typeSystem s1)) ⊆ dom (m_classes (m_typeSystem s2)).
Proof.
  intros Ht CG. unfold transpile in Ht.
  apply outcome_bind_Ret in Ht as ([text' sf] & Hr & [= <-]). unfold visit_program, visitProgram in Hr.
  apply stM_bind_Ret in Hr as (? & sa & [= _ <-] & Hr).
  apply stM_bind_Ret in Hr as (? & sb & Hd & Hr). rewrite directives_loop in Hd. injection Hd as _ <-.
  apply stM_bind_Ret in Hr as (? & sc & [= _ <-] & Hr).
  apply stM_bind_Ret in Hr as ([] & s1 & H1 & Hr). rewrite forM_map in H1.
  destruct (keeps_run_pass _ _ _ _ (before_pass_1_ok ind (pr_directives p)) ltac:(set_solver) H1)
    as [Hok1 _].
  apply between_passes in Hr as (part & (vt & _ & _ & _ & Hvt & _) & Hr).
  apply stM_bind_Ret in Hr as ([] & s2 & H2 & _). rewrite forM_map in H2.
  destruct (keeps_run_pass _ _ _ _ (Hok1 : classes_ok (m_typeSystem (set_first_pass false
    (set_output (m_output s1 +:+ part) s1)))) ltac:(set_solver) H2) as [Hok2 Hd2].
  pose proof (registered_acyclic _ _ Hvt) as Ha.
  exists s1, part, s2. split; [exact H1|]. split; [done|]. split; [done|].
  split; [by apply classes_wf|]. split; [exact H2|done].
Qed.

(** A class declared again with another parent, and one that overrides its method. *)
Definition virtual_method (name : string) : classMember expr (list statement) :=
  ClassMethod true TS_void name None [].
Definition redeclared : program := mkProgram []
  [S_class "A" None [virtual_method "m"] true; S_class "B" (Some "A") [virtual_method "m"] true;
   S_class "C" None [] true; S_class "B" (Some "C") [virtual_method "n"] true].
Lemma reachable_types_wf_witness :
  ∃ s1, run_pass (CG:=CCodeGenerator true) (pr_statements redeclared) (before_pass_1 false [])
        = Ret (tt, s1) ∧ wf_types (m_typeSystem s1) ∧ extends (m_typeSystem s1) "B" "C".
Proof.
  destruct (transpile true false redeclared) as [text| | |] eqn:E; [|vm_compute in E; discriminate E..].
  destruct (reachable_types_wf true false redeclared text E) as (s1 & part & s2 & H1 & _ & _ & Hwf & _).
  exists s1. split; [exact H1|]. vm_compute in H1. injection H1 as <-. split; [|reflexivity].
  apply Hwf. intros c. unfold getClassMethods. cbn [m_typeSystem m_classMethods].
  match goal with |- Forall _ (default [] (?m !! c)) => destruct (m !! c) as [ms|] eqn:Hms end;
    [|constructor].
  match type of Hms with ?tbl !! c = _ =>
    assert (map_Forall (λ _ ms, Forall (λ m, str_ok (f_name m)) ms) tbl) as Hall end.
  { apply (bool_decide_unpack _). vm_compute. exact I. }
  exact (Hall c ms Hms).
Defined.

(** C9. A cycle of classes makes the translator run for ever.  When the first pass of a program is
    over, either no class is its own ancestor, and the vtable structure is generated; or some class
    is, the climb from a registered class never ends, whatever the fuel, and neither does the
    translation. *)
Theorem class_cycle_hangs useRC ind p s1 :
  run_pass (CG:=CCodeGenerator useRC) (pr_statements p) (before_pass_1 ind (pr_directives p))
  = Ret (tt, s1) →
  (acyclic (m_typeSystem s1) ∧ ∃ vt, generateVTableStruct (m_typeSystem s1) = Ret vt) ∨
  (¬ acyclic (m_typeSystem s1) ∧
   (∃ c, is_Some (m_classes (m_typeSystem s1) !! c) ∧ endless (m_typeSystem s1) c) ∧
   transpile useRC ind p = Diverge).
Proof.
  intros H1. destruct (acyclic_or_endless (m_typeSystem s1)) as [Ha|(c & Hc & He)].
  - left. split; [done|]. by apply generateVTableStruct_returns.
  - right. split; [by eapply endless_cyclic|]. split; [by exists c|].
    eapply first_pass_diverges; [exact H1|]. by eapply generateVTableStruct_endless.
Qed.

(** Two classes made each other's parent by a second declaration. *)
Definition class_cycle : program := mkProgram []
  [S_class "A" None [] true; S_class "B" (Some "A") [] true; S_class "A" (Some "B") [] true].
Lemma class_cycle_hangs_witness : transpile true false class_cycle = Diverge.
Proof.
  destruct (run_pass (CG:=CCodeGenerator true) (pr_statements class_cycle) (before_pass_1 false []))
    as [[[] s1]| | |] eqn:E; [|vm_compute in E; discriminate E..].
  destruct (class_cycle_hangs true false class_cycle s1 E) as [[_ [vt Hvt]]|(_ & _ & H)]; [|exact H].
  exfalso. vm_compute in E. injection E as <-. vm_compute in Hvt. discriminate Hvt.
Defined.
