(* ===== verification/ExprProps.v ===== *)
(** The properties of expressions: the C text of an expression has the tokens of its
    source, reference-count updates of assignments and calls, upcasts, field accesses,
    and the expressions the visitor cannot translate. *)
From S2P Require Import Prelude Errors CppString Types TypeSystem SymbolTable.
From S2P Require Import CodeGenerator Syntax Visitor Transpile StringFacts SyntaxInd.
From S2P Require Import VisitorFrame VisitorProps Hierarchy TypeSystemInv VTable.
From S2P Require Import TypeSystemProps CodeGenProps StmtProps MethodLookup.
#[local] Open Scope Z_scope.

(** ** White space *)
Fixpoint strip (s : string) : string :=
  match s with
  | EmptyString => EmptyString
  | String a s => if decide (a = " "%char) then strip s else String a (strip s)
  end.

Lemma strip_app s t : strip (s +:+ t) = strip s +:+ strip t.
Proof.
  induction s as [|a s IH]; [done|]. rewrite string_app_cons. simpl.
  by case_decide; rewrite IH.
Qed.

Lemma strip_spaces n : strip (spaces n) = EmptyString.
Proof. induction n as [|n IH]; [done|]. exact IH. Qed.

Lemma strip_join l : strip (join ", " l) = comma_text (strip <$> l).
Proof.
  induction l as [|x [|y l] IH]; [done..|].
  rewrite join_cons, !strip_app, IH. done.
Qed.

Lemma strip_comma_text l : strip (comma_text l) = comma_text (strip <$> l).
Proof.
  induction l as [|x [|y l] IH]; [done..|].
  change (comma_text (x :: y :: l)) with (x +:+ "," +:+ comma_text (y :: l)).
  rewrite !strip_app, IH. done.
Qed.

(** ** Expressions without pointers *)

(** The expressions that are printed without a statement of their own: no allocation, no
    [->], no initialiser, and no call of a name with one of the visitor's own prefixes,
    which no identifier of the grammar has. *)
Fixpoint simple (e : expr) : bool :=
  match e with
  | PrimaryExpr (P_paren e) => simple e
  | PrimaryExpr _ | LiteralExpr _ => true
  | MemberExpr e _ | AddressOfExpr e | DereferenceExpr e
  | PostIncrementExpr e | PostDecrementExpr e | PreIncrementExpr e | PreDecrementExpr e => simple e
  | MulDivExpr l _ r | AddSubExpr l _ r | CompareExpr l _ r | AssignExpr l r
  | ArrayAccessExpr l r => simple l && simple r
  | FuncCallExpr f =>
      negb (str_find "VIRTUAL_CALL:" (fc_name f) 0 =? 0)
      && negb (str_find "METHOD_CALL:" (fc_name f) 0 =? 0)
      && match fc_args f with Some l => forallb simple l | None => true end
  | _ => false
  end.

(** Every visible name denotes a value of a printable type that is not a pointer. *)
Definition no_pointers (st : SymbolTable) : Prop :=
  ∀ x v, lookupSymbol x st = Some v → m_isPointer (v_type v) = false ∧ printable (v_type v).

(** Visiting [e] in [s] changes nothing and gives the tokens of [e]. *)
Definition prints_as `{CG : CodeGenerator} (s : VState) (e : expr) : Prop :=
  ∃ t, visit_expr e s = Ret (t, s) ∧ strip t = strip (expr_text e).

Section simple.
Context (useRC : bool).
#[local] Instance CG : CodeGenerator := CCodeGenerator useRC.
Context (s : VState) (Hs : m_first_pass s = false) (Hp : no_pointers (m_symbolTable s)).

Lemma isCompatible_no_pointer t1 t2 ts :
  printable t1 → printable t2 → m_isPointer t1 = false →
  ∃ b, isCompatible t1 t2 ts = Ret b.
Proof.
  intros H1 H2 Hn. unfold isCompatible. rewrite !toString_ty_text by done. bind_ret.
  rewrite Hn. simpl. case_decide; simpl; eauto.
Qed.

(** What is done for a pointer variable is not done. *)
Lemma when_pointer {B} x (m : Variable_ → M unit) (k : unit → M B) :
  (match lookupSymbol x (m_symbolTable s) with
   | Some v => whenM (m_isPointer (v_type v)) (m v)
   | None => mret tt
   end ≫= k) s = k tt s.
Proof.
  apply bind_step. destruct (lookupSymbol x (m_symbolTable s)) as [v|] eqn:E; [|done].
  by destruct (Hp _ _ E) as [-> _].
Qed.

Lemma visit_assign l r : prints_as s l → prints_as s r → prints_as s (AssignExpr l r).
Proof.
  intros (tl & Hl & El) (tr & Hr & Er).
  exists (tl +:+ " = " +:+ tr). split.
  2:{ simpl. rewrite !strip_app, El, Er. done. }
  cbn [visit_expr]. unfold visitAssignExpr. run_heads. rewrite Hs.
  rewrite (bind_step _ _ _ _ _ Hl), (bind_step _ _ _ _ _ Hr). run_heads.
  rewrite (bind_step _ _ s tr s).
  2:{ destruct (lookupSymbol tl (m_symbolTable s)) as [lv|] eqn:E1,
        (lookupSymbol tr (m_symbolTable s)) as [rv|] eqn:E2; try done.
      destruct (Hp _ _ E1) as [Hn1 Hp1], (Hp _ _ E2) as [Hn2 Hp2].
      destruct (isCompatible_no_pointer _ _ (m_typeSystem s) Hp2 Hp1 Hn2) as [b Hb].
      rewrite (bind_types_out _ b) by done.
      cbn [generateCast CG CCodeGenerator]. unfold C_generateCast. rewrite Hn2.
      by destruct b. }
  run_heads. rewrite when_pointer. run_heads. by rewrite when_pointer.
Qed.

Lemma visit_args_text l :
  Forall (prints_as s) l →
  ∃ ts, Forall2 (λ e t, visit_expr e s = Ret (t, s)) l ts ∧
        strip <$> ts = strip <$> (expr_text <$> l).
Proof.
  induction 1 as [|e l (t & He & Ht) _ (ts & Hl & Hts)]; [by exists []|].
  exists (t :: ts). split; [by constructor|]. by rewrite !fmap_cons, Ht, Hts.
Qed.

Lemma visit_call f args :
  simple (FuncCallExpr (mkFunctionCall f args)) = true →
  opt_P (Forall (prints_as s)) args →
  prints_as s (FuncCallExpr (mkFunctionCall f args)).
Proof.
  intros Hsim Hargs. cbn [simple fc_name fc_args] in Hsim.
  apply andb_true_iff in Hsim as [[Hv Hm]%andb_true_iff _].
  apply negb_true_iff in Hv, Hm.
  assert (∃ ts, Forall2 (λ m t, m s = Ret (t, s))
                  (default [] (option_map (map visit_expr) args)) ts ∧
                strip <$> ts = strip <$> (expr_text <$> default [] args))
    as (ts & Hts & Ets).
  { destruct args as [l|]; simpl in *; [|by exists []].
    destruct (visit_args_text l Hargs) as (ts & H1 & H2). exists ts. split; [|done].
    by apply Forall2_fmap_l. }
  exists (getIndentLevel (m_symbolTable s) +:+ (f +:+ "(" +:+ join ", " ts +:+ ")")). split.
  2:{ unfold getIndentLevel. cbn [expr_text fc_name fc_args].
      rewrite !strip_app, strip_spaces, strip_join, Ets. rewrite string_app_nil_l.
      f_equal. f_equal. destruct args as [l|]; [|done]. by rewrite strip_comma_text. }
  cbn [visit_expr fc_name fc_args]. unfold visitFuncCallExpr, visitFunctionCall.
  cbn [fc_name fc_args]. run_heads. rewrite Hs, Hv, Hm. run_heads.
  assert (∀ dn, foldM (call_arg (getIndentLevel (m_symbolTable s)))
             (default [] (option_map (map visit_expr) args)) (dn, false) s
           = Ret ((dn ++ ts, false), s)) as H1.
  { clear Ets. induction Hts as [|m t ms ts' H _ IH]; intros dn; [by rewrite app_nil_r|].
    cbn [foldM]. rewrite (bind_step _ _ s (dn ++ [t], false) s); [by rewrite IH, <-app_assoc|].
    unfold call_arg. rewrite (bind_step _ _ _ _ _ H). run_heads.
    destruct (lookupSymbol t (m_symbolTable s)) as [v|] eqn:E; [|done].
    destruct (Hp _ _ E) as [-> _]. by rewrite andb_false_r. }
  rewrite (bind_step _ _ _ _ _ (H1 [])). run_heads.
  change (generateFunctionCall f ([] ++ ts)) with (C_generateFunctionCall f ts).
  rewrite generateFunctionCall_text, !string_app_nil_r.
  destruct (addRefCounts s); [|done]. clear H1 Ets.
  generalize (getIndentLevel (m_symbolTable s) +:+ f +:+ "(" +:+ join ", " ts +:+ ")").
  intros code. generalize (getIndentLevel (m_symbolTable s)) as indent. intros indent.
  induction Hts as [|m t ms ts' H _ IH]; [done|].
  cbn [foldM]. rewrite (bind_step _ _ s code s); [exact IH|].
  unfold release_arg. rewrite (bind_step _ _ _ _ _ H). run_heads.
  destruct (lookupSymbol t (m_symbolTable s)) as [v|] eqn:E; [|done].
  by destruct (Hp _ _ E) as [-> _].
Qed.

(** Handlers that visit their children and put their texts together. *)
#[local] Ltac compose :=
  repeat match goal with H : prints_as _ _ |- _ => destruct H as (? & ? & ?) end;
  eexists; split;
  [ cbn [visit_expr];
    unfold visitPrimary, visitMemberExpr, visitMulDivExpr, visitAddSubExpr, visitCompareExpr,
      visitAddressOfExpr, visitDereferenceExpr, visitArrayAccessExpr, visitPostIncrementExpr,
      visitPostDecrementExpr, visitPreIncrementExpr, visitPreDecrementExpr;
    repeat (erewrite bind_step by eassumption); reflexivity
  | cbn [expr_text]; rewrite ?strip_app; change (strip " ") with EmptyString;
    rewrite ?string_app_nil_l;
    repeat match goal with H : strip _ = strip _ |- _ => rewrite H; clear H end; reflexivity ].

Lemma simple_prints e : simple e = true → prints_as s e.
Proof.
  induction e using expr_tree_ind; cbn [simple]; intros Hsim; try discriminate Hsim;
    repeat match goal with H : _ && _ = true |- _ => apply andb_true_iff in H as [? ?] end;
    repeat match goal with IH : ?x = true → _, H : ?x = true |- _ => specialize (IH H) end.
  all: try compose.
  - apply visit_call.
    + cbn [simple fc_name fc_args] in *. by rewrite H0, H2.
    + destruct args as [l|]; [|done]. cbn [fc_args opt_P] in *.
      apply Forall_forall. intros e He. rewrite Forall_forall in H.
      by apply H; [|eapply forallb_elem].
  - by apply visit_assign.
Qed.
End simple.

(** C8. Expressions are printed token by token.  In the second pass, where no pointer is in
    scope, an expression without allocation, [->] or initialiser is visited without
    any effect, and its C text is the source text up to white space: precedence,
    parentheses, operands and argument order are those of the source. *)
Theorem simple_expression_text useRC s e :
  m_first_pass s = false → no_pointers (m_symbolTable s) → simple e = true →
  ∃ t, visit_expr (CG:=CCodeGenerator useRC) e s = Ret (t, s) ∧ strip t = strip (expr_text e).
Proof. intros. by apply simple_prints. Qed.

(** [x = f(a, b + 1) * 2] *)
Definition sample_assignment : expr :=
  AssignExpr (ident "x")
    (MulDivExpr (FuncCallExpr (mkFunctionCall "f"
                   (Some [ident "a"; AddSubExpr (ident "b") "+" (lit "1")]))) "*" (lit "2")).

Lemma simple_expression_text_witness :
  ∃ t, visit_expr (CG:=CRef) sample_assignment
         (with_vars [("x", ty_int); ("a", ty_int)] (start false))
       = Ret (t, with_vars [("x", ty_int); ("a", ty_int)] (start false))
       ∧ strip t = "x=f(a,b+1)*2".
Proof.
  apply (simple_expression_text true (with_vars [("x", ty_int); ("a", ty_int)] (start false))
           sample_assignment).
  - reflexivity.
  - intros x v Hl. unfold lookupSymbol, with_vars, with_scopes in Hl.
    cbn [m_symbolTable set_symbolTable scopes currentFunc lookup_scopes] in Hl.
    destruct (list_to_map _ !! x) as [v'|] eqn:E.
    + injection Hl as <-. apply elem_of_list_to_map_2 in E.
      apply elem_of_cons in E as [[= _ ->]|[[= _ ->]|[]%not_elem_of_nil]%elem_of_cons];
        split; reflexivity || discriminate.
    + change (@None Variable_ = Some v) in Hl. discriminate Hl.
  - vm_compute. reflexivity.
Defined.

(** ** Assignments of pointers *)

(** What an assignment of [y] to [x] gives: the C expression and the emitted counts. *)
Definition assigns (s : VState) (x y cast counts : string) : Prop :=
  visit_expr (CG:=CRef) (AssignExpr (ident x) (ident y)) s
  = Ret (x +:+ " = " +:+ cast, set_output (m_output s +:+ counts) s).

Lemma visit_pointer_assign s x y vx vy cast counts b :
  m_first_pass s = false →
  lookupSymbol x (m_symbolTable s) = Some vx → lookupSymbol y (m_symbolTable s) = Some vy →
  m_isPointer (v_type vx) = true → str_find "->" x 0 = npos →
  isCompatible (v_type vy) (v_type vx) (m_typeSystem s) = Ret b →
  (if b then C_generateCast y (v_type vy) (v_type vx) else y) = cast →
  match lookupSymbol cast (m_symbolTable s) with
  | Some v => if m_isPointer (v_type v)
              then getIndentLevel (m_symbolTable s) +:+ C_generateIncRef true v "NULL" else EmptyString
  | None => EmptyString
  end = counts →
  assigns s x y cast (counts +:+ getIndentLevel (m_symbolTable s) +:+ C_generateDecRef true vx).
Proof.
  intros Hs Hx Hy Px Harrow Hb Hcast Hcounts. unfold assigns. cbn [visit_expr ident].
  unfold visitAssignExpr, visitPrimary. run_heads. rewrite Hs. run_heads.
  rewrite Hx, Hy. rewrite (bind_step _ _ s cast s).
  2:{ rewrite (bind_types_out _ b) by done. by rewrite <-Hcast. }
  run_heads. rewrite (bind_step _ _ s tt (set_output (m_output s +:+ counts) s)).
  2:{ rewrite <-Hcounts. destruct (lookupSymbol cast (m_symbolTable s)) as [v|];
        [|by rewrite set_output_id].
      destruct (m_isPointer (v_type v)); cbn [whenM]; [by rewrite Harrow|by rewrite set_output_id]. }
  run_heads. cbn [m_symbolTable set_output]. rewrite Hx, Px. cbn [whenM]. run_heads.
  unfold set_output. simpl. by string_norm.
Qed.

Lemma isCompatible_same t ts : printable t → isCompatible t t ts = Ret true.
Proof. intros Ht. unfold isCompatible. rewrite toString_ty_text by done. bind_ret. by rewrite decide_True. Qed.

Lemma generateCast_same e t : C_generateCast e t t = e.
Proof. unfold C_generateCast. destruct (_ && _); [|done]. by rewrite decide_True. Qed.

(** C34. Reference counts of an assignment [x = y] of pointer variables.  Between
    variables of one type the visitor retains [y], releases [x], and prints the
    assignment.  When [y] points to a proper subclass of the class of [x], the right-hand
    side becomes the cast, which is no variable: [x] is released and nothing is retained. *)
Theorem assign_pointer_counts s x y vx vy :
  m_first_pass s = false →
  lookupSymbol x (m_symbolTable s) = Some vx → lookupSymbol y (m_symbolTable s) = Some vy →
  m_isPointer (v_type vx) = true → m_isPointer (v_type vy) = true →
  printable (v_type vx) → printable (v_type vy) → str_find "->" x 0 = npos →
  let indent := getIndentLevel (m_symbolTable s) in
  (v_type vx = v_type vy →
     assigns s x y y (indent +:+ C_generateIncRef true vy "NULL"
                        +:+ indent +:+ C_generateDecRef true vx)) ∧
  (isClass (v_type vx) = true → isClass (v_type vy) = true →
   getClassName (v_type vy) ≠ getClassName (v_type vx) →
   isSubclassOf (getClassName (v_type vy)) (getClassName (v_type vx)) (m_typeSystem s)
     = Ret true →
   lookupSymbol (upcast_path 1 y) (m_symbolTable s) = None →
     assigns s x y (upcast_path 1 y) (indent +:+ C_generateDecRef true vx)).
Proof.
  intros Hs Hx Hy Px Py Tx Ty Harrow indent. split.
  - intros Heq. rewrite (string_app_assoc indent).
    apply (visit_pointer_assign _ _ _ _ vy _ _ true); [done..| | |by rewrite Hy, Py].
    + rewrite Heq. by apply isCompatible_same.
    + rewrite Heq. apply generateCast_same.
  - intros Cx Cy Hne Hsub Hnone. rewrite <-(string_app_nil_l (indent +:+ _)).
    apply (visit_pointer_assign _ _ _ _ vy _ _ true); [done..| | |by rewrite Hnone].
    + unfold isCompatible. rewrite !toString_ty_text by done. bind_ret.
      case_decide; [done|]. by rewrite Py, Px, Cy, Cx, Hsub.
    + unfold C_generateCast. rewrite Py, Px, Cy, Cx. simpl. by rewrite decide_False.
Qed.

(** A state with a [Dog*] and an [Animal*]. *)
Definition pets : VState :=
  set_typeSystem animals
    (with_vars [("d", class_ptr "Dog"); ("a", class_ptr "Animal")] (start false)).

Definition animal_type (c : string) : Ty := default ty_int (m_classes animals !! c).

Lemma assign_pointer_counts_witness :
  assigns pets "a" "d" "&((d)->parent)"
    ("        runtime_dec_ref_count(a, 0);" +:+ nl) ∧
  assigns pets "a" "a" "a" ("        runtime_inc_ref_count(a, NULL);" +:+ nl
    +:+ "        runtime_dec_ref_count(a, 0);" +:+ nl).
Proof.
  split.
  - refine (proj2 (assign_pointer_counts pets "a" "d" (Variable_of "a" (class_ptr "Animal"))
      (Variable_of "d" (class_ptr "Dog")) _ _ _ _ _ _ _ _) _ _ _ _ _);
      first [discriminate | vm_compute; reflexivity].
  - refine (proj1 (assign_pointer_counts pets "a" "a" (Variable_of "a" (class_ptr "Animal"))
      (Variable_of "a" (class_ptr "Animal")) _ _ _ _ _ _ _ _) _);
      first [discriminate | vm_compute; reflexivity].
Defined.

(** C23. Reading a field.  Let [z] and [x] be pointers to one struct type.  The field [f] of the
    assignment [z = x] is translated with a retain of [x] and a release of [z], the assignment of
    the field [x->f] to [z] with a release of [z] only; the C expression is [z = x->f] for both,
    which assigns the field.  So neither tree counts the pointer that is read, and the first
    counts [x] once too often.  (Which tree a parser makes of [z = x->f] is outside the model; the
    grammar lists [=] before [->].) *)
Theorem field_of_assignment s z x f vz vx :
  m_first_pass s = false →
  lookupSymbol z (m_symbolTable s) = Some vz → lookupSymbol x (m_symbolTable s) = Some vx →
  m_isPointer (v_type vx) = true → printable (v_type vx) → v_type vz = v_type vx →
  isClass (v_type vx) = false → x ≠ "this" → str_find "->" z 0 = npos →
  lookupSymbol (z +:+ " = " +:+ x) (m_symbolTable s) = None →
  lookupSymbol (x +:+ "->" +:+ f) (m_symbolTable s) = None →
  let indent := getIndentLevel (m_symbolTable s) in
  let text := z +:+ " = " +:+ x +:+ "->" +:+ f in
  visit_expr (CG:=CRef) (PointerMemberExpr (AssignExpr (ident z) (ident x)) f) s
  = Ret (text, set_output (m_output s +:+ indent +:+ C_generateIncRef true vx "NULL"
                                      +:+ indent +:+ C_generateDecRef true vz) s) ∧
  visit_expr (CG:=CRef) (AssignExpr (ident z) (PointerMemberExpr (ident x) f)) s
  = Ret (text, set_output (m_output s +:+ indent +:+ C_generateDecRef true vz) s).
Proof.
  intros Hs Hz Hx Px Tx Htype Hclass Hthis Harrow Hassign Hread indent text.
  assert (m_isPointer (v_type vz) = true) as Pz by (by rewrite Htype).
  split.
  - assert (assigns s z x x (indent +:+ C_generateIncRef true vx "NULL"
                               +:+ indent +:+ C_generateDecRef true vz)) as Ha.
    { rewrite (string_app_assoc indent).
      apply (visit_pointer_assign _ _ _ vz vx _ _ true); [done..| | |by rewrite Hx, Px].
      + rewrite Htype. by apply isCompatible_same.
      + rewrite Htype. apply generateCast_same. }
    cbn [visit_expr]. unfold assigns in Ha. cbn [visit_expr] in Ha.
    unfold visitPointerMemberExpr. run_heads. rewrite Hs, (bind_step _ _ _ _ _ Ha). run_heads.
    match goal with |- (_ ≫= _) ?st = _ => rewrite (bind_step _ _ st None st) end.
    2:{ destruct (currentFunc _); [|done]. rewrite decide_False; [done|].
        clear. intros E. destruct z as [|a [|b [|c [|d z]]]]; simplify_eq/=.
        apply (f_equal String.length) in E. rewrite !string_length_app in E. simpl in E. lia. }
    run_heads. cbn [m_symbolTable set_output]. rewrite Hassign. unfold text.
    by rewrite !string_app_assoc.
  - cbn [visit_expr ident]. unfold visitAssignExpr, visitPrimary. run_heads. rewrite Hs. run_heads.
    rewrite (bind_step _ _ s (x +:+ "->" +:+ f) s).
    2:{ unfold visitPointerMemberExpr. run_heads. rewrite Hs. run_heads.
        rewrite (bind_step _ _ s None s).
        2:{ destruct (currentFunc (m_symbolTable s)); [|done]. by rewrite decide_False. }
        run_heads. by rewrite Hx, Hclass. }
    run_heads. rewrite Hz, Hread. run_heads. rewrite Hread. run_heads. rewrite Hz, Pz. cbn [whenM].
    by run_heads.
Qed.

Definition node_ptr : Ty := setPointer true (setStruct "Node" (Type_base BStruct)).
Definition two_nodes : VState := with_vars [("x", node_ptr); ("z", node_ptr)] (start false).
Lemma field_of_assignment_witness :
  visit_expr (CG:=CRef) (PointerMemberExpr (AssignExpr (ident "z") (ident "x")) "next") two_nodes
  = Ret ("z = x->next", set_output ("        runtime_inc_ref_count(x, NULL);" +:+ nl
                           +:+ "        runtime_dec_ref_count(z, 0);" +:+ nl) two_nodes).
Proof.
  refine (proj1 (field_of_assignment two_nodes "z" "x" "next" (Variable_of "z" node_ptr)
    (Variable_of "x" node_ptr) _ _ _ _ _ _ _ _ _ _ _)); first [discriminate | vm_compute; reflexivity].
Defined.

(** ** Returns *)

(** Arguments that are variables, when nothing is retained. *)
Lemma visit_plain_args `{CG : CodeGenerator} indent ys dn b s :
  addRefCounts s = false →
  foldM (call_arg indent) (visit_expr <$> (ident <$> ys)) (dn, b) s = Ret ((dn ++ ys, b), s).
Proof.
  intros Ha. revert dn. induction ys as [|y ys IH]; intros dn; [by rewrite app_nil_r|].
  cbn [fmap list_fmap foldM]. rewrite (bind_step _ _ s (dn ++ [y], b) s); [by rewrite IH, <-app_assoc|].
  unfold call_arg. cbn [visit_expr ident]. unfold visitPrimary. run_heads. rewrite Ha.
  by destruct (lookupSymbol y (m_symbolTable s)).
Qed.

Lemma release_text_elem `{CG : CodeGenerator} indent vars x v :
  vars !! x = Some v → m_isPointer (v_type v) = true →
  ∃ pre post, release_text indent vars = pre +:+ indent +:+ generateDecRef v +:+ post.
Proof.
  intros Hx%elem_of_map_iter Hp. unfold release_text. revert Hx. generalize (map_iter vars) as l.
  induction l as [|[y u] l IH]; intros Hin; [by apply not_elem_of_nil in Hin|]. cbn [foldr snd].
  apply elem_of_cons in Hin as [[= -> ->]|Hin].
  - rewrite Hp. eexists EmptyString, _. rewrite string_app_nil_l. symmetry. apply string_app_assoc.
  - destruct (IH Hin) as (pre & post & ->). eexists (_ +:+ pre), post. apply string_app_assoc.
Qed.

(** C22. A call in a [return].  The translation of [return g(y1, ..., yn);] retains no argument and
    releases every pointer variable of the innermost scope, the arguments among them, before the
    C statement with the call, which so uses pointers that are already given up.  (A call that
    is a statement retains its pointer arguments first and releases them afterwards.) *)
Theorem return_call_releases_first useRC s g ys :
  m_first_pass s = false → simple (FuncCallExpr (mkFunctionCall g None)) = true →
  let CG := CCodeGenerator useRC in
  let indent := getIndentLevel (m_symbolTable s) in
  let vars := getCurrentScopeSymbols (m_symbolTable s) in
  let call := indent +:+ g +:+ "(" +:+ join ", " ys +:+ ")" in
  lookupSymbol call (m_symbolTable s) = None →
  visit_stmt (S_return (Some (FuncCallExpr (mkFunctionCall g (Some (ident <$> ys)))))) s
  = Ret (tt, set_output (m_output s +:+ release_text indent vars
                           +:+ indent +:+ "return " +:+ call +:+ ";" +:+ nl)
               (set_addRefCounts true s)) ∧
  ∀ x v, vars !! x = Some v → m_isPointer (v_type v) = true →
    ∃ pre post, release_text indent vars = pre +:+ indent +:+ C_generateDecRef useRC v +:+ post.
Proof.
  intros Hs Hsim CG indent vars call Hcall.
  split; [|intros x v; by apply (release_text_elem (CG:=CG))].
  cbn [simple fc_name fc_args] in Hsim. apply andb_true_iff in Hsim as [[Hv Hm]%andb_true_iff _].
  apply negb_true_iff in Hv, Hm.
  assert (visit_expr (FuncCallExpr (mkFunctionCall g (Some (ident <$> ys)))) (set_addRefCounts false s)
          = Ret (call, set_addRefCounts false s)) as He.
  { cbn [visit_expr fc_name fc_args]. unfold visitFuncCallExpr, visitFunctionCall.
    cbn [fc_name fc_args option_map default]. run_heads.
    change (m_first_pass (set_addRefCounts false s)) with (m_first_pass s). rewrite Hs, Hv, Hm.
    run_heads. change (map visit_expr (ident <$> ys)) with (visit_expr <$> (ident <$> ys)).
    unfold id. rewrite (bind_step _ _ _ _ _
      (visit_plain_args _ ys [] false (set_addRefCounts false s) eq_refl)).
    run_heads. unfold CG. cbn [generateFunctionCall CCodeGenerator addRefCounts set_addRefCounts app].
    rewrite generateFunctionCall_text. unfold call, indent. by rewrite !string_app_nil_r. }
  rewrite (visit_return_state _ s call (set_addRefCounts false s) Hs He).
  cbn [m_symbolTable set_addRefCounts m_output]. by rewrite Hcall.
Qed.

Lemma return_call_releases_first_witness :
  visit_stmt (CG:=CRef) (S_return (Some (FuncCallExpr (mkFunctionCall "g" (Some [ident "x"]))))) two_nodes
  = Ret (tt, set_output ("        runtime_dec_ref_count(x, 0);" +:+ nl
                           +:+ "        runtime_dec_ref_count(z, 0);" +:+ nl
                           +:+ "        return         g(x);" +:+ nl) two_nodes).
Proof.
  exact (proj1 (return_call_releases_first true two_nodes "g" ["x"] eq_refl eq_refl eq_refl)).
Defined.

(** ** Allocations *)

(** Simple arguments, evaluated in order. *)
Lemma sequence_args useRC s args :
  m_first_pass s = false → no_pointers (m_symbolTable s) → forallb simple args = true →
  ∃ ts, sequenceM (map (visit_expr (CG:=CCodeGenerator useRC)) args) s = Ret (ts, s) ∧
        strip <$> ts = strip <$> (expr_text <$> args).
Proof.
  intros Hs Hp. induction args as [|e args IH]; intros Hsim; [by exists []|].
  cbn [forallb] in Hsim. apply andb_true_iff in Hsim as [He Hargs].
  destruct (simple_prints useRC s Hs Hp e He) as (t & Ht & Et).
  destruct (IH Hargs) as (ts & Hts & Ets). exists (t :: ts). split.
  - cbn [map sequenceM]. rewrite (bind_step _ _ _ _ _ Ht), (bind_step _ _ _ _ _ Hts). done.
  - by rewrite !fmap_cons, Et, Ets.
Qed.

(** The statements emitted for the [n]-th temporary, holding an object of type [t]: its
    allocation and the constructor's call. *)
Definition temp (n : Z) : string := "temp_" +:+ to_string_int n.
Definition alloc_text (indent : string) (n : Z) (t : Ty) : string :=
  indent +:+ var_text (setPointer true t) (temp n) +:+ " = " +:+ "runtime_alloc(sizeof("
    +:+ ty_text t +:+ "))" +:+ ";" +:+ nl.
Definition construct_text (indent : string) (n : Z) (constructor : string) (args : list string)
    : string :=
  indent +:+ constructor +:+ "(" +:+ join ", " (temp n :: args) +:+ ")" +:+ ";" +:+ nl.

Lemma visit_new useRC s c args k t ts :
  m_first_pass s = false → getClassConstructor c (m_typeSystem s) = Some k →
  resolveType c (m_typeSystem s) = Ret t → printable t →
  let n := m_tempVarCounter s in
  let indent := getIndentLevel (m_symbolTable s) in
  let s1 := set_output (m_output s +:+ alloc_text indent n t) (set_tempVarCounter (n + 1) s) in
  sequenceM (map (visit_expr (CG:=CCodeGenerator useRC)) (default [] args)) s1 = Ret (ts, s1) →
  visit_expr (CG:=CCodeGenerator useRC) (NewWithConstructorExpr c args) s
  = Ret (temp n, set_output (m_output s1 +:+ construct_text indent n (f_name k) ts) s1).
Proof.
  intros Hs Hk Ht Hp n indent s1 Hargs. cbn [visit_expr]. unfold visitNewWithConstructorExpr.
  run_heads. rewrite Hs. run_heads. rewrite Hk. run_heads.
  rewrite (bind_types_out _ t) by done. cbn [generateAlloc generateVarDecl CCodeGenerator].
  unfold C_generateAlloc, C_generateVarDecl. rewrite toString_ty_text by done. bind_ret. run_heads.
  rewrite outputVariable_var_text by done. bind_ret. run_heads.
  rewrite (bind_step _ _ _ ts s1).
  2:{ replace (default [] (option_map (map visit_expr) args))
        with (map (visit_expr (CG:=CCodeGenerator useRC)) (default [] args)) by (by destruct args).
      rewrite <-Hargs. f_equal. unfold s1, alloc_text, set_output, set_tempVarCounter. simpl.
      by string_norm. }
  run_heads. cbn [generateFunctionCall CCodeGenerator]. rewrite generateFunctionCall_text.
  unfold mret, stM_ret, construct_text. f_equal. f_equal. unfold set_output. simpl. by string_norm.
Qed.

(** [new C(args)] in the second pass.  An object of a class with a constructor is
    allocated in a fresh temporary by statements printed before the expression, the
    constructor is called on it with the arguments, and the expression is the temporary;
    for a class without a constructor a [NameError] is thrown. *)
Theorem new_object_text useRC s c args t :
  m_first_pass s = false → no_pointers (m_symbolTable s) →
  forallb simple (default [] args) = true →
  resolveType c (m_typeSystem s) = Ret t → printable t →
  let n := m_tempVarCounter s in
  let indent := getIndentLevel (m_symbolTable s) in
  let e := visit_expr (CG:=CCodeGenerator useRC) (NewWithConstructorExpr c args) in
  match getClassConstructor c (m_typeSystem s) with
  | Some k =>
      ∃ ts, strip <$> ts = strip <$> (expr_text <$> default [] args) ∧
        e s = Ret (temp n,
                   set_output (m_output s +:+ alloc_text indent n t
                                 +:+ construct_text indent n (f_name k) ts)
                     (set_tempVarCounter (n + 1) s))
  | None => e s = Throw (CompilerError NameError ("No constructor for class: " +:+ c))
  end.
Proof.
  intros Hs Hp Hsim Ht Pt n indent e.
  destruct (getClassConstructor c (m_typeSystem s)) as [k|] eqn:Hk.
  - set (s1 := set_output (m_output s +:+ alloc_text indent n t) (set_tempVarCounter (n + 1) s)).
    destruct (sequence_args useRC s1 _ Hs Hp Hsim) as (ts & Hts & Ets).
    exists ts. split; [done|]. unfold e. rewrite (visit_new _ _ _ _ k t ts) by done.
    unfold set_output. simpl. by string_norm.
  - unfold e. cbn [visit_expr]. unfold visitNewWithConstructorExpr. run_heads. rewrite Hs.
    run_heads. by rewrite Hk.
Qed.

(** A class [Box] with a constructor. *)
Definition box_types : TypeSystem :=
  with_classConstructors {["Box" := mkFunction "Box_Box" [] (Type_base BVoid) false false]}
    (registerClass "Box" TypeSystem_default).2.
Definition with_boxes : VState := set_typeSystem box_types (with_vars [] (start false)).

Lemma new_object_text_witness :
  ∃ text s', visit_expr (CG:=CRef) (NewWithConstructorExpr "Box" (Some [lit "1"])) with_boxes
             = Ret (text, s') ∧ text = "temp_0" ∧ m_tempVarCounter s' = 1.
Proof.
  destruct (new_object_text true with_boxes "Box" (Some [lit "1"])
              (setStruct "Box" (Type_base BClass))) as (ts & _ & H).
  - reflexivity.
  - intros x v H. vm_compute in H. discriminate H.
  - reflexivity.
  - vm_compute. reflexivity.
  - discriminate.
  - rewrite H. do 2 eexists. split; [reflexivity|]. split; reflexivity.
Defined.

(** C25. [f(new C())] allocates twice.  [visitFunctionCall] visits the arguments once to
    collect them and once more to release them, so the allocation and the constructor's
    call are printed for two temporaries, of which only the first is passed. *)
Theorem call_allocates_twice useRC s f c k t :
  m_first_pass s = false → addRefCounts s = true →
  simple (FuncCallExpr (mkFunctionCall f None)) = true →
  getClassConstructor c (m_typeSystem s) = Some k →
  resolveType c (m_typeSystem s) = Ret t → printable t →
  let n := m_tempVarCounter s in
  let indent := getIndentLevel (m_symbolTable s) in
  lookupSymbol (temp n) (m_symbolTable s) = None →
  lookupSymbol (temp (n + 1)) (m_symbolTable s) = None →
  visit_expr (CG:=CCodeGenerator useRC)
    (FuncCallExpr (mkFunctionCall f (Some [NewWithConstructorExpr c None]))) s
  = Ret (indent +:+ f +:+ "(" +:+ temp n +:+ ")",
         set_output (m_output s
             +:+ (alloc_text indent n t +:+ construct_text indent n (f_name k) [])
             +:+ (alloc_text indent (n + 1) t +:+ construct_text indent (n + 1) (f_name k) []))
           (set_tempVarCounter (n + 2) s)).
Proof.
  intros Hs Ha Hsim Hk Ht Pt n indent L1 L2. cbn [simple fc_name fc_args] in Hsim.
  apply andb_true_iff in Hsim as [[Hv Hm]%andb_true_iff _]. apply negb_true_iff in Hv, Hm.
  pose proof (visit_new useRC s c None k t [] Hs Hk Ht Pt eq_refl) as H1. cbv zeta in H1.
  match type of H1 with _ = Ret (_, ?st) => set (s1 := st) in H1 end.
  pose proof (visit_new useRC s1 c None k t [] Hs Hk Ht Pt eq_refl) as H2. cbv zeta in H2.
  match type of H2 with _ = Ret (_, ?st) => set (s2 := st) in H2 end.
  set (G := CCodeGenerator useRC) in *. cbn [visit_expr option_map] in H1, H2.
  assert (call_arg indent ([], false) (visitNewWithConstructorExpr c None) s
          = Ret (([temp n], false), s1)) as C1.
  { unfold call_arg. rewrite (bind_step _ _ _ _ _ H1). run_heads.
    change (m_symbolTable s1) with (m_symbolTable s). fold n. by rewrite L1. }
  assert (∀ code, release_arg indent code (visitNewWithConstructorExpr c None) s1
                  = Ret (code, s2)) as C2.
  { intros code. unfold release_arg. rewrite (bind_step _ _ _ _ _ H2). run_heads.
    change (m_symbolTable s2) with (m_symbolTable s).
    change (m_tempVarCounter s1) with (n + 1). by rewrite L2. }
  cbn [visit_expr fc_name fc_args option_map map]. unfold visitFuncCallExpr, visitFunctionCall.
  cbn [fc_name fc_args default]. run_heads. rewrite Hs, Hv, Hm. run_heads. unfold id.
  cbn [foldM]. fold indent. rewrite (bind_step _ _ s ([temp n], false) s1).
  2:{ by rewrite (bind_step _ _ _ _ _ C1). }
  cbv beta iota. run_heads. change (addRefCounts s1) with (addRefCounts s). rewrite Ha.
  rewrite (bind_step _ _ _ _ _ (C2 _)). unfold mret, stM_ret. f_equal. f_equal.
  - unfold G. cbn [generateFunctionCall CCodeGenerator]. rewrite generateFunctionCall_text.
    simpl. by string_norm.
  - unfold s2, s1, set_output, set_tempVarCounter. simpl. f_equal; [|unfold n; lia].
    fold n indent. by string_norm.
Qed.

Lemma call_allocates_twice_witness :
  match visit_expr (CG:=CRef)
          (FuncCallExpr (mkFunctionCall "f" (Some [NewWithConstructorExpr "Box" None]))) with_boxes
  with
  | Ret (text, s') => text = "        f(temp_0)" ∧ m_tempVarCounter s' = 2
  | _ => False
  end.
Proof.
  rewrite (call_allocates_twice true with_boxes "f" "Box"
             (mkFunction "Box_Box" [] (Type_base BVoid) false false)
             (setStruct "Box" (Type_base BClass))); try reflexivity; [|discriminate].
  split; reflexivity.
Defined.

(** ** Fields and methods *)

Lemma replace_this_field x f : replace_this ("this->" +:+ f) x = x +:+ "->" +:+ f.
Proof.
  unfold replace_this. f_equal. rewrite substring_drop by (rewrite string_length_app; simpl; lia).
  done.
Qed.

Lemma replace_this_parent x f : replace_this ("this->parent." +:+ f) x = x +:+ "->parent." +:+ f.
Proof.
  unfold replace_this. f_equal. rewrite substring_drop by (rewrite string_length_app; simpl; lia).
  done.
Qed.

Definition has_field (t : Ty) (f : string) : bool :=
  existsb (λ m : string * Ty, bool_decide (m.1 = f)) (m_structMembers t).

(** [x->f] on a variable of a class, outside [this].  When the first method of the
    class is virtual, the text is the marker of a virtual call, for any [f], and no C.
    Without methods, a field of the class is printed as it is, and any other name is
    looked for one level up only, whether the parent has it or not. *)
Theorem field_access_text `{CG : CodeGenerator} s x f v t :
  m_first_pass s = false → x ≠ "this" →
  lookupSymbol x (m_symbolTable s) = Some v → isClass (v_type v) = true →
  resolveType (getClassName (v_type v)) (m_typeSystem s) = Ret t →
  visit_expr (PointerMemberExpr (ident x) f) s
  = Ret (match getClassMethods (getClassName (v_type v)) (m_typeSystem s) with
         | m :: _ =>
             if f_isVirtual m then "VIRTUAL_CALL:" +:+ f +:+ ":" +:+ x
             else match member_as_method
                          (getClassMethods (getClassName (v_type v)) (m_typeSystem s))
                          (getClassName (v_type v)) f x with
                  | Some text => text
                  | None => if has_field t f then x +:+ "->" +:+ f
                            else if hasParent t then x +:+ "->parent." +:+ f
                            else x +:+ "->" +:+ f
                  end
         | [] => if has_field t f then x +:+ "->" +:+ f
                 else if hasParent t then x +:+ "->parent." +:+ f
                 else x +:+ "->" +:+ f
         end, s).
Proof.
  intros Hs Hx Hv Hc Ht. cbn [visit_expr ident]. unfold visitPointerMemberExpr, visitPrimary.
  run_heads. rewrite Hs. run_heads.
  rewrite (bind_step _ _ s None s).
  2:{ destruct (currentFunc (m_symbolTable s)); [|done]. by rewrite decide_False. }
  run_heads. rewrite Hv, Hc.
  set (c := getClassName (v_type v)) in *.
  assert (catch_all (fieldAccess ← resolveFieldAccess f c;
                     mret (Some (replace_this fieldAccess x))) (mret None) s
          = Ret (if has_field t f then Some (x +:+ "->" +:+ f)
                 else if hasParent t then Some (x +:+ "->parent." +:+ f) else None, s)) as Hf.
  { unfold catch_all, resolveFieldAccess. unfold mbind at 1, stM_bind at 1.
    rewrite (bind_types_out _ t) by done. unfold has_field.
    destruct (existsb _ _); [by rewrite <-replace_this_field|].
    destruct (hasParent t); [by rewrite <-replace_this_parent|done]. }
  rewrite (bind_step _ _ s
    (match member_as_method (getClassMethods c (m_typeSystem s)) c f x with
     | Some text => Some text
     | None => if has_field t f then Some (x +:+ "->" +:+ f)
               else if hasParent t then Some (x +:+ "->parent." +:+ f) else None
     end) s).
  2:{ run_heads. destruct (member_as_method _ _ _ _); [done|]. exact Hf. }
  unfold mret, stM_ret. do 2 f_equal.
  destruct (getClassMethods c (m_typeSystem s)) as [|m ms]; simpl.
  - destruct (has_field t f), (hasParent t); done.
  - destruct (f_isVirtual m); [done|]. destruct (decide _); [done|].
    destruct (member_as_method ms c f x); [done|].
    destruct (has_field t f), (hasParent t); done.
Qed.

Lemma field_access_text_witness :
  match visit_expr (CG:=CRef) (PointerMemberExpr (ident "d") "age") pets with
  | Ret (t, _) => t = "VIRTUAL_CALL:age:d"
  | _ => False
  end.
Proof.
  rewrite (field_access_text (CG:=CRef) pets "d" "age" (Variable_of "d" (class_ptr "Dog"))
             (animal_type "Dog"));
    try discriminate; try reflexivity.
Defined.

(** C31. Method lookup.  When the hierarchy above the class [c] ends, the loop of
    [visitMethodCallExpr] stops, and it gives the method of the nearest class, [c] first,
    that declares the name, with the class it was found in and whether it is virtual; when
    no class on the way declares it, an exception is thrown. *)
Theorem find_method_nearest ts c m :
  (∃ n, walk (resolve_parent ts) n c = None) →
  (∃ n d f, walk (resolve_parent ts) n c = Some d ∧ method_of ts d m = Some f ∧
     (∀ k e, (k < n)%nat → walk (resolve_parent ts) k c = Some e → method_of ts e m = None) ∧
     find_method (resolve_fuel ts) c c m ts = Ret (d, f_name f, f_isVirtual f)) ∨
  ((∀ n d, walk (resolve_parent ts) n c = Some d → method_of ts d m = None) ∧
   ∃ e, find_method (resolve_fuel ts) c c m ts = Throw e).
Proof.
  intros [n [l Hl]%walk_chain]. apply (find_method_chain _ _ _ _ _ l); [done|].
  by apply (resolve_chain_length ts c).
Qed.

Lemma find_method_nearest_witness :
  ∃ d name, find_method (resolve_fuel animals) "Puppy" "Puppy" "speak" animals
            = Ret (d, name, true).
Proof.
  destruct (find_method_nearest animals "Puppy" "speak") as [(n & d & f & Hw & Hd & _ & Hr)|[Hn _]].
  - exists 3%nat. vm_compute. reflexivity.
  - exists d, (f_name f). rewrite Hr. do 2 f_equal.
    destruct n as [|[|[|n]]]; vm_compute in Hw; try discriminate Hw; injection Hw as <-;
      vm_compute in Hd; try discriminate Hd; injection Hd as <-; reflexivity.
  - specialize (Hn 1%nat "Dog" eq_refl). vm_compute in Hn. discriminate Hn.
Defined.

Lemma join_foldl x l : join ", " (x :: l) = foldl (λ call arg, call +:+ ", " +:+ arg) x l.
Proof.
  revert x. induction l as [|y l IH]; intros x; [done|].
  rewrite join_cons. simpl foldl. rewrite <-IH. destruct l as [|z l]; [done|].
  rewrite !join_cons. by rewrite !string_app_assoc.
Qed.

Lemma foldl_join_prefix p x l :
  foldl (λ call arg, call +:+ ", " +:+ arg) (p +:+ x) l
  = p +:+ foldl (λ call arg, call +:+ ", " +:+ arg) x l.
Proof.
  revert x. induction l as [|y l IH]; intros x; [done|]. simpl.
  rewrite <-IH. f_equal. by rewrite !string_app_assoc.
Qed.

(** [x->m(args)] once the method is found.  A virtual method is called through the
    vtable of [x], which a derived class is taken to keep in its parent part; another method
    is called by its full name with [x], or with the parent part of [x] when an ancestor,
    however far, declares it.  A failed lookup, a name that is no variable and a variable
    that is no object throw. *)
Theorem method_call_text useRC s x m args ts v t :
  m_first_pass s = false →
  sequenceM (map (visit_expr (CG:=CCodeGenerator useRC)) (default [] args)) s = Ret (ts, s) →
  let call := visit_expr (CG:=CCodeGenerator useRC) (MethodCallExpr (ident x) m args) in
  let c := getClassName (v_type v) in
  (lookupSymbol x (m_symbolTable s) = None →
     call s = Throw (CompilerError NameError ("Unknown object: " +:+ x))) ∧
  (lookupSymbol x (m_symbolTable s) = Some v → isClass (v_type v) = false →
     call s = Throw (CompilerError TypeError "Method call on non-class type")) ∧
  (lookupSymbol x (m_symbolTable s) = Some v → isClass (v_type v) = true →
   resolveType c (m_typeSystem s) = Ret t →
     call s = match find_method (resolve_fuel (m_typeSystem s)) c c m (m_typeSystem s) with
              | Ret (_, _, true) =>
                  Ret (x +:+ (if hasParent t then "->parent.vtable" else "->vtable") +:+ "->"
                         +:+ m +:+ "(" +:+ join ", " (x :: ts) +:+ ")", s)
              | Ret (d, full, false) =>
                  Ret (full +:+ "(" +:+ join ", "
                         ((if decide (d = c) then x else upcast_path 1 x) :: ts) +:+ ")", s)
              | Throw e => Throw e
              | Crash cr => Crash cr
              | Diverge => Diverge
              end).
Proof.
  intros Hs Hargs call c.
  assert (sequenceM (default [] (option_map (map (visit_expr (CG:=CCodeGenerator useRC))) args)) s
          = Ret (ts, s)) as Ha by (by destruct args).
  unfold call. cbn [visit_expr ident]. unfold visitMethodCallExpr, visitPrimary.
  run_heads. rewrite Hs. run_heads.
  split; [by intros ->|]. split; [by intros -> ->|]. intros -> -> Ht. cbn [negb].
  fold c. destruct (find_method (resolve_fuel (m_typeSystem s)) c c m (m_typeSystem s))
    as [[[d full] virt]| | |] eqn:E.
  2,3,4: unfold types_out, mbind, stM_bind, gets, lift; by rewrite E.
  rewrite (bind_types_out _ (d, full, virt)) by done. destruct virt.
  - rewrite (bind_step _ _ _ _ _ Ha), (bind_types_out _ t) by done. run_heads.
    rewrite join_foldl. unfold mret, stM_ret. f_equal. f_equal.
    rewrite !string_app_assoc, foldl_join_prefix. by destruct (hasParent t).
  - cbn [generateFunctionCall CCodeGenerator].
    rewrite (bind_step _ _ _ _ _ Ha), generateFunctionCall_text. unfold mret, stM_ret.
    do 4 f_equal. destruct (decide (d = c)) as [Heq|Hne].
    + by rewrite decide_False by auto.
    + by rewrite decide_True.
Qed.

(** [d->speak()] and [p->sleep()] for a [Dog] and a [Puppy]. *)
Definition kennel : VState :=
  set_typeSystem animals
    (with_vars [("d", class_ptr "Dog"); ("p", class_ptr "Puppy")] (start false)).

Lemma method_call_text_witness :
  visit_expr (CG:=CRef) (MethodCallExpr (ident "d") "speak" (Some [lit "3"])) kennel
  = Ret ("d->parent.vtable->speak(d, 3)", kennel) ∧
  visit_expr (CG:=CRef) (MethodCallExpr (ident "p") "sleep" None) kennel
  = Ret ("Animal_sleep(&((p)->parent))", kennel).
Proof.
  split.
  - rewrite (proj2 (proj2 (method_call_text true kennel "d" "speak" (Some [lit "3"]) ["3"]
               (Variable_of "d" (class_ptr "Dog"))
               (animal_type "Dog")
               eq_refl eq_refl)) eq_refl eq_refl ltac:(vm_compute; reflexivity)).
    vm_compute. reflexivity.
  - rewrite (proj2 (proj2 (method_call_text true kennel "p" "sleep" None []
               (Variable_of "p" (class_ptr "Puppy"))
               (animal_type "Puppy")
               eq_refl eq_refl)) eq_refl eq_refl ltac:(vm_compute; reflexivity)).
    vm_compute. reflexivity.
Defined.

(** Source programs that stop the visitor.  In either pass an empty initialiser
    dereferences a null pointer and the visitor has no result for a [VarExpr]; in the second
    pass so does a constructor that calls its parent's without arguments, and a [new]
    of a class without constructor throws. *)
Theorem untranslatable_sources `{CG : CodeGenerator} s x c parent args :
  visit_expr (StructInitExpr None) s = Crash NullDeref ∧
  visit_expr (VarExpr x) s = Throw BadAnyCast ∧
  (m_first_pass s = false →
     generateParentConstructorCall (Some (parent, None)) s = Crash NullDeref ∧
     (getClassConstructor c (m_typeSystem s) = None →
        visit_expr (NewWithConstructorExpr c args) s
        = Throw (CompilerError NameError ("No constructor for class: " +:+ c)))).
Proof.
  split; [done|]. split; [done|]. intros Hs. split.
  - unfold generateParentConstructorCall. run_heads. by rewrite Hs.
  - intros Hc. cbn [visit_expr]. unfold visitNewWithConstructorExpr. run_heads. rewrite Hs.
    run_heads. by rewrite Hc.
Qed.

Lemma untranslatable_sources_witness :
  generateParentConstructorCall (CG:=CRef) (Some ("Animal", None)) (start false)
  = Crash NullDeref.
Proof.
  apply (untranslatable_sources (CG:=CRef) (start false) "x" "Box" "Animal" None). reflexivity.
Defined.
