(* ===== verification/ExampleSources.v ===== *)
(** The source files of tests/examples. *)
From S2P Require Import Prelude.

Definition tab : string := String "009"%char EmptyString.

Fixpoint text_lines (l : list string) : string :=
  match l with [] => EmptyString | x :: l => x +:+ nl +:+ text_lines l end.

Definition test_classes_jb : string := text_lines
 ["#include <stdio.h>";
  EmptyString;
  "class Point {";
  "    int x;";
  "    int y;";
  EmptyString;
  "    Point(int nx, int ny)";
  "    {";
  "        this->x = nx;";
  "        this->y = ny;";
  "    }";
  EmptyString;
  "    void print()";
  "    {";
  "        printf(" +:+ dq +:+ "Point(%d, %d)\n" +:+ dq +:+ ", this->x, this->y);";
  "    }";
  EmptyString;
  "    int distance_squared()";
  "    {";
  "        return this->x*this->x+this->y*this->y;";
  "    }";
  EmptyString;
  "    void move(int dx, int dy)";
  "    {";
  "        this->x = this->x+dx;";
  "        this->y = this->y+dy;";
  "    }";
  "};";
  EmptyString;
  "int main()";
  "{";
  "    Point* p = new Point(3, 4);";
  "    p->print();";
  EmptyString;
  "    int dist = p->distance_squared();";
  "    printf(" +:+ dq +:+ "Distance squared: %d\n" +:+ dq +:+ ", dist);";
  EmptyString;
  "    p->move(1, 1);";
  "    p->print();";
  EmptyString;
  "    return 0;";
  "}"].

Definition test_inheritance_jb : string := text_lines
 ["#include <stdio.h>";
  EmptyString;
  "class Animal {";
  "    int age;";
  EmptyString;
  "    Animal(int a)";
  "    {";
  "        this->age = a;";
  "    }";
  EmptyString;
  "    virtual void speak()";
  "    {";
  "        printf(" +:+ dq +:+ "Animal sound\n" +:+ dq +:+ ");";
  "    }";
  EmptyString;
  "    void sleep()";
  "    {";
  "        printf(" +:+ dq +:+ "Sleeping for %d hours\n" +:+ dq +:+ ", this->age/2);";
  "    }";
  EmptyString;
  "    int getAge()";
  "    {";
  "        return this->age;";
  "    }";
  "};";
  EmptyString;
  "class Dog : Animal {";
  "    int breed_id;";
  EmptyString;
  "    Dog(int a, int b)";
  "            :Animal(a)";
  "    {";
  "        this->breed_id = b;";
  "    }";
  EmptyString;
  "    void speak()";
  "    {";
  "        printf(" +:+ dq +:+ "Woof! I'm %d years old\n" +:+ dq +:+ ", this->age);";
  "    }";
  EmptyString;
  "    void wagTail()";
  "    {";
  "        printf(" +:+ dq +:+ "Wagging tail happily\n" +:+ dq +:+ ");";
  "    }";
  EmptyString;
  "    int getBreed()";
  "    {";
  "        return this->breed_id;";
  "    }";
  "};";
  EmptyString;
  "class Cat : Animal {";
  "    int lives;";
  EmptyString;
  "    Cat(int a)";
  "            :Animal(a)";
  "    {";
  "        this->lives = 9;";
  "    }";
  EmptyString;
  "    void speak()";
  "    {";
  "        printf(" +:+ dq +:+ "Meow! I have %d lives left\n" +:+ dq +:+ ", this->lives);";
  "    }";
  EmptyString;
  "    void purr()";
  "    {";
  "        printf(" +:+ dq +:+ "Purring contentedly\n" +:+ dq +:+ ");";
  "    }";
  "};";
  EmptyString;
  "int main()";
  "{";
  "    printf(" +:+ dq +:+ "=== Animal Inheritance Test ===\n" +:+ dq +:+ ");";
  EmptyString;
  "    Dog* dog = new Dog(3, 42);";
  "    Cat* cat = new Cat(2);";
  EmptyString;
  "    printf(" +:+ dq +:+ "\n--- Dog Tests ---\n" +:+ dq +:+ ");";
  "    dog->speak();";
  "    dog->sleep();";
  "    dog->wagTail();";
  "    printf(" +:+ dq +:+ "Dog age: %d\n" +:+ dq +:+ ", dog->getAge());";
  "    printf(" +:+ dq +:+ "Dog breed: %d\n" +:+ dq +:+ ", dog->getBreed());";
  EmptyString;
  "    printf(" +:+ dq +:+ "\n--- Cat Tests ---\n" +:+ dq +:+ ");";
  "    cat->speak();";
  "    cat->sleep();";
  "    cat->purr();";
  "    printf(" +:+ dq +:+ "Cat age: %d\n" +:+ dq +:+ ", cat->getAge());";
  EmptyString;
  "    printf(" +:+ dq +:+ "\n--- Parent Method Calls ---\n" +:+ dq +:+ ");";
  "    Animal* animal = new Animal(5);";
  "    animal->speak();";
  "    animal->sleep();";
  "    printf(" +:+ dq +:+ "Animal age: %d\n" +:+ dq +:+ ", animal->getAge());";
  EmptyString;
  "    printf(" +:+ dq +:+ "\n--- Non virtual method call on upcast ---\n" +:+ dq +:+ ");";
  "    animal = dog;";
  "    animal->speak();";
  EmptyString;
  "    return 0;";
  "}"].

Definition test_linked_list_jb : string := text_lines
 ["#include <stdlib.h>";
  "#include <string.h>";
  "#include <stdio.h>";
  EmptyString;
  "#define NIL 0";
  EmptyString;
  "typedef struct link {";
  "  struct link* next;";
  "  int value;";
  "} link;";
  EmptyString;
  "bool is_nil(link* x) { return x==NULL; }";
  EmptyString;
  "link* cons(int car, link* cdr)";
  "{";
  "    link* new_link = new link;";
  "    new_link->next = cdr;";
  "    new_link->value = car;";
  "    return new_link;";
  "}";
  EmptyString;
  "void print_list(link* x)";
  "{";
  "    printf(" +:+ dq +:+ "[" +:+ dq +:+ ");";
  "    while (is_nil(x)!=true) {";
  "        printf(" +:+ dq +:+ "%d" +:+ dq +:+ ", x->value);";
  "        x = x->next;";
  "        if (is_nil(x)!=true) printf(" +:+ dq +:+ ", " +:+ dq +:+ ");";
  "    }";
  "    printf(" +:+ dq +:+ "]\n" +:+ dq +:+ ");";
  "}";
  EmptyString;
  "int length(link* x, int acc)";
  "{";
  "    if (is_nil(x)) return acc;";
  "    else return length(x->next, acc+1);";
  "}";
  EmptyString;
  "link* reverse(link* x, link* acc)";
  "{";
  "    if (is_nil(x)) return acc;";
  "    else return reverse(x->next, cons(x->value, acc));";
  "}";
  EmptyString;
  "int main()";
  "{";
  "    link* my_list1 = cons(1, NIL);";
  "    link* my_list2 = cons(2, my_list1);";
  EmptyString;
  "    print_list(my_list2);"]
 +:+ "}".

Definition test_mark_sweep_jb : string := text_lines
 ["#include <stdio.h>";
  EmptyString;
  "#define NIL 0";
  EmptyString;
  "typedef struct Node {";
  "  int value;";
  "  struct Node* next;";
  "  struct Node* child;";
  "} Node;";
  EmptyString;
  "typedef struct Graph {";
  "  Node* nodes[5];";
  "  int count;";
  "} Graph;";
  EmptyString;
  "Node* create_node(int val)";
  "{";
  "    Node* n = new Node;";
  "    n->value = val;";
  "    n->next = NIL;";
  "    n->child = NIL;";
  "    return n;";
  "}";
  EmptyString;
  "void test_basic_collection()";
  "{";
  "    printf(" +:+ dq +:+ "=== Basic Collection Test ===\n" +:+ dq +:+ ");";
  EmptyString;
  "    Node* temp1 = create_node(100);";
  "    Node* temp2 = create_node(200);";
  "    Node* temp3 = create_node(300);";
  EmptyString;
  "    temp1->next = temp2;";
  "    temp2->next = temp3;";
  EmptyString;
  "    printf(" +:+ dq +:+ "Created temporary chain: %d -> %d -> %d\n" +:+ dq +:+ ",";
  "            temp1->value, temp2->value, temp3->value);";
  EmptyString;
  "    Node* keeper = create_node(999);";
  "    printf(" +:+ dq +:+ "Created keeper node: %d\n" +:+ dq +:+ ", keeper->value);";
  EmptyString;
  "    runtime_gc();";
  "    printf(" +:+ dq +:+ "Chain still exists chain: %d -> %d -> %d\n" +:+ dq +:+ ",";
  "            temp1->value, temp2->value, temp3->value);";
  EmptyString;
  "    temp1 = NIL;";
  "    temp2 = NIL;";
  "    temp3 = NIL;";
  EmptyString;
  "    printf(" +:+ dq +:+ "Temporary chain made unreachable\n" +:+ dq +:+ ");";
  "    printf(" +:+ dq +:+ "Keeper still accessible: %d\n" +:+ dq +:+ ", keeper->value);";
  EmptyString;
  "    runtime_gc();";
  "    printf(" +:+ dq +:+ "Garbage collection completed\n" +:+ dq +:+ ");";
  "}";
  EmptyString;
  "void test_reachable_cycles()";
  "{";
  "    printf(" +:+ dq +:+ "\n=== Reachable Cycle Test ===\n" +:+ dq +:+ ");";
  EmptyString;
  "    Node* a = create_node(1);";
  "    Node* b = create_node(2);";
  "    Node* c = create_node(3);";
  EmptyString;
  "    // Create a cycle";
  "    a->next = b;";
  "    b->next = c;";
  "    c->next = a;";
  EmptyString;
  "    printf(" +:+ dq +:+ "Created cycle: %d -> %d -> %d -> (back to %d)\n" +:+ dq +:+ ",";
  "            a->value, b->value, c->value, a->value);";
  EmptyString;
  "    b = NIL;";
  "    c = NIL;";
  EmptyString;
  "    // As long as 'a' is reachable from stack, entire cycle stays alive";
  "    printf(" +:+ dq +:+ "Cycle root value: %d\n" +:+ dq +:+ ", a->value);";
  EmptyString;
  "    runtime_gc();";
  "    printf(" +:+ dq +:+ "GC run - cycle should remain (still reachable)\n" +:+ dq +:+ ");";
  "    printf(" +:+ dq +:+ "Cycle still accessible via a: %d\n" +:+ dq +:+ ", a->value);";
  EmptyString;
  "    a = NIL;";
  EmptyString;
  "    printf(" +:+ dq +:+ "Broke reference to cycle\n" +:+ dq +:+ ");";
  "    runtime_gc();";
  "    printf(" +:+ dq +:+ "GC run - cycle should be collected now\n" +:+ dq +:+ ");";
  "}";
  EmptyString;
  "void test_partial_structures()";
  "{";
  "    printf(" +:+ dq +:+ "\n=== Partial Structure Collection Test ===\n" +:+ dq +:+ ");";
  EmptyString;
  "    Node* root = create_node(1);";
  "    Node* branch1 = create_node(2);";
  "    Node* branch2 = create_node(3);";
  "    Node* leaf1 = create_node(4);";
  "    Node* leaf2 = create_node(5);";
  EmptyString;
  "    root->next = branch1;";
  "    root->child = branch2;";
  "    branch1->child = leaf1;";
  "    branch2->child = leaf2;";
  EmptyString;
  "    printf(" +:+ dq +:+ "Built tree: root(%d) -> branch1(%d) -> leaf1(%d)\n" +:+ dq +:+ ",";
  "            root->value, branch1->value, leaf1->value);";
  "    printf(" +:+ dq +:+ "           root(%d) -> branch2(%d) -> leaf2(%d)\n" +:+ dq +:+ ",";
  "            root->value, branch2->value, leaf2->value);";
  EmptyString;
  "    branch1 = NIL;";
  "    branch2 = NIL;";
  "    leaf1 = NIL;";
  "    leaf2 = NIL;";
  EmptyString;
  "    // Cut off branch2 subtree";
  "    root->child = NIL;";
  EmptyString;
  "    printf(" +:+ dq +:+ "Cut off branch2 subtree\n" +:+ dq +:+ ");";
  "    runtime_gc();";
  "    printf(" +:+ dq +:+ "GC should collect branch2(%d) and leaf2(%d)\n" +:+ dq +:+ ", 2, 5);";
  "    printf(" +:+ dq +:+ "Root and branch1 subtree still reachable: %d -> %d -> %d\n" +:+ dq +:+ ",";
  "            root->value, root->next->value, root->next->child->value);";
  "}";
  EmptyString;
  "void test_gc_threshold()";
  "{";
  "    printf(" +:+ dq +:+ "\n=== GC Threshold Test ===\n" +:+ dq +:+ ");";
  EmptyString;
  "    // Set a low threshold to trigger frequent collections";
  "    runtime_set_gc_threshold(1024);";
  EmptyString;
  "    printf(" +:+ dq +:+ "Set GC threshold to 1KB\n" +:+ dq +:+ ");";
  EmptyString;
  "    Node* keeper = create_node(42);";
  "    printf(" +:+ dq +:+ "Created keeper: %d\n" +:+ dq +:+ ", keeper->value);";
  EmptyString;
  "    for (int i = 0; i<50; i++) {";
  "        Node* temp = create_node(i);";
  "    }";
  EmptyString;
  "    printf(" +:+ dq +:+ "Allocated and abandoned 50 temporary nodes\n" +:+ dq +:+ ");";
  "    printf(" +:+ dq +:+ "Keeper should still be alive: %d\n" +:+ dq +:+ ", keeper->value);";
  EmptyString;
  "    runtime_gc();";
  "    printf(" +:+ dq +:+ "Final GC completed\n" +:+ dq +:+ ");";
  "}";
  EmptyString;
  "Node* global_node = NIL;";
  EmptyString;
  "void test_globals()";
  "{";
  "    global_node = create_node(99);";
  "    runtime_gc();";
  "    printf(" +:+ dq +:+ "Global node has not been collected: %d\n" +:+ dq +:+ ", global_node->value);";
  "    global_node = NIL;";
  "    // global node should be freed now";
  "    runtime_gc();";
  "}";
  EmptyString;
  "int main()";
  "{";
  "    printf(" +:+ dq +:+ "Mark-Sweep Garbage Collector Test Program\n" +:+ dq +:+ ");";
  "    printf(" +:+ dq +:+ "=========================================\n" +:+ dq +:+ ");";
  EmptyString;
  "    test_basic_collection();";
  "    test_reachable_cycles();";
  "    test_partial_structures();";
  "    test_gc_threshold();";
  "    test_globals();";
  EmptyString;
  "    printf(" +:+ dq +:+ "\n=== All Tests Complete ===\n" +:+ dq +:+ ");";
  "    return 0;"]
 +:+ "}".

Definition test_ref_count_jb : string := text_lines
 ["#include <stdio.h>";
  EmptyString;
  "#define NIL 0";
  EmptyString;
  "typedef struct Node {";
  "  int value;";
  "  struct Node* child;";
  "} Node;";
  EmptyString;
  "typedef struct Container {";
  "  Node* primary;";
  "  Node* backup;";
  "} Container;";
  EmptyString;
  "Node* create_node(int val)";
  "{";
  "    Node* n = new Node;";
  "    n->value = val;";
  "    n->child = NIL;";
  "    return n;";
  "}";
  EmptyString;
  "void test_basic_sharing()";
  "{";
  "    printf(" +:+ dq +:+ "=== Basic Pointer Sharing Test ===\n" +:+ dq +:+ ");";
  EmptyString;
  "    Node* shared = create_node(42);";
  EmptyString;
  "    Node* ref1 = shared;  // Should increment ref count";
  "    Node* ref2 = shared;  // Should increment ref count again";
  EmptyString;
  "    printf(" +:+ dq +:+ "Shared node value: %d\n" +:+ dq +:+ ", shared->value);";
  "    printf(" +:+ dq +:+ "Ref1 value: %d\n" +:+ dq +:+ ", ref1->value);";
  "    printf(" +:+ dq +:+ "Ref2 value: %d\n" +:+ dq +:+ ", ref2->value);";
  EmptyString;
  "    ref1 = create_node(100);  // Should decrement shared's ref count";
  "    printf(" +:+ dq +:+ "After reassignment, ref1 value: %d\n" +:+ dq +:+ ", ref1->value);";
  EmptyString;
  "    printf(" +:+ dq +:+ "Shared still: %d\n" +:+ dq +:+ ", shared->value);";
  "}";
  EmptyString;
  "void test_nested_structures()";
  "{";
  "    printf(" +:+ dq +:+ "\n=== Nested Structure Test ===\n" +:+ dq +:+ ");";
  EmptyString;
  "    Node* parent = create_node(1);";
  "    Node* child = create_node(2);";
  EmptyString;
  "    parent->child = child;  // Should increment child's ref count";
  EmptyString;
  "    printf(" +:+ dq +:+ "Parent: %d, Child: %d\n" +:+ dq +:+ ", parent->value, parent->child->value);";
  EmptyString;
  "    Node* parent2 = create_node(3);";
  "    parent2->child = child;  // Should increment child's ref count again";
  EmptyString;
  "    printf(" +:+ dq +:+ "Parent2: %d, Shared child: %d\n" +:+ dq +:+ ", parent2->value, parent2->child->value);";
  EmptyString;
  "    parent->child = NIL;  // Should decrement child's ref count";
  EmptyString;
  "    printf(" +:+ dq +:+ "After nullifying parent->child, parent2 child still: %d\n" +:+ dq +:+ ",";
  "            parent2->child->value);";
  "}";
  EmptyString;
  "void test_container_patterns()";
  "{";
  "    printf(" +:+ dq +:+ "\n=== Container Pattern Test ===\n" +:+ dq +:+ ");";
  EmptyString;
  "    Container* box = new Container;";
  "    Node* important_data = create_node(999);";
  EmptyString;
  "    box->primary = important_data;  // Inc ref";
  "    box->backup = important_data;   // Inc ref again";
  EmptyString;
  "    printf(" +:+ dq +:+ "Primary: %d, Backup: %d\n" +:+ dq +:+ ",";
  "            box->primary->value, box->backup->value);";
  EmptyString;
  "    box->primary = NIL;  // Dec ref, but backup still holds it";
  EmptyString;
  "    printf(" +:+ dq +:+ "After removing primary, backup still: %d\n" +:+ dq +:+ ", box->backup->value);";
  EmptyString;
  "    box->primary = create_node(777);";
  "    printf(" +:+ dq +:+ "New primary: %d, Backup: %d\n" +:+ dq +:+ ",";
  "            box->primary->value, box->backup->value);";
  "}";
  EmptyString;
  "int main()";
  "{";
  "    printf(" +:+ dq +:+ "Reference Counting Test Program\n" +:+ dq +:+ ");";
  "    printf(" +:+ dq +:+ "===============================\n" +:+ dq +:+ ");";
  EmptyString;
  "    test_basic_sharing();";
  "    test_nested_structures();";
  "    test_container_patterns();";
  "    printf(" +:+ dq +:+ "\n=== Test Complete ===\n" +:+ dq +:+ ");";
  "    return 0;";
  "}"].

Definition test_ref_count_basic_jb : string := text_lines
 ["#include <stdio.h>";
  EmptyString;
  "typedef struct Node {";
  "    int data;";
  "} Node;";
  EmptyString;
  "int main() {";
  "    Node *n = new Node;";
  "    n->data = 5;";
  "    Node *x = n;";
  "    x = n;";
  "    printf(" +:+ dq +:+ "data: %d\n" +:+ dq +:+ ", n->data);"]
 +:+ "}".

Definition test_struct_controlFlow_ptr_jb : string := text_lines
 ["#include <stdio.h>";
  EmptyString;
  "typedef struct Point {";
  "    int x;";
  "    int y;";
  "} Point;";
  EmptyString;
  "int main() {";
  "    Point p;";
  "    Point* pp = &p;";
  EmptyString;
  "    p.x = 10;";
  "    pp->y = 20;";
  EmptyString;
  "    int* ip = &p.x;";
  "    *ip = 30;";
  EmptyString;
  "    if (p.x > 20) {";
  "        // do something";
  "    } else {";
  "        // do something else";
  "    }";
  EmptyString;
  "    while (p.x > 0) {";
  "        printf(" +:+ dq +:+ "P.x = %d\n" +:+ dq +:+ ", p.x)";
  "        p.x = p.x - 7;";
  "    }"]
 +:+ "}".

Definition test_variables_functions_jb : string := text_lines
 ["#include <stdio.h>";
  EmptyString;
  "void add_in_place(int a, int b, int *c) {";
  "    *c = a + b;";
  "}";
  EmptyString;
  "int add(int a, int b) {";
  "    int *c = new int;";
  "    add_in_place(a, b, c);";
  "    return *c;";
  "}";
  EmptyString;
  "int main() {";
  EmptyString;
  "    int x = 5;";
  "    int y = 10;";
  "    int z = add(x, y);";
  "    printf(" +:+ dq +:+ "Result: %d\n" +:+ dq +:+ ", z);";
  "}"].
