(* ===== verification/Examples.v ===== *)
(** The test programs of tests/examples and the C files of tests/expected/c_output.

    Each [_tree] is the parse tree of a test program under the grammar's precedences
    ([->] binds weaker than the binary operators and [=]), each [_c] the text of the
    expected file.  The tests named [ref_count] are compiled with reference counting. *)
From S2P Require Import Prelude Errors CppString Types TypeSystem SymbolTable.
From S2P Require Import CodeGenerator Syntax Lexer Yield Visitor Transpile ExampleSources.

Definition q (s : string) : string := dq +:+ s +:+ dq.
Definition test_classes_tree : program := mkProgram
 [PD_include (text_lines ["<stdio.h>"])]
 [(S_class "Point" None
 [(ClassField (D_plain TS_int "x"));
 (ClassField (D_plain TS_int "y"));
 (ClassConstructor "Point" (Some [(D_plain TS_int "nx"); (D_plain TS_int "ny")]) None [(S_expr (AssignExpr (PointerMemberExpr (PrimaryExpr (P_identifier "this")) "x") (PrimaryExpr (P_identifier "nx"))));
 (S_expr (AssignExpr (PointerMemberExpr (PrimaryExpr (P_identifier "this")) "y") (PrimaryExpr (P_identifier "ny"))))]);
 (ClassMethod false TS_void "print" None [(S_expr (FuncCallExpr (mkFunctionCall "printf" (Some [(PrimaryExpr (P_literal (L_string (q "Point(%d, %d)\n")))); (PointerMemberExpr (PrimaryExpr (P_identifier "this")) "x"); (PointerMemberExpr (PrimaryExpr (P_identifier "this")) "y")]))))]);
 (ClassMethod false TS_int "distance_squared" None [(S_return (Some (PointerMemberExpr (MulDivExpr (PointerMemberExpr (AddSubExpr (PointerMemberExpr (MulDivExpr (PointerMemberExpr (PrimaryExpr (P_identifier "this")) "x") "*" (PrimaryExpr (P_identifier "this"))) "x") "+" (PrimaryExpr (P_identifier "this"))) "y") "*" (PrimaryExpr (P_identifier "this"))) "y")))]);
 (ClassMethod false TS_void "move" (Some [(D_plain TS_int "dx"); (D_plain TS_int "dy")]) [(S_expr (AddSubExpr (PointerMemberExpr (AssignExpr (PointerMemberExpr (PrimaryExpr (P_identifier "this")) "x") (PrimaryExpr (P_identifier "this"))) "x") "+" (PrimaryExpr (P_identifier "dx"))));
 (S_expr (AddSubExpr (PointerMemberExpr (AssignExpr (PointerMemberExpr (PrimaryExpr (P_identifier "this")) "y") (PrimaryExpr (P_identifier "this"))) "y") "+" (PrimaryExpr (P_identifier "dy"))))])] true);
 (S_functionDecl TS_int "main" None
 [(S_varDecl (mkVarDecl (D_plain (TS_pointer (TS_named None "Point")) "p") (Some (NewWithConstructorExpr "Point" (Some [(PrimaryExpr (P_literal (L_integer "3"))); (PrimaryExpr (P_literal (L_integer "4")))])))));
 (S_expr (MethodCallExpr (PrimaryExpr (P_identifier "p")) "print" None));
 (S_varDecl (mkVarDecl (D_plain TS_int "dist") (Some (MethodCallExpr (PrimaryExpr (P_identifier "p")) "distance_squared" None))));
 (S_expr (FuncCallExpr (mkFunctionCall "printf" (Some [(PrimaryExpr (P_literal (L_string (q "Distance squared: %d\n")))); (PrimaryExpr (P_identifier "dist"))]))));
 (S_expr (MethodCallExpr (PrimaryExpr (P_identifier "p")) "move" (Some [(PrimaryExpr (P_literal (L_integer "1"))); (PrimaryExpr (P_literal (L_integer "1")))])));
 (S_expr (MethodCallExpr (PrimaryExpr (P_identifier "p")) "print" None));
 (S_return (Some (PrimaryExpr (P_literal (L_integer "0")))))])].
Definition test_classes_c : string := text_lines
 ["#include " +:+ dq +:+ "runtime.h" +:+ dq +:+ EmptyString;
  "#include<stdio.h>";
  EmptyString;
  EmptyString;
  EmptyString;
  "struct vtable {";
  "};";
  EmptyString;
  EmptyString;
  "struct Point {";
  "    int x;";
  "    int y;";
  "};";
  EmptyString;
  "void Point_Point(struct Point* this, int nx, int ny) {";
  "{";
  "        this->x = nx;";
  "        this->y = ny;";
  "        }";
  "}";
  EmptyString;
  "void Point_print(struct Point* this){";
  "                printf(" +:+ dq +:+ "Point(%d, %d)\n" +:+ dq +:+ ", this->x, this->y);";
  "        }";
  "int Point_distance_squared(struct Point* this){";
  "        return this->x * this->x + this->y * this->y;";
  "        }";
  "void Point_move(struct Point* this, int dx, int dy){";
  "                this->x = this->x + dx;";
  "                this->y = this->y + dy;";
  "        }";
  EmptyString;
  "int main_(){";
  "        struct Point* temp_0 = runtime_alloc(sizeof(struct Point));";
  "        Point_Point(temp_0, 3, 4);";
  "        struct Point* p = temp_0;";
  "        Point_print(p);";
  "        int dist = Point_distance_squared(p);";
  "                printf(" +:+ dq +:+ "Distance squared: %d\n" +:+ dq +:+ ", dist);";
  "        Point_move(p, 1, 1);";
  "        Point_print(p);";
  "                return 0;";
  "                }";
  EmptyString;
  "int main() {";
  "    runtime_init();";
  "    main_();";
  "    runtime_shutdown();";
  "}"].

Definition test_inheritance_tree : program := mkProgram
 [PD_include (text_lines ["<stdio.h>"])]
 [(S_class "Animal" None
 [(ClassField (D_plain TS_int "age"));
 (ClassConstructor "Animal" (Some [(D_plain TS_int "a")]) None [(S_expr (AssignExpr (PointerMemberExpr (PrimaryExpr (P_identifier "this")) "age") (PrimaryExpr (P_identifier "a"))))]);
 (ClassMethod true TS_void "speak" None [(S_expr (FuncCallExpr (mkFunctionCall "printf" (Some [(PrimaryExpr (P_literal (L_string (q "Animal sound\n"))))]))))]);
 (ClassMethod false TS_void "sleep" None [(S_expr (FuncCallExpr (mkFunctionCall "printf" (Some [(PrimaryExpr (P_literal (L_string (q "Sleeping for %d hours\n")))); (MulDivExpr (PointerMemberExpr (PrimaryExpr (P_identifier "this")) "age") "/" (PrimaryExpr (P_literal (L_integer "2"))))]))))]);
 (ClassMethod false TS_int "getAge" None [(S_return (Some (PointerMemberExpr (PrimaryExpr (P_identifier "this")) "age")))])] true);
 (S_class "Dog" (Some "Animal")
 [(ClassField (D_plain TS_int "breed_id"));
 (ClassConstructor "Dog" (Some [(D_plain TS_int "a"); (D_plain TS_int "b")]) (Some ("Animal", (Some [(PrimaryExpr (P_identifier "a"))]))) [(S_expr (AssignExpr (PointerMemberExpr (PrimaryExpr (P_identifier "this")) "breed_id") (PrimaryExpr (P_identifier "b"))))]);
 (ClassMethod false TS_void "speak" None [(S_expr (FuncCallExpr (mkFunctionCall "printf" (Some [(PrimaryExpr (P_literal (L_string (q "Woof! I'm %d years old\n")))); (PointerMemberExpr (PrimaryExpr (P_identifier "this")) "age")]))))]);
 (ClassMethod false TS_void "wagTail" None [(S_expr (FuncCallExpr (mkFunctionCall "printf" (Some [(PrimaryExpr (P_literal (L_string (q "Wagging tail happily\n"))))]))))]);
 (ClassMethod false TS_int "getBreed" None [(S_return (Some (PointerMemberExpr (PrimaryExpr (P_identifier "this")) "breed_id")))])] true);
 (S_class "Cat" (Some "Animal")
 [(ClassField (D_plain TS_int "lives"));
 (ClassConstructor "Cat" (Some [(D_plain TS_int "a")]) (Some ("Animal", (Some [(PrimaryExpr (P_identifier "a"))]))) [(S_expr (AssignExpr (PointerMemberExpr (PrimaryExpr (P_identifier "this")) "lives") (PrimaryExpr (P_literal (L_integer "9")))))]);
 (ClassMethod false TS_void "speak" None [(S_expr (FuncCallExpr (mkFunctionCall "printf" (Some [(PrimaryExpr (P_literal (L_string (q "Meow! I have %d lives left\n")))); (PointerMemberExpr (PrimaryExpr (P_identifier "this")) "lives")]))))]);
 (ClassMethod false TS_void "purr" None [(S_expr (FuncCallExpr (mkFunctionCall "printf" (Some [(PrimaryExpr (P_literal (L_string (q "Purring contentedly\n"))))]))))])] true);
 (S_functionDecl TS_int "main" None
 [(S_expr (FuncCallExpr (mkFunctionCall "printf" (Some [(PrimaryExpr (P_literal (L_string (q "=== Animal Inheritance Test ===\n"))))]))));
 (S_varDecl (mkVarDecl (D_plain (TS_pointer (TS_named None "Dog")) "dog") (Some (NewWithConstructorExpr "Dog" (Some [(PrimaryExpr (P_literal (L_integer "3"))); (PrimaryExpr (P_literal (L_integer "42")))])))));
 (S_varDecl (mkVarDecl (D_plain (TS_pointer (TS_named None "Cat")) "cat") (Some (NewWithConstructorExpr "Cat" (Some [(PrimaryExpr (P_literal (L_integer "2")))])))));
 (S_expr (FuncCallExpr (mkFunctionCall "printf" (Some [(PrimaryExpr (P_literal (L_string (q "\n--- Dog Tests ---\n"))))]))));
 (S_expr (MethodCallExpr (PrimaryExpr (P_identifier "dog")) "speak" None));
 (S_expr (MethodCallExpr (PrimaryExpr (P_identifier "dog")) "sleep" None));
 (S_expr (MethodCallExpr (PrimaryExpr (P_identifier "dog")) "wagTail" None));
 (S_expr (FuncCallExpr (mkFunctionCall "printf" (Some [(PrimaryExpr (P_literal (L_string (q "Dog age: %d\n")))); (MethodCallExpr (PrimaryExpr (P_identifier "dog")) "getAge" None)]))));
 (S_expr (FuncCallExpr (mkFunctionCall "printf" (Some [(PrimaryExpr (P_literal (L_string (q "Dog breed: %d\n")))); (MethodCallExpr (PrimaryExpr (P_identifier "dog")) "getBreed" None)]))));
 (S_expr (FuncCallExpr (mkFunctionCall "printf" (Some [(PrimaryExpr (P_literal (L_string (q "\n--- Cat Tests ---\n"))))]))));
 (S_expr (MethodCallExpr (PrimaryExpr (P_identifier "cat")) "speak" None));
 (S_expr (MethodCallExpr (PrimaryExpr (P_identifier "cat")) "sleep" None));
 (S_expr (MethodCallExpr (PrimaryExpr (P_identifier "cat")) "purr" None));
 (S_expr (FuncCallExpr (mkFunctionCall "printf" (Some [(PrimaryExpr (P_literal (L_string (q "Cat age: %d\n")))); (MethodCallExpr (PrimaryExpr (P_identifier "cat")) "getAge" None)]))));
 (S_expr (FuncCallExpr (mkFunctionCall "printf" (Some [(PrimaryExpr (P_literal (L_string (q "\n--- Parent Method Calls ---\n"))))]))));
 (S_varDecl (mkVarDecl (D_plain (TS_pointer (TS_named None "Animal")) "animal") (Some (NewWithConstructorExpr "Animal" (Some [(PrimaryExpr (P_literal (L_integer "5")))])))));
 (S_expr (MethodCallExpr (PrimaryExpr (P_identifier "animal")) "speak" None));
 (S_expr (MethodCallExpr (PrimaryExpr (P_identifier "animal")) "sleep" None));
 (S_expr (FuncCallExpr (mkFunctionCall "printf" (Some [(PrimaryExpr (P_literal (L_string (q "Animal age: %d\n")))); (MethodCallExpr (PrimaryExpr (P_identifier "animal")) "getAge" None)]))));
 (S_expr (FuncCallExpr (mkFunctionCall "printf" (Some [(PrimaryExpr (P_literal (L_string (q "\n--- Non virtual method call on upcast ---\n"))))]))));
 (S_expr (AssignExpr (PrimaryExpr (P_identifier "animal")) (PrimaryExpr (P_identifier "dog"))));
 (S_expr (MethodCallExpr (PrimaryExpr (P_identifier "animal")) "speak" None));
 (S_return (Some (PrimaryExpr (P_literal (L_integer "0")))))])].
Definition test_inheritance_c : string := text_lines
 ["#include " +:+ dq +:+ "runtime.h" +:+ dq +:+ EmptyString;
  "#include<stdio.h>";
  EmptyString;
  EmptyString;
  EmptyString;
  EmptyString;
  EmptyString;
  "struct vtable {";
  "    void (*speak)(void* this);";
  "};";
  EmptyString;
  "void Animal_speak(void* this_param);";
  "void Dog_speak(void* this_param);";
  "void Cat_speak(void* this_param);";
  EmptyString;
  "static struct vtable Animal_vtable = {";
  "    .speak = Animal_speak,";
  "};";
  EmptyString;
  "static struct vtable Dog_vtable = {";
  "    .speak = Dog_speak,";
  "};";
  EmptyString;
  "static struct vtable Cat_vtable = {";
  "    .speak = Cat_speak,";
  "};";
  EmptyString;
  "struct Animal {";
  "    struct vtable* vtable;";
  "    int age;";
  "};";
  EmptyString;
  "void Animal_Animal(struct Animal* this, int a) {";
  "    this->vtable = &Animal_vtable;";
  "{";
  "        this->age = a;";
  "        }";
  "}";
  EmptyString;
  "void Animal_speak(void* this_param) {";
  "    struct Animal* this = (struct Animal*)this_param;";
  "{";
  "                printf(" +:+ dq +:+ "Animal sound\n" +:+ dq +:+ ");";
  "        }";
  "}";
  EmptyString;
  "void Animal_sleep(struct Animal* this){";
  "                printf(" +:+ dq +:+ "Sleeping for %d hours\n" +:+ dq +:+ ", this->age / 2);";
  "        }";
  "int Animal_getAge(struct Animal* this){";
  "        return this->age;";
  "        }";
  EmptyString;
  "struct Dog {";
  "    struct Animal parent;";
  "    int breed_id;";
  "};";
  EmptyString;
  "void Dog_Dog(struct Dog* this, int a, int b) {";
  "    Animal_Animal(&(this->parent), a);";
  "    (this->parent).vtable = &Dog_vtable;";
  "{";
  "        this->breed_id = b;";
  "        }";
  "}";
  EmptyString;
  "void Dog_speak(void* this_param) {";
  "    struct Dog* this = (struct Dog*)this_param;";
  "{";
  "                printf(" +:+ dq +:+ "Woof! I'm %d years old\n" +:+ dq +:+ ", this->parent.age);";
  "        }";
  "}";
  EmptyString;
  "void Dog_wagTail(struct Dog* this){";
  "                printf(" +:+ dq +:+ "Wagging tail happily\n" +:+ dq +:+ ");";
  "        }";
  "int Dog_getBreed(struct Dog* this){";
  "        return this->breed_id;";
  "        }";
  EmptyString;
  "struct Cat {";
  "    struct Animal parent;";
  "    int lives;";
  "};";
  EmptyString;
  "void Cat_Cat(struct Cat* this, int a) {";
  "    Animal_Animal(&(this->parent), a);";
  "    (this->parent).vtable = &Cat_vtable;";
  "{";
  "        this->lives = 9;";
  "        }";
  "}";
  EmptyString;
  "void Cat_speak(void* this_param) {";
  "    struct Cat* this = (struct Cat*)this_param;";
  "{";
  "                printf(" +:+ dq +:+ "Meow! I have %d lives left\n" +:+ dq +:+ ", this->lives);";
  "        }";
  "}";
  EmptyString;
  "void Cat_purr(struct Cat* this){";
  "                printf(" +:+ dq +:+ "Purring contentedly\n" +:+ dq +:+ ");";
  "        }";
  EmptyString;
  "int main_(){";
  "                printf(" +:+ dq +:+ "=== Animal Inheritance Test ===\n" +:+ dq +:+ ");";
  "        struct Dog* temp_0 = runtime_alloc(sizeof(struct Dog));";
  "        Dog_Dog(temp_0, 3, 42);";
  "        struct Dog* dog = temp_0;";
  "        struct Cat* temp_1 = runtime_alloc(sizeof(struct Cat));";
  "        Cat_Cat(temp_1, 2);";
  "        struct Cat* cat = temp_1;";
  "                printf(" +:+ dq +:+ "\n--- Dog Tests ---\n" +:+ dq +:+ ");";
  "        dog->parent.vtable->speak(dog);";
  "        Animal_sleep(&((dog)->parent));";
  "        Dog_wagTail(dog);";
  "                printf(" +:+ dq +:+ "Dog age: %d\n" +:+ dq +:+ ", Animal_getAge(&((dog)->parent)));";
  "                printf(" +:+ dq +:+ "Dog breed: %d\n" +:+ dq +:+ ", Dog_getBreed(dog));";
  "                printf(" +:+ dq +:+ "\n--- Cat Tests ---\n" +:+ dq +:+ ");";
  "        cat->parent.vtable->speak(cat);";
  "        Animal_sleep(&((cat)->parent));";
  "        Cat_purr(cat);";
  "                printf(" +:+ dq +:+ "Cat age: %d\n" +:+ dq +:+ ", Animal_getAge(&((cat)->parent)));";
  "                printf(" +:+ dq +:+ "\n--- Parent Method Calls ---\n" +:+ dq +:+ ");";
  "        struct Animal* temp_2 = runtime_alloc(sizeof(struct Animal));";
  "        Animal_Animal(temp_2, 5);";
  "        struct Animal* animal = temp_2;";
  "        animal->vtable->speak(animal);";
  "        Animal_sleep(animal);";
  "                printf(" +:+ dq +:+ "Animal age: %d\n" +:+ dq +:+ ", Animal_getAge(animal));";
  "                printf(" +:+ dq +:+ "\n--- Non virtual method call on upcast ---\n" +:+ dq +:+ ");";
  "                animal = &((dog)->parent);";
  "        animal->vtable->speak(animal);";
  "                                return 0;";
  "                                }";
  EmptyString;
  "int main() {";
  "    runtime_init();";
  "    main_();";
  "    runtime_shutdown();";
  "}"].

Definition test_linked_list_tree : program := mkProgram
 [PD_include (text_lines ["<stdlib.h>"; "#include <string.h>"; "#include <stdio.h>"]);
 PD_define "NIL" (Some (DV_integer "0"))]
 [(S_typedef (TD_struct (mkStructDecl "link" [(D_plain (TS_pointer (TS_named (Some KW_struct) "link")) "next"); (D_plain TS_int "value")] false)) "link");
 (S_functionDecl TS_bool "is_nil" (Some [(D_plain (TS_pointer (TS_named None "link")) "x")])
 [(S_return (Some (CompareExpr (PrimaryExpr (P_identifier "x")) "==" (PrimaryExpr (P_identifier "NULL")))))]);
 (S_functionDecl (TS_pointer (TS_named None "link")) "cons" (Some [(D_plain TS_int "car"); (D_plain (TS_pointer (TS_named None "link")) "cdr")])
 [(S_varDecl (mkVarDecl (D_plain (TS_pointer (TS_named None "link")) "new_link") (Some (NewExpr (TS_named None "link")))));
 (S_expr (AssignExpr (PointerMemberExpr (PrimaryExpr (P_identifier "new_link")) "next") (PrimaryExpr (P_identifier "cdr"))));
 (S_expr (AssignExpr (PointerMemberExpr (PrimaryExpr (P_identifier "new_link")) "value") (PrimaryExpr (P_identifier "car"))));
 (S_return (Some (PrimaryExpr (P_identifier "new_link"))))]);
 (S_functionDecl TS_void "print_list" (Some [(D_plain (TS_pointer (TS_named None "link")) "x")])
 [(S_expr (FuncCallExpr (mkFunctionCall "printf" (Some [(PrimaryExpr (P_literal (L_string (q "["))))]))));
 (S_while (CompareExpr (FuncCallExpr (mkFunctionCall "is_nil" (Some [(PrimaryExpr (P_identifier "x"))]))) "!=" (PrimaryExpr (P_literal L_true))) (S_block [(S_expr (FuncCallExpr (mkFunctionCall "printf" (Some [(PrimaryExpr (P_literal (L_string (q "%d")))); (PointerMemberExpr (PrimaryExpr (P_identifier "x")) "value")]))));
 (S_expr (PointerMemberExpr (AssignExpr (PrimaryExpr (P_identifier "x")) (PrimaryExpr (P_identifier "x"))) "next"));
 (S_if (CompareExpr (FuncCallExpr (mkFunctionCall "is_nil" (Some [(PrimaryExpr (P_identifier "x"))]))) "!=" (PrimaryExpr (P_literal L_true))) (S_expr (FuncCallExpr (mkFunctionCall "printf" (Some [(PrimaryExpr (P_literal (L_string (q ", "))))])))) None)]));
 (S_expr (FuncCallExpr (mkFunctionCall "printf" (Some [(PrimaryExpr (P_literal (L_string (q "]\n"))))]))))]);
 (S_functionDecl TS_int "length" (Some [(D_plain (TS_pointer (TS_named None "link")) "x"); (D_plain TS_int "acc")])
 [(S_if (FuncCallExpr (mkFunctionCall "is_nil" (Some [(PrimaryExpr (P_identifier "x"))]))) (S_return (Some (PrimaryExpr (P_identifier "acc")))) (Some (S_return (Some (FuncCallExpr (mkFunctionCall "length" (Some [(PointerMemberExpr (PrimaryExpr (P_identifier "x")) "next"); (AddSubExpr (PrimaryExpr (P_identifier "acc")) "+" (PrimaryExpr (P_literal (L_integer "1"))))])))))))]);
 (S_functionDecl (TS_pointer (TS_named None "link")) "reverse" (Some [(D_plain (TS_pointer (TS_named None "link")) "x"); (D_plain (TS_pointer (TS_named None "link")) "acc")])
 [(S_if (FuncCallExpr (mkFunctionCall "is_nil" (Some [(PrimaryExpr (P_identifier "x"))]))) (S_return (Some (PrimaryExpr (P_identifier "acc")))) (Some (S_return (Some (FuncCallExpr (mkFunctionCall "reverse" (Some [(PointerMemberExpr (PrimaryExpr (P_identifier "x")) "next"); (FuncCallExpr (mkFunctionCall "cons" (Some [(PointerMemberExpr (PrimaryExpr (P_identifier "x")) "value"); (PrimaryExpr (P_identifier "acc"))])))])))))))]);
 (S_functionDecl TS_int "main" None
 [(S_varDecl (mkVarDecl (D_plain (TS_pointer (TS_named None "link")) "my_list1") (Some (FuncCallExpr (mkFunctionCall "cons" (Some [(PrimaryExpr (P_literal (L_integer "1"))); (PrimaryExpr (P_identifier "NIL"))]))))));
 (S_varDecl (mkVarDecl (D_plain (TS_pointer (TS_named None "link")) "my_list2") (Some (FuncCallExpr (mkFunctionCall "cons" (Some [(PrimaryExpr (P_literal (L_integer "2"))); (PrimaryExpr (P_identifier "my_list1"))]))))));
 (S_expr (FuncCallExpr (mkFunctionCall "print_list" (Some [(PrimaryExpr (P_identifier "my_list2"))]))))])].
Definition test_linked_list_c : string := text_lines
 ["#include " +:+ dq +:+ "runtime.h" +:+ dq +:+ EmptyString;
  "#include<stdlib.h>";
  "#include <string.h>";
  "#include <stdio.h>";
  EmptyString;
  "#define NIL 0";
  EmptyString;
  EmptyString;
  EmptyString;
  EmptyString;
  EmptyString;
  EmptyString;
  EmptyString;
  EmptyString;
  "struct vtable {";
  "};";
  EmptyString;
  EmptyString;
  "typedef struct link {";
  (tab +:+ "struct link* next;");
  (tab +:+ "int value;");
  "} link;";
  EmptyString;
  "bool is_nil(struct link* x){";
  "        return x == NULL;";
  "        }";
  EmptyString;
  "struct link* cons(int car, struct link* cdr){";
  "        struct link* new_link = runtime_alloc(sizeof(struct link));";
  "                new_link->next = cdr;";
  "        new_link->value = car;";
  "                        return new_link;";
  "                }";
  EmptyString;
  "void print_list(struct link* x){";
  "                printf(" +:+ dq +:+ "[" +:+ dq +:+ ");";
  "        while (        is_nil(x) != true) {";
  "{";
  "                        printf(" +:+ dq +:+ "%d" +:+ dq +:+ ", x->value);";
  "                                    x = x->next;";
  "            if (            is_nil(x) != true) {";
  "                        printf(" +:+ dq +:+ ", " +:+ dq +:+ ");";
  "}";
  "            }";
  "}";
  "                printf(" +:+ dq +:+ "]\n" +:+ dq +:+ ");";
  "        }";
  EmptyString;
  "int length(struct link* x, int acc){";
  "        if (        is_nil(x)) {";
  "        return acc;";
  "}";
  "        else {";
  "        return         length(x->next, acc + 1);";
  "}";
  "        }";
  EmptyString;
  "struct link* reverse(struct link* x, struct link* acc){";
  "        if (        is_nil(x)) {";
  "                return acc;";
  "}";
  "        else {";
  "        return         reverse(x->next,         cons(x->value, acc));";
  "}";
  "        }";
  EmptyString;
  "int main_(){";
  "        struct link* my_list1 =         cons(1, NIL);";
  "                struct link* my_list2 =         cons(2, my_list1);";
  "        ;";
  "                        print_list(my_list2);";
  "        ;";
  "                        }";
  EmptyString;
  "int main() {";
  "    runtime_init();";
  "    main_();";
  "    runtime_shutdown();";
  "}"].

Definition test_mark_sweep_tree : program := mkProgram
 [PD_include (text_lines ["<stdio.h>"]);
 PD_define "NIL" (Some (DV_integer "0"))]
 [(S_typedef (TD_struct (mkStructDecl "Node" [(D_plain TS_int "value"); (D_plain (TS_pointer (TS_named (Some KW_struct) "Node")) "next"); (D_plain (TS_pointer (TS_named (Some KW_struct) "Node")) "child")] false)) "Node");
 (S_typedef (TD_struct (mkStructDecl "Graph" [(D_array (mkArrayDecl (TS_pointer (TS_named None "Node")) "nodes" [AS_integer "5"])); (D_plain TS_int "count")] false)) "Graph");
 (S_functionDecl (TS_pointer (TS_named None "Node")) "create_node" (Some [(D_plain TS_int "val")])
 [(S_varDecl (mkVarDecl (D_plain (TS_pointer (TS_named None "Node")) "n") (Some (NewExpr (TS_named None "Node")))));
 (S_expr (AssignExpr (PointerMemberExpr (PrimaryExpr (P_identifier "n")) "value") (PrimaryExpr (P_identifier "val"))));
 (S_expr (AssignExpr (PointerMemberExpr (PrimaryExpr (P_identifier "n")) "next") (PrimaryExpr (P_identifier "NIL"))));
 (S_expr (AssignExpr (PointerMemberExpr (PrimaryExpr (P_identifier "n")) "child") (PrimaryExpr (P_identifier "NIL"))));
 (S_return (Some (PrimaryExpr (P_identifier "n"))))]);
 (S_functionDecl TS_void "test_basic_collection" None
 [(S_expr (FuncCallExpr (mkFunctionCall "printf" (Some [(PrimaryExpr (P_literal (L_string (q "=== Basic Collection Test ===\n"))))]))));
 (S_varDecl (mkVarDecl (D_plain (TS_pointer (TS_named None "Node")) "temp1") (Some (FuncCallExpr (mkFunctionCall "create_node" (Some [(PrimaryExpr (P_literal (L_integer "100")))]))))));
 (S_varDecl (mkVarDecl (D_plain (TS_pointer (TS_named None "Node")) "temp2") (Some (FuncCallExpr (mkFunctionCall "create_node" (Some [(PrimaryExpr (P_literal (L_integer "200")))]))))));
 (S_varDecl (mkVarDecl (D_plain (TS_pointer (TS_named None "Node")) "temp3") (Some (FuncCallExpr (mkFunctionCall "create_node" (Some [(PrimaryExpr (P_literal (L_integer "300")))]))))));
 (S_expr (AssignExpr (PointerMemberExpr (PrimaryExpr (P_identifier "temp1")) "next") (PrimaryExpr (P_identifier "temp2"))));
 (S_expr (AssignExpr (PointerMemberExpr (PrimaryExpr (P_identifier "temp2")) "next") (PrimaryExpr (P_identifier "temp3"))));
 (S_expr (FuncCallExpr (mkFunctionCall "printf" (Some [(PrimaryExpr (P_literal (L_string (q "Created temporary chain: %d -> %d -> %d\n")))); (PointerMemberExpr (PrimaryExpr (P_identifier "temp1")) "value"); (PointerMemberExpr (PrimaryExpr (P_identifier "temp2")) "value"); (PointerMemberExpr (PrimaryExpr (P_identifier "temp3")) "value")]))));
 (S_varDecl (mkVarDecl (D_plain (TS_pointer (TS_named None "Node")) "keeper") (Some (FuncCallExpr (mkFunctionCall "create_node" (Some [(PrimaryExpr (P_literal (L_integer "999")))]))))));
 (S_expr (FuncCallExpr (mkFunctionCall "printf" (Some [(PrimaryExpr (P_literal (L_string (q "Created keeper node: %d\n")))); (PointerMemberExpr (PrimaryExpr (P_identifier "keeper")) "value")]))));
 (S_expr (FuncCallExpr (mkFunctionCall "runtime_gc" None)));
 (S_expr (FuncCallExpr (mkFunctionCall "printf" (Some [(PrimaryExpr (P_literal (L_string (q "Chain still exists chain: %d -> %d -> %d\n")))); (PointerMemberExpr (PrimaryExpr (P_identifier "temp1")) "value"); (PointerMemberExpr (PrimaryExpr (P_identifier "temp2")) "value"); (PointerMemberExpr (PrimaryExpr (P_identifier "temp3")) "value")]))));
 (S_expr (AssignExpr (PrimaryExpr (P_identifier "temp1")) (PrimaryExpr (P_identifier "NIL"))));
 (S_expr (AssignExpr (PrimaryExpr (P_identifier "temp2")) (PrimaryExpr (P_identifier "NIL"))));
 (S_expr (AssignExpr (PrimaryExpr (P_identifier "temp3")) (PrimaryExpr (P_identifier "NIL"))));
 (S_expr (FuncCallExpr (mkFunctionCall "printf" (Some [(PrimaryExpr (P_literal (L_string (q "Temporary chain made unreachable\n"))))]))));
 (S_expr (FuncCallExpr (mkFunctionCall "printf" (Some [(PrimaryExpr (P_literal (L_string (q "Keeper still accessible: %d\n")))); (PointerMemberExpr (PrimaryExpr (P_identifier "keeper")) "value")]))));
 (S_expr (FuncCallExpr (mkFunctionCall "runtime_gc" None)));
 (S_expr (FuncCallExpr (mkFunctionCall "printf" (Some [(PrimaryExpr (P_literal (L_string (q "Garbage collection completed\n"))))]))))]);
 (S_functionDecl TS_void "test_reachable_cycles" None
 [(S_expr (FuncCallExpr (mkFunctionCall "printf" (Some [(PrimaryExpr (P_literal (L_string (q "\n=== Reachable Cycle Test ===\n"))))]))));
 (S_varDecl (mkVarDecl (D_plain (TS_pointer (TS_named None "Node")) "a") (Some (FuncCallExpr (mkFunctionCall "create_node" (Some [(PrimaryExpr (P_literal (L_integer "1")))]))))));
 (S_varDecl (mkVarDecl (D_plain (TS_pointer (TS_named None "Node")) "b") (Some (FuncCallExpr (mkFunctionCall "create_node" (Some [(PrimaryExpr (P_literal (L_integer "2")))]))))));
 (S_varDecl (mkVarDecl (D_plain (TS_pointer (TS_named None "Node")) "c") (Some (FuncCallExpr (mkFunctionCall "create_node" (Some [(PrimaryExpr (P_literal (L_integer "3")))]))))));
 (S_expr (AssignExpr (PointerMemberExpr (PrimaryExpr (P_identifier "a")) "next") (PrimaryExpr (P_identifier "b"))));
 (S_expr (AssignExpr (PointerMemberExpr (PrimaryExpr (P_identifier "b")) "next") (PrimaryExpr (P_identifier "c"))));
 (S_expr (AssignExpr (PointerMemberExpr (PrimaryExpr (P_identifier "c")) "next") (PrimaryExpr (P_identifier "a"))));
 (S_expr (FuncCallExpr (mkFunctionCall "printf" (Some [(PrimaryExpr (P_literal (L_string (q "Created cycle: %d -> %d -> %d -> (back to %d)\n")))); (PointerMemberExpr (PrimaryExpr (P_identifier "a")) "value"); (PointerMemberExpr (PrimaryExpr (P_identifier "b")) "value"); (PointerMemberExpr (PrimaryExpr (P_identifier "c")) "value"); (PointerMemberExpr (PrimaryExpr (P_identifier "a")) "value")]))));
 (S_expr (AssignExpr (PrimaryExpr (P_identifier "b")) (PrimaryExpr (P_identifier "NIL"))));
 (S_expr (AssignExpr (PrimaryExpr (P_identifier "c")) (PrimaryExpr (P_identifier "NIL"))));
 (S_expr (FuncCallExpr (mkFunctionCall "printf" (Some [(PrimaryExpr (P_literal (L_string (q "Cycle root value: %d\n")))); (PointerMemberExpr (PrimaryExpr (P_identifier "a")) "value")]))));
 (S_expr (FuncCallExpr (mkFunctionCall "runtime_gc" None)));
 (S_expr (FuncCallExpr (mkFunctionCall "printf" (Some [(PrimaryExpr (P_literal (L_string (q "GC run - cycle should remain (still reachable)\n"))))]))));
 (S_expr (FuncCallExpr (mkFunctionCall "printf" (Some [(PrimaryExpr (P_literal (L_string (q "Cycle still accessible via a: %d\n")))); (PointerMemberExpr (PrimaryExpr (P_identifier "a")) "value")]))));
 (S_expr (AssignExpr (PrimaryExpr (P_identifier "a")) (PrimaryExpr (P_identifier "NIL"))));
 (S_expr (FuncCallExpr (mkFunctionCall "printf" (Some [(PrimaryExpr (P_literal (L_string (q "Broke reference to cycle\n"))))]))));
 (S_expr (FuncCallExpr (mkFunctionCall "runtime_gc" None)));
 (S_expr (FuncCallExpr (mkFunctionCall "printf" (Some [(PrimaryExpr (P_literal (L_string (q "GC run - cycle should be collected now\n"))))]))))]);
 (S_functionDecl TS_void "test_partial_structures" None
 [(S_expr (FuncCallExpr (mkFunctionCall "printf" (Some [(PrimaryExpr (P_literal (L_string (q "\n=== Partial Structure Collection Test ===\n"))))]))));
 (S_varDecl (mkVarDecl (D_plain (TS_pointer (TS_named None "Node")) "root") (Some (FuncCallExpr (mkFunctionCall "create_node" (Some [(PrimaryExpr (P_literal (L_integer "1")))]))))));
 (S_varDecl (mkVarDecl (D_plain (TS_pointer (TS_named None "Node")) "branch1") (Some (FuncCallExpr (mkFunctionCall "create_node" (Some [(PrimaryExpr (P_literal (L_integer "2")))]))))));
 (S_varDecl (mkVarDecl (D_plain (TS_pointer (TS_named None "Node")) "branch2") (Some (FuncCallExpr (mkFunctionCall "create_node" (Some [(PrimaryExpr (P_literal (L_integer "3")))]))))));
 (S_varDecl (mkVarDecl (D_plain (TS_pointer (TS_named None "Node")) "leaf1") (Some (FuncCallExpr (mkFunctionCall "create_node" (Some [(PrimaryExpr (P_literal (L_integer "4")))]))))));
 (S_varDecl (mkVarDecl (D_plain (TS_pointer (TS_named None "Node")) "leaf2") (Some (FuncCallExpr (mkFunctionCall "create_node" (Some [(PrimaryExpr (P_literal (L_integer "5")))]))))));
 (S_expr (AssignExpr (PointerMemberExpr (PrimaryExpr (P_identifier "root")) "next") (PrimaryExpr (P_identifier "branch1"))));
 (S_expr (AssignExpr (PointerMemberExpr (PrimaryExpr (P_identifier "root")) "child") (PrimaryExpr (P_identifier "branch2"))));
 (S_expr (AssignExpr (PointerMemberExpr (PrimaryExpr (P_identifier "branch1")) "child") (PrimaryExpr (P_identifier "leaf1"))));
 (S_expr (AssignExpr (PointerMemberExpr (PrimaryExpr (P_identifier "branch2")) "child") (PrimaryExpr (P_identifier "leaf2"))));
 (S_expr (FuncCallExpr (mkFunctionCall "printf" (Some [(PrimaryExpr (P_literal (L_string (q "Built tree: root(%d) -> branch1(%d) -> leaf1(%d)\n")))); (PointerMemberExpr (PrimaryExpr (P_identifier "root")) "value"); (PointerMemberExpr (PrimaryExpr (P_identifier "branch1")) "value"); (PointerMemberExpr (PrimaryExpr (P_identifier "leaf1")) "value")]))));
 (S_expr (FuncCallExpr (mkFunctionCall "printf" (Some [(PrimaryExpr (P_literal (L_string (q "           root(%d) -> branch2(%d) -> leaf2(%d)\n")))); (PointerMemberExpr (PrimaryExpr (P_identifier "root")) "value"); (PointerMemberExpr (PrimaryExpr (P_identifier "branch2")) "value"); (PointerMemberExpr (PrimaryExpr (P_identifier "leaf2")) "value")]))));
 (S_expr (AssignExpr (PrimaryExpr (P_identifier "branch1")) (PrimaryExpr (P_identifier "NIL"))));
 (S_expr (AssignExpr (PrimaryExpr (P_identifier "branch2")) (PrimaryExpr (P_identifier "NIL"))));
 (S_expr (AssignExpr (PrimaryExpr (P_identifier "leaf1")) (PrimaryExpr (P_identifier "NIL"))));
 (S_expr (AssignExpr (PrimaryExpr (P_identifier "leaf2")) (PrimaryExpr (P_identifier "NIL"))));
 (S_expr (AssignExpr (PointerMemberExpr (PrimaryExpr (P_identifier "root")) "child") (PrimaryExpr (P_identifier "NIL"))));
 (S_expr (FuncCallExpr (mkFunctionCall "printf" (Some [(PrimaryExpr (P_literal (L_string (q "Cut off branch2 subtree\n"))))]))));
 (S_expr (FuncCallExpr (mkFunctionCall "runtime_gc" None)));
 (S_expr (FuncCallExpr (mkFunctionCall "printf" (Some [(PrimaryExpr (P_literal (L_string (q "GC should collect branch2(%d) and leaf2(%d)\n")))); (PrimaryExpr (P_literal (L_integer "2"))); (PrimaryExpr (P_literal (L_integer "5")))]))));
 (S_expr (FuncCallExpr (mkFunctionCall "printf" (Some [(PrimaryExpr (P_literal (L_string (q "Root and branch1 subtree still reachable: %d -> %d -> %d\n")))); (PointerMemberExpr (PrimaryExpr (P_identifier "root")) "value"); (PointerMemberExpr (PointerMemberExpr (PrimaryExpr (P_identifier "root")) "next") "value"); (PointerMemberExpr (PointerMemberExpr (PointerMemberExpr (PrimaryExpr (P_identifier "root")) "next") "child") "value")]))))]);
 (S_functionDecl TS_void "test_gc_threshold" None
 [(S_expr (FuncCallExpr (mkFunctionCall "printf" (Some [(PrimaryExpr (P_literal (L_string (q "\n=== GC Threshold Test ===\n"))))]))));
 (S_expr (FuncCallExpr (mkFunctionCall "runtime_set_gc_threshold" (Some [(PrimaryExpr (P_literal (L_integer "1024")))]))));
 (S_expr (FuncCallExpr (mkFunctionCall "printf" (Some [(PrimaryExpr (P_literal (L_string (q "Set GC threshold to 1KB\n"))))]))));
 (S_varDecl (mkVarDecl (D_plain (TS_pointer (TS_named None "Node")) "keeper") (Some (FuncCallExpr (mkFunctionCall "create_node" (Some [(PrimaryExpr (P_literal (L_integer "42")))]))))));
 (S_expr (FuncCallExpr (mkFunctionCall "printf" (Some [(PrimaryExpr (P_literal (L_string (q "Created keeper: %d\n")))); (PointerMemberExpr (PrimaryExpr (P_identifier "keeper")) "value")]))));
 (S_for (FI_var (mkVarDecl (D_plain TS_int "i") (Some (PrimaryExpr (P_literal (L_integer "0")))))) (Some (CompareExpr (PrimaryExpr (P_identifier "i")) "<" (PrimaryExpr (P_literal (L_integer "50"))))) (Some (PostIncrementExpr (PrimaryExpr (P_identifier "i")))) (S_block [(S_varDecl (mkVarDecl (D_plain (TS_pointer (TS_named None "Node")) "temp") (Some (FuncCallExpr (mkFunctionCall "create_node" (Some [(PrimaryExpr (P_identifier "i"))]))))))]));
 (S_expr (FuncCallExpr (mkFunctionCall "printf" (Some [(PrimaryExpr (P_literal (L_string (q "Allocated and abandoned 50 temporary nodes\n"))))]))));
 (S_expr (FuncCallExpr (mkFunctionCall "printf" (Some [(PrimaryExpr (P_literal (L_string (q "Keeper should still be alive: %d\n")))); (PointerMemberExpr (PrimaryExpr (P_identifier "keeper")) "value")]))));
 (S_expr (FuncCallExpr (mkFunctionCall "runtime_gc" None)));
 (S_expr (FuncCallExpr (mkFunctionCall "printf" (Some [(PrimaryExpr (P_literal (L_string (q "Final GC completed\n"))))]))))]);
 (S_varDecl (mkVarDecl (D_plain (TS_pointer (TS_named None "Node")) "global_node") (Some (PrimaryExpr (P_identifier "NIL")))));
 (S_functionDecl TS_void "test_globals" None
 [(S_expr (AssignExpr (PrimaryExpr (P_identifier "global_node")) (FuncCallExpr (mkFunctionCall "create_node" (Some [(PrimaryExpr (P_literal (L_integer "99")))])))));
 (S_expr (FuncCallExpr (mkFunctionCall "runtime_gc" None)));
 (S_expr (FuncCallExpr (mkFunctionCall "printf" (Some [(PrimaryExpr (P_literal (L_string (q "Global node has not been collected: %d\n")))); (PointerMemberExpr (PrimaryExpr (P_identifier "global_node")) "value")]))));
 (S_expr (AssignExpr (PrimaryExpr (P_identifier "global_node")) (PrimaryExpr (P_identifier "NIL"))));
 (S_expr (FuncCallExpr (mkFunctionCall "runtime_gc" None)))]);
 (S_functionDecl TS_int "main" None
 [(S_expr (FuncCallExpr (mkFunctionCall "printf" (Some [(PrimaryExpr (P_literal (L_string (q "Mark-Sweep Garbage Collector Test Program\n"))))]))));
 (S_expr (FuncCallExpr (mkFunctionCall "printf" (Some [(PrimaryExpr (P_literal (L_string (q "=========================================\n"))))]))));
 (S_expr (FuncCallExpr (mkFunctionCall "test_basic_collection" None)));
 (S_expr (FuncCallExpr (mkFunctionCall "test_reachable_cycles" None)));
 (S_expr (FuncCallExpr (mkFunctionCall "test_partial_structures" None)));
 (S_expr (FuncCallExpr (mkFunctionCall "test_gc_threshold" None)));
 (S_expr (FuncCallExpr (mkFunctionCall "test_globals" None)));
 (S_expr (FuncCallExpr (mkFunctionCall "printf" (Some [(PrimaryExpr (P_literal (L_string (q "\n=== All Tests Complete ===\n"))))]))));
 (S_return (Some (PrimaryExpr (P_literal (L_integer "0")))))])].
Definition test_mark_sweep_c : string := text_lines
 ["#include " +:+ dq +:+ "runtime.h" +:+ dq +:+ EmptyString;
  "#include<stdio.h>";
  EmptyString;
  "#define NIL 0";
  EmptyString;
  EmptyString;
  EmptyString;
  EmptyString;
  EmptyString;
  EmptyString;
  EmptyString;
  EmptyString;
  EmptyString;
  EmptyString;
  EmptyString;
  "struct vtable {";
  "};";
  EmptyString;
  EmptyString;
  "typedef struct Node {";
  (tab +:+ "int value;");
  (tab +:+ "struct Node* next;");
  (tab +:+ "struct Node* child;");
  "} Node;";
  EmptyString;
  "typedef struct Graph {";
  (tab +:+ "struct Node* nodes[5];");
  (tab +:+ "int count;");
  "} Graph;";
  EmptyString;
  "struct Node* create_node(int val){";
  "        struct Node* n = runtime_alloc(sizeof(struct Node));";
  "        n->value = val;";
  "        n->next = NIL;";
  "        n->child = NIL;";
  "                        return n;";
  "                }";
  EmptyString;
  "void test_basic_collection(){";
  "                printf(" +:+ dq +:+ "=== Basic Collection Test ===\n" +:+ dq +:+ ");";
  "        struct Node* temp1 =         create_node(100);";
  "        struct Node* temp2 =         create_node(200);";
  "        struct Node* temp3 =         create_node(300);";
  "                temp1->next = temp2;";
  "                temp2->next = temp3;";
  "                printf(" +:+ dq +:+ "Created temporary chain: %d -> %d -> %d\n" +:+ dq +:+ ", temp1->value, temp2->value, temp3->value);";
  "        struct Node* keeper =         create_node(999);";
  "                printf(" +:+ dq +:+ "Created keeper node: %d\n" +:+ dq +:+ ", keeper->value);";
  "                runtime_gc();";
  "                printf(" +:+ dq +:+ "Chain still exists chain: %d -> %d -> %d\n" +:+ dq +:+ ", temp1->value, temp2->value, temp3->value);";
  "                temp1 = NIL;";
  "                temp2 = NIL;";
  "                temp3 = NIL;";
  "                printf(" +:+ dq +:+ "Temporary chain made unreachable\n" +:+ dq +:+ ");";
  "                printf(" +:+ dq +:+ "Keeper still accessible: %d\n" +:+ dq +:+ ", keeper->value);";
  "                runtime_gc();";
  "                printf(" +:+ dq +:+ "Garbage collection completed\n" +:+ dq +:+ ");";
  "                                        }";
  EmptyString;
  "void test_reachable_cycles(){";
  "                printf(" +:+ dq +:+ "\n=== Reachable Cycle Test ===\n" +:+ dq +:+ ");";
  "        struct Node* a =         create_node(1);";
  "        struct Node* b =         create_node(2);";
  "        struct Node* c =         create_node(3);";
  "                a->next = b;";
  "                b->next = c;";
  "                c->next = a;";
  "                printf(" +:+ dq +:+ "Created cycle: %d -> %d -> %d -> (back to %d)\n" +:+ dq +:+ ", a->value, b->value, c->value, a->value);";
  "                b = NIL;";
  "                c = NIL;";
  "                printf(" +:+ dq +:+ "Cycle root value: %d\n" +:+ dq +:+ ", a->value);";
  "                runtime_gc();";
  "                printf(" +:+ dq +:+ "GC run - cycle should remain (still reachable)\n" +:+ dq +:+ ");";
  "                printf(" +:+ dq +:+ "Cycle still accessible via a: %d\n" +:+ dq +:+ ", a->value);";
  "                a = NIL;";
  "                printf(" +:+ dq +:+ "Broke reference to cycle\n" +:+ dq +:+ ");";
  "                runtime_gc();";
  "                printf(" +:+ dq +:+ "GC run - cycle should be collected now\n" +:+ dq +:+ ");";
  "                                }";
  EmptyString;
  "void test_partial_structures(){";
  "                printf(" +:+ dq +:+ "\n=== Partial Structure Collection Test ===\n" +:+ dq +:+ ");";
  "        struct Node* root =         create_node(1);";
  "        struct Node* branch1 =         create_node(2);";
  "        struct Node* branch2 =         create_node(3);";
  "        struct Node* leaf1 =         create_node(4);";
  "        struct Node* leaf2 =         create_node(5);";
  "                root->next = branch1;";
  "                root->child = branch2;";
  "                branch1->child = leaf1;";
  "                branch2->child = leaf2;";
  "                printf(" +:+ dq +:+ "Built tree: root(%d) -> branch1(%d) -> leaf1(%d)\n" +:+ dq +:+ ", root->value, branch1->value, leaf1->value);";
  "                printf(" +:+ dq +:+ "           root(%d) -> branch2(%d) -> leaf2(%d)\n" +:+ dq +:+ ", root->value, branch2->value, leaf2->value);";
  "                branch1 = NIL;";
  "                branch2 = NIL;";
  "                leaf1 = NIL;";
  "                leaf2 = NIL;";
  "        root->child = NIL;";
  "                printf(" +:+ dq +:+ "Cut off branch2 subtree\n" +:+ dq +:+ ");";
  "                runtime_gc();";
  "                printf(" +:+ dq +:+ "GC should collect branch2(%d) and leaf2(%d)\n" +:+ dq +:+ ", 2, 5);";
  "                printf(" +:+ dq +:+ "Root and branch1 subtree still reachable: %d -> %d -> %d\n" +:+ dq +:+ ", root->value, root->next->value, root->next->child->value);";
  "                                                }";
  EmptyString;
  "void test_gc_threshold(){";
  "                printf(" +:+ dq +:+ "\n=== GC Threshold Test ===\n" +:+ dq +:+ ");";
  "                runtime_set_gc_threshold(1024);";
  "                printf(" +:+ dq +:+ "Set GC threshold to 1KB\n" +:+ dq +:+ ");";
  "        struct Node* keeper =         create_node(42);";
  "                printf(" +:+ dq +:+ "Created keeper: %d\n" +:+ dq +:+ ", keeper->value);";
  "                printf(" +:+ dq +:+ "Allocated and abandoned 50 temporary nodes\n" +:+ dq +:+ ");";
  "                printf(" +:+ dq +:+ "Keeper should still be alive: %d\n" +:+ dq +:+ ", keeper->value);";
  "                runtime_gc();";
  "                printf(" +:+ dq +:+ "Final GC completed\n" +:+ dq +:+ ");";
  "                }";
  EmptyString;
  "    struct Node* global_node = NIL;";
  EmptyString;
  "void test_globals(){";
  "                global_node =         create_node(99);";
  "                runtime_gc();";
  "                printf(" +:+ dq +:+ "Global node has not been collected: %d\n" +:+ dq +:+ ", global_node->value);";
  "                global_node = NIL;";
  "                runtime_gc();";
  "        }";
  EmptyString;
  "int main_(){";
  "                printf(" +:+ dq +:+ "Mark-Sweep Garbage Collector Test Program\n" +:+ dq +:+ ");";
  "                printf(" +:+ dq +:+ "=========================================\n" +:+ dq +:+ ");";
  "                test_basic_collection();";
  "                test_reachable_cycles();";
  "                test_partial_structures();";
  "                test_gc_threshold();";
  "                test_globals();";
  "                printf(" +:+ dq +:+ "\n=== All Tests Complete ===\n" +:+ dq +:+ ");";
  "        return 0;";
  "        }";
  EmptyString;
  "int main() {";
  "    runtime_init();";
  "    runtime_register_root(&global_node);";
  "    main_();";
  "    runtime_shutdown();";
  "}"].

Definition test_ref_count_tree : program := mkProgram
 [PD_include (text_lines ["<stdio.h>"]);
 PD_define "NIL" (Some (DV_integer "0"))]
 [(S_typedef (TD_struct (mkStructDecl "Node" [(D_plain TS_int "value"); (D_plain (TS_pointer (TS_named (Some KW_struct) "Node")) "child")] false)) "Node");
 (S_typedef (TD_struct (mkStructDecl "Container" [(D_plain (TS_pointer (TS_named None "Node")) "primary"); (D_plain (TS_pointer (TS_named None "Node")) "backup")] false)) "Container");
 (S_functionDecl (TS_pointer (TS_named None "Node")) "create_node" (Some [(D_plain TS_int "val")])
 [(S_varDecl (mkVarDecl (D_plain (TS_pointer (TS_named None "Node")) "n") (Some (NewExpr (TS_named None "Node")))));
 (S_expr (AssignExpr (PointerMemberExpr (PrimaryExpr (P_identifier "n")) "value") (PrimaryExpr (P_identifier "val"))));
 (S_expr (AssignExpr (PointerMemberExpr (PrimaryExpr (P_identifier "n")) "child") (PrimaryExpr (P_identifier "NIL"))));
 (S_return (Some (PrimaryExpr (P_identifier "n"))))]);
 (S_functionDecl TS_void "test_basic_sharing" None
 [(S_expr (FuncCallExpr (mkFunctionCall "printf" (Some [(PrimaryExpr (P_literal (L_string (q "=== Basic Pointer Sharing Test ===\n"))))]))));
 (S_varDecl (mkVarDecl (D_plain (TS_pointer (TS_named None "Node")) "shared") (Some (FuncCallExpr (mkFunctionCall "create_node" (Some [(PrimaryExpr (P_literal (L_integer "42")))]))))));
 (S_varDecl (mkVarDecl (D_plain (TS_pointer (TS_named None "Node")) "ref1") (Some (PrimaryExpr (P_identifier "shared")))));
 (S_varDecl (mkVarDecl (D_plain (TS_pointer (TS_named None "Node")) "ref2") (Some (PrimaryExpr (P_identifier "shared")))));
 (S_expr (FuncCallExpr (mkFunctionCall "printf" (Some [(PrimaryExpr (P_literal (L_string (q "Shared node value: %d\n")))); (PointerMemberExpr (PrimaryExpr (P_identifier "shared")) "value")]))));
 (S_expr (FuncCallExpr (mkFunctionCall "printf" (Some [(PrimaryExpr (P_literal (L_string (q "Ref1 value: %d\n")))); (PointerMemberExpr (PrimaryExpr (P_identifier "ref1")) "value")]))));
 (S_expr (FuncCallExpr (mkFunctionCall "printf" (Some [(PrimaryExpr (P_literal (L_string (q "Ref2 value: %d\n")))); (PointerMemberExpr (PrimaryExpr (P_identifier "ref2")) "value")]))));
 (S_expr (AssignExpr (PrimaryExpr (P_identifier "ref1")) (FuncCallExpr (mkFunctionCall "create_node" (Some [(PrimaryExpr (P_literal (L_integer "100")))])))));
 (S_expr (FuncCallExpr (mkFunctionCall "printf" (Some [(PrimaryExpr (P_literal (L_string (q "After reassignment, ref1 value: %d\n")))); (PointerMemberExpr (PrimaryExpr (P_identifier "ref1")) "value")]))));
 (S_expr (FuncCallExpr (mkFunctionCall "printf" (Some [(PrimaryExpr (P_literal (L_string (q "Shared still: %d\n")))); (PointerMemberExpr (PrimaryExpr (P_identifier "shared")) "value")]))))]);
 (S_functionDecl TS_void "test_nested_structures" None
 [(S_expr (FuncCallExpr (mkFunctionCall "printf" (Some [(PrimaryExpr (P_literal (L_string (q "\n=== Nested Structure Test ===\n"))))]))));
 (S_varDecl (mkVarDecl (D_plain (TS_pointer (TS_named None "Node")) "parent") (Some (FuncCallExpr (mkFunctionCall "create_node" (Some [(PrimaryExpr (P_literal (L_integer "1")))]))))));
 (S_varDecl (mkVarDecl (D_plain (TS_pointer (TS_named None "Node")) "child") (Some (FuncCallExpr (mkFunctionCall "create_node" (Some [(PrimaryExpr (P_literal (L_integer "2")))]))))));
 (S_expr (AssignExpr (PointerMemberExpr (PrimaryExpr (P_identifier "parent")) "child") (PrimaryExpr (P_identifier "child"))));
 (S_expr (FuncCallExpr (mkFunctionCall "printf" (Some [(PrimaryExpr (P_literal (L_string (q "Parent: %d, Child: %d\n")))); (PointerMemberExpr (PrimaryExpr (P_identifier "parent")) "value"); (PointerMemberExpr (PointerMemberExpr (PrimaryExpr (P_identifier "parent")) "child") "value")]))));
 (S_varDecl (mkVarDecl (D_plain (TS_pointer (TS_named None "Node")) "parent2") (Some (FuncCallExpr (mkFunctionCall "create_node" (Some [(PrimaryExpr (P_literal (L_integer "3")))]))))));
 (S_expr (AssignExpr (PointerMemberExpr (PrimaryExpr (P_identifier "parent2")) "child") (PrimaryExpr (P_identifier "child"))));
 (S_expr (FuncCallExpr (mkFunctionCall "printf" (Some [(PrimaryExpr (P_literal (L_string (q "Parent2: %d, Shared child: %d\n")))); (PointerMemberExpr (PrimaryExpr (P_identifier "parent2")) "value"); (PointerMemberExpr (PointerMemberExpr (PrimaryExpr (P_identifier "parent2")) "child") "value")]))));
 (S_expr (AssignExpr (PointerMemberExpr (PrimaryExpr (P_identifier "parent")) "child") (PrimaryExpr (P_identifier "NIL"))));
 (S_expr (FuncCallExpr (mkFunctionCall "printf" (Some [(PrimaryExpr (P_literal (L_string (q "After nullifying parent->child, parent2 child still: %d\n")))); (PointerMemberExpr (PointerMemberExpr (PrimaryExpr (P_identifier "parent2")) "child") "value")]))))]);
 (S_functionDecl TS_void "test_container_patterns" None
 [(S_expr (FuncCallExpr (mkFunctionCall "printf" (Some [(PrimaryExpr (P_literal (L_string (q "\n=== Container Pattern Test ===\n"))))]))));
 (S_varDecl (mkVarDecl (D_plain (TS_pointer (TS_named None "Container")) "box") (Some (NewExpr (TS_named None "Container")))));
 (S_varDecl (mkVarDecl (D_plain (TS_pointer (TS_named None "Node")) "important_data") (Some (FuncCallExpr (mkFunctionCall "create_node" (Some [(PrimaryExpr (P_literal (L_integer "999")))]))))));
 (S_expr (AssignExpr (PointerMemberExpr (PrimaryExpr (P_identifier "box")) "primary") (PrimaryExpr (P_identifier "important_data"))));
 (S_expr (AssignExpr (PointerMemberExpr (PrimaryExpr (P_identifier "box")) "backup") (PrimaryExpr (P_identifier "important_data"))));
 (S_expr (FuncCallExpr (mkFunctionCall "printf" (Some [(PrimaryExpr (P_literal (L_string (q "Primary: %d, Backup: %d\n")))); (PointerMemberExpr (PointerMemberExpr (PrimaryExpr (P_identifier "box")) "primary") "value"); (PointerMemberExpr (PointerMemberExpr (PrimaryExpr (P_identifier "box")) "backup") "value")]))));
 (S_expr (AssignExpr (PointerMemberExpr (PrimaryExpr (P_identifier "box")) "primary") (PrimaryExpr (P_identifier "NIL"))));
 (S_expr (FuncCallExpr (mkFunctionCall "printf" (Some [(PrimaryExpr (P_literal (L_string (q "After removing primary, backup still: %d\n")))); (PointerMemberExpr (PointerMemberExpr (PrimaryExpr (P_identifier "box")) "backup") "value")]))));
 (S_expr (AssignExpr (PointerMemberExpr (PrimaryExpr (P_identifier "box")) "primary") (FuncCallExpr (mkFunctionCall "create_node" (Some [(PrimaryExpr (P_literal (L_integer "777")))])))));
 (S_expr (FuncCallExpr (mkFunctionCall "printf" (Some [(PrimaryExpr (P_literal (L_string (q "New primary: %d, Backup: %d\n")))); (PointerMemberExpr (PointerMemberExpr (PrimaryExpr (P_identifier "box")) "primary") "value"); (PointerMemberExpr (PointerMemberExpr (PrimaryExpr (P_identifier "box")) "backup") "value")]))))]);
 (S_functionDecl TS_int "main" None
 [(S_expr (FuncCallExpr (mkFunctionCall "printf" (Some [(PrimaryExpr (P_literal (L_string (q "Reference Counting Test Program\n"))))]))));
 (S_expr (FuncCallExpr (mkFunctionCall "printf" (Some [(PrimaryExpr (P_literal (L_string (q "===============================\n"))))]))));
 (S_expr (FuncCallExpr (mkFunctionCall "test_basic_sharing" None)));
 (S_expr (FuncCallExpr (mkFunctionCall "test_nested_structures" None)));
 (S_expr (FuncCallExpr (mkFunctionCall "test_container_patterns" None)));
 (S_expr (FuncCallExpr (mkFunctionCall "printf" (Some [(PrimaryExpr (P_literal (L_string (q "\n=== Test Complete ===\n"))))]))));
 (S_return (Some (PrimaryExpr (P_literal (L_integer "0")))))])].
Definition test_ref_count_c : string := text_lines
 ["#include " +:+ dq +:+ "runtime.h" +:+ dq +:+ EmptyString;
  "#include<stdio.h>";
  EmptyString;
  "#define NIL 0";
  EmptyString;
  EmptyString;
  EmptyString;
  EmptyString;
  EmptyString;
  EmptyString;
  EmptyString;
  EmptyString;
  "struct vtable {";
  "};";
  EmptyString;
  EmptyString;
  "typedef struct Node {";
  (tab +:+ "int value;");
  (tab +:+ "struct Node* child;");
  "} Node;";
  EmptyString;
  "typedef struct Container {";
  (tab +:+ "struct Node* primary;");
  (tab +:+ "struct Node* backup;");
  "} Container;";
  EmptyString;
  "struct Node* create_node(int val){";
  "        struct Node* n = runtime_alloc(sizeof(struct Node));";
  "        n->value = val;";
  "        n->child = NIL;";
  "        runtime_inc_ref_count(n, NULL);";
  "        runtime_dec_ref_count(n, 0);";
  "        return n;";
  "        runtime_dec_ref_count(n, 0);";
  "        }";
  EmptyString;
  "void test_basic_sharing(){";
  "                printf(" +:+ dq +:+ "=== Basic Pointer Sharing Test ===\n" +:+ dq +:+ ");";
  "        struct Node* shared =         create_node(42);";
  "        runtime_inc_ref_count(shared, NULL);";
  "        struct Node* ref1 = shared;";
  "        runtime_inc_ref_count(shared, NULL);";
  "        struct Node* ref2 = shared;";
  "                printf(" +:+ dq +:+ "Shared node value: %d\n" +:+ dq +:+ ", shared->value);";
  "                printf(" +:+ dq +:+ "Ref1 value: %d\n" +:+ dq +:+ ", ref1->value);";
  "                printf(" +:+ dq +:+ "Ref2 value: %d\n" +:+ dq +:+ ", ref2->value);";
  "        runtime_dec_ref_count(ref1, 0);";
  "        ref1 =         create_node(100);";
  "                printf(" +:+ dq +:+ "After reassignment, ref1 value: %d\n" +:+ dq +:+ ", ref1->value);";
  "                printf(" +:+ dq +:+ "Shared still: %d\n" +:+ dq +:+ ", shared->value);";
  "        runtime_dec_ref_count(ref1, 0);";
  "        runtime_dec_ref_count(ref2, 0);";
  "        runtime_dec_ref_count(shared, 0);";
  "        }";
  EmptyString;
  "void test_nested_structures(){";
  "                printf(" +:+ dq +:+ "\n=== Nested Structure Test ===\n" +:+ dq +:+ ");";
  "        struct Node* parent =         create_node(1);";
  "        struct Node* child =         create_node(2);";
  "        runtime_inc_ref_count(child, parent);";
  "        parent->child = child;";
  "                printf(" +:+ dq +:+ "Parent: %d, Child: %d\n" +:+ dq +:+ ", parent->value, parent->child->value);";
  "        struct Node* parent2 =         create_node(3);";
  "        runtime_inc_ref_count(child, parent2);";
  "        parent2->child = child;";
  "                printf(" +:+ dq +:+ "Parent2: %d, Shared child: %d\n" +:+ dq +:+ ", parent2->value, parent2->child->value);";
  "        parent->child = NIL;";
  "                printf(" +:+ dq +:+ "After nullifying parent->child, parent2 child still: %d\n" +:+ dq +:+ ", parent2->child->value);";
  "        runtime_dec_ref_count(child, 0);";
  "        runtime_dec_ref_count(parent, 0);";
  "        runtime_dec_ref_count(parent2, 0);";
  "        }";
  EmptyString;
  "void test_container_patterns(){";
  "                printf(" +:+ dq +:+ "\n=== Container Pattern Test ===\n" +:+ dq +:+ ");";
  "        struct Container* box = runtime_alloc(sizeof(struct Container));";
  "        struct Node* important_data =         create_node(999);";
  "        runtime_inc_ref_count(important_data, box);";
  "        box->primary = important_data;";
  "        runtime_inc_ref_count(important_data, box);";
  "        box->backup = important_data;";
  "                printf(" +:+ dq +:+ "Primary: %d, Backup: %d\n" +:+ dq +:+ ", box->primary->value, box->backup->value);";
  "        box->primary = NIL;";
  "                printf(" +:+ dq +:+ "After removing primary, backup still: %d\n" +:+ dq +:+ ", box->backup->value);";
  "        box->primary =         create_node(777);";
  "                printf(" +:+ dq +:+ "New primary: %d, Backup: %d\n" +:+ dq +:+ ", box->primary->value, box->backup->value);";
  "        runtime_dec_ref_count(box, 0);";
  "        runtime_dec_ref_count(important_data, 0);";
  "        }";
  EmptyString;
  "int main_(){";
  "                printf(" +:+ dq +:+ "Reference Counting Test Program\n" +:+ dq +:+ ");";
  "                printf(" +:+ dq +:+ "===============================\n" +:+ dq +:+ ");";
  "                test_basic_sharing();";
  "                test_nested_structures();";
  "                test_container_patterns();";
  "                printf(" +:+ dq +:+ "\n=== Test Complete ===\n" +:+ dq +:+ ");";
  "        return 0;";
  "        }";
  EmptyString;
  "int main() {";
  "    runtime_init();";
  "    main_();";
  "    runtime_shutdown();";
  "}"].

Definition test_ref_count_basic_tree : program := mkProgram
 [PD_include (text_lines ["<stdio.h>"])]
 [(S_typedef (TD_struct (mkStructDecl "Node" [(D_plain TS_int "data")] false)) "Node");
 (S_functionDecl TS_int "main" None
 [(S_varDecl (mkVarDecl (D_plain (TS_pointer (TS_named None "Node")) "n") (Some (NewExpr (TS_named None "Node")))));
 (S_expr (AssignExpr (PointerMemberExpr (PrimaryExpr (P_identifier "n")) "data") (PrimaryExpr (P_literal (L_integer "5")))));
 (S_varDecl (mkVarDecl (D_plain (TS_pointer (TS_named None "Node")) "x") (Some (PrimaryExpr (P_identifier "n")))));
 (S_expr (AssignExpr (PrimaryExpr (P_identifier "x")) (PrimaryExpr (P_identifier "n"))));
 (S_expr (FuncCallExpr (mkFunctionCall "printf" (Some [(PrimaryExpr (P_literal (L_string (q "data: %d\n")))); (PointerMemberExpr (PrimaryExpr (P_identifier "n")) "data")]))))])].
Definition test_ref_count_basic_c : string := text_lines
 ["#include " +:+ dq +:+ "runtime.h" +:+ dq +:+ EmptyString;
  "#include<stdio.h>";
  EmptyString;
  EmptyString;
  EmptyString;
  "struct vtable {";
  "};";
  EmptyString;
  EmptyString;
  "typedef struct Node {";
  (tab +:+ "int data;");
  "} Node;";
  EmptyString;
  "int main_(){";
  "        struct Node* n = runtime_alloc(sizeof(struct Node));";
  "        n->data = 5;";
  "        runtime_inc_ref_count(n, NULL);";
  "        struct Node* x = n;";
  "        runtime_inc_ref_count(n, NULL);";
  "        runtime_dec_ref_count(x, 0);";
  "        x = n;";
  "                printf(" +:+ dq +:+ "data: %d\n" +:+ dq +:+ ", n->data);";
  "        runtime_dec_ref_count(n, 0);";
  "        runtime_dec_ref_count(x, 0);";
  "        }";
  EmptyString;
  "int main() {";
  "    runtime_init();";
  "    main_();";
  "    runtime_shutdown();";
  "}"].

Definition test_struct_controlFlow_ptr_tree : program := mkProgram
 [PD_include (text_lines ["<stdio.h>"])]
 [(S_typedef (TD_struct (mkStructDecl "Point" [(D_plain TS_int "x"); (D_plain TS_int "y")] false)) "Point");
 (S_functionDecl TS_int "main" None
 [(S_varDecl (mkVarDecl (D_plain (TS_named None "Point") "p") None));
 (S_varDecl (mkVarDecl (D_plain (TS_pointer (TS_named None "Point")) "pp") (Some (AddressOfExpr (PrimaryExpr (P_identifier "p"))))));
 (S_expr (AssignExpr (MemberExpr (PrimaryExpr (P_identifier "p")) "x") (PrimaryExpr (P_literal (L_integer "10")))));
 (S_expr (AssignExpr (PointerMemberExpr (PrimaryExpr (P_identifier "pp")) "y") (PrimaryExpr (P_literal (L_integer "20")))));
 (S_varDecl (mkVarDecl (D_plain (TS_pointer TS_int) "ip") (Some (AddressOfExpr (MemberExpr (PrimaryExpr (P_identifier "p")) "x")))));
 (S_expr (DereferenceExpr (AssignExpr (PrimaryExpr (P_identifier "ip")) (PrimaryExpr (P_literal (L_integer "30"))))));
 (S_if (CompareExpr (MemberExpr (PrimaryExpr (P_identifier "p")) "x") ">" (PrimaryExpr (P_literal (L_integer "20")))) (S_block []) (Some (S_block [])));
 (S_while (CompareExpr (MemberExpr (PrimaryExpr (P_identifier "p")) "x") ">" (PrimaryExpr (P_literal (L_integer "0")))) (S_block [(S_expr (FuncCallExpr (mkFunctionCall "printf" (Some [(PrimaryExpr (P_literal (L_string (q "P.x = %d\n")))); (MemberExpr (PrimaryExpr (P_identifier "p")) "x")]))));
 (S_expr (AssignExpr (MemberExpr (PrimaryExpr (P_identifier "p")) "x") (AddSubExpr (MemberExpr (PrimaryExpr (P_identifier "p")) "x") "-" (PrimaryExpr (P_literal (L_integer "7"))))))]))])].
Definition test_struct_controlFlow_ptr_c : string := text_lines
 ["#include " +:+ dq +:+ "runtime.h" +:+ dq +:+ EmptyString;
  "#include<stdio.h>";
  EmptyString;
  EmptyString;
  EmptyString;
  "struct vtable {";
  "};";
  EmptyString;
  EmptyString;
  "typedef struct Point {";
  (tab +:+ "int x;");
  (tab +:+ "int y;");
  "} Point;";
  EmptyString;
  "int main_(){";
  "        struct Point p;";
  "        struct Point* pp = &p;";
  "        p.x = 10;";
  "        pp->y = 20;";
  "        int* ip = &p.x;";
  "                *ip = 30;";
  "        if (p.x > 20) {";
  "{";
  "            }";
  "}";
  "        else {";
  "{";
  "            }";
  "}";
  "        while (p.x > 0) {";
  "{";
  "                        printf(" +:+ dq +:+ "P.x = %d\n" +:+ dq +:+ ", p.x);";
  "            p.x = p.x - 7;";
  "            }";
  "}";
  "                        }";
  EmptyString;
  "int main() {";
  "    runtime_init();";
  "    main_();";
  "    runtime_shutdown();";
  "}"].

Definition test_variables_functions_tree : program := mkProgram
 [PD_include (text_lines ["<stdio.h>"])]
 [(S_functionDecl TS_void "add_in_place" (Some [(D_plain TS_int "a"); (D_plain TS_int "b"); (D_plain (TS_pointer TS_int) "c")])
 [(S_expr (DereferenceExpr (AssignExpr (PrimaryExpr (P_identifier "c")) (AddSubExpr (PrimaryExpr (P_identifier "a")) "+" (PrimaryExpr (P_identifier "b"))))))]);
 (S_functionDecl TS_int "add" (Some [(D_plain TS_int "a"); (D_plain TS_int "b")])
 [(S_varDecl (mkVarDecl (D_plain (TS_pointer TS_int) "c") (Some (NewExpr TS_int))));
 (S_expr (FuncCallExpr (mkFunctionCall "add_in_place" (Some [(PrimaryExpr (P_identifier "a")); (PrimaryExpr (P_identifier "b")); (PrimaryExpr (P_identifier "c"))]))));
 (S_return (Some (DereferenceExpr (PrimaryExpr (P_identifier "c")))))]);
 (S_functionDecl TS_int "main" None
 [(S_varDecl (mkVarDecl (D_plain TS_int "x") (Some (PrimaryExpr (P_literal (L_integer "5"))))));
 (S_varDecl (mkVarDecl (D_plain TS_int "y") (Some (PrimaryExpr (P_literal (L_integer "10"))))));
 (S_varDecl (mkVarDecl (D_plain TS_int "z") (Some (FuncCallExpr (mkFunctionCall "add" (Some [(PrimaryExpr (P_identifier "x")); (PrimaryExpr (P_identifier "y"))]))))));
 (S_expr (FuncCallExpr (mkFunctionCall "printf" (Some [(PrimaryExpr (P_literal (L_string (q "Result: %d\n")))); (PrimaryExpr (P_identifier "z"))]))))])].
Definition test_variables_functions_c : string := text_lines
 ["#include " +:+ dq +:+ "runtime.h" +:+ dq +:+ EmptyString;
  "#include<stdio.h>";
  EmptyString;
  EmptyString;
  EmptyString;
  EmptyString;
  "struct vtable {";
  "};";
  EmptyString;
  EmptyString;
  "void add_in_place(int a, int b, int* c){";
  "                *c = a + b;";
  "        }";
  EmptyString;
  "int add(int a, int b){";
  "        int* c = runtime_alloc(sizeof(int));";
  "                        add_in_place(a, b, c);";
  "        ;";
  "                return *c;";
  "                }";
  EmptyString;
  "int main_(){";
  "        int x = 5;";
  "        int y = 10;";
  "        int z =         add(x, y);";
  "                printf(" +:+ dq +:+ "Result: %d\n" +:+ dq +:+ ", z);";
  "        }";
  EmptyString;
  "int main() {";
  "    runtime_init();";
  "    main_();";
  "    runtime_shutdown();";
  "}"].

(** A test: whether it is compiled with reference counting, its source, where the parser has to
    insert a semicolon the source lacks, if anywhere, its tree and the text expected. *)
Record test := mkTest {
  t_counted : bool;
  t_source : string;
  t_missing : option nat;
  t_tree : program;
  t_expected : string
}.
Definition repaired (missing : option nat) (ts : list token) : list token :=
  match missing with
  | None => ts
  | Some i => take i ts ++ lit ";" :: drop i ts
  end.
(** In the last [while] of test_struct_controlFlow_ptr.jb the call of [printf] has no semicolon. *)
Definition repository_tests : list test :=
  [mkTest false test_classes_jb None test_classes_tree test_classes_c;
   mkTest false test_inheritance_jb None test_inheritance_tree test_inheritance_c;
   mkTest false test_linked_list_jb None test_linked_list_tree test_linked_list_c;
   mkTest false test_mark_sweep_jb None test_mark_sweep_tree test_mark_sweep_c;
   mkTest true test_ref_count_jb None test_ref_count_tree test_ref_count_c;
   mkTest true test_ref_count_basic_jb None test_ref_count_basic_tree test_ref_count_basic_c;
   mkTest false test_struct_controlFlow_ptr_jb (Some 86) test_struct_controlFlow_ptr_tree
     test_struct_controlFlow_ptr_c;
   mkTest false test_variables_functions_jb None test_variables_functions_tree
     test_variables_functions_c].

(** The repository's tests.  The lexer reads each of the eight test programs as the tokens of
    its tree, one semicolon being missing in one of them, and the tree is translated to the text
    of the expected C file, whatever the first-pass flag holds before the visitor starts. *)
Example expected_outputs :
  Forall (λ t : test,
            repaired (t_missing t) <$> tokens (t_source t) = Some (program_tokens (t_tree t)) ∧
            transpile (t_counted t) true (t_tree t) = Ret (t_expected t) ∧
            transpile (t_counted t) false (t_tree t) = Ret (t_expected t))
    repository_tests.
Proof.
  unfold repository_tests.
  repeat (apply Forall_cons_2; [split_and!; vm_compute; reflexivity|]). apply Forall_nil_2.
Qed.
