(* ===== verification/SafetyProps.v ===== *)
(** The translator does not go wrong on safe programs: the properties that say so, and
    what happens without each of the checks. *)
From S2P Require Import Prelude Errors CppString Types TypeSystem SymbolTable CodeGenerator.
From S2P Require Import Syntax Visitor Transpile StringFacts Hierarchy MethodLookup.
From S2P Require Import TypeSystemInv Static SyntaxInd Soundness SafePrograms Examples.
#[local] Open Scope Z_scope.

(** C2. Safe programs.  The translation of a program that passes the static checks ends, with
    the text of a C file or with an exception that reports an error of the source (an unknown
    name, type, field, method or constructor, a bad number): it neither dereferences a null
    pointer, nor leaves a noexcept function by an exception, nor loops, nor fails by an
    internal error. *)
Theorem transpile_safe useRC indeterminate p :
  safe p = true →
  (∃ text, transpile useRC indeterminate p = Ret text) ∨
  (∃ e, transpile useRC indeterminate p = Throw e ∧ source_error e = true).
Proof.
  intros Hp. pose proof (fine_transpile useRC indeterminate p Hp) as Hf.
  destruct (transpile useRC indeterminate p) as [text|e|c|]; eauto; done.
Qed.

Lemma transpile_safe_witness :
  Forall (λ t : test,
    (∃ text, transpile (t_counted t) true (t_tree t) = Ret text) ∨
    (∃ e, transpile (t_counted t) true (t_tree t) = Throw e ∧ source_error e = true))
    repository_tests.
Proof.
  unfold repository_tests.
  repeat (apply Forall_cons_2; [apply transpile_safe; vm_compute; reflexivity|]).
  apply Forall_nil_2.
Defined.

(** C20. Types.  A visit of a statement of a safe program, in either pass and with any code
    generator that prints what prints, keeps the state well typed: every type of the
    tables, of the scopes and of the methods has a C spelling, every parent is a class the
    program declares, the hierarchy is acyclic, and as many scopes are open as before.  From
    such a state the visit ends, or reports an error of the source. *)
Theorem visit_stmt_well_typed `{CG : CodeGenerator} {HCG : SafeGenerator CG} D T stmt n s :
  static_ok D T → within D T stmt → state_ok D T n s →
  match visit_stmt stmt s with
  | Ret (_, s') => state_ok D T n s'
  | Throw e => source_error e = true
  | Crash _ | Diverge => False
  end.
Proof.
  intros HD Hw Hs. pose proof (sound_visit_stmt D T HD stmt Hw n s Hs) as Hf.
  destruct (visit_stmt stmt s) as [[[] s']| | |]; try done. apply Hf.
Qed.

(** [class A {}; class B : A {}]. *)
Definition derived_class : statement := S_class "B" (Some "A") [] true.
Definition two_classes : program := mkProgram [] [S_class "A" None [] true; derived_class].

Lemma visit_stmt_well_typed_witness :
  match visit_stmt (CG:=CCodeGenerator true) derived_class
          (set_typeSystem (registerClass "A" TypeSystem_default).2 (VState_init true)) with
  | Ret (_, s') =>
      state_ok (program_classes two_classes) (program_typedefs two_classes) 0%nat s' ∧
      parent_of (m_typeSystem s') "B" = Some "A"
  | _ => False
  end.
Proof.
  destruct (safe_spec two_classes) as [HD Hw]; [reflexivity|].
  pose proof (visit_stmt_well_typed (CG:=CCodeGenerator true) _ _ derived_class 0%nat
    (set_typeSystem (registerClass "A" TypeSystem_default).2 (VState_init true)) HD
    (Hw _ ltac:(right; left; reflexivity))) as H.
  destruct (visit_stmt derived_class _) as [[[] s']| | |] eqn:E;
    [|vm_compute in E; discriminate E..].
  split; [apply H|].
  - apply state_ok_types; [|apply state_ok_init].
    apply tables_ok_class; [vm_compute; left|apply tables_ok_default].
  - vm_compute in E. injection E as <-. reflexivity.
Defined.

Definition empty_class (c : string) (parent : option string) : statement :=
  S_class c parent [] true.
Definition constructed (c : string) (parent : option string)
    (super : option (string * option (list expr))) : statement :=
  S_class c parent [ClassConstructor c None super []] true.
Definition one_function (body : list statement) : statement :=
  S_functionDecl TS_void "f" None body.

Definition null_programs : list program := map (mkProgram [])
  [[one_function [S_return None]];
   [one_function [S_expr (StructInitExpr None)]];
   [constructed "A" None None; constructed "B" (Some "A") (Some ("A", None))]].

(** The method [n] of [class B : A], where [typedef B A;] follows the classes. *)
Definition typedef_of_ancestor : program := mkProgram []
  [S_class "A" None [ClassMethod true TS_void "m" None []] true; empty_class "B" (Some "A");
   S_typedef (TD_type (TS_named None "B")) "A";
   one_function
     [S_varDecl (mkVarDecl (D_plain (TS_pointer (TS_named None "B")) "b") None);
      S_expr (MethodCallExpr (PrimaryExpr (P_identifier "b")) "n" None)]].
Definition looping_programs : list program :=
  [mkProgram [] [empty_class "A" (Some "A")];
   mkProgram [] [empty_class "A" None; empty_class "B" (Some "A"); empty_class "A" (Some "B")];
   typedef_of_ancestor].

Definition only_first_pass (p : program) : outcome TypeSystem :=
  r ← forM_ (visit_stmt (CG:=CCodeGenerator true)) (pr_statements p) (VState_init true);
  Ret (m_typeSystem r.2).

Lemma find_method_loop ts c cls m :
  resolve_parent ts c = Some c → method_of ts c m = None →
  ∀ fuel, find_method fuel c cls m ts = Diverge.
Proof.
  intros Hp Hm. induction fuel as [|fuel IH]; [done|]. cbn [find_method]. fold (method_of ts c m).
  rewrite Hm. unfold resolve_parent in Hp. destruct (resolveType c ts) as [t| | |]; try done.
  bind_ret. destruct (hasParent t); [|done]. injection Hp as ->. apply IH.
Qed.

Lemma find_method_step ts c d cls m fuel :
  resolve_parent ts c = Some d → method_of ts c m = None →
  find_method (S fuel) c cls m ts = find_method fuel d cls m ts.
Proof.
  intros Hp Hm. cbn [find_method]. fold (method_of ts c m). rewrite Hm.
  unfold resolve_parent in Hp. destruct (resolveType c ts) as [t| | |]; try done.
  bind_ret. destruct (hasParent t); [|done]. by injection Hp as ->.
Qed.

(** Programs that the checks reject: [return;], an empty initialiser, and a parent constructor
    without arguments dereference a null pointer; a class that is its own parent, two classes
    made each other's parent by a second declaration, and a typedef that takes the name of an
    ancestor make the translator loop.  The last loop is in the lookup of a method that no class
    declares: whatever the fuel, it has not ended. *)
Example checks_needed useRC indeterminate :
  Forall (λ p, safe p = false ∧ transpile useRC indeterminate p = Crash NullDeref)
    null_programs ∧
  Forall (λ p, safe p = false ∧ transpile useRC indeterminate p = Diverge) looping_programs ∧
  ∃ ts, only_first_pass typedef_of_ancestor = Ret ts ∧
        ∀ fuel, find_method fuel "B" "B" "n" ts = Diverge.
Proof.
  split; [|split].
  - unfold null_programs; cbn [map].
    repeat (apply Forall_cons_2; [split; [|destruct useRC, indeterminate]; vm_compute; reflexivity|]).
    apply Forall_nil_2.
  - unfold looping_programs.
    repeat (apply Forall_cons_2; [split; [|destruct useRC, indeterminate]; vm_compute; reflexivity|]).
    apply Forall_nil_2.
  - destruct (only_first_pass typedef_of_ancestor) as [ts| | |] eqn:E;
      [|vm_compute in E; discriminate E..].
    exists ts. split; [done|]. vm_compute in E. injection E as <-. intros [|fuel]; [done|].
    rewrite (find_method_step _ "B" "A") by (vm_compute; reflexivity).
    apply find_method_loop; vm_compute; reflexivity.
Qed.
