(* ===== verification/Allocator.v ===== *)
(** What the allocators of runtime/src share: the statistics, and the table of
    operations of runtime/include/allocator_interface.h.

    Addresses are integers, the null pointer is 0, and a [size_t] is an integer
    modulo 2^64.  What the C environment supplies to a call, the pointer [malloc]
    returns and the address of the stack frame, is the argument [Env]. *)
From S2P Require Import Prelude Errors CppString.
#[local] Open Scope Z_scope.

Definition NULL : Z := 0.

(** [AllocatorStats] of runtime/include/runtime.h. *)
Record AllocatorStats := mkAllocatorStats {
  total_allocations : Z;
  current_bytes : Z;
  peak_bytes : Z;
  total_collections : Z
}.

Definition stats_zero : AllocatorStats := mkAllocatorStats 0 0 0 0.

(** The accounting of an allocation of [size] bytes, the same in the three allocators. *)
Definition stats_alloc (size : Z) (st : AllocatorStats) : AllocatorStats :=
  let current := size_add (current_bytes st) size in
  mkAllocatorStats (size_add (total_allocations st) 1) current
    (if peak_bytes st <? current then current else peak_bytes st) (total_collections st).

(** The accounting of a reclaimed block, and of a deallocated one. *)
Definition stats_collect (size : Z) (st : AllocatorStats) : AllocatorStats :=
  mkAllocatorStats (total_allocations st) (size_sub (current_bytes st) size) (peak_bytes st)
    (size_add (total_collections st) 1).
Definition stats_dealloc (size : Z) (st : AllocatorStats) : AllocatorStats :=
  mkAllocatorStats (total_allocations st) (size_sub (current_bytes st) size) (peak_bytes st)
    (total_collections st).

Record Env := mkEnv {
  malloc_result : Z;
  frame_address : Z
}.

(** [RuntimeAllocator] over the state [S]: the function pointers that may be null are
    options. *)
Record RuntimeAllocator (S : Type) := mkRuntimeAllocator {
  name : string;
  alloc : Env → Z → stM S Z;
  dealloc : Z → stM S unit;
  gc : Env → stM S unit;
  scope_end : option (stM S unit);
  get_stats : stM S AllocatorStats;
  init : Env → stM S unit;
  shutdown : Env → stM S unit;
  inc_ref_count : option (Z → Z → stM S unit);
  dec_ref_count : option (Z → Z → stM S unit);
  set_gc_threshold : option (Z → stM S unit);
  register_root : option (Z → stM S unit)
}.
Arguments mkRuntimeAllocator {S}.
Arguments name {S}.
Arguments alloc {S}.
Arguments dealloc {S}.
Arguments gc {S}.
Arguments scope_end {S}.
Arguments get_stats {S}.
Arguments init {S}.
Arguments shutdown {S}.
Arguments inc_ref_count {S}.
Arguments dec_ref_count {S}.
Arguments set_gc_threshold {S}.
Arguments register_root {S}.
