(* ===== verification/RefCount.v ===== *)
(** runtime/src/reference_count_allocator.c.

    The heap maps the address of a block's header to the header: the payload is the
    program's and the allocator never reads it.  A block is identified by its header;
    the program holds the address [sizeof_RefcountHeader] bytes further. *)
From S2P Require Import Prelude Errors CppString Allocator.
#[local] Open Scope Z_scope.

Record RefcountHeader := mkRefcountHeader {
  count : Z;
  rc_size : Z;
  to_free : list Z;
  idx : Z
}.

(** Two 8-byte fields, three pointers, an [int] and its padding. *)
Definition sizeof_RefcountHeader : Z := 48.

Definition LLONG_MAX : Z := 2 ^ 63 - 1.
Definition LLONG_MIN : Z := - 2 ^ 63.

Record RC := mkRC {
  rc_stats : AllocatorStats;
  rc_heap : gmap Z RefcountHeader
}.

Definition with_rc_stats (x : AllocatorStats) (s : RC) : RC := mkRC x (rc_heap s).
Definition with_rc_heap (x : gmap Z RefcountHeader) (s : RC) : RC := mkRC (rc_stats s) x.
Definition with_count (c : Z) (h : RefcountHeader) : RefcountHeader :=
  mkRefcountHeader c (rc_size h) (to_free h) (idx h).

(** Reading and writing a header: the address must be that of a live block. *)
Definition load (h : Z) : stM RC RefcountHeader :=
  heap ← gets rc_heap;
  match heap !! h with
  | Some hd => mret hd
  | None => crashM InvalidAccess
  end.

Definition store (h : Z) (hd : RefcountHeader) : stM RC unit :=
  _ ← load h; modify (λ s, with_rc_heap (<[h := hd]> (rc_heap s)) s).

(** The header is written before the result of [malloc] is tested. *)
Definition rc_alloc (env : Env) (bytes : Z) : stM RC Z :=
  let size := size_add bytes sizeof_RefcountHeader in
  let ptr := malloc_result env in
  if decide (ptr = NULL) then crashM NullDeref
  else
    _ ← modify (λ s, with_rc_heap
          (<[ptr := mkRefcountHeader 1 size [NULL; NULL; NULL] 0]> (rc_heap s)) s);
    _ ← modify (λ s, with_rc_stats (stats_alloc size (rc_stats s)) s);
    mret (ptr + sizeof_RefcountHeader).

(** [to_free[idx++] = ptr]. *)
Definition push_free (ptr : Z) (h : RefcountHeader) : RefcountHeader :=
  mkRefcountHeader (count h) (rc_size h) (<[Z.to_nat (idx h) := ptr]> (to_free h)) (idx h + 1).

Definition rc_inc_ref_count (ptr other : Z) : stM RC unit :=
  if decide (ptr = NULL) then mret tt
  else
    let header := ptr - sizeof_RefcountHeader in
    hd ← load header;
    _ ← (if count hd + 1 >? LLONG_MAX then crashM SignedOverflow
         else store header (with_count (count hd + 1) hd));
    if decide (other = NULL) then mret tt
    else
      let otherHeader := other - sizeof_RefcountHeader in
      ohd ← load otherHeader;
      if idx ohd <? 3 then store otherHeader (push_free ptr ohd) else mret tt.

(** The recursion follows [to_free] of blocks whose count has reached zero. *)
Fixpoint rc_dec_ref_count (fuel : nat) (ptr offset : Z) : stM RC unit :=
  match fuel with
  | O => λ _, Diverge
  | S fuel =>
      if decide (ptr = NULL) then mret tt
      else
        let header := ptr - offset - sizeof_RefcountHeader in
        hd ← load header;
        _ ← (if count hd - 1 <? LLONG_MIN then crashM SignedOverflow
             else store header (with_count (count hd - 1) hd));
        hd ← load header;
        if decide (count hd = 0) then
          _ ← forM_ (λ i : nat,
                 hd ← load header;
                 if Z.of_nat i <? idx hd then
                   match to_free hd !! i with
                   | Some p => rc_dec_ref_count fuel p 0
                   | None => crashM InvalidAccess
                   end
                 else mret tt) (seq 0 4);
          hd ← load header;
          _ ← modify (λ s, with_rc_stats (stats_collect (rc_size hd) (rc_stats s)) s);
          modify (λ s, with_rc_heap (delete header (rc_heap s)) s)
        else mret tt
  end.

(** One frame per block, and the call that finds no block to free. *)
Definition dec_fuel (s : RC) : nat := S (size (rc_heap s)).

Definition rc_dec (ptr offset : Z) : stM RC unit := λ s,
  rc_dec_ref_count (dec_fuel s) ptr offset s.

Definition rc_dealloc (ptr : Z) : stM RC unit := mret tt.
Definition rc_gc (env : Env) : stM RC unit := mret tt.
Definition rc_scope_end : stM RC unit := mret tt.
Definition rc_get_stats : stM RC AllocatorStats := gets rc_stats.
Definition rc_init (env : Env) : stM RC unit := modify (with_rc_stats stats_zero).
Definition rc_shutdown (env : Env) : stM RC unit := mret tt.

Definition reference_count_allocator : RuntimeAllocator RC := {|
  name := "Reference-Count GC";
  inc_ref_count := Some rc_inc_ref_count;
  dec_ref_count := Some rc_dec;
  alloc := rc_alloc;
  dealloc := rc_dealloc;
  gc := rc_gc;
  scope_end := Some rc_scope_end;
  get_stats := rc_get_stats;
  init := rc_init;
  shutdown := rc_shutdown;
  set_gc_threshold := None;
  register_root := None
|}.
