(* ===== verification/RefCountProps.v ===== *)
(** The reference-counting allocator: the accounting invariant of counts, release is
    safe and complete, termination, and the limits of the [to_free] array. *)
From S2P Require Import Prelude Errors CppString Allocator RefCount VisitorFrame.
From stdpp Require Import gmultiset.
#[local] Open Scope Z_scope.

(** ** The references the heap holds *)

(** The blocks a header will release, with multiplicity. *)
Definition refs_list (hd : RefcountHeader) : list Z :=
  (λ p, p - sizeof_RefcountHeader) <$> take (Z.to_nat (idx hd)) (to_free hd).
Definition refs (hd : RefcountHeader) : gmultiset Z := list_to_set_disj (refs_list hd).

(** A block being freed (count zero) has given its references up. *)
Definition held (hd : RefcountHeader) : gmultiset Z := if 0 <? count hd then refs hd else ∅.

Definition outs (m : gmap Z RefcountHeader) : gmultiset Z :=
  map_fold (λ _ hd acc, held hd ⊎ acc) ∅ m.

Lemma outs_empty : outs ∅ = ∅.
Proof. apply map_fold_empty. Qed.

Lemma outs_insert m h hd : m !! h = None → outs (<[h := hd]> m) = held hd ⊎ outs m.
Proof.
  intros Hm. unfold outs. rewrite map_fold_insert_L; [done| |done].
  intros. multiset_solver.
Qed.

Lemma outs_delete m h hd : m !! h = Some hd → outs m = held hd ⊎ outs (delete h m).
Proof.
  intros Hm. rewrite <-(outs_insert _ h) by apply lookup_delete_eq. by rewrite insert_delete_id.
Qed.

Lemma outs_update m h hd hd' :
  m !! h = Some hd → outs (<[h := hd']> m) = held hd' ⊎ outs (delete h m).
Proof.
  intros Hm. rewrite <-insert_delete_eq. apply outs_insert, lookup_delete_eq.
Qed.

(** The accounting invariant.  [r] are the references held outside the heap: by the
    program's variables, and by the calls in progress. *)
Definition wf_header (hd : RefcountHeader) : Prop :=
  length (to_free hd) = 3%nat ∧ 0 <= idx hd <= 3.

Record accounts (m : gmap Z RefcountHeader) (r : gmultiset Z) : Prop := {
  ac_count : ∀ h hd, m !! h = Some hd →
    0 < h ∧ wf_header hd ∧ count hd = Z.of_nat (multiplicity h (r ⊎ outs m));
  ac_live : ∀ h, h ∈ r ⊎ outs m → is_Some (m !! h)
}.

(** What a release may do to the heap: free blocks and lower counts, and nothing to a
    block that is being freed. *)
Record releases (m m' : gmap Z RefcountHeader) : Prop := {
  rl_zero : ∀ h hd, m !! h = Some hd → count hd = 0 → m' !! h = Some hd;
  rl_from : ∀ h hd', m' !! h = Some hd' →
    ∃ hd, m !! h = Some hd ∧ hd' = with_count (count hd') hd ∧ count hd' <= count hd ∧
          (count hd' = 0 → count hd = 0)
}.

Lemma with_count_id hd : with_count (count hd) hd = hd.
Proof. by destruct hd. Qed.

Lemma releases_refl m : releases m m.
Proof.
  split; [done|]. intros h hd Hh. exists hd. by rewrite with_count_id.
Qed.

Lemma releases_trans m1 m2 m3 : releases m1 m2 → releases m2 m3 → releases m1 m3.
Proof.
  intros [Z1 F1] [Z2 F2]. split; [eauto|].
  intros h hd3 H3. destruct (F2 _ _ H3) as (hd2 & H2 & E2 & L2 & O2).
  destruct (F1 _ _ H2) as (hd1 & H1 & E1 & L1 & O1). exists hd1.
  split; [done|]. split; [|split; [lia|auto]]. rewrite E2, E1. by destruct hd1.
Qed.

(** The blocks with a positive count bound the depth of the recursion. *)
Definition positive (m : gmap Z RefcountHeader) : nat :=
  size (filter (λ kv : Z * RefcountHeader, 0 < count kv.2) m).

Lemma positive_mono m m' :
  (∀ h hd', m' !! h = Some hd' → 0 < count hd' → ∃ hd, m !! h = Some hd ∧ 0 < count hd) →
  (positive m' ≤ positive m)%nat.
Proof.
  intros Hsub. unfold positive. rewrite <-!size_dom. apply subseteq_size.
  intros h [hd' [Hh Hp]%map_lookup_filter_Some]%elem_of_dom.
  destruct (Hsub _ _ Hh Hp) as (hd & Hm & Hpos). apply elem_of_dom. exists hd.
  by apply map_lookup_filter_Some.
Qed.

Lemma releases_positive m m' : releases m m' → (positive m' ≤ positive m)%nat.
Proof.
  intros [_ F]. apply positive_mono. intros h hd' Hh Hp.
  destruct (F _ _ Hh) as (hd & ? & _ & ? & _). exists hd. split; [done|lia].
Qed.

Lemma positive_le_size m : (positive m ≤ size m)%nat.
Proof. unfold positive. rewrite <-!size_dom. apply subseteq_size, dom_filter_subseteq. Qed.

(** Lowering a positive count to zero takes a block out. *)
Lemma positive_zero m h hd :
  m !! h = Some hd → 0 < count hd → (positive (<[h := with_count 0 hd]> m) < positive m)%nat.
Proof.
  intros Hm Hp. unfold positive. rewrite <-!size_dom. apply subset_size. split.
  - intros x [hd' [Hx Hpx]%map_lookup_filter_Some]%elem_of_dom.
    destruct (decide (x = h)) as [->|Hne].
    + rewrite lookup_insert_eq in Hx. simplify_eq. simpl in Hpx. lia.
    + rewrite lookup_insert_ne in Hx by done. apply elem_of_dom. exists hd'.
      by apply map_lookup_filter_Some.
  - intros Hsub. assert (h ∈ dom (filter (λ kv : Z * RefcountHeader, 0 < count kv.2) m)) as Hin.
    { apply elem_of_dom. exists hd. by apply map_lookup_filter_Some. }
    apply Hsub, elem_of_dom in Hin as [hd' [Hx Hpx]%map_lookup_filter_Some].
    rewrite lookup_insert_eq in Hx. simplify_eq. simpl in Hpx. lia.
Qed.

(** ** The accounting steps *)

Lemma accounts_update m r r' h hd c :
  accounts m r → m !! h = Some hd →
  r' ⊎ outs (<[h := with_count c hd]> m) ⊎ {[+ h +]} = r ⊎ outs m →
  c = count hd - 1 →
  accounts (<[h := with_count c hd]> m) r'.
Proof.
  intros [Hc Hl] Hm Heq ->. set (m' := <[h := with_count (count hd - 1) hd]> m) in *.
  assert (∀ x, multiplicity x (r ⊎ outs m)
               = (multiplicity x (r' ⊎ outs m') + multiplicity x {[+ h +]})%nat) as Hmult.
  { intros x. by rewrite <-Heq, multiplicity_disj_union. }
  split.
  - intros x hx Hx. destruct (decide (x = h)) as [->|Hne]; unfold m' in Hx.
    + rewrite lookup_insert_eq in Hx. injection Hx as <-.
      destruct (Hc _ _ Hm) as (? & Hwf & Hcount). split; [done|]. split; [exact Hwf|].
      simpl. rewrite Hcount, Hmult, multiplicity_singleton, decide_True by done. lia.
    + rewrite lookup_insert_ne in Hx by done. destruct (Hc _ _ Hx) as (? & Hwf & Hcount).
      split; [done|]. split; [exact Hwf|].
      rewrite Hcount, Hmult, multiplicity_singleton, decide_False by done. lia.
  - intros x Hx. destruct (Hl x) as [hx Hhx].
    { rewrite elem_of_multiplicity in *. rewrite Hmult. lia. }
    unfold m'. destruct (decide (x = h)) as [->|Hne].
    + rewrite lookup_insert_eq. eauto.
    + rewrite lookup_insert_ne by done. eauto.
Qed.

Lemma accounts_dec_positive m r h hd :
  accounts m (r ⊎ {[+ h +]}) → m !! h = Some hd → 1 < count hd →
  accounts (<[h := with_count (count hd - 1) hd]> m) r.
Proof.
  intros Ha Hm Hc. eapply accounts_update; [done..| |done].
  rewrite (outs_update _ _ hd), (outs_delete m h hd) by done.
  unfold held. simpl. destruct (Z.ltb_spec 0 (count hd - 1)), (Z.ltb_spec 0 (count hd)); try lia.
  change (refs (with_count (count hd - 1) hd)) with (refs hd). multiset_solver.
Qed.

Lemma accounts_dec_zero m r h hd :
  accounts m (r ⊎ {[+ h +]}) → m !! h = Some hd → count hd = 1 →
  accounts (<[h := with_count 0 hd]> m) (r ⊎ refs hd).
Proof.
  intros Ha Hm Hc. eapply accounts_update; [done..| |lia].
  rewrite (outs_update _ _ hd), (outs_delete m h hd) by done.
  unfold held. simpl. rewrite Hc. simpl. multiset_solver.
Qed.

Lemma accounts_free m r h hd :
  accounts m r → m !! h = Some hd → count hd = 0 → accounts (delete h m) r.
Proof.
  intros [Hc Hl] Hm Hz.
  assert (outs m = outs (delete h m)) as Ho.
  { rewrite (outs_delete m h hd) by done. unfold held. rewrite Hz. simpl. multiset_solver. }
  rewrite Ho in *. split.
  - intros x hx [_ Hx]%lookup_delete_Some. by apply Hc.
  - intros x Hx. rewrite lookup_delete_ne; [by apply Hl|]. intros <-.
    destruct (Hc _ _ Hm) as (_ & _ & Hcount). rewrite elem_of_multiplicity in Hx. lia.
Qed.

Lemma load_live s h hd : rc_heap s !! h = Some hd → load h s = Ret (hd, s).
Proof. intros Hh. unfold load, mbind, stM_bind, gets. by rewrite Hh. Qed.

Lemma store_live s h hd hd' :
  rc_heap s !! h = Some hd →
  store h hd' s = Ret (tt, with_rc_heap (<[h := hd']> (rc_heap s)) s).
Proof. intros Hh. unfold store. by rewrite (bind_step _ _ _ _ _ (load_live _ _ _ Hh)). Qed.

(** ** Release *)

(** One round of the loop over [to_free]. *)
Definition free_step (fuel : nat) (header : Z) (i : nat) : stM RC unit :=
  hd ← load header;
  if Z.of_nat i <? idx hd then
    match to_free hd !! i with
    | Some p => rc_dec_ref_count fuel p 0
    | None => crashM InvalidAccess
    end
  else mret tt.

(** A release by a call with this fuel is accounted for. *)
Definition dec_ok (fuel : nat) : Prop := ∀ s ptr offset r,
  let h := ptr - offset - sizeof_RefcountHeader in
  ptr ≠ NULL → accounts (rc_heap s) (r ⊎ {[+ h +]}) → (positive (rc_heap s) < fuel)%nat →
  ∃ s', rc_dec_ref_count fuel ptr offset s = Ret (tt, s') ∧
        accounts (rc_heap s') r ∧ releases (rc_heap s) (rc_heap s').

Lemma refs_list_drop hd i :
  wf_header hd →
  drop i (refs_list hd)
  = if Z.of_nat i <? idx hd
    then match to_free hd !! i with
         | Some p => (p - sizeof_RefcountHeader) :: drop (S i) (refs_list hd)
         | None => []
         end
    else [].
Proof.
  intros [Hlen Hidx]. unfold refs_list.
  destruct (Z.ltb_spec (Z.of_nat i) (idx hd)) as [Hi|Hi].
  - destruct (to_free hd !! i) as [p|] eqn:E.
    + erewrite drop_S; [done|]. rewrite list_lookup_fmap, lookup_take_lt by lia. by rewrite E.
    + apply lookup_ge_None in E. lia.
  - apply drop_ge. rewrite length_fmap, length_take. lia.
Qed.

Lemma free_loop fuel h hd :
  dec_ok fuel → wf_header hd → count hd = 0 → ∀ n i s r, (i + n = 4)%nat →
  rc_heap s !! h = Some hd → (positive (rc_heap s) < fuel)%nat →
  accounts (rc_heap s) (r ⊎ list_to_set_disj (drop i (refs_list hd))) →
  ∃ s', forM_ (free_step fuel h) (seq i n) s = Ret (tt, s') ∧
        accounts (rc_heap s') r ∧ releases (rc_heap s) (rc_heap s').
Proof.
  intros Hdec Hwf Hz. induction n as [|n IH]; intros i s r Hi Hh Hp Ha.
  - exists s. split; [done|]. split; [|apply releases_refl].
    rewrite refs_list_drop in Ha by done. destruct Hwf as [_ ?].
    destruct (Z.ltb_spec (Z.of_nat i) (idx hd)); [lia|].
    by rewrite list_to_set_disj_nil, right_id_L in Ha by apply _.
  - cbn [seq forM_]. rewrite refs_list_drop in Ha by done.
    destruct (Z.ltb_spec (Z.of_nat i) (idx hd)) as [Hlt|Hge].
    + destruct (to_free hd !! i) as [p|] eqn:E.
      2:{ apply lookup_ge_None in E. destruct Hwf. lia. }
      rewrite list_to_set_disj_cons in Ha.
      set (x := p - sizeof_RefcountHeader) in *.
      set (r1 := r ⊎ list_to_set_disj (drop (S i) (refs_list hd))).
      assert (accounts (rc_heap s) (r1 ⊎ {[+ p - 0 - sizeof_RefcountHeader +]})) as Ha1.
      { replace (p - 0 - sizeof_RefcountHeader) with x by (unfold x; lia).
        replace (r1 ⊎ {[+ x +]})
          with (r ⊎ ({[+ x +]} ⊎ list_to_set_disj (drop (S i) (refs_list hd))))
          by (unfold r1; multiset_solver). exact Ha. }
      destruct (ac_live _ _ Ha x) as [hx Hx]; [multiset_solver|].
      destruct (ac_count _ _ Ha x hx Hx) as (Hpos & _ & _).
      destruct (Hdec s p 0 r1) as (s1 & H1 & A1 & R1); [|exact Ha1|exact Hp|].
      { unfold x, NULL, sizeof_RefcountHeader in *. lia. }
      destruct (IH (S i) s1 r) as (s2 & H2 & A2 & R2); [lia| | |exact A1|].
      * by apply (rl_zero _ _ R1).
      * pose proof (releases_positive _ _ R1). lia.
      * exists s2. split; [|split; [done|by eapply releases_trans]].
        rewrite (bind_step _ _ s tt s1); [exact H2|].
        unfold free_step. rewrite (bind_step _ _ _ _ _ (load_live _ _ _ Hh)).
        by rewrite (proj2 (Z.ltb_lt _ _)), E.
    + destruct (IH (S i) s r) as (s2 & H2 & A2 & R2); [lia|done|done| |].
      { rewrite refs_list_drop by done. by rewrite (proj2 (Z.ltb_ge _ _)) by lia. }
      exists s2. split; [|done]. rewrite (bind_step _ _ s tt s); [exact H2|].
      unfold free_step. rewrite (bind_step _ _ _ _ _ (load_live _ _ _ Hh)).
      by rewrite (proj2 (Z.ltb_ge _ _)).
Qed.

Lemma releases_count m h hd c :
  m !! h = Some hd → 0 < c < count hd → releases m (<[h := with_count c hd]> m).
Proof.
  intros Hm Hc. split.
  - intros x hx Hx Hz. rewrite lookup_insert_ne; [done|]. intros <-. simplify_eq. lia.
  - intros x hx Hx. destruct (decide (x = h)) as [->|Hne].
    + rewrite lookup_insert_eq in Hx. injection Hx as <-. exists hd. simpl.
      split; [done|]. split; [done|]. lia.
    + rewrite lookup_insert_ne in Hx by done. exists hx. by rewrite with_count_id.
Qed.

(** Freeing a block: its count went to zero, its references were released, it is gone. *)
Lemma releases_free m m' h hd :
  m !! h = Some hd → 0 < count hd → releases (<[h := with_count 0 hd]> m) m' →
  releases m (delete h m').
Proof.
  intros Hm Hp [Z F]. split.
  - intros x hx Hx Hz. assert (x ≠ h) by (intros ->; simplify_eq; lia).
    rewrite lookup_delete_ne by done. apply Z; [|done]. by rewrite lookup_insert_ne.
  - intros x hx [Hne Hx]%lookup_delete_Some. destruct (F _ _ Hx) as (hy & Hy & ?).
    rewrite lookup_insert_ne in Hy by done. eauto.
Qed.

Lemma rc_dec_accounts fuel : dec_ok fuel.
Proof.
  induction fuel as [|fuel IH]; intros s ptr offset r h Hn Ha Hp; [lia|].
  destruct (ac_live _ _ Ha h) as [hd Hh]; [multiset_solver|].
  destruct (ac_count _ _ Ha h hd Hh) as (Hpos & Hwf & Hcount).
  assert (0 < count hd) as Hcp.
  { rewrite Hcount, !multiplicity_disj_union, multiplicity_singleton, decide_True by done. lia. }
  cbn [rc_dec_ref_count]. rewrite decide_False by done. fold h.
  rewrite (bind_step _ _ _ _ _ (load_live _ _ _ Hh)).
  destruct (Z.ltb_spec (count hd - 1) LLONG_MIN) as [Hmin|_]; [unfold LLONG_MIN in Hmin; lia|].
  rewrite (bind_step _ _ _ _ _ (store_live _ _ _ _ Hh)).
  set (s1 := with_rc_heap _ s).
  assert (rc_heap s1 !! h = Some (with_count (count hd - 1) hd)) as H1 by apply lookup_insert_eq.
  rewrite (bind_step _ _ _ _ _ (load_live _ _ _ H1)). cbn [count with_count].
  case_decide as Hz.
  2:{ exists s1. split; [done|]. split.
      - apply accounts_dec_positive; [done..|lia].
      - apply releases_count; [done|lia]. }
  assert (count hd = 1) as Hone by lia. rewrite Hz in H1.
  assert (rc_heap s1 = <[h := with_count 0 hd]> (rc_heap s)) as Hs1 by (unfold s1; by rewrite Hz).
  destruct (free_loop fuel h (with_count 0 hd) IH Hwf eq_refl 4 0 s1 r eq_refl H1)
    as (s2 & H2 & A2 & R2).
  - rewrite Hs1. pose proof (positive_zero _ _ _ Hh Hcp). lia.
  - rewrite Hs1. by apply accounts_dec_zero.
  - fold (free_step fuel h) in *. change (forM_ _ (seq 0 4)) with (forM_ (free_step fuel h) (seq 0 4)).
    rewrite (bind_step _ _ _ _ _ H2).
    pose proof (rl_zero _ _ R2 _ _ H1 eq_refl) as Hh2.
    rewrite (bind_step _ _ _ _ _ (load_live _ _ _ Hh2)). rewrite bind_modify.
    eexists. split; [reflexivity|]. simpl. split.
    + by eapply accounts_free.
    + rewrite Hs1 in R2. by eapply releases_free.
Qed.

(** ** The operations *)

Lemma dec_fuel_enough s : (positive (rc_heap s) < dec_fuel s)%nat.
Proof. unfold dec_fuel. pose proof (positive_le_size (rc_heap s)). lia. Qed.

(** C7. Releasing a reference is safe and complete.  On a heap whose counts are the
    references held by the program and by the blocks, giving up a reference the program
    holds returns, touches no dead block, leaves such a heap for the other references,
    so no block that is still referenced is freed, and, when every block was referenced, so
    is every block that is left. *)
Theorem rc_release s ptr offset r :
  let h := ptr - offset - sizeof_RefcountHeader in
  ptr ≠ NULL → accounts (rc_heap s) (r ⊎ {[+ h +]}) →
  ∃ s', rc_dec ptr offset s = Ret (tt, s') ∧ accounts (rc_heap s') r ∧
    (∀ x, x ∈ r ⊎ outs (rc_heap s') → is_Some (rc_heap s' !! x)) ∧
    (map_Forall (λ _ hd, 0 < count hd) (rc_heap s) →
     map_Forall (λ _ hd, 0 < count hd) (rc_heap s')).
Proof.
  intros h Hn Ha.
  destruct (rc_dec_accounts (dec_fuel s) s ptr offset r Hn Ha (dec_fuel_enough s))
    as (s' & Hr & A & [_ F]).
  exists s'. split; [exact Hr|]. split; [exact A|]. split; [apply (ac_live _ _ A)|].
  intros Hall x hd' Hx. destruct (F _ _ Hx) as (hd & Hh & _ & _ & Hz).
  pose proof (Hall _ _ Hh) as Hpos. simpl in Hpos |- *.
  destruct (ac_count _ _ A _ _ Hx) as (_ & _ & Hc).
  destruct (decide (count hd' = 0)) as [e|]; [specialize (Hz e)|]; lia.
Qed.

(** [a] holds [b], the program holds [a]. *)
Definition two_blocks : RC := mkRC stats_zero
  {[100 := mkRefcountHeader 1 56 [248; 0; 0] 1; 200 := mkRefcountHeader 1 56 [0; 0; 0] 0]}.

Lemma two_blocks_accounts : accounts (rc_heap two_blocks) (∅ ⊎ {[+ 100 +]}).
Proof.
  assert (outs (rc_heap two_blocks) = {[+ 200 +]}) as Ho by (vm_compute; reflexivity).
  split.
  - intros h hd Hh. rewrite Ho. simpl in Hh.
    apply lookup_insert_Some in Hh as [[<- <-]|[_ [<- <-]%lookup_singleton_Some]];
      (split; [lia|]; split; [split; [done|simpl; lia]|]); vm_compute; reflexivity.
  - intros h. rewrite Ho. intros Hin.
    assert (h = 100 ∨ h = 200) as [->| ->] by multiset_solver; vm_compute; eauto.
Qed.

Lemma rc_release_witness :
  ∃ s', rc_dec 148 0 two_blocks = Ret (tt, s') ∧ accounts (rc_heap s') ∅.
Proof.
  destruct (rc_release two_blocks 148 0 ∅) as (s' & H & A & _).
  - discriminate.
  - exact two_blocks_accounts.
  - exists s'. split; [exact H|exact A].
Defined.

(** ** Termination on any heap *)
Definition stops (P : RC → Prop) (o : outcome (unit * RC)) : Prop :=
  match o with Ret (_, s') => P s' | Diverge => False | _ => True end.

Lemma stops_bind (P Q : RC → Prop) (m : stM RC unit) (k : unit → stM RC unit) s :
  stops P (m s) → (∀ u s', P s' → stops Q (k u s')) → stops Q ((m ≫= k) s).
Proof.
  unfold mbind, stM_bind. intros Hm Hk. destruct (m s) as [[u s']| | |]; simpl in *; auto.
Qed.

Lemma stops_load (P : RC → Prop) h (k : RefcountHeader → stM RC unit) s :
  (∀ hd, rc_heap s !! h = Some hd → stops P (k hd s)) → stops P ((load h ≫= k) s).
Proof.
  intros Hk. unfold load, mbind, stM_bind, gets.
  destruct (rc_heap s !! h) as [hd|] eqn:E; simpl; [by apply Hk|done].
Qed.

Definition within (n : nat) (s : RC) : Prop := (positive (rc_heap s) ≤ n)%nat.

Lemma rc_dec_stops fuel : ∀ s ptr offset n, within n s → (n < fuel)%nat →
  stops (within n) (rc_dec_ref_count fuel ptr offset s).
Proof.
  induction fuel as [|fuel IH]; intros s ptr offset n Hn Hf; [lia|].
  cbn [rc_dec_ref_count]. case_decide; [exact Hn|].
  set (h := ptr - offset - sizeof_RefcountHeader).
  apply stops_load. intros hd Hh.
  destruct (Z.ltb_spec (count hd - 1) LLONG_MIN) as [_|_]; [done|].
  rewrite (bind_step _ _ _ _ _ (store_live _ _ _ _ Hh)).
  set (s1 := with_rc_heap _ s).
  assert (rc_heap s1 !! h = Some (with_count (count hd - 1) hd)) as H1 by apply lookup_insert_eq.
  assert (positive (rc_heap s1) ≤ positive (rc_heap s))%nat as Hle.
  { apply positive_mono. intros x hx Hx Hp. unfold s1 in Hx. simpl in Hx.
    destruct (decide (x = h)) as [->|Hne].
    - rewrite lookup_insert_eq in Hx. injection Hx as <-. simpl in Hp. exists hd. split; [done|lia].
    - rewrite lookup_insert_ne in Hx by done. eauto. }
  rewrite (bind_step _ _ _ _ _ (load_live _ _ _ H1)). cbn [count with_count].
  case_decide as Hz; [|unfold stops, within, mret, stM_ret in *; lia].
  assert (within (pred n) s1 ∧ (0 < n)%nat) as [Hn1 Hn0].
  { assert (positive (rc_heap s1) < positive (rc_heap s))%nat; [|unfold within in *; lia].
    unfold s1. simpl. rewrite Hz. apply positive_zero; [done|lia]. }
  apply (stops_bind (within (pred n))).
  - clear H1 Hle. clearbody s1. clear Hz Hh.
    generalize (seq 0 4) as l. intros l. revert s1 Hn1.
    induction l as [|i l IHl]; intros s1 Hn1; [exact Hn1|].
    cbn [forM_]. apply (stops_bind (within (pred n))); [|intros _; apply IHl].
    apply stops_load. intros hd1 _. destruct (Z.of_nat i <? idx hd1); [|exact Hn1].
    destruct (to_free hd1 !! i) as [p|]; [|done]. apply IH; [done|lia].
  - intros _ s2 Hn2. apply stops_load. intros hd2 Hh2. rewrite bind_modify.
    unfold stops, modify, within in *. simpl.
    assert (positive (delete h (rc_heap s2)) ≤ positive (rc_heap s2))%nat; [|lia].
    apply positive_mono. intros x hx [_ Hx]%lookup_delete_Some ?. eauto.
Qed.

(** C33. Release terminates.  From any state, whatever the counts, the cycles and the
    [to_free] arrays are, the recursion of [dec_ref_count] ends: a frame that recurses has
    taken a block's count to zero, so there is at most one per block. *)
Theorem rc_dec_terminates s ptr offset : rc_dec ptr offset s ≠ Diverge.
Proof.
  intros Hd.
  pose proof (rc_dec_stops (dec_fuel s) s ptr offset (positive (rc_heap s)) (le_n _)
                (dec_fuel_enough s)) as Hs.
  unfold rc_dec in Hd. by rewrite Hd in Hs.
Qed.

(** ** Acquisition and allocation *)

Lemma accounts_alloc m r h hd :
  accounts m r → m !! h = None → 0 < h → count hd = 1 → wf_header hd → refs hd = ∅ →
  accounts (<[h := hd]> m) (r ⊎ {[+ h +]}).
Proof.
  intros [Hc Hl] Hm Hh Hone Hwf Hrefs.
  assert (outs (<[h := hd]> m) = outs m) as Ho.
  { rewrite outs_insert by done. unfold held. rewrite Hone, Hrefs. simpl. multiset_solver. }
  assert (multiplicity h (r ⊎ outs m) = 0%nat) as Hzero.
  { destruct (decide (h ∈ r ⊎ outs m)) as [Hin|Hnin].
    - destruct (Hl _ Hin) as [? ?]. congruence.
    - rewrite elem_of_multiplicity in Hnin. lia. }
  rewrite multiplicity_disj_union in Hzero. split.
  - intros x hx Hx. rewrite Ho, !multiplicity_disj_union, multiplicity_singleton.
    apply lookup_insert_Some in Hx as [[<- <-]|[Hne Hx]].
    + split; [done|]. split; [done|]. rewrite decide_True by done. lia.
    + destruct (Hc _ _ Hx) as (? & ? & Hcount). rewrite multiplicity_disj_union in Hcount.
      split; [done|]. split; [done|]. rewrite decide_False by done. lia.
  - intros x. rewrite Ho. intros Hx. destruct (decide (x = h)) as [->|Hne].
    + rewrite lookup_insert_eq. eauto.
    + rewrite lookup_insert_ne by done. apply Hl. multiset_solver.
Qed.

Lemma rc_alloc_result s env bytes :
  0 < malloc_result env →
  rc_alloc env bytes s =
    let size := size_add bytes sizeof_RefcountHeader in
    Ret (malloc_result env + sizeof_RefcountHeader,
         mkRC (stats_alloc size (rc_stats s))
              (<[malloc_result env := mkRefcountHeader 1 size [NULL; NULL; NULL] 0]> (rc_heap s))).
Proof. intros Hp. unfold rc_alloc. rewrite decide_False by (unfold NULL; lia). done. Qed.

(** Allocation.  When [malloc] gives a block that is not in use, the program owns one
    reference to it, past its header; when [malloc] fails, the header is written through
    the null pointer before the test. *)
Theorem rc_alloc_owns s env bytes r :
  accounts (rc_heap s) r →
  let p := malloc_result env in
  (p = NULL → rc_alloc env bytes s = Crash NullDeref) ∧
  (0 < p → rc_heap s !! p = None →
   ∃ s', rc_alloc env bytes s = Ret (p + sizeof_RefcountHeader, s') ∧
         accounts (rc_heap s') (r ⊎ {[+ p +]}) ∧
         rc_stats s' = stats_alloc (size_add bytes sizeof_RefcountHeader) (rc_stats s)).
Proof.
  intros Ha p. split.
  - intros Hp. unfold rc_alloc. by rewrite decide_True.
  - intros Hp Hfresh. rewrite rc_alloc_result by done.
    eexists. split; [reflexivity|]. split; [|done]. simpl. by apply accounts_alloc.
Qed.

Lemma rc_alloc_owns_witness :
  ∃ s', rc_alloc (mkEnv 300 0) 8 two_blocks = Ret (348, s') ∧
        accounts (rc_heap s') (∅ ⊎ {[+ 100 +]} ⊎ {[+ 300 +]}).
Proof.
  destruct (rc_alloc_owns two_blocks (mkEnv 300 0) 8 _ two_blocks_accounts) as [_ H].
  destruct H as (s' & H & A & _); [reflexivity|vm_compute; reflexivity|].
  exists s'. split; [exact H|exact A].
Defined.

Lemma accounts_inc m r h hd :
  accounts m r → m !! h = Some hd → 0 < count hd →
  accounts (<[h := with_count (count hd + 1) hd]> m) (r ⊎ {[+ h +]}).
Proof.
  intros [Hc Hl] Hm Hp.
  assert (outs (<[h := with_count (count hd + 1) hd]> m) = outs m) as Ho.
  { rewrite (outs_update _ _ hd), (outs_delete m h hd) by done. unfold held. simpl.
    rewrite !(proj2 (Z.ltb_lt _ _)) by lia. done. }
  split.
  - intros x hx Hx. rewrite Ho, !multiplicity_disj_union, multiplicity_singleton.
    apply lookup_insert_Some in Hx as [[<- <-]|[Hne Hx]].
    + destruct (Hc _ _ Hm) as (? & ? & Hcount). rewrite multiplicity_disj_union in Hcount.
      split; [done|]. split; [done|]. rewrite decide_True by done. simpl. lia.
    + destruct (Hc _ _ Hx) as (? & ? & Hcount). rewrite multiplicity_disj_union in Hcount.
      split; [done|]. split; [done|]. rewrite decide_False by done. lia.
  - intros x. rewrite Ho. intros Hx. destruct (decide (x = h)) as [->|Hne].
    + rewrite lookup_insert_eq. eauto.
    + rewrite lookup_insert_ne by done. apply Hl. multiset_solver.
Qed.

Lemma refs_push ptr hd :
  wf_header hd → idx hd < 3 →
  refs (push_free ptr hd) = refs hd ⊎ {[+ ptr - sizeof_RefcountHeader +]} ∧
  wf_header (push_free ptr hd).
Proof.
  intros [Hlen Hidx] Hlt. split.
  - unfold refs, refs_list, push_free. cbn [to_free idx].
    replace (Z.to_nat (idx hd + 1)) with (S (Z.to_nat (idx hd))) by lia.
    rewrite (take_S_r _ _ ptr) by (apply list_lookup_insert_eq; lia).
    rewrite take_insert_ge by lia. rewrite fmap_app. simpl.
    rewrite list_to_set_disj_app. simpl. multiset_solver.
  - split; simpl; [by rewrite length_insert|lia].
Qed.

(** The program's reference to [h] becomes a reference of the block [o]. *)
Lemma accounts_push m r h o hd :
  accounts m (r ⊎ {[+ h +]}) → m !! o = Some hd → 0 < count hd → idx hd < 3 →
  accounts (<[o := push_free (h + sizeof_RefcountHeader) hd]> m) r.
Proof.
  intros [Hc Hl] Hm Hp Hi. destruct (Hc _ _ Hm) as (Ho & Hwf & Hcount).
  destruct (refs_push (h + sizeof_RefcountHeader) hd Hwf Hi) as [Hrefs Hwf'].
  replace (h + sizeof_RefcountHeader - sizeof_RefcountHeader) with h in Hrefs by lia.
  set (hd' := push_free _ _) in *.
  assert (r ⊎ outs (<[o := hd']> m) = r ⊎ {[+ h +]} ⊎ outs m) as Heq.
  { rewrite (outs_update _ _ hd), (outs_delete m o hd) by done. unfold held.
    change (count hd') with (count hd). rewrite !(proj2 (Z.ltb_lt _ _)) by lia.
    rewrite Hrefs. multiset_solver. }
  split.
  - intros x hx Hx. rewrite Heq.
    apply lookup_insert_Some in Hx as [[<- <-]|[Hne Hx]]; [|by apply Hc]. done.
  - intros x. rewrite Heq. intros Hx. destruct (decide (x = o)) as [->|Hne].
    + rewrite lookup_insert_eq. eauto.
    + rewrite lookup_insert_ne by done. by apply Hl.
Qed.

(** [rc_inc_ref_count] on live blocks. *)
Definition incremented (h : Z) (m : gmap Z RefcountHeader) : gmap Z RefcountHeader :=
  alter (λ hd, with_count (count hd + 1) hd) h m.

Lemma incremented_insert h hd m :
  m !! h = Some hd → incremented h m = <[h := with_count (count hd + 1) hd]> m.
Proof.
  intros Hh. apply map_eq. intros x. unfold incremented.
  rewrite lookup_alter, lookup_insert. case_decide; [|done]. subst. by rewrite Hh.
Qed.

Lemma incremented_idx h o ohd m :
  m !! o = Some ohd →
  ∃ ohd', incremented h m !! o = Some ohd' ∧ idx ohd' = idx ohd ∧ to_free ohd' = to_free ohd ∧
          count ohd <= count ohd' ∧ rc_size ohd' = rc_size ohd.
Proof.
  intros Ho. unfold incremented. rewrite lookup_alter.
  case_decide; [subst|]; rewrite Ho; simpl; eexists; (split; [reflexivity|]); simpl;
    split_and!; done || lia.
Qed.

Lemma rc_inc_step s h hd other :
  0 < h → rc_heap s !! h = Some hd → count hd < LLONG_MAX →
  rc_inc_ref_count (h + sizeof_RefcountHeader) other s
  = (if decide (other = NULL) then mret tt
     else ohd ← load (other - sizeof_RefcountHeader);
          if idx ohd <? 3
          then store (other - sizeof_RefcountHeader) (push_free (h + sizeof_RefcountHeader) ohd)
          else mret tt) (with_rc_heap (incremented h (rc_heap s)) s).
Proof.
  intros Hp Hh Hc. unfold rc_inc_ref_count.
  rewrite decide_False by (unfold NULL, sizeof_RefcountHeader; lia).
  replace (h + sizeof_RefcountHeader - sizeof_RefcountHeader) with h by lia.
  rewrite (bind_step _ _ _ _ _ (load_live _ _ _ Hh)), (incremented_insert _ hd) by done.
  destruct (Z.gtb_spec (count hd + 1) LLONG_MAX); [lia|].
  by rewrite (bind_step _ _ _ _ _ (store_live _ _ _ _ Hh)).
Qed.

Lemma rc_inc_other s h hd o ohd :
  0 < h → 0 < o → rc_heap s !! h = Some hd → count hd < LLONG_MAX →
  incremented h (rc_heap s) !! o = Some ohd →
  rc_inc_ref_count (h + sizeof_RefcountHeader) (o + sizeof_RefcountHeader) s
  = Ret (tt, with_rc_heap
               (if idx ohd <? 3
                then <[o := push_free (h + sizeof_RefcountHeader) ohd]> (incremented h (rc_heap s))
                else incremented h (rc_heap s)) s).
Proof.
  intros Hp Hpo Hh Hc Ho. rewrite (rc_inc_step _ _ hd) by done.
  rewrite decide_False by (unfold NULL, sizeof_RefcountHeader; lia).
  replace (o + sizeof_RefcountHeader - sizeof_RefcountHeader) with o by lia.
  rewrite (bind_step _ _ _ ohd _ (load_live (with_rc_heap _ s) o ohd Ho)).
  destruct (idx ohd <? 3); [|done].
  by rewrite (store_live (with_rc_heap _ s) o ohd _ Ho).
Qed.

Lemma accounts_incremented m r h hd :
  accounts m r → m !! h = Some hd → 0 < count hd →
  accounts (incremented h m) (r ⊎ {[+ h +]}).
Proof. intros. rewrite (incremented_insert _ hd) by done. by apply accounts_inc. Qed.

(** Acquiring a reference.  On a live block the count goes up by one; the new
    reference is the program's, or, when it is stored in another live block with a free
    slot, that block's.  When the three slots are taken it is nobody's: the count is up and
    no release will take it down.  [NULL] is ignored. *)
Theorem rc_acquire s h o hd ohd r :
  accounts (rc_heap s) r →
  map_Forall (λ _ hd, 0 < count hd < LLONG_MAX) (rc_heap s) →
  rc_heap s !! h = Some hd → rc_heap s !! o = Some ohd →
  let ptr := h + sizeof_RefcountHeader in
  let other := o + sizeof_RefcountHeader in
  (∃ s', rc_inc_ref_count ptr NULL s = Ret (tt, s') ∧
         accounts (rc_heap s') (r ⊎ {[+ h +]})) ∧
  (∃ s', rc_inc_ref_count ptr other s = Ret (tt, s') ∧
         accounts (rc_heap s') (if idx ohd <? 3 then r else r ⊎ {[+ h +]})) ∧
  rc_inc_ref_count NULL other s = Ret (tt, s).
Proof.
  intros Ha Hall Hh Ho ptr other; subst ptr other.
  destruct (ac_count _ _ Ha _ _ Hh) as (Hph & _ & _), (ac_count _ _ Ha _ _ Ho) as (Hpo & _ & _).
  pose proof (Hall _ _ Hh) as Hc. simpl in Hc. pose proof (Hall _ _ Ho) as Hco. simpl in Hco.
  pose proof (accounts_incremented _ _ _ _ Ha Hh ltac:(lia)) as A1.
  destruct (incremented_idx h o ohd _ Ho) as (ohd1 & Ho1 & Hidx & _ & Hc1 & _).
  split; [|split; [|done]].
  - rewrite (rc_inc_step _ _ hd) by (done || lia). eexists. split; [reflexivity|]. exact A1.
  - rewrite (rc_inc_other _ _ hd _ ohd1) by (done || lia). eexists. split; [reflexivity|].
    rewrite Hidx. destruct (Z.ltb_spec (idx ohd) 3); [|exact A1].
    apply accounts_push; [done..|lia|lia].
Qed.

Lemma rc_acquire_witness :
  ∃ s', rc_inc_ref_count 248 148 two_blocks = Ret (tt, s') ∧
        accounts (rc_heap s') (∅ ⊎ {[+ 100 +]}).
Proof.
  destruct (rc_acquire two_blocks 200 100 (mkRefcountHeader 1 56 [0; 0; 0] 0)
              (mkRefcountHeader 1 56 [248; 0; 0] 1) _ two_blocks_accounts) as (_ & H & _).
  - apply (bool_decide_unpack _). vm_compute. exact I.
  - vm_compute. reflexivity.
  - vm_compute. reflexivity.
  - destruct H as (s' & H & A). exists s'. split; [exact H|exact A].
Defined.

(** ** What is never reclaimed *)

(** The blocks left after a sequence of operations. *)
Definition rc_run (ops : list (stM RC unit)) : outcome (list Z) :=
  r ← forM_ id ops (mkRC stats_zero ∅);
  Ret ((map_to_list (rc_heap r.2)).*1).

Definition rc_new (p : Z) : stM RC unit := _ ← rc_alloc (mkEnv p 0) 8; mret tt.

(** Leaks of the counting scheme.  Two blocks that hold each other stay allocated when
    the program has released both; and a block that holds four others and is released with
    them reclaims three, because [to_free] has three slots. *)
Theorem rc_leaks :
  rc_run [rc_new 100; rc_new 200; rc_inc_ref_count 148 248; rc_inc_ref_count 248 148;
          rc_dec 148 0; rc_dec 248 0] = Ret [100; 200] ∧
  rc_run ([rc_new 100; rc_new 200; rc_new 300; rc_new 400; rc_new 500]
            ++ ((λ p, rc_inc_ref_count p 148) <$> [248; 348; 448; 548])
            ++ ((λ p, rc_dec p 0) <$> [248; 348; 448; 548; 148])) = Ret [500].
Proof. split; vm_compute; reflexivity. Qed.
