(* ===== verification/RefCountClient.v ===== *)
(** Programs over the reference-counting allocator.

    A client calls the allocator and keeps the ledger of the references it holds.  From
    [rc_init], along every sequence of calls that releases only what is held, stores only
    in a block with a free slot and closes no cycle, the heap is what the client can reach,
    the statistics are the sums they claim to be, and giving up what is held empties it. *)
From S2P Require Import Prelude Errors CppString Allocator RefCount VisitorFrame RefCountProps.
From stdpp Require Import gmultiset relations.
#[local] Open Scope Z_scope.

(** ** The graph of the heap *)
Definition edge (m : gmap Z RefcountHeader) (o h : Z) : Prop :=
  ∃ hd, m !! o = Some hd ∧ h ∈ refs hd.
Definition acyclic_heap (m : gmap Z RefcountHeader) : Prop := ∀ h, ¬ tc (edge m) h h.

Lemma acyclic_heap_mono m m' :
  (∀ o h, edge m' o h → edge m o h) → acyclic_heap m → acyclic_heap m'.
Proof. intros Hsub Ha h Hh. apply (Ha h). revert Hh. by apply (tc_congruence id). Qed.

Lemma tc_flip {A} (R : relation A) x y : tc (flip R) x y → tc R y x.
Proof. induction 1 as [x y H|x y z H _ IH]; [by apply tc_once|by eapply tc_r]. Qed.

(** One more edge makes no cycle when its source is not reachable from its target. *)
Lemma acyclic_heap_add m m' o h :
  (∀ x y, edge m' x y → edge m x y ∨ (x = o ∧ y = h)) → ¬ rtc (edge m) h o →
  acyclic_heap m → acyclic_heap m'.
Proof.
  intros Hsub Hn Ha.
  assert (∀ x y, tc (edge m') x y → tc (edge m) x y ∨ (rtc (edge m) x o ∧ rtc (edge m) h y))
    as Htc.
  { induction 1 as [x y [He|[-> ->]]%Hsub|x y z [He|[-> ->]]%Hsub _ [IH|[IH1 IH2]]].
    - left. by apply tc_once.
    - by right.
    - left. by eapply tc_l.
    - right. split; [by eapply rtc_l|done].
    - right. split; [done|by apply tc_rtc].
    - right. by split. }
  intros x [Hx|[H1 H2]]%Htc; [by apply (Ha x)|]. apply Hn. by etrans.
Qed.

Lemma elem_of_outs m h : h ∈ outs m ↔ ∃ o hd, m !! o = Some hd ∧ h ∈ held hd.
Proof.
  induction m as [|o hd m Hm IH] using map_ind.
  - rewrite outs_empty. split; [multiset_solver|]. intros (o & hd & [=] & _).
  - rewrite outs_insert by done. rewrite gmultiset_elem_of_disj_union, IH. split.
    + intros [Hh|(o' & hd' & Ho' & Hh)]; [exists o, hd; by rewrite lookup_insert_eq|].
      exists o', hd'. split; [|done]. rewrite lookup_insert_ne; [done|]. intros ->. congruence.
    + intros (o' & hd' & [[<- <-]|[_ Ho']]%lookup_insert_Some & Hh); eauto.
Qed.

Lemma edge_outs m o h : map_Forall (λ _ hd, 0 < count hd) m → edge m o h → h ∈ outs m.
Proof.
  intros Hpos (hd & Ho & Hh). apply elem_of_outs. exists o, hd. split; [done|].
  unfold held. rewrite (proj2 (Z.ltb_lt _ _)); [done|]. apply (Hpos _ _ Ho).
Qed.

Lemma outs_edge m h : h ∈ outs m → ∃ o, edge m o h.
Proof.
  intros (o & hd & Ho & Hh)%elem_of_outs. exists o, hd. split; [done|]. unfold held in Hh.
  destruct (0 <? count hd); [done|multiset_solver].
Qed.

(** The references can be followed backwards from a block a finite number of times. *)
Lemma acyclic_heap_sn m h : acyclic_heap m → sn (flip (edge m)) h.
Proof.
  intros Ha. apply tc_finite_sn.
  - intros x Hx. apply (Ha x). by apply tc_flip.
  - exists (elements (dom m)). intros x Hx. apply elem_of_elements, elem_of_dom.
    apply tc_flip in Hx. destruct Hx as [x y (hd & ? & _)|x y z (hd & ? & _) _]; eauto.
Qed.

(** On a heap whose counts are right, positive, and which has no cycle, the live blocks are
    the ones the references [r] reach. *)
Lemma live_reachable m r h :
  accounts m r → map_Forall (λ _ hd, 0 < count hd) m → acyclic_heap m →
  is_Some (m !! h) ↔ ∃ root, root ∈ r ∧ rtc (edge m) root h.
Proof.
  intros Ha Hpos Hc. split.
  - induction (acyclic_heap_sn m h Hc) as [h _ IH]. intros [hd Hh].
    destruct (ac_count _ _ Ha _ _ Hh) as (_ & _ & Hcount). pose proof (Hpos _ _ Hh) as Hp.
    simpl in Hp. assert (h ∈ r ⊎ outs m) as Hin by (rewrite elem_of_multiplicity; lia).
    apply gmultiset_elem_of_disj_union in Hin as [Hin|[o Ho]%outs_edge]; [by exists h|].
    destruct (IH o) as (root & Hr & Hroot); [done|destruct Ho as (? & ? & _); eauto|].
    exists root. split; [done|]. by eapply rtc_r.
  - intros (root & Hr & Hroot). assert (is_Some (m !! root)) as Hl.
    { apply (ac_live _ _ Ha). multiset_solver. }
    clear Hr. induction Hroot as [x|x y z He _ IH]; [done|]. apply IH, (ac_live _ _ Ha).
    apply gmultiset_elem_of_disj_union. right. by eapply edge_outs.
Qed.

(** ** The statistics *)
Definition heap_bytes (m : gmap Z RefcountHeader) : Z :=
  map_fold (λ _ hd acc, rc_size hd + acc) 0 m.

Lemma heap_bytes_insert m h hd :
  m !! h = None → heap_bytes (<[h := hd]> m) = rc_size hd + heap_bytes m.
Proof.
  intros Hm. unfold heap_bytes. rewrite map_fold_insert_L; [done| |done]. intros. lia.
Qed.

Lemma heap_bytes_delete m h hd :
  m !! h = Some hd → heap_bytes m = rc_size hd + heap_bytes (delete h m).
Proof.
  intros Hm. rewrite <-(heap_bytes_insert _ h) by apply lookup_delete_eq.
  by rewrite insert_delete_id.
Qed.

Lemma heap_bytes_update m h hd hd' :
  m !! h = Some hd → rc_size hd' = rc_size hd → heap_bytes (<[h := hd']> m) = heap_bytes m.
Proof.
  intros Hm Hs. rewrite (heap_bytes_delete m h hd), <-insert_delete_eq by done.
  rewrite heap_bytes_insert by apply lookup_delete_eq. lia.
Qed.

Lemma size_update (m : gmap Z RefcountHeader) h (hd hd' : RefcountHeader) :
  m !! h = Some hd → size (<[h := hd']> m) = size m.
Proof. intros Hm. apply map_size_insert_Some. eauto. Qed.

Lemma size_delete (m : gmap Z RefcountHeader) h hd :
  m !! h = Some hd → size m = S (size (delete h m)).
Proof.
  intros Hm. rewrite <-(map_size_insert_None h hd) by apply lookup_delete_eq.
  by rewrite insert_delete_id.
Qed.

(** The bytes in use are those of the live blocks, and every allocation is of a live block
    or was undone by a collection. *)
Record stats_ok (s : RC) : Prop := {
  sk_bytes : current_bytes (rc_stats s) = heap_bytes (rc_heap s) mod size_t_mod;
  sk_blocks : total_allocations (rc_stats s) =
    (Z.of_nat (size (rc_heap s)) + total_collections (rc_stats s)) mod size_t_mod
}.

Lemma stats_ok_update s h hd hd' :
  rc_heap s !! h = Some hd → rc_size hd' = rc_size hd → stats_ok s →
  stats_ok (with_rc_heap (<[h := hd']> (rc_heap s)) s).
Proof.
  intros Hh Hs [Hb Hn]. split; simpl.
  - by rewrite (heap_bytes_update _ _ hd).
  - by rewrite (size_update _ _ hd).
Qed.

Lemma stats_ok_free s h hd :
  rc_heap s !! h = Some hd → stats_ok s →
  stats_ok (mkRC (stats_collect (rc_size hd) (rc_stats s)) (delete h (rc_heap s))).
Proof.
  intros Hh [Hb Hn]. split; simpl.
  - unfold size_sub. rewrite Hb, Zminus_mod_idemp_l, (heap_bytes_delete _ h hd) by done.
    f_equal. lia.
  - unfold size_add. rewrite Zplus_mod_idemp_r, Hn. f_equal.
    rewrite (size_delete _ _ _ Hh). lia.
Qed.

Lemma stats_ok_alloc s h hd :
  rc_heap s !! h = None → stats_ok s →
  stats_ok (mkRC (stats_alloc (rc_size hd) (rc_stats s)) (<[h := hd]> (rc_heap s))).
Proof.
  intros Hh [Hb Hn]. split; simpl.
  - unfold size_add. rewrite Hb, Zplus_mod_idemp_l, heap_bytes_insert by done. f_equal. lia.
  - unfold size_add. rewrite Hn, Zplus_mod_idemp_l, map_size_insert_None by done. f_equal. lia.
Qed.

(** What holds of the state a computation returns. *)
Definition after {A} (P : RC → Prop) (o : outcome (A * RC)) : Prop :=
  match o with Ret (_, s) => P s | _ => True end.

Lemma after_bind {A B} (P Q : RC → Prop) (m : stM RC A) (k : A → stM RC B) s :
  after P (m s) → (∀ a s', P s' → after Q (k a s')) → after Q ((m ≫= k) s).
Proof.
  unfold mbind, stM_bind. intros Hm Hk. destruct (m s) as [[a s']| | |]; simpl in *; auto.
Qed.

Lemma after_load {B} (P : RC → Prop) h (k : RefcountHeader → stM RC B) s :
  (∀ hd, rc_heap s !! h = Some hd → after P (k hd s)) → after P ((load h ≫= k) s).
Proof.
  intros Hk. unfold load, mbind, stM_bind, gets.
  destruct (rc_heap s !! h) as [hd|] eqn:E; simpl; [by apply Hk|done].
Qed.

Lemma after_store h hd hd' s :
  rc_heap s !! h = Some hd → rc_size hd' = rc_size hd → stats_ok s →
  after stats_ok (store h hd' s).
Proof. intros Hh Hs Hok. rewrite (store_live _ _ hd) by done. by apply (stats_ok_update _ _ hd). Qed.

Lemma rc_dec_stats fuel : ∀ s ptr offset,
  stats_ok s → after stats_ok (rc_dec_ref_count fuel ptr offset s).
Proof.
  induction fuel as [|fuel IH]; intros s ptr offset Hs; [done|].
  cbn [rc_dec_ref_count]. case_decide; [exact Hs|].
  apply after_load. intros hd Hh. apply (after_bind stats_ok).
  { destruct (_ <? _); [done|]. by apply (after_store _ hd). }
  intros _ s1 H1. apply after_load. intros hd1 Hh1. case_decide; [|exact H1].
  apply (after_bind stats_ok).
  - generalize (seq 0 4) as l. intros l. clear Hh1. revert s1 H1.
    induction l as [|i l IHl]; intros s1 H1; [exact H1|].
    cbn [forM_]. apply (after_bind stats_ok); [|intros _; apply IHl].
    apply after_load. intros hd2 _. destruct (_ <? _); [|exact H1].
    destruct (to_free hd2 !! i); [|done]. by apply IH.
  - intros _ s2 H2. apply after_load. intros hd2 Hh2. rewrite bind_modify.
    by apply (stats_ok_free s2).
Qed.

(** ** The client *)

(** The calls of the allocator's interface. *)
Inductive call :=
| Call_alloc (env : Env) (bytes : Z)
| Call_inc (ptr other : Z)
| Call_dec (ptr offset : Z)
| Call_dealloc (ptr : Z)
| Call_gc (env : Env)
| Call_scope_end.

Definition perform (c : call) : stM RC unit :=
  match c with
  | Call_alloc env bytes => _ ← rc_alloc env bytes; mret tt
  | Call_inc ptr other => rc_inc_ref_count ptr other
  | Call_dec ptr offset => rc_dec ptr offset
  | Call_dealloc ptr => rc_dealloc ptr
  | Call_gc env => rc_gc env
  | Call_scope_end => rc_scope_end
  end.

Definition header_of (ptr : Z) : Z := ptr - sizeof_RefcountHeader.

Lemma header_of_add h : header_of (h + sizeof_RefcountHeader) = h.
Proof. unfold header_of. lia. Qed.
Lemma header_of_inv ptr : ∃ h, ptr = h + sizeof_RefcountHeader.
Proof. exists (header_of ptr). unfold header_of. lia. Qed.

(** What a client may do that holds the references [r].  [malloc] gives a block that is not
    in use; a reference is taken to a live block, and may be stored in a live block with a
    free slot that the first does not lead to; a reference that is given up is held. *)
Definition allowed (s : RC) (r : gmultiset Z) (c : call) : Prop :=
  match c with
  | Call_alloc env _ => 0 < malloc_result env ∧ rc_heap s !! malloc_result env = None
  | Call_inc ptr other =>
      ptr = NULL ∨
      is_Some (rc_heap s !! header_of ptr) ∧
      (other = NULL ∨
       (∃ ohd, rc_heap s !! header_of other = Some ohd ∧ idx ohd < 3) ∧
       ¬ rtc (edge (rc_heap s)) (header_of ptr) (header_of other))
  | Call_dec ptr offset => ptr = NULL ∨ header_of (ptr - offset) ∈ r
  | _ => True
  end.

(** The references held after a call. *)
Definition ledger (c : call) (r : gmultiset Z) : gmultiset Z :=
  match c with
  | Call_alloc env _ => r ⊎ {[+ malloc_result env +]}
  | Call_inc ptr other =>
      if decide (ptr = NULL ∨ other ≠ NULL) then r else r ⊎ {[+ header_of ptr +]}
  | Call_dec ptr offset =>
      if decide (ptr = NULL) then r else r ∖ {[+ header_of (ptr - offset) +]}
  | _ => r
  end.

Inductive client_step : RC * gmultiset Z → RC * gmultiset Z → Prop :=
| client_call s r c s' :
    allowed s r c → perform c s = Ret (tt, s') → client_step (s, r) (s', ledger c r).

Definition client_start : RC * gmultiset Z := (mkRC stats_zero ∅, ∅).

(** The state of the allocator after [n] calls. *)
Record heap_ok (n : nat) (s : RC) (r : gmultiset Z) : Prop := {
  ho_accounts : accounts (rc_heap s) r;
  ho_counts : map_Forall (λ _ hd, 0 < count hd <= Z.of_nat n) (rc_heap s);
  ho_stats : stats_ok s
}.

(** The invariant, after [n] calls. *)
Record client_ok (n : nat) (s : RC) (r : gmultiset Z) : Prop := {
  co_heap : heap_ok n s r;
  co_acyclic : acyclic_heap (rc_heap s)
}.

Lemma co_accounts n s r : client_ok n s r → accounts (rc_heap s) r.
Proof. by intros [[] _]. Qed.
Lemma co_counts n s r :
  client_ok n s r → map_Forall (λ _ hd, 0 < count hd <= Z.of_nat n) (rc_heap s).
Proof. by intros [[] _]. Qed.
Lemma co_stats n s r : client_ok n s r → stats_ok s.
Proof. by intros [[] _]. Qed.

Lemma co_positive n s r : client_ok n s r → map_Forall (λ _ hd, 0 < count hd) (rc_heap s).
Proof. intros Hok h hd Hh. apply (co_counts _ _ _ Hok _ _ Hh). Qed.

Lemma ho_positive n s r : heap_ok n s r → map_Forall (λ _ hd, 0 < count hd) (rc_heap s).
Proof. intros Hok h hd Hh. apply (ho_counts _ _ _ Hok _ _ Hh). Qed.

Lemma heap_ok_mono n n' s r : (n ≤ n')%nat → heap_ok n s r → heap_ok n' s r.
Proof.
  intros Hn [Ha Hc Hs]. split; [done| |done]. intros h hd Hh.
  specialize (Hc _ _ Hh). simpl in *. lia.
Qed.

Lemma client_ok_mono n n' s r : (n ≤ n')%nat → client_ok n s r → client_ok n' s r.
Proof. intros Hn [Hh Hy]. split; [by apply (heap_ok_mono n)|done]. Qed.

(** No block holds a block it did not hold before. *)
Definition edges_from (s s' : RC) : Prop :=
  ∀ o h, edge (rc_heap s') o h → edge (rc_heap s) o h.

(** Each kind of call keeps the invariant. *)
Lemma client_start_ok : client_ok 0 client_start.1 client_start.2.
Proof.
  split; [split; simpl; [split; [done|]|done|]|].
  - intros h. rewrite outs_empty. multiset_solver.
  - split; simpl; by rewrite ?map_size_empty.
  - assert (∀ o h, ¬ edge ∅ o h) as He by (intros o h (hd & Hhd & _); by rewrite lookup_empty in Hhd).
    intros h [x y Hxy|x y z Hxy _]; by destruct (He x y).
Qed.

Lemma heap_alloc n s r env bytes :
  allowed s r (Call_alloc env bytes) → heap_ok n s r →
  ∃ s', perform (Call_alloc env bytes) s = Ret (tt, s') ∧
        heap_ok (S n) s' (r ⊎ {[+ malloc_result env +]}) ∧ edges_from s s'.
Proof.
  intros [Hp Hfresh] [Ha Hc Hs]. unfold perform.
  rewrite (bind_step _ _ _ _ _ (rc_alloc_result _ _ _ Hp)). cbv zeta.
  eexists. split; [reflexivity|]. split; [split; simpl|].
  - by apply accounts_alloc.
  - apply map_Forall_insert_2; [simpl; lia|]. eapply map_Forall_impl; [exact Hc|].
    simpl. intros ??. lia.
  - exact (stats_ok_alloc s _ (mkRefcountHeader 1 _ _ 0) Hfresh Hs).
  - intros o h (hd & Ho & Hh). cbn [rc_heap] in Ho.
    apply lookup_insert_Some in Ho as [[<- <-]|[_ Ho]]; [multiset_solver|by exists hd].
Qed.

Lemma client_alloc n s r env bytes :
  allowed s r (Call_alloc env bytes) → client_ok n s r →
  ∃ s', perform (Call_alloc env bytes) s = Ret (tt, s') ∧
        client_ok (S n) s' (r ⊎ {[+ malloc_result env +]}).
Proof.
  intros Hc [Hh Hy]. destruct (heap_alloc n s r env bytes Hc Hh) as (s' & Hret & Hok & He).
  exists s'. split; [done|]. split; [done|]. by eapply acyclic_heap_mono.
Qed.

(** A release costs no count. *)
Lemma heap_dec n s r ptr offset :
  ptr ≠ NULL → header_of (ptr - offset) ∈ r → heap_ok n s r →
  ∃ s', rc_dec ptr offset s = Ret (tt, s') ∧
        heap_ok n s' (r ∖ {[+ header_of (ptr - offset) +]}) ∧ edges_from s s'.
Proof.
  intros Hn Hr [Ha Hc Hs]. set (h := header_of (ptr - offset)) in *.
  assert (r = r ∖ {[+ h +]} ⊎ {[+ h +]}) as Hsplit by multiset_solver.
  rewrite Hsplit in Ha.
  destruct (rc_dec_accounts (dec_fuel s) s ptr offset _ Hn Ha (dec_fuel_enough s))
    as (s' & Hret & A & [_ F]).
  pose proof (rc_dec_stats (dec_fuel s) s ptr offset Hs) as Hs'. rewrite Hret in Hs'.
  exists s'. split; [exact Hret|]. split; [split; [done| |done]|].
  - intros x hd' Hx. destruct (F _ _ Hx) as (hd & Hh & _ & Hle & Hz).
    specialize (Hc _ _ Hh). destruct (ac_count _ _ A _ _ Hx) as (_ & _ & Hcount).
    simpl in *. destruct (decide (count hd' = 0)) as [e|]; [specialize (Hz e)|]; lia.
  - intros o x (hd' & Ho & Hx).
    destruct (F _ _ Ho) as (hd & Hh & E & _). exists hd. split; [done|].
    by rewrite E in Hx.
Qed.

Lemma client_dec n s r ptr offset :
  ptr ≠ NULL → header_of (ptr - offset) ∈ r → client_ok n s r →
  ∃ s', rc_dec ptr offset s = Ret (tt, s') ∧
        client_ok n s' (r ∖ {[+ header_of (ptr - offset) +]}).
Proof.
  intros Hn Hr [Hh Hy]. destruct (heap_dec n s r ptr offset Hn Hr Hh) as (s' & Hret & Hok & He).
  exists s'. split; [done|]. split; [done|]. by eapply acyclic_heap_mono.
Qed.

Lemma edge_incremented m h x y : edge (incremented h m) x y ↔ edge m x y.
Proof.
  unfold edge, incremented. split.
  - intros (hd & Hx & Hy). rewrite lookup_alter in Hx. case_decide; [|by exists hd].
    subst. destruct (m !! x) as [hd0|]; [|done]. simplify_eq/=. by exists hd0.
  - intros (hd & Hx & Hy). rewrite lookup_alter. case_decide; [|by exists hd].
    subst. rewrite Hx. eexists. split; [reflexivity|]. exact Hy.
Qed.

Lemma edge_pushed m h o hd :
  incremented h m !! o = Some hd → wf_header hd → idx hd < 3 →
  ∀ x y, edge (<[o := push_free (h + sizeof_RefcountHeader) hd]> (incremented h m)) x y →
         edge m x y ∨ (x = o ∧ y = h).
Proof.
  intros Ho Hwf Hi x y (hd' & [[<- <-]|[_ Hx]]%lookup_insert_Some & Hin).
  - destruct (refs_push (h + sizeof_RefcountHeader) hd Hwf Hi) as [Hrefs _]. rewrite Hrefs in Hin.
    apply gmultiset_elem_of_disj_union in Hin as [Hin|Hin].
    + left. apply (edge_incremented _ h). by exists hd.
    + right. split; [done|]. apply gmultiset_elem_of_singleton in Hin. lia.
  - left. apply (edge_incremented _ h). by exists hd'.
Qed.

Lemma stats_ok_incremented s h :
  stats_ok s → stats_ok (with_rc_heap (incremented h (rc_heap s)) s).
Proof.
  intros Hs. destruct (rc_heap s !! h) as [hd|] eqn:E.
  - rewrite (incremented_insert _ hd) by done. by apply (stats_ok_update _ _ hd).
  - unfold incremented. rewrite alter_id' by done. by destruct s.
Qed.

Lemma counts_incremented n m h :
  map_Forall (λ _ hd, 0 < count hd <= Z.of_nat n) m →
  map_Forall (λ _ hd, 0 < count hd <= Z.of_nat (S n)) (incremented h m).
Proof.
  intros Hc x hd. unfold incremented. rewrite lookup_alter.
  case_decide; [subst; destruct (m !! x) as [hd0|] eqn:E; [|done]|intros E];
    pose proof (Hc _ _ E) as Hx; simpl in *; [intros [= <-]; simpl; lia|lia].
Qed.

(** A reference to a live block is the program's, or that of another live block when this
    has a free slot; when it has none, nobody's. *)
Lemma heap_take n s r ptr :
  is_Some (rc_heap s !! header_of ptr) → Z.of_nat n < LLONG_MAX → heap_ok n s r →
  ∃ s', rc_inc_ref_count ptr NULL s = Ret (tt, s') ∧
        heap_ok (S n) s' (r ⊎ {[+ header_of ptr +]}) ∧ edges_from s s'.
Proof.
  intros [hd Hh] Hn [Ha Hc Hs]. destruct (header_of_inv ptr) as [h ->].
  rewrite !header_of_add in *. destruct (ac_count _ _ Ha _ _ Hh) as (Hp & _ & _).
  pose proof (Hc _ _ Hh) as Hch. simpl in Hch.
  rewrite (rc_inc_step _ _ hd), decide_True by (done || lia).
  eexists. split; [reflexivity|]. split; [split; simpl|].
  - apply (accounts_incremented _ _ _ hd); done || lia.
  - by apply counts_incremented.
  - by apply stats_ok_incremented.
  - intros x y. apply edge_incremented.
Qed.

Lemma heap_hold n s r ptr other ohd :
  is_Some (rc_heap s !! header_of ptr) → rc_heap s !! header_of other = Some ohd →
  Z.of_nat n < LLONG_MAX → heap_ok n s r →
  ∃ s', rc_inc_ref_count ptr other s = Ret (tt, s') ∧
        if idx ohd <? 3
        then heap_ok (S n) s' r ∧
             ∀ x y, edge (rc_heap s') x y →
                    edge (rc_heap s) x y ∨ (x = header_of other ∧ y = header_of ptr)
        else heap_ok (S n) s' (r ⊎ {[+ header_of ptr +]}) ∧ edges_from s s'.
Proof.
  intros [hd Hh] Ho Hn [Ha Hc Hs].
  destruct (header_of_inv ptr) as [h ->]. destruct (header_of_inv other) as [o ->].
  rewrite !header_of_add in *.
  destruct (ac_count _ _ Ha _ _ Hh) as (Hp & _ & _), (ac_count _ _ Ha _ _ Ho) as (Hpo & _ & _).
  pose proof (Hc _ _ Hh) as Hch. pose proof (Hc _ _ Ho) as Hco. simpl in Hch, Hco.
  pose proof (accounts_incremented _ _ _ _ Ha Hh ltac:(lia)) as A1.
  pose proof (counts_incremented _ _ h Hc) as C1.
  pose proof (stats_ok_incremented s h Hs) as S1.
  destruct (incremented_idx h _ _ _ Ho) as (ohd1 & Ho1 & Hi1 & _ & Hc1 & _).
  rewrite (rc_inc_other _ _ hd _ ohd1), Hi1 by (done || lia).
  eexists. split; [reflexivity|]. destruct (Z.ltb_spec (idx ohd) 3).
  - split; [split; simpl|].
    + apply accounts_push; [done..|lia|lia].
    + apply map_Forall_insert_2; [|done]. exact (C1 _ _ Ho1).
    + by apply (stats_ok_update (with_rc_heap (incremented h (rc_heap s)) s) _ ohd1).
    + apply (edge_pushed _ h); [exact Ho1| |lia]. apply (ac_count _ _ A1 _ _ Ho1).
  - split; [by split|]. intros x y. apply edge_incremented.
Qed.

Lemma client_inc n s r ptr other :
  allowed s r (Call_inc ptr other) → Z.of_nat n < LLONG_MAX → client_ok n s r →
  ∃ s', perform (Call_inc ptr other) s = Ret (tt, s') ∧
        client_ok (S n) s' (ledger (Call_inc ptr other) r).
Proof.
  intros [->|[Hlive Hother]] Hn Hok.
  { exists s. split; [done|]. cbn [ledger]. rewrite decide_True by auto.
    by apply (client_ok_mono n); [lia|]. }
  pose proof Hok as [Hh Hy]. cbn [perform ledger]. assert (ptr ≠ NULL) as Hptr.
  { intros ->. destruct Hlive as [hd Hhd]. destruct (ac_count _ _ (ho_accounts _ _ _ Hh) _ _ Hhd) as [Hp _].
    unfold header_of, NULL, sizeof_RefcountHeader in Hp. lia. }
  destruct (decide (other = NULL)) as [->|Hnn].
  - rewrite decide_False by naive_solver.
    destruct (heap_take n s r ptr Hlive Hn Hh) as (s' & Hret & Hok' & He).
    exists s'. split; [done|]. split; [done|]. by eapply acyclic_heap_mono.
  - destruct Hother as [?|[[ohd [Ho Hidx]] Hreach]]; [done|]. rewrite decide_True by auto.
    destruct (heap_hold n s r ptr other ohd Hlive Ho Hn Hh) as (s' & Hret & Hs').
    rewrite (proj2 (Z.ltb_lt _ _) Hidx) in Hs'. destruct Hs' as [Hok' He].
    exists s'. split; [done|]. split; [done|]. by eapply acyclic_heap_add.
Qed.

Lemma client_call_ok n s r c :
  allowed s r c → Z.of_nat n < LLONG_MAX → client_ok n s r →
  ∃ s', perform c s = Ret (tt, s') ∧ client_ok (S n) s' (ledger c r).
Proof.
  intros Hc Hn Hok. destruct c as [env bytes|ptr other|ptr offset|ptr|env|];
    [by apply client_alloc|by apply client_inc| |exists s; split; [done|];
      by apply (client_ok_mono n); [lia|]..].
  cbn [perform ledger]. case_decide as Hptr.
  - subst. exists s. split; [done|]. by apply (client_ok_mono n); [lia|].
  - destruct Hc as [?|Hr]; [done|].
    destruct (client_dec n s r ptr offset Hptr Hr Hok) as (s' & Hret & Hok').
    exists s'. split; [exact Hret|]. by apply (client_ok_mono n); [lia|].
Qed.

Lemma client_steps_ok n s r :
  nsteps client_step n client_start (s, r) → Z.of_nat n <= LLONG_MAX → client_ok n s r.
Proof.
  revert s r. induction n as [|n IH]; intros s r Hst Hn.
  - inversion Hst; subst. exact client_start_ok.
  - apply nsteps_inv_r in Hst as ([s1 r1] & Hst & Hstep). specialize (IH _ _ Hst ltac:(lia)).
    inversion Hstep as [? ? c s' Hc Hret]; subst.
    destruct (client_call_ok n s1 r1 c Hc) as (s2 & Hret' & Hok); [lia|done|].
    rewrite Hret in Hret'. by injection Hret' as <-.
Qed.

(** [rc_init] on an empty heap gives the state the client starts from. *)
Lemma client_start_init env st : rc_init env (mkRC st ∅) = Ret (tt, client_start.1).
Proof. done. Qed.

(** Calls in sequence, for the concrete runs. *)
Definition run_calls (calls : list call) : outcome RC :=
  r ← forM_ perform calls client_start.1; Ret r.2.

Lemma client_step_call n s r c s' r' :
  nsteps client_step n client_start (s, r) → allowed s r c → perform c s = Ret (tt, s') →
  r' = ledger c r → nsteps client_step (S n) client_start (s', r').
Proof. intros Hst Hc Hr ->. eapply nsteps_r; [exact Hst|]. by constructor. Qed.

(** A block with no references leads nowhere. *)
Lemma leaf_reach m h o :
  match m !! h with Some hd => refs_list hd = [] | None => True end → rtc (edge m) h o → o = h.
Proof.
  intros Hleaf [->|(y & (hd & Hh & Hy) & _)]%rtc_inv; [done|].
  rewrite Hh in Hleaf. unfold refs in Hy. rewrite Hleaf in Hy. multiset_solver.
Qed.

(** Two blocks, the second stored in the first and released by the client. *)
Definition linked_calls : list call :=
  [Call_alloc (mkEnv 100 0) 8; Call_alloc (mkEnv 200 0) 8; Call_inc 248 148; Call_dec 248 0].
Definition linked_after (k : nat) : RC :=
  match run_calls (take k linked_calls) with Ret s => s | _ => client_start.1 end.

Lemma linked_reached : nsteps client_step 4 client_start (linked_after 4, {[+ 100 +]}).
Proof.
  apply (client_step_call _ (linked_after 3) {[+ 100; 200 +]} (Call_dec 248 0));
    [|right; vm_compute; constructor|vm_compute; reflexivity..].
  apply (client_step_call _ (linked_after 2) {[+ 100; 200 +]} (Call_inc 248 148));
    [| |vm_compute; reflexivity..].
  - apply (client_step_call _ (linked_after 1) {[+ 100 +]} (Call_alloc (mkEnv 200 0) 8));
      [|done|vm_compute; reflexivity..].
    apply (client_step_call _ (linked_after 0) ∅ (Call_alloc (mkEnv 100 0) 8));
      [constructor|done|vm_compute; reflexivity..].
  - right. split; [eexists; vm_compute; reflexivity|]. right.
    split; [eexists; split; [vm_compute; reflexivity|done]|].
    intros Hr%leaf_reach; [done|]. vm_compute. reflexivity.
Qed.

(** C18. A program that follows the rules never goes wrong.  From [rc_init], along every
    sequence of fewer than 2^63 - 1 calls that releases only references it holds, stores only
    in a live block with a free slot, and closes no cycle, the next allowed call returns:
    the allocator touches no freed block, overflows no count, and its recursion ends. *)
Theorem rc_client_progress n s r c :
  nsteps client_step n client_start (s, r) → Z.of_nat n < LLONG_MAX → allowed s r c →
  ∃ s', perform c s = Ret (tt, s') ∧ nsteps client_step (S n) client_start (s', ledger c r).
Proof.
  intros Hst Hn Hc.
  destruct (client_call_ok n s r c Hc Hn) as (s' & Hret & _); [apply client_steps_ok; [done|lia]|].
  exists s'. split; [done|]. eapply nsteps_r; [exact Hst|]. by constructor.
Qed.

Lemma rc_client_progress_witness : ∃ s', perform (Call_dec 148 0) (linked_after 4) = Ret (tt, s').
Proof.
  destruct (rc_client_progress 4 (linked_after 4) {[+ 100 +]} (Call_dec 148 0)) as (s' & H & _).
  - exact linked_reached.
  - reflexivity.
  - right. vm_compute. constructor.
  - exists s'. exact H.
Defined.

(** C19. The counts find the garbage at once.  In every state such a program reaches, the live
    blocks are exactly the ones it can reach from the references it holds, the bytes in use
    are the sizes of those blocks, and every other block was collected. *)
Theorem rc_client_exact n s r :
  nsteps client_step n client_start (s, r) → Z.of_nat n <= LLONG_MAX →
  (∀ h, is_Some (rc_heap s !! h) ↔ ∃ root, root ∈ r ∧ rtc (edge (rc_heap s)) root h) ∧
  current_bytes (rc_stats s) = heap_bytes (rc_heap s) mod size_t_mod ∧
  total_allocations (rc_stats s) =
    (Z.of_nat (size (rc_heap s)) + total_collections (rc_stats s)) mod size_t_mod.
Proof.
  intros Hst Hn. pose proof (client_steps_ok n s r Hst Hn) as Hok.
  split; [|destruct (co_stats _ _ _ Hok); done].
  intros h. apply live_reachable; [apply Hok|by eapply co_positive|apply Hok].
Qed.

Lemma rc_client_exact_witness :
  rtc (edge (rc_heap (linked_after 4))) 100 200 ∧ heap_bytes (rc_heap (linked_after 4)) mod size_t_mod = 112.
Proof.
  destruct (rc_client_exact 4 (linked_after 4) {[+ 100 +]}) as (H & Hb & _).
  - exact linked_reached.
  - discriminate.
  - split; [|rewrite <-Hb; reflexivity].
    destruct (proj1 (H 200)) as (root & Hr & Hreach); [eexists; vm_compute; reflexivity|].
    apply gmultiset_elem_of_singleton in Hr. subst. exact Hreach.
Defined.

Lemma client_release_all n : ∀ l s r,
  client_ok n s r → r = list_to_set_disj l →
  ∃ s', forM_ (λ h, rc_dec (h + sizeof_RefcountHeader) 0) l s = Ret (tt, s') ∧ client_ok n s' ∅.
Proof.
  induction l as [|h l IH]; intros s r Hok ->; [by exists s|].
  rewrite list_to_set_disj_cons in Hok.
  assert (header_of (h + sizeof_RefcountHeader - 0) = h) as Hh by (unfold header_of; lia).
  destruct (ac_live _ _ (co_accounts _ _ _ Hok) h) as [hd Hhd]; [multiset_solver|].
  destruct (ac_count _ _ (co_accounts _ _ _ Hok) _ _ Hhd) as (Hp & _).
  destruct (client_dec n s ({[+ h +]} ⊎ list_to_set_disj l) (h + sizeof_RefcountHeader) 0) as (s1 & H1 & Hok1);
    [unfold NULL, sizeof_RefcountHeader; lia|rewrite Hh; multiset_solver|exact Hok|].
  rewrite Hh in Hok1.
  destruct (IH s1 _ Hok1) as (s2 & H2 & Hok2); [multiset_solver|].
  exists s2. split; [|done]. cbn [forM_]. by rewrite (bind_step _ _ _ _ _ H1).
Qed.

(** A client that holds nothing has freed everything. *)
Lemma client_ok_empty n s :
  client_ok n s ∅ →
  rc_heap s = ∅ ∧ current_bytes (rc_stats s) = 0 ∧
  total_allocations (rc_stats s) = total_collections (rc_stats s) mod size_t_mod.
Proof.
  intros Hok. assert (rc_heap s = ∅) as He.
  { apply map_empty. intros h. destruct (rc_heap s !! h) eqn:E; [|done].
    destruct (proj1 (live_reachable (rc_heap s) ∅ h (co_accounts _ _ _ Hok)
                       (co_positive _ _ _ Hok) (co_acyclic _ _ _ Hok))) as (root & Hr & _);
      [by eexists|]. multiset_solver. }
  destruct (co_stats _ _ _ Hok) as [Hb Ht]. rewrite He in Hb, Ht.
  split; [done|]. split; [exact Hb|exact Ht].
Qed.

(** C5. Nothing leaks.  Whatever such a program has done, giving up the references it holds,
    in any order, ends with an empty heap: every block that was ever allocated is freed, and
    the statistics count no byte in use and as many collections as allocations. *)
Theorem rc_no_leak n s r l :
  nsteps client_step n client_start (s, r) → Z.of_nat n <= LLONG_MAX →
  r = list_to_set_disj l →
  ∃ s', forM_ (λ h, rc_dec (h + sizeof_RefcountHeader) 0) l s = Ret (tt, s') ∧
        rc_heap s' = ∅ ∧ current_bytes (rc_stats s') = 0 ∧
        total_allocations (rc_stats s') = total_collections (rc_stats s') mod size_t_mod.
Proof.
  intros Hst Hn Hl.
  destruct (client_release_all n l s r) as (s' & Hret & Hok); [by apply client_steps_ok|done|].
  exists s'. split; [done|]. by apply (client_ok_empty n).
Qed.

Lemma rc_no_leak_witness :
  ∃ s', forM_ (λ h, rc_dec (h + sizeof_RefcountHeader) 0) [100] (linked_after 4) = Ret (tt, s') ∧
        rc_heap s' = ∅.
Proof.
  destruct (rc_no_leak 4 (linked_after 4) {[+ 100 +]} [100]) as (s' & H & He & _).
  - exact linked_reached.
  - discriminate.
  - vm_compute. reflexivity.
  - exists s'. split; [exact H|exact He].
Defined.
