(* ===== verification/PointerCode.v ===== *)
(** Code that handles pointers, and the C code it becomes.

    The source fragment: declarations [T* x;], [T* x = new T;], [T* x = NULL;] and [T* x = y;],
    assignments [x = y] between pointers of one type and [x = NULL], assignments [x->f = y] to
    the pointers in a struct, calls [f(y1, ..., yn);],
    [T* x = f(...);] and [x = f(...);] of functions over pointers, blocks, [if], [else] and
    [while] on comparisons of pointers, and [return x;].  [compile] gives the C instructions of a
    fragment, and [instr_text] their text; [wf] says which fragments follow the rules of the
    language.  File PointerVisit shows that the visitor prints that text, FunctionCode does the same for
    functions and programs, and PointerProps and FunctionProps say what running the
    instructions does to the heap of the counting allocator. *)
From S2P Require Import Prelude Errors CppString Types TypeSystem SymbolTable.
From S2P Require Import CodeGenerator Syntax Visitor Transpile StringFacts SyntaxInd.
From S2P Require Import VisitorFrame VisitorProps Static StmtProps CodeGenProps ExprProps.
#[local] Open Scope Z_scope.

(** ** The fragment *)

(** A type of the source, with what the type system makes of it and of pointers to it. *)
Record ptype := mkPtype {
  pt_spec : typeSpec;
  pt_elem : Ty;
  pt_ptr : Ty
}.

(** Where the result of a call goes. *)
Inductive dest :=
| To_none
| To_new (p : ptype) (x : string)
| To_var (x : string).

(** A comparison of a variable with a variable or [NULL]. *)
Record cond := mkCond {
  c_left : string;
  c_equal : bool;
  c_right : option string
}.

Inductive pcode :=
| P_nil
| P_decl (p : ptype) (x : string) (k : pcode)
| P_new (p : ptype) (x : string) (k : pcode)
| P_null (p : ptype) (x : string) (k : pcode)
| P_copy (p : ptype) (x y : string) (k : pcode)
| P_assign (x y : string) (k : pcode)
| P_clear (x : string) (k : pcode)
| P_store (x f y : string) (k : pcode)
| P_call (d : dest) (f : string) (ys : list string) (k : pcode)
| P_block (b k : pcode)
| P_if (c : cond) (b k : pcode)
| P_if_else (c : cond) (b e k : pcode)
| P_while (c : cond) (b k : pcode)
| P_return (x : string) (k : pcode).

(** Its parse trees. *)
Definition pointer_decl (p : ptype) (x : string) (e : option expr) : statement :=
  S_varDecl (mkVarDecl (D_plain (TS_pointer (pt_spec p)) x) e).
Definition call_expr (f : string) (ys : list string) : expr :=
  FuncCallExpr (mkFunctionCall f (match ys with [] => None | _ => Some (ident <$> ys) end)).
Definition call_stmt (d : dest) (f : string) (ys : list string) : statement :=
  match d with
  | To_none => S_expr (call_expr f ys)
  | To_new p x => pointer_decl p x (Some (call_expr f ys))
  | To_var x => S_expr (AssignExpr (ident x) (call_expr f ys))
  end.
Definition cond_op (c : cond) : string := if c_equal c then "==" else "!=".
Definition cond_rhs (c : cond) : string := default "NULL" (c_right c).
Definition cond_source (c : cond) : expr :=
  CompareExpr (ident (c_left c)) (cond_op c) (ident (cond_rhs c)).
Fixpoint source (c : pcode) : list statement :=
  match c with
  | P_nil => []
  | P_decl p x k => pointer_decl p x None :: source k
  | P_new p x k => pointer_decl p x (Some (NewExpr (pt_spec p))) :: source k
  | P_null p x k => pointer_decl p x (Some (ident "NULL")) :: source k
  | P_copy p x y k => pointer_decl p x (Some (ident y)) :: source k
  | P_assign x y k => S_expr (AssignExpr (ident x) (ident y)) :: source k
  | P_clear x k => S_expr (AssignExpr (ident x) (ident "NULL")) :: source k
  | P_store x f y k => S_expr (AssignExpr (PointerMemberExpr (ident x) f) (ident y)) :: source k
  | P_call d f ys k => call_stmt d f ys :: source k
  | P_block b k => S_block (source b) :: source k
  | P_if c b k => S_if (cond_source c) (S_block (source b)) None :: source k
  | P_if_else c b e k =>
      S_if (cond_source c) (S_block (source b)) (Some (S_block (source e))) :: source k
  | P_while c b k => S_while (cond_source c) (S_block (source b)) :: source k
  | P_return x k => S_return (Some (ident x)) :: source k
  end.

(** The names a block declares itself. *)
Definition dest_declared (d : dest) : gset string :=
  match d with To_new _ x => {[x]} | _ => ∅ end.
Fixpoint declared (c : pcode) : gset string :=
  match c with
  | P_nil => ∅
  | P_decl _ x k | P_new _ x k | P_null _ x k | P_copy _ x _ k => {[x]} ∪ declared k
  | P_call d _ _ k => dest_declared d ∪ declared k
  | P_assign _ _ k | P_clear _ k | P_store _ _ _ k | P_block _ k | P_if _ _ k
  | P_if_else _ _ _ k | P_while _ _ k | P_return _ k => declared k
  end.

(** ** C instructions *)
Inductive instr :=
| I_declare (p : ptype) (x : string)
| I_alloc (p : ptype) (x : string)
| I_null (p : ptype) (x : string)
| I_copy (p : ptype) (x y : string)
| I_inc (x : string)
| I_dec (x : string)
| I_assign (x y : string)
| I_clear (x : string)
| I_hold (y x : string)
| I_store (x f y : string)
| I_call (d : dest) (f : string) (ys : list string)
| I_empty
| I_open
| I_close
| I_if (c : cond) (t : list instr)
| I_if_else (c : cond) (t e : list instr)
| I_while (c : cond) (b : list instr)
| I_return (x : string).

(** A call: its arguments are retained, the variable that gets the result is released, and
    the arguments are released after the call, with one semicolon too many. *)
Definition release_dest (d : dest) : list instr :=
  match d with To_var x => [I_dec x] | _ => [] end.
Definition call_code (d : dest) (f : string) (ys : list string) : list instr :=
  (I_inc <$> ys) ++ release_dest d ++ I_call d f ys :: (I_dec <$> ys)
    ++ match ys with [] => [] | _ => [I_empty] end.

(** A [return] retains the variable and releases those of the innermost scope, which are
    [locals]; the releases at the end of the block follow all the same. *)
Definition release_all (locals : gset string) : list instr := I_dec <$> set_iter locals.
Definition return_code (locals : gset string) (x : string) : list instr :=
  I_inc x :: release_all locals ++ [I_return x].
Fixpoint compile (locals : gset string) (c : pcode) : list instr :=
  let block (b : pcode) : list instr :=
    I_open :: compile ∅ b ++ release_all (declared b) ++ [I_close] in
  match c with
  | P_nil => []
  | P_decl p x k => I_declare p x :: compile ({[x]} ∪ locals) k
  | P_new p x k => I_alloc p x :: compile ({[x]} ∪ locals) k
  | P_null p x k => I_null p x :: compile ({[x]} ∪ locals) k
  | P_copy p x y k => I_inc y :: I_copy p x y :: compile ({[x]} ∪ locals) k
  | P_assign x y k => I_inc y :: I_dec x :: I_assign x y :: compile locals k
  | P_clear x k => I_dec x :: I_clear x :: compile locals k
  | P_store x f y k => I_hold y x :: I_store x f y :: compile locals k
  | P_call d f ys k => call_code d f ys ++ compile (dest_declared d ∪ locals) k
  | P_block b k => block b ++ compile locals k
  | P_if c b k => I_if c (block b) :: compile locals k
  | P_if_else c b e k => I_if_else c (block b) (block e) :: compile locals k
  | P_while c b k => I_while c (block b) :: compile locals k
  | P_return x k => return_code locals x ++ compile locals k
  end.
Definition compile_block (b : pcode) : list instr :=
  I_open :: compile ∅ b ++ release_all (declared b) ++ [I_close].

(** The text of an instruction inside [d] scopes.  A call is indented twice. *)
Definition call_text (f : string) (ys : list string) : string :=
  f +:+ "(" +:+ join ", " ys +:+ ")".
Definition dest_text (d : dest) : string :=
  match d with
  | To_none => EmptyString
  | To_new p x => var_text (pt_ptr p) x +:+ " = "
  | To_var x => x +:+ " = "
  end.
Definition cond_text (c : cond) : string :=
  c_left c +:+ " " +:+ cond_op c +:+ " " +:+ cond_rhs c.
Definition depth_after (d : nat) (i : instr) : nat :=
  match i with I_open => S d | I_close => pred d | _ => d end.
Section print.
Context (text : nat → instr → string).
Fixpoint print_with (d : nat) (l : list instr) : string :=
  match l with
  | [] => EmptyString
  | i :: l => text d i +:+ print_with (depth_after d i) l
  end.
End print.
Fixpoint instr_text (d : nat) (i : instr) {struct i} : string :=
  let indent := spaces (d * 4) in
  match i with
  | I_declare p x => indent +:+ var_text (pt_ptr p) x +:+ ";" +:+ nl
  | I_alloc p x =>
      indent +:+ var_text (pt_ptr p) x +:+ " = runtime_alloc(sizeof(" +:+ ty_text (pt_elem p)
        +:+ "));" +:+ nl
  | I_null p x => indent +:+ var_text (pt_ptr p) x +:+ " = NULL;" +:+ nl
  | I_copy p x y => indent +:+ var_text (pt_ptr p) x +:+ " = " +:+ y +:+ ";" +:+ nl
  | I_inc x => indent +:+ "runtime_inc_ref_count(" +:+ x +:+ ", NULL);" +:+ nl
  | I_dec x => indent +:+ "runtime_dec_ref_count(" +:+ x +:+ ", 0);" +:+ nl
  | I_assign x y => indent +:+ x +:+ " = " +:+ y +:+ ";" +:+ nl
  | I_clear x => indent +:+ x +:+ " = NULL;" +:+ nl
  | I_hold y x => indent +:+ "runtime_inc_ref_count(" +:+ y +:+ ", " +:+ x +:+ ");" +:+ nl
  | I_store x f y => indent +:+ x +:+ "->" +:+ f +:+ " = " +:+ y +:+ ";" +:+ nl
  | I_call d f ys => indent +:+ dest_text d +:+ indent +:+ call_text f ys +:+ ";" +:+ nl
  | I_empty => ";" +:+ nl
  | I_open => "{" +:+ nl
  | I_close => indent +:+ "}" +:+ nl
  | I_if c t =>
      indent +:+ "if (" +:+ cond_text c +:+ ") {" +:+ nl +:+ print_with instr_text d t
        +:+ "}" +:+ nl
  | I_if_else c t e =>
      indent +:+ "if (" +:+ cond_text c +:+ ") {" +:+ nl +:+ print_with instr_text d t
        +:+ "}" +:+ nl +:+ indent +:+ "else {" +:+ nl +:+ print_with instr_text d e
        +:+ "}" +:+ nl
  | I_while c b =>
      indent +:+ "while (" +:+ cond_text c +:+ ") {" +:+ nl +:+ print_with instr_text d b
        +:+ "}" +:+ nl
  | I_return x => indent +:+ "return " +:+ x +:+ ";" +:+ nl
  end.
Abbreviation print := (print_with instr_text).

(** ** Fragments the C compiler accepts *)
Definition declare (x : string) (p : ptype) (Γ : list (gmap string ptype))
    : list (gmap string ptype) :=
  match Γ with [] => [{[x := p]}] | G :: Γ => <[x := p]> G :: Γ end.
Fixpoint type_of (x : string) (Γ : list (gmap string ptype)) : option ptype :=
  match Γ with
  | [] => None
  | G :: Γ => match G !! x with Some p => Some p | None => type_of x Γ end
  end.
Definition undeclared (x : string) (Γ : list (gmap string ptype)) : Prop :=
  match Γ with [] => False | G :: _ => G !! x = None end.

(** What a function takes and gives. *)
Abbreviation signature := (list ptype * option ptype)%type.

(** The tables a type is looked up in. *)
Definition same_types (ts ts' : TypeSystem) : Prop :=
  m_typedefs ts = m_typedefs ts' ∧ m_structs ts = m_structs ts' ∧ m_classes ts = m_classes ts'.
#[export] Instance same_types_refl : Reflexive same_types.
Proof. done. Qed.

(** The names a variable can have: [NULL] is a macro. *)
Definition var_name (x : string) : bool := is_identifier x && negb (bool_decide (x = "NULL")).

Lemma var_name_identifier x : var_name x = true → is_identifier x = true.
Proof. by intros [? _]%andb_prop. Qed.

Section fragment.
Context (ts : TypeSystem).
(** The functions a fragment may call, and the parameters and the result of the function it
    is in. *)
Context (F : gmap string signature) (Π : gmap string ptype) (ret : option ptype).

Definition visible (x : string) (Γ : list (gmap string ptype)) : option ptype :=
  type_of x (Γ ++ [Π]).

(** The type system resolves both types, and they print. *)
Record good_type (p : ptype) : Prop := {
  gt_elem : ∀ s, same_types ts (m_typeSystem s) →
    resolveTypeFromContext (Some (pt_spec p)) s = Ret (pt_elem p, s);
  gt_ptr : ∀ s, same_types ts (m_typeSystem s) →
    resolveTypeFromContext (Some (TS_pointer (pt_spec p))) s = Ret (pt_ptr p, s);
  gt_pointer : m_isPointer (pt_ptr p) = true;
  gt_printable : printable (pt_elem p) ∧ printable (pt_ptr p)
}.

(** The result of a call is kept, in a variable that is no argument of it. *)
Definition dest_ok (d : dest) (result : option ptype) (ys : list string)
    (Γ : list (gmap string ptype)) : Prop :=
  match d, result with
  | To_none, None => True
  | To_new p x, Some q =>
      p = q ∧ good_type p ∧ var_name x = true ∧ undeclared x Γ ∧ x ∉ ys
  | To_var x, Some q => type_of x Γ = Some q ∧ x ∉ ys
  | _, _ => False
  end.
Definition dest_declare (d : dest) (Γ : list (gmap string ptype)) : list (gmap string ptype) :=
  match d with To_new p x => declare x p Γ | _ => Γ end.

(** Pointers of one type are compared. *)
Definition cond_ok (c : cond) (Γ : list (gmap string ptype)) : Prop :=
  ∃ p, visible (c_left c) Γ = Some p ∧
       match c_right c with Some y => visible y Γ = Some p | None => True end.

(** [f] is a pointer to what [q] points to in the struct [p] points to. *)
Definition field_ok (p : ptype) (f : string) (q : ptype) : Prop :=
  isStruct (pt_ptr p) = true ∧
  ∃ t, (f, t) ∈ m_structMembers (pt_ptr p) ∧ ty_text t = ty_text (pt_ptr q).

(** Every name is declared once in its scope and before its use, no variable hides a function
    that is called, a variable is not initialised by itself, an assignment is between pointers of one type, and never to a
    parameter.  A [return] is in the scope of every local of the function: it releases those
    of its own scope, and the scopes around it have none yet. *)
Fixpoint wf (Γ : list (gmap string ptype)) (c : pcode) : Prop :=
  match c with
  | P_nil => True
  | P_decl p x k | P_new p x k | P_null p x k =>
      good_type p ∧ var_name x = true ∧ undeclared x Γ ∧ wf (declare x p Γ) k
  | P_copy p x y k =>
      good_type p ∧ var_name x = true ∧ undeclared x Γ ∧ x ≠ y ∧ visible y Γ = Some p ∧
      wf (declare x p Γ) k
  | P_assign x y k => (∃ p, type_of x Γ = Some p ∧ visible y Γ = Some p) ∧ wf Γ k
  | P_clear x k => is_Some (type_of x Γ) ∧ wf Γ k
  | P_store x f y k =>
      (∃ p q, visible x Γ = Some p ∧ visible y Γ = Some q ∧ field_ok p f q) ∧
      x ≠ "this" ∧ str_size x < npos ∧ wf Γ k
  | P_call d f ys k =>
      (∃ ps result, F !! f = Some (ps, result) ∧ is_identifier f = true ∧ visible f Γ = None ∧
                    Forall2 (λ y p, visible y Γ = Some p) ys ps ∧ dest_ok d result ys Γ) ∧
      wf (dest_declare d Γ) k
  | P_block b k => wf (∅ :: Γ) b ∧ wf Γ k
  | P_if c b k | P_while c b k => cond_ok c Γ ∧ wf (∅ :: Γ) b ∧ wf Γ k
  | P_if_else c b e k => cond_ok c Γ ∧ wf (∅ :: Γ) b ∧ wf (∅ :: Γ) e ∧ wf Γ k
  | P_return x k =>
      (∃ p, visible x Γ = Some p ∧ ret = Some p) ∧ Forall (λ G, G = ∅) (tail Γ) ∧ wf Γ k
  end.

(** Every path through a fragment ends in a [return]. *)
Fixpoint returns (c : pcode) : bool :=
  match c with
  | P_nil => false
  | P_decl _ _ k | P_new _ _ k | P_null _ _ k | P_copy _ _ _ k | P_assign _ _ k | P_clear _ k
  | P_store _ _ _ k | P_call _ _ _ k | P_if _ _ k | P_while _ _ k => returns k
  | P_block b k => returns b || returns k
  | P_if_else _ b e k => returns b && returns e || returns k
  | P_return _ _ => true
  end.

(** No pointer is left uninitialised by its declaration. *)
Fixpoint initialised (c : pcode) : bool :=
  match c with
  | P_nil => true
  | P_decl _ _ _ => false
  | P_new _ _ k | P_null _ _ k | P_copy _ _ _ k | P_assign _ _ k | P_clear _ k
  | P_store _ _ _ k | P_call _ _ _ k | P_return _ k => initialised k
  | P_block b k | P_if _ b k | P_while _ b k => initialised b && initialised k
  | P_if_else _ b e k => initialised b && initialised e && initialised k
  end.

(** Whether the assignments [x->f = y] are accepted. *)
Fixpoint stores_ok (stores : bool) (c : pcode) : bool :=
  match c with
  | P_nil => true
  | P_decl _ _ k | P_new _ _ k | P_null _ _ k | P_copy _ _ _ k | P_assign _ _ k | P_clear _ k
  | P_call _ _ _ k | P_return _ k => stores_ok stores k
  | P_store _ _ _ k => stores && stores_ok stores k
  | P_block b k | P_if _ b k | P_while _ b k => stores_ok stores b && stores_ok stores k
  | P_if_else _ b e k => stores_ok stores b && stores_ok stores e && stores_ok stores k
  end.

Lemma stores_ok_true c : stores_ok true c = true.
Proof. induction c; cbn [stores_ok]; by rewrite ?IHc, ?IHc1, ?IHc2, ?IHc3. Qed.

(** The scopes at the end of a fragment. *)
Fixpoint after_decls (c : pcode) (Γ : list (gmap string ptype)) : list (gmap string ptype) :=
  match c with
  | P_nil => Γ
  | P_decl p x k | P_new p x k | P_null p x k | P_copy p x _ k => after_decls k (declare x p Γ)
  | P_call d _ _ k => after_decls k (dest_declare d Γ)
  | P_assign _ _ k | P_clear _ k | P_store _ _ _ k | P_block _ k | P_if _ _ k
  | P_if_else _ _ _ k | P_while _ _ k | P_return _ k => after_decls k Γ
  end.

Lemma type_of_app x Γ1 Γ2 :
  type_of x (Γ1 ++ Γ2) = match type_of x Γ1 with Some p => Some p | None => type_of x Γ2 end.
Proof. induction Γ1 as [|G Γ1 IH]; [done|]. simpl. by destruct (G !! x). Qed.

Lemma type_of_visible x p Γ : type_of x Γ = Some p → visible x Γ = Some p.
Proof. intros Hx. unfold visible. by rewrite type_of_app, Hx. Qed.

Lemma declare_cons x p G Γ : declare x p (G :: Γ) = <[x := p]> G :: Γ.
Proof. done. Qed.

Lemma after_decls_cons c G Γ :
  ∃ G', after_decls c (G :: Γ) = G' :: Γ ∧ dom G' = declared c ∪ dom G.
Proof.
  revert G. induction c; intros G; simpl;
    try match goal with d : dest |- _ => destruct d end;
    try (edestruct IHc as (G' & E & D); exists G'; split; [exact E|]; rewrite D;
         rewrite ?dom_insert_L; set_solver);
    try (edestruct IHc2 as (G' & E & D); exists G'; split; [exact E|]; rewrite D; set_solver).
  - exists G. split; [done|set_solver].
  - edestruct IHc3 as (G' & E & D). exists G'. split; [exact E|]. rewrite D. set_solver.
Qed.

(** ** The visitor's state along a fragment *)

(** The symbols of a scope. *)
Definition vars_of (G : gmap string ptype) : gmap string Variable_ :=
  map_imap (λ x p, Some (Variable_of x (pt_ptr p))) G.

Lemma lookup_vars_of G x :
  vars_of G !! x = (λ p, Variable_of x (pt_ptr p)) <$> G !! x.
Proof. unfold vars_of. rewrite map_lookup_imap. by destruct (G !! x). Qed.

Lemma vars_of_insert x p G :
  vars_of (<[x := p]> G) = <[x := Variable_of x (pt_ptr p)]> (vars_of G).
Proof.
  apply map_eq. intros y. rewrite lookup_vars_of, !lookup_insert.
  case_decide; [by subst|]. by rewrite lookup_vars_of.
Qed.

Lemma lookup_scopes_vars_of x Γ base :
  lookup_scopes x ((vars_of <$> Γ) ++ base)
  = match type_of x Γ with
    | Some p => Some (Variable_of x (pt_ptr p))
    | None => lookup_scopes x base
    end.
Proof.
  induction Γ as [|G Γ IH]; [done|]. cbn [fmap list_fmap app lookup_scopes type_of].
  rewrite lookup_vars_of. by destruct (G !! x).
Qed.
End fragment.
