(* ===== verification/PointerVisit.v ===== *)
(** The visitor on code that handles pointers: in the second pass it prints the code of file
    PointerCode.

    The visitor's state along a fragment is given by the scopes of the fragment; each statement
    prints the text of its instructions and changes nothing but the scopes. *)
From S2P Require Import Prelude Errors CppString Types TypeSystem SymbolTable.
From S2P Require Import CodeGenerator Syntax Visitor Transpile StringFacts SyntaxInd.
From S2P Require Import VisitorFrame VisitorProps Static StmtProps CodeGenProps ExprProps.
From S2P Require Import PointerCode.
#[local] Open Scope Z_scope.

Lemma identifier_no_arrow x : is_identifier x = true → str_find "->" x 0 = npos.
Proof.
  intros Hx. apply (identifier_free "-"%char) in Hx; [|done..]. unfold char_free in Hx.
  unfold str_find. destruct (_ <? _); [done|].
  replace (String.index (Z.to_nat 0) "->" x) with (@None nat); [done|].
  change (Z.to_nat 0) with 0%nat. revert Hx. induction x as [|a x IH]; [done|].
  cbn [char_index String.index String.prefix].
  case_decide as Ha; [done|]. destruct (char_index "-"%char x) eqn:E; [done|]. intros _.
  rewrite <-IH by done. by destruct (ascii_dec "-"%char a) as [<-|].
Qed.

(** The texts of the reference counts are the generator's. *)
Lemma inc_text d x t :
  instr_text d (I_inc x) = spaces (d * 4) +:+ C_generateIncRef true (Variable_of x t) "NULL".
Proof.
  unfold instr_text, C_generateIncRef. cbn [negb v_name Variable_of].
  change ", NULL);" with (", " +:+ "NULL" +:+ ");"). by string_norm.
Qed.
Lemma dec_text d x t :
  instr_text d (I_dec x) = spaces (d * 4) +:+ C_generateDecRef true (Variable_of x t).
Proof.
  unfold instr_text, C_generateDecRef. cbn [negb v_name v_field_name Variable_of].
  change ", 0);" with (", " +:+ "0" +:+ ");"). rewrite bool_decide_true by done. cbn [negb].
  by string_norm.
Qed.

Lemma indented_no_name n t : var_name (spaces (S n * 4) +:+ t) = false.
Proof. done. Qed.

Section visit.
Context (ts : TypeSystem) (F : gmap string signature) (Π : gmap string ptype)
  (ret : option ptype) (s0 : VState).
Context (Hpass : m_first_pass s0 = false) (Hts : same_types ts (m_typeSystem s0)).
(** The names in scope before the fragment are those of variables, the parameters among them. *)
Context (Hnames : ∀ x v, lookupSymbol x (m_symbolTable s0) = Some v → var_name x = true).
Context (HΠ : ∀ x p, Π !! x = Some p →
  lookupSymbol x (m_symbolTable s0) = Some (Variable_of x (pt_ptr p)) ∧ good_type ts p).
(** A call retains its arguments, unless the visitor is in a [return] or a condition. *)
Context (Hadd : addRefCounts s0 = true).

Definition along (Γ : list (gmap string ptype)) (o : string) : VState :=
  set_output o (set_symbolTable
    (with_scopes ((vars_of <$> Γ) ++ scopes (m_symbolTable s0)) (m_symbolTable s0)) s0).
Definition depth (Γ : list (gmap string ptype)) : nat :=
  length Γ + length (scopes (m_symbolTable s0)).
Definition names_ok (Γ : list (gmap string ptype)) : Prop :=
  ∀ x p, type_of x Γ = Some p → good_type ts p ∧ var_name x = true.

Lemma names_ok_visible x p Γ :
  names_ok Γ → visible Π x Γ = Some p → good_type ts p ∧ var_name x = true.
Proof.
  intros Hn. unfold visible. rewrite type_of_app. destruct (type_of x Γ) as [q|] eqn:E.
  - intros [= <-]. by apply Hn.
  - simpl. destruct (Π !! x) as [q|] eqn:Ex; [|done]. intros [= <-].
    destruct (HΠ _ _ Ex) as [Hl Hg]. eauto.
Qed.

Lemma lookup_along x Γ o :
  lookupSymbol x (m_symbolTable (along Γ o))
  = match visible Π x Γ with
    | Some p => Some (Variable_of x (pt_ptr p))
    | None => lookupSymbol x (m_symbolTable s0)
    end.
Proof.
  unfold lookupSymbol at 1. cbn [along m_symbolTable set_output set_symbolTable scopes
    with_scopes currentFunc]. rewrite lookup_scopes_vars_of.
  unfold visible. rewrite type_of_app. destruct (type_of x Γ); [done|].
  simpl. destruct (Π !! x) as [p|] eqn:E; [|reflexivity].
  destruct (HΠ _ _ E) as [<- _]. reflexivity.
Qed.

Lemma lookup_no_name x Γ o :
  names_ok Γ → var_name x = false → lookupSymbol x (m_symbolTable (along Γ o)) = None.
Proof.
  intros Hn Hx. rewrite lookup_along. destruct (visible Π x Γ) as [p|] eqn:E.
  - destruct (names_ok_visible x p Γ Hn E). congruence.
  - destruct (lookupSymbol x _) as [v|] eqn:E'; [|done]. apply Hnames in E'. congruence.
Qed.

Lemma indent_along Γ o : getIndentLevel (m_symbolTable (along Γ o)) = spaces (depth Γ * 4).
Proof. unfold getIndentLevel, depth. simpl. by rewrite length_app, length_fmap. Qed.

Lemma out_along t Γ o : out t (along Γ o) = Ret (tt, along Γ (o +:+ t)).
Proof. done. Qed.

Lemma add_symbol_along x p G Γ o :
  add_symbol x (pt_ptr p) (along (G :: Γ) o) = Ret (tt, along (declare x p (G :: Γ)) o).
Proof.
  unfold along. cbn [declare fmap list_fmap app]. rewrite vars_of_insert. done.
Qed.

Lemma names_ok_declare x p G Γ :
  good_type ts p → var_name x = true → names_ok (G :: Γ) → names_ok (declare x p (G :: Γ)).
Proof.
  intros Hp Hx Hn y q. cbn [declare type_of]. rewrite lookup_insert.
  case_decide as Hxy; [intros [= <-]; by subst|]. exact (Hn y q).
Qed.

(** The declarations. *)
Lemma visit_initialised p x e init pre counts G Γ o :
  good_type ts p →
  visit_expr (CG:=CRef) e (along (G :: Γ) o) = Ret (init, along (G :: Γ) (o +:+ pre)) →
  match visible Π init (G :: Γ) with
  | Some q => q = p ∧ counts = instr_text (depth (G :: Γ)) (I_inc init)
  | None => lookupSymbol init (m_symbolTable s0) = None ∧ counts = EmptyString
  end →
  visit_stmt (CG:=CRef) (pointer_decl p x (Some e)) (along (G :: Γ) o)
  = Ret (tt, along (declare x p (G :: Γ))
               (o +:+ pre +:+ counts +:+ spaces (depth (G :: Γ) * 4) +:+ var_text (pt_ptr p) x +:+ " = "
                  +:+ init +:+ ";" +:+ nl)).
Proof.
  intros Hp He Hinit. pose proof Hp as [_ Hptr Hpt [_ Hpr]].
  unfold pointer_decl. cbn [visit_stmt visit_init vd_decl vd_init option_map].
  unfold visitVarDecl, indentation. run_heads. unfold visit_init. cbn [vd_decl vd_init option_map].
  unfold declaratorFromCode.
  rewrite (bind_step _ _ _ (x, pt_ptr p) (along (G :: Γ) o))
    by (by rewrite (bind_step _ _ _ _ _ (Hptr (along (G :: Γ) o) Hts))).
  cbn beta iota. run_heads. rewrite !indent_along.
  change (m_first_pass (along (G :: Γ) o)) with (m_first_pass s0). rewrite Hpass, andb_false_r.
  cbn [whenM negb]. rewrite bind_mret.
  set (text := pre +:+ counts +:+ _).
  rewrite (bind_step _ _ (along (G :: Γ) o) tt (along (G :: Γ) (o +:+ text)));
    [by apply add_symbol_along|].
  rewrite (bind_step _ _ _ _ _ He). set (o1 := o +:+ pre). run_heads. rewrite lookup_along.
  destruct (visible Π init (G :: Γ)) as [q|] eqn:E.
  - destruct Hinit as [-> ->]. cbn [v_type Variable_of].
    rewrite (bind_step _ _ (along (G :: Γ) o1) init (along (G :: Γ) o1)).
    2:{ rewrite (bind_types_out _ true) by (by apply isCompatible_same).
        cbn [generateCast CCodeGenerator v_type Variable_of].
        by rewrite generateCast_same. }
    run_heads. rewrite lookup_along, E. cbn [v_type Variable_of]. rewrite Hpt. cbn [whenM].
    rewrite (bind_step _ _ _ _ _ (out_along _ _ _)).
    cbn [generateVarDecl CCodeGenerator]. unfold C_generateVarDecl.
    rewrite outputVariable_var_text by done. bind_ret. run_heads.
    rewrite out_along. do 3 f_equal. subst text o1. clear.
    rewrite (inc_text _ _ (pt_ptr p)). cbn [generateIncRef CCodeGenerator]. unfold incRef_default.
    by string_norm.
  - destruct Hinit as [Hnone ->]. rewrite Hnone. run_heads. rewrite lookup_along, E, Hnone.
    run_heads. cbn [generateVarDecl CCodeGenerator]. unfold C_generateVarDecl.
    rewrite outputVariable_var_text by done. bind_ret. run_heads.
    rewrite out_along. do 3 f_equal. subst text o1. clear. by string_norm.
Qed.

Lemma visit_P_decl p x G Γ o :
  good_type ts p →
  visit_stmt (CG:=CRef) (pointer_decl p x None) (along (G :: Γ) o)
  = Ret (tt, along (declare x p (G :: Γ)) (o +:+ instr_text (depth (G :: Γ)) (I_declare p x))).
Proof.
  intros [_ Hptr Hpt [_ Hpr]].
  unfold pointer_decl. cbn [visit_stmt visit_init vd_decl vd_init option_map].
  unfold visitVarDecl, indentation. run_heads. unfold visit_init. cbn [vd_decl vd_init option_map].
  unfold declaratorFromCode.
  rewrite (bind_step _ _ _ (x, pt_ptr p) (along (G :: Γ) o))
    by (by rewrite (bind_step _ _ _ _ _ (Hptr (along (G :: Γ) o) Hts))).
  cbn beta iota. run_heads. rewrite !indent_along.
  change (m_first_pass (along (G :: Γ) o)) with (m_first_pass s0). rewrite Hpass, andb_false_r.
  cbn [whenM negb]. rewrite bind_mret. cbn [generateVarDecl CCodeGenerator].
  unfold C_generateVarDecl. rewrite outputVariable_var_text by done. bind_ret.
  rewrite (bind_step _ _ (along (G :: Γ) o) tt
             (along (G :: Γ) (o +:+ instr_text (depth (G :: Γ)) (I_declare p x))));
    [by apply add_symbol_along|]. run_heads. by rewrite out_along.
Qed.

Lemma alloc_no_name t : var_name ("runtime_alloc(sizeof(" +:+ t) = false.
Proof. done. Qed.

Lemma visit_P_new p x G Γ o :
  good_type ts p → names_ok (G :: Γ) →
  visit_stmt (CG:=CRef) (pointer_decl p x (Some (NewExpr (pt_spec p)))) (along (G :: Γ) o)
  = Ret (tt, along (declare x p (G :: Γ)) (o +:+ instr_text (depth (G :: Γ)) (I_alloc p x))).
Proof.
  intros Hp Hn. pose proof Hp as [Helem _ _ [Hpe _]].
  set (init := "runtime_alloc(sizeof(" +:+ (ty_text (pt_elem p) +:+ "))")).
  pose proof (lookup_no_name init _ o Hn (alloc_no_name _)) as Hl. rewrite lookup_along in Hl.
  rewrite (visit_initialised p x _ init EmptyString EmptyString); [|done| |].
  - do 3 f_equal. unfold instr_text, init. clear.
    change " = runtime_alloc(sizeof(" with (" = " +:+ "runtime_alloc(sizeof(").
    change "));" with ("))" +:+ ";"). by string_norm.
  - rewrite string_app_nil_r. cbn [visit_expr]. unfold visitNewExpr.
    rewrite (bind_step _ _ _ _ _ (Helem (along (G :: Γ) o) Hts)).
    cbn [generateAlloc CCodeGenerator]. unfold C_generateAlloc. by rewrite toString_ty_text.
  - destruct (visible Π init (G :: Γ)); [done|]. done.
Qed.

Lemma visit_P_null p x G Γ o :
  good_type ts p → names_ok (G :: Γ) →
  visit_stmt (CG:=CRef) (pointer_decl p x (Some (ident "NULL"))) (along (G :: Γ) o)
  = Ret (tt, along (declare x p (G :: Γ)) (o +:+ instr_text (depth (G :: Γ)) (I_null p x))).
Proof.
  intros Hp Hn. pose proof (lookup_no_name "NULL" _ o Hn eq_refl) as Hl. rewrite lookup_along in Hl.
  rewrite (visit_initialised p x _ "NULL" EmptyString EmptyString); [|done| |].
  - done.
  - by rewrite string_app_nil_r.
  - by destruct (visible Π "NULL" (G :: Γ)).
Qed.

Lemma visit_P_copy p x y G Γ o :
  good_type ts p → visible Π y (G :: Γ) = Some p →
  visit_stmt (CG:=CRef) (pointer_decl p x (Some (ident y))) (along (G :: Γ) o)
  = Ret (tt, along (declare x p (G :: Γ))
               (o +:+ instr_text (depth (G :: Γ)) (I_inc y)
                  +:+ instr_text (depth (G :: Γ)) (I_copy p x y))).
Proof.
  intros Hp Hy.
  rewrite (visit_initialised p x _ y EmptyString (instr_text (depth (G :: Γ)) (I_inc y)));
    [done..| |by rewrite Hy]. by rewrite string_app_nil_r.
Qed.

Lemma visit_P_assign p x y Γ o :
  names_ok Γ → type_of x Γ = Some p → visible Π y Γ = Some p →
  visit_stmt (CG:=CRef) (S_expr (AssignExpr (ident x) (ident y))) (along Γ o)
  = Ret (tt, along Γ (o +:+ instr_text (depth Γ) (I_inc y) +:+ instr_text (depth Γ) (I_dec x)
                        +:+ instr_text (depth Γ) (I_assign x y))).
Proof.
  intros Hn Hx Hy. destruct (Hn x p Hx) as [[_ _ Hpt [_ Hpr]] Hid].
  cbn [visit_stmt]. unfold visitExprStmt.
  rewrite (bind_step _ _ _ (x +:+ " = " +:+ y)
    (along Γ (o +:+ instr_text (depth Γ) (I_inc y) +:+ instr_text (depth Γ) (I_dec x)))).
  - run_heads. change (m_first_pass _) with (m_first_pass s0). rewrite Hpass. cbn [negb whenM].
    unfold indentation, sym. run_heads. rewrite indent_along, out_along. do 3 f_equal.
    change (instr_text (depth Γ) (I_assign x y)) with (spaces (depth Γ * 4) +:+ x +:+ " = " +:+ y +:+ ";" +:+ nl).
    clear. by string_norm.
  - pose proof (visit_pointer_assign (along Γ o) x y (Variable_of x (pt_ptr p))
      (Variable_of y (pt_ptr p)) y (instr_text (depth Γ) (I_inc y)) true) as H.
    rewrite !lookup_along, (type_of_visible _ _ _ _ Hx), Hy, indent_along in H. unfold assigns in H.
    rewrite H; clear H; try done.
    + rewrite (dec_text _ _ (pt_ptr p)). done.
    + by apply identifier_no_arrow, var_name_identifier.
    + by apply isCompatible_same.
    + apply generateCast_same.
    + cbn [v_type Variable_of]. rewrite Hpt. by rewrite (inc_text _ _ (pt_ptr p)).
Qed.

(** An assignment to a field: the base of the left-hand side is what retains the value. *)
Lemma find_arrow x f : is_identifier x = true → str_find "->" (x +:+ "->" +:+ f) 0 = str_size x.
Proof.
  intros Hx. apply (identifier_free "-"%char) in Hx; [|done..]. unfold char_free in Hx.
  unfold str_find. rewrite (proj2 (Z.ltb_ge _ _)) by apply str_size_nonneg.
  replace (String.index (Z.to_nat 0) "->" (x +:+ "->" +:+ f)) with (Some (String.length x)); [done|].
  change (Z.to_nat 0) with 0%nat. revert Hx. induction x as [|a x IH]; [by destruct f|].
  rewrite string_app_cons. cbn [char_index String.index String.prefix String.length].
  case_decide as Ha; [done|]. destruct (char_index "-"%char x) eqn:E; [done|]. intros _.
  rewrite <-IH by done. by destruct (ascii_dec "-"%char a) as [<-|].
Qed.

Lemma arrow_no_name x t : is_identifier (x +:+ "->" +:+ t) = false.
Proof.
  destruct (is_identifier _) eqn:E; [|done].
  apply (identifier_free "-"%char) in E; [|done..].
  by apply char_free_app in E as [_ [=]].
Qed.

Lemma inc_other_text d y x t :
  instr_text d (I_hold y x) = spaces (d * 4) +:+ C_generateIncRef true (Variable_of y t) x.
Proof. unfold instr_text, C_generateIncRef. cbn [negb v_name Variable_of]. by string_norm. Qed.

Lemma visit_P_store p q x f y Γ o :
  names_ok Γ → visible Π x Γ = Some p → visible Π y Γ = Some q → field_ok p f q →
  x ≠ "this" → str_size x < npos →
  visit_stmt (CG:=CRef) (S_expr (AssignExpr (PointerMemberExpr (ident x) f) (ident y))) (along Γ o)
  = Ret (tt, along Γ (o +:+ instr_text (depth Γ) (I_hold y x) +:+ instr_text (depth Γ) (I_store x f y))).
Proof.
  intros Hn Hx Hy [Hst _] Hthis Hsize.
  destruct (names_ok_visible x p Γ Hn Hx) as [[_ _ Hpx _] Hid].
  destruct (names_ok_visible y q Γ Hn Hy) as [[_ _ Hpy _] _].
  assert (isClass (pt_ptr p) = false) as Hcl.
  { unfold isStruct, isClass in *. apply bool_decide_eq_true in Hst. by rewrite Hst. }
  set (o1 := o +:+ instr_text (depth Γ) (I_hold y x)).
  cbn [visit_stmt]. unfold visitExprStmt.
  rewrite (bind_step _ _ _ ((x +:+ "->" +:+ f) +:+ " = " +:+ y) (along Γ o1)).
  { run_heads. change (m_first_pass _) with (m_first_pass s0). rewrite Hpass. cbn [negb whenM].
    unfold indentation, sym. run_heads. rewrite indent_along, out_along. do 3 f_equal. subst o1.
    cbn [instr_text]. clear. by string_norm. }
  cbn [visit_expr ident]. unfold visitAssignExpr at 1, first_pass. rewrite bind_gets.
  change (m_first_pass _) with (m_first_pass s0). rewrite Hpass.
  rewrite (bind_step _ _ _ (x +:+ "->" +:+ f) (along Γ o)).
  2:{ unfold visitPointerMemberExpr, visitPrimary. run_heads.
      change (m_first_pass _) with (m_first_pass s0). rewrite Hpass. run_heads.
      rewrite (bind_step _ _ (along Γ o) None (along Γ o)).
      2:{ destruct (currentFunc _); [|done]. by rewrite decide_False. }
      run_heads. rewrite lookup_along, Hx. cbn [v_type Variable_of]. rewrite Hcl. by run_heads. }
  unfold visitPrimary. run_heads.
  assert (∀ o, lookupSymbol (x +:+ "->" +:+ f) (m_symbolTable (along Γ o)) = None) as Hleft.
  { intros o'. apply lookup_no_name; [done|]. unfold var_name. by rewrite arrow_no_name. }
  rewrite Hleft. run_heads. rewrite lookup_along, Hy. cbn [v_type Variable_of].
  rewrite Hpy. cbn [whenM]. unfold indentation, sym. run_heads.
  rewrite find_arrow by (by apply var_name_identifier). rewrite (proj2 (Z.eqb_neq _ _)) by lia. cbn [negb].
  rewrite (bind_step _ _ (along Γ o) tt (along Γ o1)).
  - run_heads. by rewrite Hleft.
  - rewrite substr_prefix, bind_lift. run_heads. rewrite lookup_along, Hx. cbn [v_type Variable_of v_name].
    rewrite Hpx, indent_along. cbn [whenM generateIncRef CCodeGenerator].
    by rewrite <-inc_other_text.
Qed.

(** The text of a sequence, and the depth it ends at. *)
Lemma print_app d l1 l2 : print d (l1 ++ l2) = print d l1 +:+ print (foldl depth_after d l1) l2.
Proof.
  revert d. induction l1 as [|i l1 IH]; intros d; [by rewrite string_app_nil_l|].
  cbn [app print foldl]. by rewrite IH, string_app_assoc.
Qed.

Lemma depth_decs d xs : foldl depth_after d (I_dec <$> xs) = d.
Proof. induction xs as [|x xs IH]; [done|]. exact IH. Qed.

Lemma depth_incs d xs : foldl depth_after d (I_inc <$> xs) = d.
Proof. induction xs as [|x xs IH]; [done|]. exact IH. Qed.

Lemma depth_call d t f ys : foldl depth_after d (call_code t f ys) = d.
Proof.
  unfold call_code. rewrite foldl_app, depth_incs, foldl_app.
  replace (foldl depth_after d (release_dest t)) with d by (by destruct t).
  cbn [foldl depth_after]. rewrite foldl_app, depth_decs. by destruct ys.
Qed.

Lemma depth_release d xs : foldl depth_after d (release_all xs) = d.
Proof. apply depth_decs. Qed.

Lemma depth_return xs x d : foldl depth_after d (return_code xs x) = d.
Proof. unfold return_code. cbn [foldl depth_after]. by rewrite foldl_app, depth_release. Qed.

Lemma print_one d i : print d [i] = instr_text d i.
Proof. cbn [print_with]. by rewrite string_app_nil_r. Qed.

Lemma depth_compile c : ∀ xs d, foldl depth_after d (compile xs c) = d.
Proof.
  induction c; intros xs d'; cbn [compile foldl depth_after app return_code];
    rewrite ?foldl_app, ?depth_call, ?depth_release; cbn [foldl depth_after];
    rewrite ?foldl_app; auto.
  rewrite IHc1. apply IHc2.
Qed.

Lemma depth_block b d : foldl depth_after d (compile_block b) = d.
Proof.
  unfold compile_block. cbn [foldl depth_after]. by rewrite !foldl_app, depth_compile, depth_release.
Qed.

(** Calls. *)
Lemma visit_call_args ys ps Γ o dn b :
  addRefCounts s0 = true → names_ok Γ →
  Forall2 (λ y p, visible Π y Γ = Some p) ys ps →
  foldM (call_arg (CG:=CRef) (spaces (depth Γ * 4))) (visit_expr (CG:=CRef) <$> (ident <$> ys))
    (dn, b) (along Γ o)
  = Ret ((dn ++ ys, match ys with [] => b | _ => true end),
         along Γ (o +:+ print (depth Γ) (I_inc <$> ys))).
Proof.
  intros Hadds Hn Hys. revert o dn b.
  induction Hys as [|y p ys ps Hy Hys IH]; intros o dn b.
  { cbn [fmap list_fmap foldM print]. by rewrite app_nil_r, string_app_nil_r. }
  cbn [fmap list_fmap foldM]. destruct (names_ok_visible y p Γ Hn Hy) as [[_ _ Hpt _] _].
  rewrite (bind_step _ _ _ (dn ++ [y], true) (along Γ (o +:+ instr_text (depth Γ) (I_inc y)))).
  - rewrite IH. cbn [print depth_after]. rewrite <-app_assoc, string_app_assoc. simpl app.
    by destruct ys.
  - unfold call_arg. cbn [visit_expr ident]. unfold visitPrimary. run_heads.
    rewrite lookup_along, Hy. cbn [v_type Variable_of addRefCounts along set_output set_symbolTable].
    rewrite Hadds, Hpt. cbn [andb].
    rewrite (bind_step _ _ _ _ _ (out_along _ _ _)), (inc_text _ _ (pt_ptr p)). done.
Qed.

Lemma visit_release_args ys ps Γ o code :
  names_ok Γ → Forall2 (λ y p, visible Π y Γ = Some p) ys ps →
  foldM (release_arg (CG:=CRef) (spaces (depth Γ * 4))) (visit_expr (CG:=CRef) <$> (ident <$> ys))
    code (along Γ o)
  = Ret (code +:+ print (depth Γ) (I_dec <$> ys), along Γ o).
Proof.
  intros Hn Hys. revert code. induction Hys as [|y p ys ps Hy Hys IH]; intros code.
  { cbn [fmap list_fmap foldM print]. by rewrite string_app_nil_r. }
  cbn [fmap list_fmap foldM]. destruct (names_ok_visible y p Γ Hn Hy) as [[_ _ Hpt _] _].
  rewrite (bind_step _ _ _ (code +:+ instr_text (depth Γ) (I_dec y)) (along Γ o)).
  - rewrite IH. cbn [print depth_after]. by rewrite string_app_assoc.
  - unfold release_arg. cbn [visit_expr ident]. unfold visitPrimary. run_heads.
    rewrite lookup_along, Hy. cbn [v_type Variable_of]. rewrite Hpt.
    by rewrite (dec_text _ _ (pt_ptr p)).
Qed.

(** The text a call is given, without its last semicolon. *)
Definition call_result (d : nat) (f : string) (ys : list string) : string :=
  spaces (d * 4) +:+ call_text f ys
    +:+ match ys with [] => EmptyString | _ => ";" +:+ nl end +:+ print d (I_dec <$> ys).

Lemma identifier_not_encoded f p :
  is_identifier f = true → str_find (p +:+ ":") f 0 =? 0 = false.
Proof.
  intros Hf. apply (identifier_free ":"%char) in Hf; [|done..]. apply Z.eqb_neq.
  unfold str_find. destruct (_ <? _); [done|].
  destruct (String.index (Z.to_nat 0) (p +:+ ":") f) as [[|n]|] eqn:E; [|simpl; lia|done].
  exfalso. apply String.index_correct1 in E. clear -Hf E. revert f Hf E.
  induction p as [|a p IH]; intros [|c f] Hf E; try discriminate E.
  - unfold char_free in Hf. simpl in *. injection E as ->. by rewrite decide_True in Hf.
  - simpl in E. injection E as -> E. apply (IH f); [|done].
    unfold char_free in *. simpl in Hf. case_decide; [done|].
    by destruct (char_index _ f).
Qed.

Lemma visit_call_expr f ys ps G Γ o :
  addRefCounts s0 = true → names_ok (G :: Γ) → is_identifier f = true →
  Forall2 (λ y p, visible Π y (G :: Γ) = Some p) ys ps →
  visit_expr (CG:=CRef) (call_expr f ys) (along (G :: Γ) o)
  = Ret (call_result (depth (G :: Γ)) f ys,
         along (G :: Γ) (o +:+ print (depth (G :: Γ)) (I_inc <$> ys))).
Proof.
  intros Hadds Hn Hf Hys. unfold call_expr. cbn [visit_expr].
  unfold visitFuncCallExpr, visitFunctionCall. cbn [fc_name fc_args]. run_heads.
  change (m_first_pass (along (G :: Γ) o)) with (m_first_pass s0). rewrite Hpass.
  rewrite (identifier_not_encoded f "VIRTUAL_CALL" Hf : str_find "VIRTUAL_CALL:" f 0 =? 0 = false),
    (identifier_not_encoded f "METHOD_CALL" Hf : str_find "METHOD_CALL:" f 0 =? 0 = false).
  run_heads. rewrite indent_along.
  replace (default [] (option_map (map visit_expr) match ys with [] => None | _ => Some (ident <$> ys) end))
    with (visit_expr (CG:=CRef) <$> (ident <$> ys)) by (by destruct ys).
  rewrite (bind_step _ _ _ _ _ (visit_call_args _ _ _ o [] false Hadds Hn Hys)). cbn [app].
  run_heads. cbn [addRefCounts along set_output set_symbolTable]. rewrite Hadds.
  rewrite (visit_release_args _ _ _ _ _ Hn Hys). do 2 f_equal. unfold call_result, call_text.
  cbn [generateFunctionCall CCodeGenerator]. rewrite generateFunctionCall_text.
  clear. destruct ys; by string_norm.
Qed.

Lemma print_call_code d t f ys :
  print d (call_code t f ys)
  = print d (I_inc <$> ys) +:+ print d (release_dest t) +:+ spaces (d * 4) +:+ dest_text t
      +:+ call_result d f ys +:+ ";" +:+ nl.
Proof.
  unfold call_code, call_result. rewrite print_app, depth_incs, print_app.
  replace (foldl depth_after d (release_dest t)) with d by (by destruct t).
  cbn [print depth_after instr_text]. rewrite print_app, depth_decs. clear.
  destruct ys; [|change (print d [I_empty]) with (";" +:+ nl)]; by string_norm.
Qed.

Lemma visit_expr_stmt e G Γ o r pre :
  visit_expr (CG:=CRef) e (along (G :: Γ) o) = Ret (r, along (G :: Γ) (o +:+ pre)) →
  visit_stmt (CG:=CRef) (S_expr e) (along (G :: Γ) o)
  = Ret (tt, along (G :: Γ) (o +:+ pre +:+ spaces (depth (G :: Γ) * 4) +:+ r +:+ ";" +:+ nl)).
Proof.
  intros He. cbn [visit_stmt]. unfold visitExprStmt. rewrite (bind_step _ _ _ _ _ He). run_heads.
  change (m_first_pass _) with (m_first_pass s0). rewrite Hpass. cbn [negb whenM].
  unfold indentation, sym. run_heads. rewrite indent_along, out_along.
  do 3 f_equal. clear. by string_norm.
Qed.

(** An assignment of what is no variable: only the old value is counted. *)
Lemma visit_assign_value x p e r pre G Γ o :
  names_ok (G :: Γ) → type_of x (G :: Γ) = Some p → var_name r = false →
  visit_expr (CG:=CRef) e (along (G :: Γ) o) = Ret (r, along (G :: Γ) (o +:+ pre)) →
  visit_stmt (CG:=CRef) (S_expr (AssignExpr (ident x) e)) (along (G :: Γ) o)
  = Ret (tt, along (G :: Γ) (o +:+ pre +:+ instr_text (depth (G :: Γ)) (I_dec x)
               +:+ spaces (depth (G :: Γ) * 4) +:+ x +:+ " = " +:+ r +:+ ";" +:+ nl)).
Proof.
  intros Hn Hx Hr He. pose proof (λ o, lookup_no_name r _ o Hn Hr) as Hno.
  destruct (Hn x p Hx) as [[_ _ Hpt _] _].
  rewrite (visit_expr_stmt _ _ _ _ (x +:+ " = " +:+ r)
    (pre +:+ instr_text (depth (G :: Γ)) (I_dec x))).
  - do 3 f_equal. clear. by string_norm.
  - cbn [visit_expr ident]. unfold visitAssignExpr, visitPrimary. run_heads.
    change (m_first_pass _) with (m_first_pass s0). rewrite Hpass. run_heads.
    rewrite (bind_step _ _ _ _ _ He). run_heads. rewrite !Hno, lookup_along.
    rewrite (type_of_visible _ _ _ _ Hx). run_heads. rewrite Hno. run_heads.
    rewrite lookup_along, (type_of_visible _ _ _ _ Hx). cbn [v_type Variable_of]. rewrite Hpt.
    cbn [whenM]. rewrite (bind_step _ _ _ _ _ (out_along _ _ _)), indent_along.
    rewrite (dec_text _ _ (pt_ptr p)). unfold mret, stM_ret. do 3 f_equal. clear. by string_norm.
Qed.

Lemma visit_P_call t f ys ps result G Γ o :
  names_ok (G :: Γ) → is_identifier f = true →
  Forall2 (λ y p, visible Π y (G :: Γ) = Some p) ys ps → dest_ok ts t result ys (G :: Γ) →
  visit_stmt (CG:=CRef) (call_stmt t f ys) (along (G :: Γ) o)
  = Ret (tt, along (dest_declare t (G :: Γ)) (o +:+ print (depth (G :: Γ)) (call_code t f ys))).
Proof.
  intros Hn Hf Hys Hd.
  pose proof (visit_call_expr f ys ps G Γ o Hadd Hn Hf Hys) as He.
  assert (var_name (call_result (depth (G :: Γ)) f ys) = false) as Hr
    by (unfold call_result; apply indented_no_name).
  rewrite print_call_code. destruct t as [|p x|x]; cbn [call_stmt dest_declare].
  - by rewrite (visit_expr_stmt _ _ _ _ _ _ He).
  - destruct result as [q|]; [|done]. destruct Hd as (-> & Hp & _).
    rewrite (visit_initialised q x _ _ _ EmptyString _ _ _ Hp He).
    + do 3 f_equal. cbn [dest_text release_dest print_with]. clear. by string_norm.
    + pose proof (lookup_no_name _ _ o Hn Hr) as Hno. rewrite lookup_along in Hno.
      by destruct (visible Π _ _).
  - destruct result as [q|]; [|done]. destruct Hd as (Hx & _).
    rewrite (visit_assign_value x q _ _ _ _ _ _ Hn Hx Hr He).
    do 3 f_equal. cbn [dest_text release_dest print_with depth_after]. clear. by string_norm.
Qed.

Lemma visit_P_clear x G Γ o :
  names_ok (G :: Γ) → is_Some (type_of x (G :: Γ)) →
  visit_stmt (CG:=CRef) (S_expr (AssignExpr (ident x) (ident "NULL"))) (along (G :: Γ) o)
  = Ret (tt, along (G :: Γ) (o +:+ print (depth (G :: Γ)) [I_dec x; I_clear x])).
Proof.
  intros Hn [p Hx].
  rewrite (visit_assign_value x p (ident "NULL") "NULL" EmptyString _ _ _ Hn Hx eq_refl).
  - do 3 f_equal. cbn [print_with depth_after instr_text]. clear.
    change " = NULL;" with (" = " +:+ "NULL" +:+ ";"). by string_norm.
  - by rewrite string_app_nil_r.
Qed.

Lemma names_ok_dest t result ys G Γ :
  dest_ok ts t result ys (G :: Γ) → names_ok (G :: Γ) → names_ok (dest_declare t (G :: Γ)).
Proof.
  intros Hd Hn. destruct t as [|p x|x]; [done| |done]. destruct result; [|done].
  destruct Hd as (_ & Hp & Hx & _). by apply names_ok_declare.
Qed.

Lemma dest_declare_cons t G Γ :
  ∃ G', dest_declare t (G :: Γ) = G' :: Γ ∧ dom G' = dest_declared t ∪ dom G.
Proof.
  clear Hpass Hts Hnames HΠ Hadd s0.
  destruct t as [|p x|x]; cbn [dest_declare dest_declared];
    [exists G; split; [done|set_solver]| |exists G; split; [done|set_solver]].
  exists (<[x := p]> G). split; [done|apply dom_insert_L].
Qed.

Lemma names_ok_after c G Γ :
  wf ts F Π ret (G :: Γ) c → names_ok (G :: Γ) → names_ok (after_decls c (G :: Γ)).
Proof.
  clear Hpass Hts Hnames HΠ Hadd s0.
  revert G. induction c; intros G Hwf Hn; cbn [wf after_decls] in *; try naive_solver.
  1-4: destruct Hwf as (Hp & Hx & Hwf); rewrite declare_cons in *; apply IHc;
    [by destruct_and? Hwf|]; rewrite <-declare_cons; by apply names_ok_declare.
  destruct Hwf as [(ps & result & _ & _ & _ & _ & Hd) Hk].
  pose proof (names_ok_dest _ _ _ _ _ Hd Hn) as Hn'.
  destruct (dest_declare_cons d G Γ) as (G' & E & _). rewrite E in *. by apply IHc.
Qed.

Lemma release_vars d G Γ :
  names_ok (G :: Γ) →
  release_text (CG:=CRef) (spaces (d * 4)) (vars_of G) = print d (I_dec <$> set_iter (dom G)).
Proof.
  intros Hn. assert (dom G = dom (vars_of G)) as ->.
  { apply set_eq. intros x. rewrite !elem_of_dom, lookup_vars_of. by rewrite fmap_is_Some. }
  rewrite <-map_iter_keys. unfold release_text.
  assert (∀ x v, (x, v) ∈ map_iter (vars_of G) →
            m_isPointer (v_type v) = true ∧ v = Variable_of x (v_type v)) as Hall.
  { intros x v Hin%elem_of_map_iter. rewrite lookup_vars_of in Hin.
    destruct (G !! x) as [p|] eqn:E; [|done]. injection Hin as <-.
    destruct (Hn x p) as [Hp _]; [by simpl; rewrite E|]. by destruct Hp. }
  induction (map_iter (vars_of G)) as [|[x v] l IH]; [done|].
  destruct (Hall x v) as [Hptr Hv]; [by left|]. cbn [foldr fmap list_fmap fst snd print depth_after].
  rewrite IH by (intros; apply Hall; by right). rewrite Hptr, (dec_text _ _ (v_type v)).
  by rewrite Hv at 1.
Qed.

Lemma along_enter Γ o :
  set_symbolTable (enterScope (m_symbolTable (along Γ o))) (along Γ o) = along (∅ :: Γ) o.
Proof. done. Qed.

(** A block whose statements are known. *)
Lemma visit_block_along l t G' Γ o :
  names_ok (G' :: Γ) →
  (∀ o, forM_ (visit_stmt (CG:=CRef)) l (along (∅ :: Γ) o)
        = Ret (tt, along (G' :: Γ) (o +:+ t))) →
  visit_block (CG:=CRef) l (along Γ o)
  = Ret (tt, along Γ (o +:+ "{" +:+ nl +:+ t
                        +:+ print (S (depth Γ)) (release_all (dom G') ++ [I_close]))).
Proof.
  intros Hn' Hb. unfold visit_block, visitBlock, sym_upd. rewrite bind_modify, along_enter.
  run_heads. change (m_first_pass _) with (m_first_pass s0). rewrite Hpass. cbn [negb whenM].
  rewrite (bind_step _ _ _ _ _ (out_along _ _ _)). unfold indentation, sym. run_heads.
  rewrite indent_along, forM_map. unfold id at 1.
  rewrite (bind_step _ _ _ _ _ (Hb _)). run_heads.
  change (m_first_pass _) with (m_first_pass s0). rewrite Hpass. cbn [negb whenM].
  rewrite (bind_step _ _ _ _ _ (release_scope_text _ _)).
  set (o1 := (o +:+ generateScopeEntry) +:+ _).
  change (getCurrentScopeSymbols (m_symbolTable (along (G' :: Γ) o1))) with (vars_of G').
  rewrite (release_vars _ _ Γ Hn'), bind_modify.
  set (decs := print _ _).
  change (set_symbolTable _ _) with (along Γ (o1 +:+ decs)). run_heads. rewrite out_along.
  do 3 f_equal. subst o1 decs. change (depth (∅ :: Γ)) with (S (depth Γ)).
  rewrite !print_app, depth_release. cbn [print_with instr_text].
  cbn [generateScopeEntry generateScopeExit CCodeGenerator].
  unfold C_generateScopeEntry, C_generateScopeExit. rewrite string_app_nil_r. clear. by string_norm.
Qed.

Lemma visit_source_block b Γ o :
  wf ts F Π ret (∅ :: Γ) b → names_ok Γ →
  (∀ o, forM_ (visit_stmt (CG:=CRef)) (source b) (along (∅ :: Γ) o)
        = Ret (tt, along (after_decls b (∅ :: Γ))
                     (o +:+ print (depth (∅ :: Γ)) (compile ∅ b)))) →
  visit_stmt (CG:=CRef) (S_block (source b)) (along Γ o)
  = Ret (tt, along Γ (o +:+ print (depth Γ) (compile_block b))).
Proof.
  intros Hwf Hn Hb. destruct (after_decls_cons b ∅ Γ) as (G' & Hafter & Hdom).
  rewrite Hafter in Hb. change (visit_stmt (S_block (source b))) with (visit_block (CG:=CRef) (source b)).
  rewrite (visit_block_along _ (print (depth (∅ :: Γ)) (compile ∅ b)) G' Γ o).
  - do 3 f_equal. unfold compile_block. rewrite Hdom, dom_empty_L.
    rewrite (right_id_L ∅ (∪)). cbn [app print_with depth_after].
    rewrite (print_app (S (depth Γ)) (compile ∅ b)), depth_compile.
    change (depth (∅ :: Γ)) with (S (depth Γ)). cbn [instr_text]. by string_norm.
  - rewrite <-Hafter. apply names_ok_after; [done|]. intros x p. exact (Hn x p).
  - done.
Qed.

(** The conditions of [if] and [while]. *)
Lemma visit_cond c s :
  visit_expr (CG:=CRef) (cond_source c) s = Ret (cond_text c, s).
Proof. done. Qed.

(** The head of an [if] or a [while], up to its block. *)
Lemma visit_head keyword c (k : M unit) Γ o :
  (_ ← modify (set_addRefCounts false);
   indent ← indentation;
   _ ← out (indent +:+ keyword);
   c ← visit_expr (CG:=CRef) (cond_source c);
   _ ← out (c +:+ ") {" +:+ nl);
   _ ← modify (set_addRefCounts true);
   k) (along Γ o)
  = k (along Γ (o +:+ spaces (depth Γ * 4) +:+ keyword +:+ cond_text c +:+ ") {" +:+ nl)).
Proof.
  unfold indentation. run_heads. rewrite (bind_step _ _ _ _ _ (visit_cond c _)). run_heads. f_equal.
  change (getIndentLevel _) with (getIndentLevel (m_symbolTable (along Γ o))).
  rewrite indent_along. unfold along, set_output, set_addRefCounts, set_symbolTable.
  cbn [m_output m_typeSystem m_symbolTable m_first_pass m_tempVarCounter addRefCounts m_classNames].
  rewrite Hadd. f_equal. clear. by string_norm.
Qed.

Lemma visit_P_if c b e Γ o tb te :
  (∀ o, visit_stmt (CG:=CRef) (S_block b) (along Γ o) = Ret (tt, along Γ (o +:+ tb))) →
  match e with
  | Some e => ∀ o, visit_stmt (CG:=CRef) (S_block e) (along Γ o) = Ret (tt, along Γ (o +:+ te))
  | None => True
  end →
  let indent := spaces (depth Γ * 4) in
  visit_stmt (CG:=CRef) (S_if (cond_source c) (S_block b) (S_block <$> e)) (along Γ o)
  = Ret (tt, along Γ (o +:+ indent +:+ "if (" +:+ cond_text c +:+ ") {" +:+ nl +:+ tb +:+ "}" +:+ nl
      +:+ match e with
          | Some _ => indent +:+ "else {" +:+ nl +:+ te +:+ "}" +:+ nl
          | None => EmptyString
          end)).
Proof.
  intros Hb He indent.
  change (visit_stmt (S_if _ _ _)) with (visitIfStmt (visit_expr (CG:=CRef) (cond_source c))
    (visit_stmt (CG:=CRef) (S_block b)) (option_map (visit_stmt (CG:=CRef)) (S_block <$> e))).
  unfold visitIfStmt, first_pass. rewrite bind_gets. change (m_first_pass _) with (m_first_pass s0). rewrite Hpass, visit_head, (bind_step _ _ _ _ _ (Hb _)).
  rewrite (bind_step _ _ _ _ _ (out_along _ _ _)). destruct e as [e|]; cbn [option_map fmap option_fmap].
  - unfold indentation, sym. rewrite bind_gets, indent_along, (bind_step _ _ _ _ _ (out_along _ _ _)).
    rewrite (bind_step _ _ _ _ _ (He _)), out_along. do 3 f_equal. subst indent. clear. by string_norm.
  - unfold mret, stM_ret. do 3 f_equal. subst indent. clear. by string_norm.
Qed.

Lemma visit_P_while c b Γ o tb :
  (∀ o, visit_stmt (CG:=CRef) (S_block b) (along Γ o) = Ret (tt, along Γ (o +:+ tb))) →
  visit_stmt (CG:=CRef) (S_while (cond_source c) (S_block b)) (along Γ o)
  = Ret (tt, along Γ (o +:+ spaces (depth Γ * 4) +:+ "while (" +:+ cond_text c +:+ ") {" +:+ nl
                        +:+ tb +:+ "}" +:+ nl)).
Proof.
  intros Hb.
  change (visit_stmt (S_while _ _)) with (visitWhileStmt (visit_expr (CG:=CRef) (cond_source c))
    (visit_stmt (CG:=CRef) (S_block b))).
  unfold visitWhileStmt, first_pass. rewrite bind_gets. change (m_first_pass _) with (m_first_pass s0). rewrite Hpass, visit_head, (bind_step _ _ _ _ _ (Hb _)).
  rewrite out_along. do 3 f_equal. clear. by string_norm.
Qed.

(** A [return]: the variable is retained, and the variables of the innermost scope are
    released. *)
Lemma visit_P_return x p G Γ o :
  names_ok (G :: Γ) → visible Π x (G :: Γ) = Some p →
  visit_stmt (CG:=CRef) (S_return (Some (ident x))) (along (G :: Γ) o)
  = Ret (tt, along (G :: Γ) (o +:+ print (depth (G :: Γ)) (return_code (dom G) x))).
Proof.
  intros Hn Hx. destruct (names_ok_visible x p _ Hn Hx) as [[_ _ Hpt _] _].
  pose proof (lookup_along x (G :: Γ) o) as Hl. rewrite Hx in Hl.
  rewrite (visit_return_state _ _ x (set_addRefCounts false (along (G :: Γ) o))) by done.
  cbn [m_symbolTable set_addRefCounts m_output]. rewrite Hl. cbn [v_type Variable_of].
  rewrite Hpt, indent_along.
  change (getCurrentScopeSymbols (m_symbolTable (along (G :: Γ) o))) with (vars_of G).
  rewrite (release_vars _ _ Γ Hn). unfold return_code. cbn [print_with depth_after].
  rewrite print_app, (inc_text _ _ (pt_ptr p)), depth_release.
  cbn [print_with instr_text generateIncRef generateReturn CCodeGenerator].
  set (decs := print _ _). unfold incRef_default.
  generalize (C_generateIncRef true (Variable_of x (pt_ptr p)) "NULL").
  intros inc. unfold along, set_output, set_addRefCounts, set_symbolTable.
  cbn [m_output m_symbolTable m_typeSystem m_first_pass m_tempVarCounter addRefCounts m_classNames].
  rewrite Hadd. do 3 f_equal. unfold C_generateReturn. rewrite string_app_nil_r. clear.
  by string_norm.
Qed.

(** The visitor prints the code of a fragment. *)
Lemma visit_source c : ∀ G Γ o,
  wf ts F Π ret (G :: Γ) c → names_ok (G :: Γ) →
  forM_ (visit_stmt (CG:=CRef)) (source c) (along (G :: Γ) o)
  = Ret (tt, along (after_decls c (G :: Γ)) (o +:+ print (depth (G :: Γ)) (compile (dom G) c))).
Proof.
  assert (∀ b Γ, names_ok Γ → wf ts F Π ret (∅ :: Γ) b →
    (∀ G Γ o, wf ts F Π ret (G :: Γ) b → names_ok (G :: Γ) →
       forM_ (visit_stmt (CG:=CRef)) (source b) (along (G :: Γ) o)
       = Ret (tt, along (after_decls b (G :: Γ)) (o +:+ print (depth (G :: Γ)) (compile (dom G) b)))) →
    ∀ o, visit_stmt (CG:=CRef) (S_block (source b)) (along Γ o)
         = Ret (tt, along Γ (o +:+ print (depth Γ) (compile_block b)))) as Hblock.
  { intros b Γ Hn Hb IH o. apply visit_source_block; [done..|]. intros o'.
    rewrite IH; [by rewrite dom_empty_L|done|]. intros x p. exact (Hn x p). }
  (* one statement, then the rest *)
  assert (∀ st l k G Γ G' o,
    visit_stmt (CG:=CRef) st (along (G :: Γ) o)
    = Ret (tt, along (G' :: Γ) (o +:+ print (depth (G :: Γ)) l)) →
    foldl depth_after (depth (G :: Γ)) l = depth (G :: Γ) →
    (∀ o, forM_ (visit_stmt (CG:=CRef)) (source k) (along (G' :: Γ) o)
          = Ret (tt, along (after_decls k (G' :: Γ))
                       (o +:+ print (depth (G' :: Γ)) (compile (dom G') k)))) →
    forM_ (visit_stmt (CG:=CRef)) (st :: source k) (along (G :: Γ) o)
    = Ret (tt, along (after_decls k (G' :: Γ))
                 (o +:+ print (depth (G :: Γ)) (l ++ compile (dom G') k)))) as Hseq.
  { intros st l k G Γ G' o Hst Hd Hk. cbn [forM_]. rewrite (bind_step _ _ _ _ _ Hst), Hk.
    rewrite print_app, Hd. by rewrite string_app_assoc. }
  induction c as [|p x k IH|p x k IH|p x k IH|p x y k IH|x y k IH|x k IH|x f y k IH|t f ys k IH|b IHb k IH
                  |c b IHb k IH|c b IHb e IHe k IH|c b IHb k IH|x k IH];
    intros G Γ o Hwf Hn; cbn [source after_decls compile wf] in *; rewrite ?declare_cons in *.
  - cbn [forM_ print_with]. by rewrite string_app_nil_r.
  - destruct Hwf as (Hp & Hx & _ & Hk). rewrite <-(dom_insert_L G x p).
    apply (Hseq _ [I_declare p x]); [|done|intros; apply IH; [done|by apply names_ok_declare]].
    intros. by rewrite (visit_P_decl _ _ _ _ _ Hp), print_one.
  - destruct Hwf as (Hp & Hx & _ & Hk). rewrite <-(dom_insert_L G x p).
    apply (Hseq _ [I_alloc p x]); [|done|intros; apply IH; [done|by apply names_ok_declare]].
    by rewrite (visit_P_new _ _ _ _ _ Hp Hn), print_one.
  - destruct Hwf as (Hp & Hx & _ & Hk). rewrite <-(dom_insert_L G x p).
    apply (Hseq _ [I_null p x]); [|done|intros; apply IH; [done|by apply names_ok_declare]].
    by rewrite (visit_P_null _ _ _ _ _ Hp Hn), print_one.
  - destruct Hwf as (Hp & Hx & _ & _ & Hy & Hk). rewrite <-(dom_insert_L G x p).
    apply (Hseq _ [I_inc y; I_copy p x y]); [|done|intros; apply IH; [done|by apply names_ok_declare]].
    rewrite (visit_P_copy _ _ _ _ _ _ Hp Hy). cbn [print_with depth_after].
    by rewrite string_app_nil_r.
  - destruct Hwf as [(p & Hx & Hy) Hk].
    apply (Hseq _ [I_inc y; I_dec x; I_assign x y]); [|done|eauto].
    rewrite (visit_P_assign _ _ _ _ _ Hn Hx Hy). cbn [print_with depth_after].
    by rewrite string_app_nil_r.
  - destruct Hwf as [Hx Hk].
    apply (Hseq _ [I_dec x; I_clear x]); [by apply visit_P_clear|done|eauto].
  - destruct Hwf as [(p & q & Hx & Hy & Hf) (Hthis & Hsize & Hk)].
    apply (Hseq _ [I_hold y x; I_store x f y]); [|done|eauto].
    rewrite (visit_P_store _ _ _ _ _ _ _ Hn Hx Hy Hf Hthis Hsize). cbn [print_with depth_after].
    by rewrite string_app_nil_r.
  - destruct Hwf as [(ps & result & HF & Hf & _ & Hys & Hd) Hk].
    pose proof (names_ok_dest _ _ _ _ _ Hd Hn) as Hn'.
    destruct (dest_declare_cons t G Γ) as (G' & E & D). rewrite <-D, E in *.
    apply (Hseq _ (call_code t f ys)); [|apply depth_call|eauto].
    rewrite <-E. by eapply visit_P_call.
  - destruct Hwf as [Hb Hk]. apply (Hseq _ (compile_block b)); [eauto|apply depth_block|eauto].
  - destruct Hwf as (_ & Hb & Hk).
    apply (Hseq _ [I_if c (compile_block b)]); [|done|eauto].
    pose proof (visit_P_if c (source b) None (G :: Γ) o _ EmptyString (Hblock b _ Hn Hb IHb) I) as H.
    cbn [fmap option_fmap option_map] in H. rewrite H, print_one. cbn [instr_text].
    by rewrite string_app_nil_r.
  - destruct Hwf as (_ & Hb & He & Hk).
    apply (Hseq _ [I_if_else c (compile_block b) (compile_block e)]); [|done|eauto].
    pose proof (visit_P_if c (source b) (Some (source e)) (G :: Γ) o _ _ (Hblock b _ Hn Hb IHb)
      (Hblock e _ Hn He IHe)) as H.
    cbn [fmap option_fmap option_map] in H. rewrite H, print_one. done.
  - destruct Hwf as (_ & Hb & Hk).
    apply (Hseq _ [I_while c (compile_block b)]); [|done|eauto].
    rewrite (visit_P_while c _ _ _ _ (Hblock b _ Hn Hb IHb)), print_one. done.
  - destruct Hwf as [(p & Hx & _) [_ Hk]].
    apply (Hseq _ (return_code (dom G) x)); [by eapply visit_P_return|apply depth_return|eauto].
Qed.

Lemma along_nil : along [] (m_output s0) = s0.
Proof. unfold along. cbn [fmap list_fmap app]. clear. by destruct s0 as [[] ? ? ? ? ? ?]. Qed.

Lemma visit_pointer_block b :
  wf ts F Π ret [∅] b →
  visit_stmt (CG:=CRef) (S_block (source b)) s0
  = Ret (tt, set_output (m_output s0 +:+ print (length (scopes (m_symbolTable s0)))
                                             (compile_block b)) s0).
Proof.
  intros Hwf. rewrite <-along_nil at 1.
  rewrite visit_source_block; [by rewrite <-(along_nil) at 4|done|by intros x p [=]|].
  intros o. rewrite visit_source; [by rewrite dom_empty_L|done|]. by intros x p [=].
Qed.
End visit.
