(* ===== verification/StructCode.v ===== *)
(** Declarations of structs, and the C code they become.

    A struct is declared with a name for its type, [typedef struct N { ... } A;].  Each pass
    resolves the types of the fields again: the first before the struct is complete, the second after, so
    the second pass changes the table of structs where a struct points to itself.  The tables
    of the two passes are given by the relations [structs_first] and [structs_second]. *)
From S2P Require Import Prelude Errors CppString Types TypeSystem SymbolTable.
From S2P Require Import CodeGenerator Syntax Visitor Transpile StringFacts SyntaxInd.
From S2P Require Import VisitorFrame VisitorProps Static StmtProps CodeGenProps ProgramProps.
From S2P Require Import ExprProps PointerCode.
#[local] Open Scope Z_scope.

(** A field, with what the type system makes of its type in the second pass. *)
Record pfield := mkPfield {
  fl_spec : typeSpec;
  fl_type : Ty;
  fl_name : string
}.
Record pstruct := mkPstruct {
  ps_name : string;
  ps_alias : string;
  ps_fields : list pfield
}.

(** Its parse tree. *)
Definition struct_source (d : pstruct) : statement :=
  S_typedef (TD_struct (mkStructDecl (ps_name d)
      ((λ fl, D_plain (fl_spec fl) (fl_name fl)) <$> ps_fields d) false))
    (ps_alias d).

(** Its text. *)
Definition field_text (fl : pfield) : string :=
  String "009"%char EmptyString +:+ ty_text (fl_type fl) +:+ " " +:+ fl_name fl +:+ ";" +:+ nl.
Definition struct_text (d : pstruct) : string :=
  "typedef struct " +:+ ps_name d +:+ " {" +:+ nl
    +:+ foldr (λ fl r, field_text fl +:+ r) EmptyString (ps_fields d)
    +:+ "} " +:+ ps_alias d +:+ ";" +:+ nl.
Definition structs_text (ds : list pstruct) : string :=
  foldr (λ d r, struct_text d +:+ nl +:+ r) EmptyString ds.

(** ** The tables *)

(** A type the type system knows. *)
Definition resolves (ts : TypeSystem) (spec : typeSpec) (t : Ty) : Prop :=
  ∀ s, same_types ts (m_typeSystem s) → resolveTypeFromContext (Some spec) s = Ret (t, s).

(** The members of a struct: each field has the type [ts] gives it. *)
Definition members_of (ts : TypeSystem) (fls : list pfield) (members : list (string * Ty)) : Prop :=
  Forall2 (λ fl m, m.1 = fl_name fl ∧ resolves ts (fl_spec fl) m.2) fls members.

Definition struct_type (name : string) (members : list (string * Ty)) : Ty :=
  setMembers members (setStruct name (Type_base BStruct)).
Definition after_first (d : pstruct) (members : list (string * Ty)) (ts : TypeSystem) : TypeSystem :=
  with_typedefs (<[ps_alias d := struct_type (ps_name d) members]> (m_typedefs ts))
    (with_structs (<[ps_name d := struct_type (ps_name d) members]> (m_structs ts)) ts).
Definition after_second (d : pstruct) (members : list (string * Ty)) (ts : TypeSystem) : TypeSystem :=
  with_structs (<[ps_name d := struct_type (ps_name d) members]> (m_structs ts)) ts.

Fixpoint structs_first (ts : TypeSystem) (ds : list pstruct) (ts' : TypeSystem) : Prop :=
  match ds with
  | [] => same_types ts ts'
  | d :: ds =>
      ∃ members, members_of (registerStruct (ps_name d) ts).2 (ps_fields d) members ∧
                 structs_first (after_first d members ts) ds ts'
  end.
Fixpoint structs_second (ts : TypeSystem) (ds : list pstruct) (ts' : TypeSystem) : Prop :=
  match ds with
  | [] => same_types ts ts'
  | d :: ds =>
      let members := (λ fl, (fl_name fl, fl_type fl)) <$> ps_fields d in
      (∃ members0, m_structs ts !! ps_name d = Some (struct_type (ps_name d) members0)) ∧
      members_of ts (ps_fields d) members ∧
      Forall (λ fl, printable (fl_type fl) ∧ isArray (fl_type fl) = false) (ps_fields d) ∧
      structs_second (after_second d members ts) ds ts'
  end.

Lemma same_types_sym ts ts' : same_types ts ts' → same_types ts' ts.
Proof. unfold same_types. by intros (-> & -> & ->). Qed.
Lemma same_types_trans ts1 ts2 ts3 : same_types ts1 ts2 → same_types ts2 ts3 → same_types ts1 ts3.
Proof. unfold same_types. by intros (-> & -> & ->). Qed.

Lemma structs_first_classes ds : ∀ ts ts', structs_first ts ds ts' → m_classes ts' = m_classes ts.
Proof.
  induction ds as [|d ds IH]; intros ts ts'; [by intros (_ & _ & ->)|].
  intros (members & _ & H). by apply IH in H.
Qed.

Lemma members_of_same ts ts' fls members :
  same_types ts ts' → members_of ts fls members → members_of ts' fls members.
Proof.
  intros Hts Hm. eapply Forall2_impl; [exact Hm|]. intros fl m [Hn Hr]. split; [done|].
  intros s Hs. apply Hr. by eapply same_types_trans.
Qed.

(** ** The passes *)
Lemma resolve_members ts fls members s acc :
  members_of ts fls members → same_types ts (m_typeSystem s) →
  foldM (λ members m, d ← declaratorFromCode m; mret (members ++ [d]))
    ((λ fl, D_plain (fl_spec fl) (fl_name fl)) <$> fls) acc s
  = Ret (acc ++ members, s).
Proof.
  intros Hm Hs. revert acc. induction Hm as [|fl [x t] fls members [Hx Ht] _ IH]; intros acc.
  { by rewrite app_nil_r. }
  cbn [fmap list_fmap foldM]. simpl in Hx, Ht. subst x.
  rewrite (bind_step _ _ s (acc ++ [(fl_name fl, t)]) s); [by rewrite IH, <-app_assoc|].
  unfold declaratorFromCode. rewrite (bind_step _ _ s (fl_name fl, t) s); [done|].
  by rewrite (bind_step _ _ _ _ _ (Ht s Hs)).
Qed.

(** [getStructFromCode] once the struct is registered. *)
Lemma set_members_step name T members s :
  m_structs (m_typeSystem s) !! name = Some T →
  types_res (setStructMembers name members) s
  = Ret (setMembers members T,
         set_typeSystem (with_structs (<[name := setMembers members T]> (m_structs (m_typeSystem s)))
                           (m_typeSystem s)) s).
Proof.
  intros HT. unfold types_res.
  rewrite (bind_types_out _ (setMembers members T,
    with_structs (<[name := setMembers members T]> (m_structs (m_typeSystem s))) (m_typeSystem s))); [done|].
  unfold setStructMembers. by rewrite HT.
Qed.

Lemma visit_struct_first d members s :
  m_first_pass s = true →
  members_of (registerStruct (ps_name d) (m_typeSystem s)).2 (ps_fields d) members →
  visit_stmt (CG:=CRef) (struct_source d) s
  = Ret (tt, set_typeSystem (after_first d members (m_typeSystem s)) s).
Proof.
  intros Hs Hm. unfold struct_source. cbn [visit_stmt]. unfold visitTypedefDecl.
  set (ts1 := (registerStruct (ps_name d) (m_typeSystem s)).2) in *.
  set (s1 := set_typeSystem ts1 s).
  rewrite (bind_step _ _ s (struct_type (ps_name d) members)
    (set_typeSystem (with_structs (<[ps_name d := struct_type (ps_name d) members]>
       (m_structs (m_typeSystem s))) (m_typeSystem s)) s)).
  - run_heads. cbn [m_first_pass set_typeSystem]. rewrite Hs. reflexivity.
  - unfold getStructFromCode. cbn [sd_name sd_members]. run_heads. rewrite Hs. cbn [whenM].
    rewrite (bind_step _ _ s tt s1) by done.
    rewrite (bind_step _ _ _ _ _ (resolve_members ts1 _ _ s1 [] Hm (same_types_refl _))).
    rewrite (set_members_step _ (setStruct (ps_name d) (Type_base BStruct))) by apply lookup_insert_eq.
    unfold struct_type. do 2 f_equal. unfold s1, ts1, set_typeSystem, registerStruct. cbn.
    by rewrite insert_insert_eq.
Qed.

Lemma struct_member_text fl acc :
  printable (fl_type fl) → isArray (fl_type fl) = false →
  C_struct_member acc (fl_name fl, fl_type fl) = Ret (acc +:+ field_text fl).
Proof.
  intros Hp Ha. unfold C_struct_member. cbn [fst snd]. rewrite Ha, toString_ty_text by done. bind_ret.
  f_equal. unfold field_text. by string_norm.
Qed.

Lemma struct_members_text fls : ∀ acc,
  Forall (λ fl, printable (fl_type fl) ∧ isArray (fl_type fl) = false) fls →
  foldM (λ acc m, C_struct_member acc m) ((λ fl, (fl_name fl, fl_type fl)) <$> fls) acc
  = Ret (acc +:+ foldr (λ fl r, field_text fl +:+ r) EmptyString fls).
Proof.
  induction fls as [|fl fls IH]; intros acc Hf; [cbn; by rewrite string_app_nil_r|].
  apply Forall_cons in Hf as [[Hp Ha] Hf]. cbn [fmap list_fmap foldM foldr].
  rewrite struct_member_text by done. bind_ret. rewrite IH by done. by rewrite string_app_assoc.
Qed.

Lemma visit_struct_second d T0 s :
  let members := (λ fl, (fl_name fl, fl_type fl)) <$> ps_fields d in
  m_first_pass s = false →
  m_structs (m_typeSystem s) !! ps_name d = Some (struct_type (ps_name d) T0) →
  members_of (m_typeSystem s) (ps_fields d) members →
  Forall (λ fl, printable (fl_type fl) ∧ isArray (fl_type fl) = false) (ps_fields d) →
  visit_stmt (CG:=CRef) (struct_source d) s
  = Ret (tt, set_output (m_output s +:+ struct_text d)
               (set_typeSystem (after_second d members (m_typeSystem s)) s)).
Proof.
  intros members Hs HT Hm Hp. unfold struct_source. cbn [visit_stmt]. unfold visitTypedefDecl.
  set (s1 := set_typeSystem (after_second d members (m_typeSystem s)) s).
  rewrite (bind_step _ _ s (struct_type (ps_name d) members) s1).
  - run_heads. change (m_first_pass s1) with (m_first_pass s). rewrite Hs.
    cbn [generateTypeDef CCodeGenerator]. unfold C_generateTypeDef, C_generateStructDecl.
    change (isStruct (struct_type (ps_name d) members)) with true. cbv iota.
    change (m_structMembers (struct_type (ps_name d) members)) with members.
    change (getStructName (struct_type (ps_name d) members)) with (ps_name d).
    unfold members at 1. rewrite struct_members_text by done. bind_ret. rewrite bind_lift. unfold out, modify.
    do 3 f_equal. change (m_output s1) with (m_output s). unfold struct_text. clear.
    change "typedef struct " with ("typedef " +:+ "struct "). change "} " with ("}" +:+ " ").
    by string_norm.
  - unfold getStructFromCode. cbn [sd_name sd_members]. run_heads. rewrite Hs. cbn [whenM].
    rewrite bind_mret.
    rewrite (bind_step _ _ _ _ _ (resolve_members _ _ _ s [] Hm (same_types_refl _))).
    by rewrite (set_members_step _ (struct_type (ps_name d) T0)).
Qed.

Lemma structs_first_pass ds : ∀ ts ts' s,
  m_first_pass s = true → same_types ts (m_typeSystem s) → structs_first ts ds ts' →
  ∃ ts1, same_types ts' ts1 ∧
    run_pass (CG:=CRef) (struct_source <$> ds) s
    = Ret (tt, set_output (m_output s +:+ newlines (length ds)) (set_typeSystem ts1 s)).
Proof.
  induction ds as [|d ds IH]; intros ts ts' s Hs Hts H.
  - exists (m_typeSystem s). split; [by eapply same_types_trans; [apply same_types_sym|]|].
    cbn [fmap list_fmap length newlines]. rewrite string_app_nil_r. by destruct s.
  - destruct H as (members & Hm & H).
    assert (same_types (registerStruct (ps_name d) ts).2 (registerStruct (ps_name d) (m_typeSystem s)).2)
      as Hreg by (by destruct Hts as (? & E & ?); unfold same_types; simpl; rewrite E).
    pose proof (visit_struct_first d members s Hs (members_of_same _ _ _ _ Hreg Hm)) as Hv.
    set (s1 := set_output (m_output s +:+ nl)
                 (set_typeSystem (after_first d members (m_typeSystem s)) s)).
    destruct (IH (after_first d members ts) ts' s1 Hs) as (ts1 & Hts1 & Hr); [|done|].
    { destruct Hts as (E1 & E2 & E3). unfold same_types. simpl. by rewrite E1, E2, E3. }
    exists ts1. split; [done|]. unfold run_pass in *. cbn [fmap list_fmap forM_].
    rewrite (bind_step _ _ s tt s1); [rewrite Hr|by rewrite (bind_step _ _ _ _ _ Hv)].
    unfold s1, set_output, set_typeSystem. cbn. by rewrite string_app_assoc.
Qed.

Lemma structs_second_pass ds : ∀ ts ts' s,
  m_first_pass s = false → same_types ts (m_typeSystem s) → structs_second ts ds ts' →
  ∃ ts1, same_types ts' ts1 ∧
    run_pass (CG:=CRef) (struct_source <$> ds) s
    = Ret (tt, set_output (m_output s +:+ structs_text ds) (set_typeSystem ts1 s)).
Proof.
  induction ds as [|d ds IH]; intros ts ts' s Hs Hts H.
  - exists (m_typeSystem s). split; [by eapply same_types_trans; [apply same_types_sym|]|].
    cbn [fmap list_fmap structs_text foldr]. rewrite string_app_nil_r. by destruct s.
  - destruct H as ([T0 HT] & Hm & Hp & H).
    assert (m_structs (m_typeSystem s) !! ps_name d = Some (struct_type (ps_name d) T0)) as HT'
      by (by destruct Hts as (_ & <- & _)).
    pose proof (visit_struct_second d T0 s Hs HT' (members_of_same _ _ _ _ Hts Hm) Hp) as Hv.
    set (members := (λ fl, (fl_name fl, fl_type fl)) <$> ps_fields d) in *.
    set (s1 := set_output (m_output s +:+ struct_text d +:+ nl)
                 (set_typeSystem (after_second d members (m_typeSystem s)) s)).
    destruct (IH (after_second d members ts) ts' s1 Hs) as (ts1 & Hts1 & Hr); [|done|].
    { destruct Hts as (E1 & E2 & E3). unfold same_types. simpl. by rewrite E1, E2, E3. }
    exists ts1. split; [done|]. unfold run_pass in *. cbn [fmap list_fmap forM_ structs_text foldr].
    rewrite (bind_step _ _ s tt s1); [rewrite Hr|].
    + unfold s1, set_output, set_typeSystem. cbn. fold (structs_text ds). by string_norm.
    + rewrite (bind_step _ _ _ _ _ Hv). unfold out, modify, s1, set_output. cbn. by string_norm.
Qed.

(** A struct declared by itself gets no semicolon, so the C declaration goes on with what
    follows it. *)
Example struct_without_semicolon :
  transpile true false
    (mkProgram [] [S_struct (mkStructDecl "S" [D_plain TS_int "v"] true);
                   S_functionDecl TS_int "main" None []])
  = Ret ("#include " +:+ dq +:+ "runtime.h" +:+ dq +:+ nl +:+ nl +:+ nl
           +:+ "struct vtable {" +:+ nl +:+ "};" +:+ nl +:+ nl +:+ nl
           +:+ "struct S {" +:+ nl +:+ String "009"%char "int v;" +:+ nl +:+ "}" +:+ nl
           +:+ "int main_(){" +:+ nl +:+ "        }" +:+ nl +:+ nl
           +:+ main_text []).
Proof. vm_compute. reflexivity. Qed.
