(* ===== verification/FunctionCode.v ===== *)
(** Functions over pointers, and the C code they become.

    A function takes pointers, runs a fragment of file PointerCode and returns nothing or a
    pointer; a program is a list of structs, a list of such functions, each calling itself and the
    ones before it, and a [main].  The translator prints the structs and the code of the functions,
    between the parts every file has. *)
From S2P Require Import Prelude Errors CppString Types TypeSystem SymbolTable.
From S2P Require Import CodeGenerator Syntax Visitor Transpile StringFacts SyntaxInd.
From S2P Require Import VisitorFrame VisitorProps Static StmtProps CodeGenProps ProgramProps.
From S2P Require Import ExprProps PointerCode PointerVisit StructCode.
#[local] Open Scope Z_scope.

(** ** Functions *)
Record pfun := mkPfun {
  pf_name : string;
  pf_params : list (string * ptype);
  pf_ret : option ptype;
  pf_body : pcode
}.

Definition pf_sig (g : pfun) : signature := (snd <$> pf_params g, pf_ret g).
Definition pf_scope (g : pfun) : gmap string ptype := list_to_map (pf_params g).

(** Its parse tree. *)
Definition param_source (xp : string * ptype) : declarator :=
  D_plain (TS_pointer (pt_spec xp.2)) xp.1.
Definition function_source (g : pfun) : statement :=
  S_functionDecl
    (match pf_ret g with Some p => TS_pointer (pt_spec p) | None => TS_void end)
    (pf_name g)
    (match pf_params g with [] => None | ps => Some (param_source <$> ps) end)
    (source (pf_body g)).

(** Its code. *)
Definition function_code (g : pfun) : list instr := compile_block (pf_body g).

(** Its text. *)
Definition c_name (f : string) : string := if decide (f = "main") then "main_" else f.
Definition ret_type (g : pfun) : Ty :=
  match pf_ret g with Some p => pt_ptr p | None => Type_base BVoid end.
Definition param_types (g : pfun) : list (string * Ty) :=
  (λ xp : string * ptype, (xp.1, pt_ptr xp.2)) <$> pf_params g.
Definition function_record (g : pfun) : Function :=
  mkFunction (pf_name g) (param_types g) (ret_type g) false false.
Definition function_text (d : nat) (g : pfun) : string :=
  ty_text (ret_type g) +:+ " " +:+ c_name (pf_name g) +:+ "("
    +:+ join ", " ((λ xt, var_text xt.2 xt.1) <$> param_types g) +:+ ")"
    +:+ print d (function_code g).

Section functions.
Context (ts : TypeSystem).

(** Types are good, names are declared once, and a function with a result ends in a [return]
    on every path. *)
Record function_ok (F : gmap string signature) (g : pfun) : Prop := {
  fo_params : Forall (λ xp : string * ptype, var_name xp.1 = true ∧ good_type ts xp.2)
                (pf_params g);
  fo_distinct : NoDup (pf_params g).*1;
  fo_locals : declared (pf_body g) ## dom (pf_scope g);
  fo_body : wf ts F (pf_scope g) (pf_ret g) [∅] (pf_body g);
  fo_ret : match pf_ret g with
           | Some p => good_type ts p ∧ returns (pf_body g) = true
           | None => True
           end
}.

(** What the first pass needs: the types of the function are known. *)
Definition header_known (g : pfun) : Prop :=
  Forall (λ xp : string * ptype, ∃ t, resolves ts (TS_pointer (pt_spec xp.2)) t) (pf_params g) ∧
  match pf_ret g with Some p => ∃ t, resolves ts (TS_pointer (pt_spec p)) t | None => True end.

Lemma resolve_known_params ps acc s :
  same_types ts (m_typeSystem s) →
  Forall (λ xp : string * ptype, ∃ t, resolves ts (TS_pointer (pt_spec xp.2)) t) ps →
  ∃ l, foldM (λ params p, d ← declaratorFromCode p; mret (params ++ [d])) (param_source <$> ps) acc s
       = Ret (l, s).
Proof.
  intros Hts Hps. revert acc. induction Hps as [|[x p] ps [t Ht] _ IH]; intros acc; [by exists acc|].
  cbn [fmap list_fmap foldM]. destruct (IH (acc ++ [(x, t)])) as [l Hl]. exists l.
  rewrite (bind_step _ _ s (acc ++ [(x, t)]) s); [done|]. unfold param_source, declaratorFromCode.
  rewrite (bind_step _ _ s (x, t) s); [done|]. cbn [fst snd] in *. by rewrite (bind_step _ _ _ _ _ (Ht s Hts)).
Qed.

(** The first pass registers the function. *)
Lemma visit_function_first g s :
  header_known g →
  m_first_pass s = true → same_types ts (m_typeSystem s) → currentFunc (m_symbolTable s) = None →
  ∃ func, visit_stmt (CG:=CRef) (function_source g) s
          = Ret (tt, set_typeSystem (with_funcs (<[pf_name g := func]> (m_funcs (m_typeSystem s)))
                                       (m_typeSystem s)) s).
Proof.
  intros [Hps Hret] Hs Hts Hcur.
  assert (∃ l, paramsFromCode
    (match pf_params g with [] => None | ps => Some (param_source <$> ps) end) [] s = Ret (l, s))
    as [l Hl].
  { pose proof (resolve_known_params _ [] s Hts Hps) as H. unfold paramsFromCode.
    destruct (pf_params g); [by exists []|exact H]. }
  assert (∃ t, resolveTypeFromContext
    (Some match pf_ret g with Some p => TS_pointer (pt_spec p) | None => TS_void end) s = Ret (t, s))
    as [t Ht].
  { destruct (pf_ret g) as [p|]; [|by exists (Type_base BVoid)].
    destruct Hret as [t Ht]. exists t. by apply Ht. }
  exists (mkFunction (pf_name g) l t false false). unfold function_source. cbn [visit_stmt].
  unfold visitFunctionDecl. rewrite (bind_step _ _ _ _ _ Hl), (bind_step _ _ _ _ _ Ht).
  run_heads. rewrite Hs. cbn [whenM negb]. unfold setCurrentFunc, sym_upd, types_upd, types_out,
    mbind, stM_bind, gets, lift, modify. cbn [registerFunction].
  destruct s as [[] ? ? ? ? ? ?]; simpl in *; subst. done.
Qed.

Section visit_function.
Context (F : gmap string signature) (g : pfun) (Hg : function_ok F g).

Lemma printable_function_record : printable_function (function_record g).
Proof.
  destruct Hg as [Hps _ _ _ Hret]. split.
  - unfold function_record, ret_type. simpl. destruct (pf_ret g) as [p|]; [|done].
    by destruct Hret as [[_ _ _ [_ ?]] _].
  - unfold function_record, param_types. simpl. apply Forall_fmap.
    eapply Forall_impl; [exact Hps|]. intros [x p] [_ [_ _ _ [_ ?]]]. done.
Qed.

Lemma resolve_params ps acc s :
  same_types ts (m_typeSystem s) →
  Forall (λ xp : string * ptype, var_name xp.1 = true ∧ good_type ts xp.2) ps →
  foldM (λ params p, d ← declaratorFromCode p; mret (params ++ [d])) (param_source <$> ps) acc s
  = Ret (acc ++ ((λ xp : string * ptype, (xp.1, pt_ptr xp.2)) <$> ps), s).
Proof.
  intros Hts Hps. revert acc. induction Hps as [|[x p] ps [_ Hp] _ IH]; intros acc.
  { by rewrite app_nil_r. }
  cbn [fmap list_fmap foldM].
  rewrite (bind_step _ _ s (acc ++ [(x, pt_ptr p)]) s); [by rewrite IH, <-app_assoc|].
  rewrite (bind_step _ _ s (x, pt_ptr p) s); [done|]. unfold param_source, declaratorFromCode.
  destruct Hp as [_ Hptr _ _]. cbn [fst snd]. by rewrite (bind_step _ _ _ _ _ (Hptr s Hts)).
Qed.

Lemma resolve_header s :
  same_types ts (m_typeSystem s) →
  paramsFromCode (match pf_params g with [] => None | ps => Some (param_source <$> ps) end) [] s
  = Ret (param_types g, s) ∧
  resolveTypeFromContext
    (Some match pf_ret g with Some p => TS_pointer (pt_spec p) | None => TS_void end) s
  = Ret (ret_type g, s).
Proof.
  intros Hts. destruct Hg as [Hps _ _ _ Hret]. split.
  - pose proof (resolve_params _ [] s Hts Hps) as H. unfold paramsFromCode, param_types.
    destruct (pf_params g); [done|exact H].
  - unfold ret_type. destruct (pf_ret g) as [p|]; [|done].
    destruct Hret as [[_ Hptr _ _] _]. by apply Hptr.
Qed.

(** The second pass prints it. *)
Lemma lookup_params_scope x :
  lookup_params x (param_types g) = (λ p, Variable_of x (pt_ptr p)) <$> pf_scope g !! x.
Proof.
  unfold param_types, pf_scope. induction (pf_params g) as [|[y p] ps IH]; [done|]. simpl.
  rewrite lookup_insert. case_decide; [done|]. apply IH.
Qed.

Section second.
Context (s : VState) (Hs : m_first_pass s = false) (Hts : same_types ts (m_typeSystem s)).
Context (Hcur : currentFunc (m_symbolTable s) = None) (Hadd : addRefCounts s = true).
Context (Hnames : ∀ x v, lookupSymbol x (m_symbolTable s) = Some v → var_name x = true).
(** No name in scope hides a parameter: the visitor would take it for the parameter. *)
Context (Hhides : ∀ x, is_Some (pf_scope g !! x) → lookupSymbol x (m_symbolTable s) = None).

Definition inside : VState :=
  set_symbolTable (with_currentFunc (Some (function_record g)) (m_symbolTable s)) s.

Lemma lookup_inside x :
  lookupSymbol x (m_symbolTable inside)
  = match lookupSymbol x (m_symbolTable s) with
    | Some v => Some v
    | None => (λ p, Variable_of x (pt_ptr p)) <$> pf_scope g !! x
    end.
Proof.
  unfold lookupSymbol, inside. cbn [m_symbolTable set_symbolTable with_currentFunc currentFunc scopes].
  rewrite Hcur. destruct (lookup_scopes _ _); [done|]. apply lookup_params_scope.
Qed.

Lemma params_inside x p :
  pf_scope g !! x = Some p →
  lookupSymbol x (m_symbolTable inside) = Some (Variable_of x (pt_ptr p)) ∧ good_type ts p.
Proof.
  intros Hx. rewrite lookup_inside, Hhides, Hx by eauto. split; [done|].
  apply elem_of_list_to_map_2 in Hx. pose proof (fo_params F g Hg) as Hps.
  rewrite Forall_forall in Hps. by destruct (Hps _ Hx).
Qed.

Lemma names_inside x v : lookupSymbol x (m_symbolTable inside) = Some v → var_name x = true.
Proof.
  rewrite lookup_inside. destruct (lookupSymbol x (m_symbolTable s)) eqn:E; [eauto|].
  destruct (pf_scope g !! x) as [p|] eqn:Hx; [|done]. intros _.
  apply elem_of_list_to_map_2 in Hx. pose proof (fo_params F g Hg) as Hps.
  rewrite Forall_forall in Hps. by destruct (Hps _ Hx).
Qed.

Lemma visit_function_second :
  visit_stmt (CG:=CRef) (function_source g) s
  = Ret (tt, set_output (m_output s +:+ function_text (length (scopes (m_symbolTable s))) g) s).
Proof.
  unfold function_source. cbn [visit_stmt]. unfold visitFunctionDecl.
  destruct (resolve_header s Hts) as [Hps Hret].
  rewrite (bind_step _ _ _ _ _ Hps), (bind_step _ _ _ _ _ Hret). run_heads. rewrite Hs.
  cbn [whenM negb]. rewrite bind_mret. fold (function_record g).
  rewrite (bind_step _ _ s tt inside) by done.
  change (generateFunctionDecl (Some (function_record g)))
    with (C_generateFunctionDecl (Some (function_record g))).
  destruct printable_function_record as [Hpr Hpp].
  set (header := ty_text (ret_type g) +:+ " " +:+ c_name (pf_name g) +:+ "("
    +:+ join ", " ((λ xt, var_text xt.2 xt.1) <$> param_types g) +:+ ")").
  assert (C_generateFunctionDecl (Some (function_record g)) = Ret header) as Hdecl
    by (by unfold C_generateFunctionDecl; cbn [f_isVirtual function_record]; rewrite getSignature_fold).
  set (d := length (scopes (m_symbolTable s))).
  rewrite (bind_step _ _ inside tt (along inside [] (m_output s +:+ function_text d g))).
  - unfold setCurrentFunc, sym_upd, modify, along, inside. cbn. unfold set_output.
    do 3 f_equal. clear -Hcur. destruct s as [[] ? ? ? ? ? ?]. simpl in *. by subst.
  - rewrite Hdecl, bind_lift. run_heads.
    change (visitBlock (map visit_stmt ?b)) with (visit_stmt (CG:=CRef) (S_block b)).
    change (set_output _ inside) with (along inside [] (m_output s +:+ header)).
    rewrite (visit_source_block ts F (pf_scope g) (pf_ret g) inside Hs);
      [|apply Hg|by intros x p [=]|].
    + do 3 f_equal. unfold function_text, header. change (depth inside []) with d. clear.
      unfold function_code. by string_norm.
    + intros o. rewrite <-(dom_empty_L (K:=string) (A:=ptype) (D:=gset string)). apply (visit_source ts F (pf_scope g) (pf_ret g) inside Hs Hts
        names_inside params_inside Hadd); [apply Hg|by intros x p [=]].
Qed.
End second.
End visit_function.
End functions.

(** ** Programs *)
Record pprogram := mkPprogram {
  pp_structs : list pstruct;
  pp_functions : list pfun;
  pp_main : pcode
}.

Definition main_function (p : pprogram) : pfun := mkPfun "main" [] None (pp_main p).
Definition all_functions (p : pprogram) : list pfun := pp_functions p ++ [main_function p].
Definition program_source (p : pprogram) : program :=
  mkProgram [] ((struct_source <$> pp_structs p) ++ (function_source <$> all_functions p)).

(** The file has no prototypes: a function calls itself and functions declared before it. *)
Fixpoint functions_ok (ts : TypeSystem) (F : gmap string signature) (gs : list pfun) : Prop :=
  match gs with
  | [] => True
  | g :: gs => function_ok ts (<[pf_name g := pf_sig g]> F) g ∧ F !! pf_name g = None ∧
               functions_ok ts (<[pf_name g := pf_sig g]> F) gs
  end.
Fixpoint sigs_of (F : gmap string signature) (gs : list pfun) : gmap string signature :=
  match gs with [] => F | g :: gs => sigs_of (<[pf_name g := pf_sig g]> F) gs end.
(** The types of the structs and of the functions are known to both passes.  [main] is printed as
    [main_], and the file ends with a [main] of its own: no function has these names, and none
    calls them. *)
Definition functions_in (ts : TypeSystem) (p : pprogram) : Prop :=
  functions_ok ts ∅ (pp_functions p) ∧
  function_ok ts (sigs_of ∅ (pp_functions p)) (main_function p) ∧
  Forall (λ g, pf_name g ≠ "main" ∧ pf_name g ≠ "main_") (pp_functions p).
Definition program_ok (p : pprogram) : Prop :=
  ∃ ts1 ts2,
    structs_first TypeSystem_default (pp_structs p) ts1 ∧
    structs_second ts1 (pp_structs p) ts2 ∧
    Forall (header_known ts1) (pp_functions p) ∧
    functions_in ts2 p.

Lemma program_functions p : program_ok p → ∃ ts, functions_in ts p.
Proof. intros (ts1 & ts & _ & _ & _ & H). by exists ts. Qed.

Definition functions_text (gs : list pfun) : string :=
  foldr (λ g r, function_text 1 g +:+ nl +:+ r) EmptyString gs.
Definition program_text (p : pprogram) : string :=
  "#include " +:+ dq +:+ "runtime.h" +:+ dq +:+ nl
    +:+ newlines (length (pp_structs p) + length (all_functions p))
    +:+ "struct vtable {" +:+ nl +:+ "};" +:+ nl +:+ nl +:+ nl
    +:+ structs_text (pp_structs p) +:+ functions_text (all_functions p) +:+ main_text [].

Section passes.
Context (ts : TypeSystem).

Definition each_ok (gs : list pfun) : Prop := Forall (λ g, ∃ F, function_ok ts F g) gs.

Lemma functions_ok_each gs : ∀ F, functions_ok ts F gs → each_ok gs.
Proof.
  induction gs as [|g gs IH]; intros F Hok; [by constructor|]. destruct Hok as (Hg & _ & Hok).
  constructor; [by eexists|by eapply IH].
Qed.

Lemma functions_first gs : ∀ s,
  m_first_pass s = true → same_types ts (m_typeSystem s) → currentFunc (m_symbolTable s) = None →
  Forall (header_known ts) gs →
  ∃ ts', same_types ts ts' ∧
    run_pass (CG:=CRef) (function_source <$> gs) s
    = Ret (tt, set_output (m_output s +:+ newlines (length gs)) (set_typeSystem ts' s)).
Proof.
  induction gs as [|g gs IH]; intros s Hs Hts Hcur Hok.
  - exists (m_typeSystem s). split; [done|]. cbn [fmap list_fmap length newlines].
    rewrite string_app_nil_r. by destruct s.
  - apply Forall_cons in Hok as [Hg Hok].
    destruct (visit_function_first ts g s Hg Hs Hts Hcur) as [func Hv].
    set (s1 := set_output (m_output s +:+ nl) (set_typeSystem
      (with_funcs (<[pf_name g := func]> (m_funcs (m_typeSystem s))) (m_typeSystem s)) s)).
    destruct (IH s1 Hs Hts Hcur Hok) as (ts' & Hts' & Hr). exists ts'. split; [done|].
    unfold run_pass in *. cbn [fmap list_fmap forM_].
    rewrite (bind_step _ _ s tt s1); [rewrite Hr|by rewrite (bind_step _ _ _ _ _ Hv)].
    unfold s1, set_output, set_typeSystem. cbn. by string_norm.
Qed.

Lemma functions_second gs : ∀ s,
  m_first_pass s = false → same_types ts (m_typeSystem s) → currentFunc (m_symbolTable s) = None →
  addRefCounts s = true → scopes (m_symbolTable s) = [∅] → each_ok gs →
  run_pass (CG:=CRef) (function_source <$> gs) s
  = Ret (tt, set_output (m_output s +:+ functions_text gs) s).
Proof.
  induction gs as [|g gs IH]; intros s Hs Hts Hcur Hadd Hsc Hok.
  - cbn [fmap list_fmap functions_text foldr]. by rewrite set_output_id.
  - apply Forall_cons in Hok as [[F Hg] Hok].
    assert (∀ x, lookupSymbol x (m_symbolTable s) = None) as Hnone.
    { intros x. unfold lookupSymbol. by rewrite Hsc, Hcur. }
    set (s1 := set_output (m_output s +:+ function_text 1 g +:+ nl) s).
    unfold run_pass in *. cbn [fmap list_fmap forM_ functions_text foldr].
    rewrite (bind_step _ _ s tt s1).
    + rewrite (IH s1 Hs Hts Hcur Hadd Hsc Hok). unfold s1, set_output. cbn.
      fold (functions_text gs). by string_norm.
    + rewrite (bind_step _ _ _ _ _ (visit_function_second ts F g Hg s Hs Hts Hcur Hadd
        ltac:(intros x v; by rewrite Hnone) (λ x _, Hnone x))).
      rewrite Hsc. unfold out, modify, s1, set_output. cbn. by string_norm.
Qed.
End passes.

Lemma newlines_add n m : newlines (n + m) = newlines n +:+ newlines m.
Proof. induction n as [|n IH]; [done|]. simpl. rewrite IH. by string_norm. Qed.

Lemma run_pass_app l1 l2 s s1 :
  run_pass (CG:=CRef) l1 s = Ret (tt, s1) →
  run_pass (CG:=CRef) (l1 ++ l2) s = run_pass (CG:=CRef) l2 s1.
Proof.
  revert s. induction l1 as [|st l1 IH]; intros s H; [by injection H as ->|].
  unfold run_pass in *. cbn [app forM_] in *. apply stM_bind_Ret in H as (? & s2 & H1 & H2).
  rewrite (bind_step _ _ _ _ _ H1). by apply IH.
Qed.

(** The translator prints the program. *)
Lemma transpile_program ind p :
  program_ok p → transpile true ind (program_source p) = Ret (program_text p).
Proof.
  intros (ts1 & ts2 & Hst1 & Hst2 & Hknown & Hfs & Hmain & _).
  assert (each_ok ts2 (all_functions p)) as Hok.
  { apply Forall_app. split; [by eapply functions_ok_each|]. repeat constructor. by eexists. }
  assert (Forall (header_known ts1) (all_functions p)) as Hall
    by (apply Forall_app; split; [done|repeat constructor]).
  unfold transpile, visit_program, visitProgram. 
  cbn [program_source pr_directives pr_statements forM_].
  set (sts := (struct_source <$> pp_structs p) ++ (function_source <$> all_functions p)).
  set (s0 := set_first_pass true (set_output ("#include " +:+ dq +:+ "runtime.h" +:+ dq +:+ nl)
               (VState_init ind))).
  destruct (structs_first_pass _ _ _ s0 eq_refl (same_types_refl _) Hst1) as (ts1' & Hts1' & Hs1).
  set (sa := set_output _ _) in Hs1.
  destruct (functions_first ts1 _ sa eq_refl Hts1' eq_refl Hall) as (ts' & Hts' & Hf1).
  set (s1 := set_output _ _) in Hf1.
  assert (run_pass (CG:=CRef) sts s0 = Ret (tt, s1)) as H1 by (unfold sts; by rewrite (run_pass_app _ _ _ _ Hs1)).
  set (vt := "struct vtable {" +:+ nl +:+ "};" +:+ nl +:+ nl).
  assert (generateVTableStruct (m_typeSystem s1) = Ret vt) as Hvt.
  { unfold generateVTableStruct. change (m_typeSystem s1) with ts'.
    destruct Hts' as (_ & _ & <-). by rewrite (structs_first_classes _ _ _ Hst1). }
  set (s2 := set_first_pass false (set_output ((m_output s1 +:+ vt) +:+ nl) s1)).
  destruct (structs_second_pass _ _ _ s2 eq_refl Hts' Hst2) as (ts2' & Hts2' & Hs2).
  set (sb := set_output _ _) in Hs2.
  pose proof (functions_second ts2 _ sb eq_refl Hts2' eq_refl eq_refl eq_refl Hok) as Hf2.
  assert (run_pass (CG:=CRef) sts s2
          = Ret (tt, set_output (m_output sb +:+ functions_text (all_functions p)) sb)) as H2
    by (unfold sts; by rewrite (run_pass_app _ _ _ _ Hs2)).
  assert (∀ s, forM_ (λ m, _ ← m; out nl) (map (visit_stmt (CG:=CRef)) sts) s
               = run_pass (CG:=CRef) sts s) as Hpass by (intros s; by rewrite forM_map).
  run_heads. change (set_first_pass true _) with s0.
  rewrite (bind_step _ _ s0 tt s1) by (by rewrite Hpass).
  rewrite (bind_types_out _ vt) by done. run_heads.
  change (m_classNames _) with (@nil string). cbn [foldM forM_]. run_heads.
  change (set_first_pass false _) with s2.
  rewrite (bind_step _ _ s2 _ _ (eq_trans (Hpass s2) H2)). run_heads.
  change (globalVars _) with (@nil (string * Ty)). cbn [forM_]. run_heads.
  unfold gets. cbn [m_output set_output]. bind_ret. f_equal.
  unfold sb, s2, s1, sa, s0, program_text, main_text, vt.
  cbn [m_output set_output set_first_pass set_typeSystem roots_text foldr]. clear.
  rewrite newlines_add.
  generalize (structs_text (pp_structs p)) (functions_text (all_functions p)) (newlines (length (all_functions p)))
    (newlines (length (pp_structs p))).
  intros t1 t2 n1 n2. by string_norm.
Qed.
