(* ===== verification/PointerMachine.v ===== *)
(** The machine that runs the C code of pointers on the counting allocator.

    It has the code left to run, the variables of the open C scopes, the calls that wait for
    a result, and the allocator's state; an instruction calls the allocator as its text says.
    [step] runs one instruction, [steps] a number of them.  [safe] says that a computation does
    not go wrong within a number of steps, but for assignments through null pointers, and that a
    result it comes to is right; [room] is the state of the allocator it needs. *)
From S2P Require Import Prelude Errors CppString Types.
From S2P Require Import Allocator RefCount RefCountProps RefCountClient PointerCode.
From stdpp Require Import gmultiset relations.
#[local] Open Scope Z_scope.

(** ** The machine *)

(** A C scope: its variables, [None] for an indeterminate value. *)
Abbreviation frame := (gmap string (option Z)).
Record machine := mkMachine {
  frames : list frame;
  allocator : RC
}.

Fixpoint find_var (x : string) (fs : list frame) : option (option Z) :=
  match fs with
  | [] => None
  | F :: fs => match F !! x with Some v => Some v | None => find_var x fs end
  end.
Fixpoint assign_var (x : string) (v : Z) (fs : list frame) : list frame :=
  match fs with
  | [] => []
  | F :: fs => match F !! x with
               | Some _ => <[x := Some v]> F :: fs
               | None => F :: assign_var x v fs
               end
  end.
Definition declare_var (x : string) (v : option Z) (fs : list frame) : list frame :=
  match fs with [] => [{[x := v]}] | F :: fs => <[x := v]> F :: fs end.

Definition on_frames (f : list frame → list frame) : stM machine unit :=
  modify (λ m, mkMachine (f (frames m)) (allocator m)).
Definition on_allocator {A} (c : stM RC A) : stM machine A := λ m,
  match c (allocator m) with
  | Ret (a, s) => Ret (a, mkMachine (frames m) s)
  | Throw e => Throw e
  | Crash c => Crash c
  | Diverge => Diverge
  end.

(** The value of a variable: an indeterminate one must not be used. *)
Definition read (x : string) : stM machine Z :=
  fs ← gets frames;
  match find_var x fs with
  | Some (Some v) => mret v
  | _ => crashM InvalidAccess
  end.

(** The result of a comparison. *)
Definition test (c : cond) : stM machine bool :=
  a ← read (c_left c);
  b ← match c_right c with Some y => read y | None => mret NULL end;
  mret (Bool.eqb (a =? b) (c_equal c)).

(** A C function. *)
Record cfun := mkCfun {
  cf_name : string;
  cf_params : list string;
  cf_code : list instr
}.
Fixpoint find_fun (f : string) (table : list cfun) : option cfun :=
  match table with
  | [] => None
  | g :: table => if decide (cf_name g = f) then Some g else find_fun f table
  end.
Definition bind_params (xs : list string) (vs : list Z) : frame :=
  list_to_map (zip xs (Some <$> vs)).

(** A call that waits for its result: where it goes, the variables and the code of the
    caller. *)
Record cont := mkCont {
  k_dest : dest;
  k_frames : list frame;
  k_code : list instr
}.
Inductive status :=
| Running (l : list instr) (ks : list cont)
| Halted (result : option Z).

Definition declare_dest (d : dest) (fs : list frame) : list frame :=
  match d with To_new _ x => declare_var x None fs | _ => fs end.
Definition set_dest (d : dest) (r : option Z) : stM machine unit :=
  match d, r with
  | To_none, _ => mret tt
  | To_new _ x, Some v | To_var x, Some v => on_frames (assign_var x v)
  | _, None => crashM InvalidAccess
  end.
(** The end of a call, with or without a result. *)
Definition resume (r : option Z) (ks : list cont) : stM machine status :=
  match ks with
  | [] => mret (Halted r)
  | k :: ks =>
      _ ← on_frames (λ _, k_frames k);
      _ ← set_dest (k_dest k) r;
      mret (Running (k_code k) ks)
  end.

Section machine.
(** [sizeof] of the C compiler, [malloc], and the functions of the program. *)
Context (size_of : Ty → Z) (malloc : RC → Env) (table : list cfun).

(** The instructions that work on the variables and the allocator.  A store writes to a live
    block; what it writes is not kept, since no instruction reads a field. *)
Definition exec (i : instr) : stM machine unit :=
  match i with
  | I_declare _ x => on_frames (declare_var x None)
  | I_alloc p x =>
      s ← gets allocator;
      v ← on_allocator (rc_alloc (malloc s) (size_of (pt_elem p)));
      on_frames (declare_var x (Some v))
  | I_null _ x => on_frames (declare_var x (Some NULL))
  | I_copy _ x y =>
      _ ← on_frames (declare_var x None);
      v ← read y;
      on_frames (assign_var x v)
  | I_inc x => v ← read x; on_allocator (rc_inc_ref_count v NULL)
  | I_dec x => v ← read x; on_allocator (rc_dec v 0)
  | I_assign x y => v ← read y; on_frames (assign_var x v)
  | I_clear x => on_frames (assign_var x NULL)
  | I_hold y x => v ← read y; w ← read x; on_allocator (rc_inc_ref_count v w)
  | I_store x _ y =>
      w ← read x;
      _ ← read y;
      if decide (w = NULL) then crashM NullDeref
      else on_allocator (_ ← load (header_of w); mret tt)
  | I_open => on_frames (λ fs, ∅ :: fs)
  | I_close => on_frames tail
  | _ => mret tt
  end.

Definition step (st : status) : stM machine status :=
  match st with
  | Halted r => mret (Halted r)
  | Running [] ks => resume None ks
  | Running (i :: l) ks =>
      match i with
      | I_if c t => b ← test c; mret (Running (if b : bool then t ++ l else l) ks)
      | I_if_else c t e => b ← test c; mret (Running ((if b : bool then t else e) ++ l) ks)
      | I_while c t =>
          b ← test c; mret (Running (if b : bool then t ++ I_while c t :: l else l) ks)
      | I_call d f ys =>
          _ ← on_frames (declare_dest d);
          vs ← mapM read ys;
          match find_fun f table with
          | None => crashM InvalidAccess
          | Some g =>
              caller ← gets frames;
              _ ← on_frames (λ _, [bind_params (cf_params g) vs]);
              mret (Running (cf_code g) (mkCont d caller l :: ks))
          end
      | I_return x => v ← read x; resume (Some v) ks
      | _ => _ ← exec i; mret (Running l ks)
      end
  end.
Fixpoint steps (n : nat) (st : status) : stM machine status :=
  match n with O => mret st | S n => st ← step st; steps n st end.

(** A call of a function from outside, up to [n] steps. *)
Definition call_fun (n : nat) (f : string) (vs : list Z) : stM machine status :=
  match find_fun f table with
  | None => crashM InvalidAccess
  | Some g => _ ← on_frames (λ _, [bind_params (cf_params g) vs]); steps n (Running (cf_code g) [])
  end.

(** ** Safe computations *)

(** Whether the program may assign through a null pointer: where it does, it is killed. *)
Context (stores : bool).

(** Nothing else goes wrong within [n] steps, and a result is one [Q] accepts. *)
Fixpoint safe (n : nat) (Q : option Z → machine → Prop) (st : status) (m : machine) : Prop :=
  match st with
  | Halted r => Q r m
  | Running _ _ =>
      match n with
      | O => True
      | S n => (∃ st' m', step st m = Ret (st', m') ∧ safe n Q st' m') ∨
               (stores = true ∧ step st m = Crash NullDeref)
      end
  end.

Lemma steps_halted n r m : steps n (Halted r) m = Ret (Halted r, m).
Proof. induction n as [|n IH]; [done|]. exact IH. Qed.

Lemma safe_steps n Q st m :
  safe n Q st m →
  (∃ st' m', steps n st m = Ret (st', m') ∧ (∀ r, st' = Halted r → Q r m')) ∨
  (stores = true ∧ steps n st m = Crash NullDeref).
Proof.
  revert st m. induction n as [|n IH]; intros [l ks|r] m Hs.
  - left. by exists (Running l ks), m.
  - left. exists (Halted r), m. split; [done|]. by intros ? [= <-].
  - cbn [steps]. destruct Hs as [(st' & m' & Hst & Hs)|[Hstores Hst]].
    + rewrite (bind_step _ _ _ _ _ Hst). by apply IH.
    + right. split; [done|]. unfold mbind, stM_bind. by rewrite Hst.
  - left. exists (Halted r), m. rewrite steps_halted. split; [done|]. by intros ? [= <-].
Qed.

Lemma safe_step n Q l ks m st' m' :
  step (Running l ks) m = Ret (st', m') → safe n Q st' m' → safe (S n) Q (Running l ks) m.
Proof. intros Hst Hs. left. by exists st', m'. Qed.

Lemma safe_run n Q l ks m st' m' :
  step (Running l ks) m = Ret (st', m') → (∀ k, n = S k → safe k Q st' m') →
  safe n Q (Running l ks) m.
Proof. intros Hst Hs. destruct n as [|n]; [done|]. eapply safe_step; eauto. Qed.

End machine.

(** ** The references the variables hold *)

(** The block a value refers to: none for [NULL]. *)
Definition ref (v : Z) : option Z := if decide (v = NULL) then None else Some (header_of v).
Definition value_ref (v : Z) : gmultiset Z :=
  match ref v with Some h => {[+ h +]} | None => ∅ end.
Definition value_refs (vs : list Z) : gmultiset Z := list_to_set_disj (omap ref vs).
Definition frame_refs (F : frame) : gmultiset Z := value_refs (omap snd (map_to_list F)).
Fixpoint stack_refs (fs : list frame) : gmultiset Z :=
  match fs with [] => ∅ | F :: fs => frame_refs F ⊎ stack_refs fs end.

Lemma value_refs_perm l l' : l ≡ₚ l' → value_refs l = value_refs l'.
Proof. intros Hl. unfold value_refs. apply list_to_set_disj_perm. by rewrite Hl. Qed.

Lemma value_refs_cons v vs : value_refs (v :: vs) = value_ref v ⊎ value_refs vs.
Proof.
  unfold value_refs, value_ref. cbn [omap list_omap].
  destruct (ref v); [done|]. by rewrite (left_id_L ∅ (⊎)).
Qed.

Lemma frame_refs_empty : frame_refs ∅ = ∅.
Proof. unfold frame_refs. by rewrite map_to_list_empty. Qed.

Lemma frame_refs_insert F x v :
  F !! x = None → frame_refs (<[x := Some v]> F) = value_ref v ⊎ frame_refs F.
Proof.
  intros Hx. unfold frame_refs. rewrite <-value_refs_cons. apply value_refs_perm.
  by rewrite (map_to_list_insert F x (Some v) Hx).
Qed.

Lemma frame_refs_delete F x v :
  F !! x = Some (Some v) → frame_refs F = value_ref v ⊎ frame_refs (delete x F).
Proof.
  intros Hx. rewrite <-(frame_refs_insert _ x v) by apply lookup_delete_eq.
  by rewrite insert_delete_id.
Qed.

Lemma frame_refs_update F x u v :
  F !! x = Some (Some u) →
  frame_refs (<[x := Some v]> F) ⊎ value_ref u = frame_refs F ⊎ value_ref v.
Proof.
  intros Hx. rewrite <-insert_delete_eq, frame_refs_insert by apply lookup_delete_eq.
  rewrite (frame_refs_delete F x u) by done. multiset_solver.
Qed.

Lemma frame_refs_keys F vs :
  Forall2 (λ x v, F !! x = Some (Some v)) (set_iter (dom F)) vs → frame_refs F = value_refs vs.
Proof.
  intros Hvs. transitivity (value_refs (omap (λ x, default None (F !! x)) (set_iter (dom F)))).
  - unfold frame_refs. apply value_refs_perm. rewrite <-map_iter_keys, <-map_iter_perm.
    assert (∀ x v, (x, v) ∈ map_iter F → F !! x = Some v) as Hall
      by (intros x v; apply elem_of_map_iter).
    induction (map_iter F) as [|[x v] l IH]; [done|]. cbn [fmap list_fmap omap list_omap fst snd].
    rewrite (Hall x v) by by left. simpl. destruct v; rewrite IH; try done;
      intros; apply Hall; by right.
  - induction Hvs as [|x v xs vs Hx _ IH]; [done|]. cbn [omap list_omap]. rewrite Hx. simpl.
    by rewrite !value_refs_cons, IH.
Qed.

(** ** The machine follows the declarations *)
Definition frame_ok (G : gmap string ptype) (F : frame) : Prop :=
  dom F = dom G ∧ map_Forall (λ _ v, is_Some v) F.
Definition frames_ok (Γ : list (gmap string ptype)) (fs : list frame) : Prop :=
  Forall2 frame_ok Γ fs.

Lemma frame_ok_lookup G F x :
  frame_ok G F → match G !! x with
                 | Some _ => ∃ v, F !! x = Some (Some v)
                 | None => F !! x = None
                 end.
Proof.
  intros [Hd Hs]. destruct (G !! x) as [p|] eqn:E.
  - assert (x ∈ dom F) as [v Hv]%elem_of_dom by (rewrite Hd; apply elem_of_dom; eauto).
    destruct (Hs _ _ Hv) as [u Hu]. simpl in Hu. subst. by exists u.
  - apply not_elem_of_dom. rewrite Hd. by apply not_elem_of_dom.
Qed.

Lemma frame_ok_insert G F x p v :
  frame_ok G F → frame_ok (<[x := p]> G) (<[x := Some v]> F).
Proof.
  intros [Hd Hs]. split; [rewrite !dom_insert_L; by rewrite Hd|]. by apply map_Forall_insert_2.
Qed.

Lemma find_var_app x fs1 fs2 :
  find_var x (fs1 ++ fs2) = match find_var x fs1 with Some v => Some v | None => find_var x fs2 end.
Proof. induction fs1 as [|F fs1 IH]; [done|]. simpl. by destruct (F !! x). Qed.

Lemma find_var_ok x Γ fs p :
  frames_ok Γ fs → type_of x Γ = Some p →
  ∃ v, find_var x fs = Some (Some v) ∧ value_ref v ⊆ stack_refs fs.
Proof.
  intros Hok. induction Hok as [|G F Γ fs Hf _ IH]; [done|]. simpl.
  pose proof (frame_ok_lookup _ _ x Hf) as Hx. destruct (G !! x).
  - intros _. destruct Hx as [v Hv]. rewrite Hv. exists v. split; [done|].
    rewrite (frame_refs_delete F x v) by done. multiset_solver.
  - intros Ht. rewrite Hx. destruct (IH Ht) as (v & Hv & Hin). exists v. split; [done|].
    multiset_solver.
Qed.

Lemma find_var_undeclared x Γ fs :
  frames_ok Γ fs → type_of x Γ = None → find_var x fs = None.
Proof.
  intros Hok. induction Hok as [|G F Γ fs Hf _ IH]; [done|]. simpl.
  pose proof (frame_ok_lookup _ _ x Hf) as Hx. destruct (G !! x); [done|]. by rewrite Hx.
Qed.

Lemma find_assign_ne x y v fs : x ≠ y → find_var y (assign_var x v fs) = find_var y fs.
Proof.
  intros Hxy. induction fs as [|F fs IH]; [done|]. simpl.
  destruct (F !! x); simpl; [by rewrite lookup_insert_ne|]. by rewrite IH.
Qed.

Lemma find_declare_ne x y v F fs : x ≠ y → find_var y (declare_var x v (F :: fs)) = find_var y (F :: fs).
Proof. intros Hxy. simpl. by rewrite lookup_insert_ne. Qed.

Lemma assign_var_app x v u fs fs' :
  find_var x fs = Some u → assign_var x v (fs ++ fs') = assign_var x v fs ++ fs'.
Proof.
  induction fs as [|F fs IH]; [done|]. simpl. destruct (F !! x); [done|].
  intros Hx. by rewrite IH.
Qed.

(** An assignment trades the old reference for the new one. *)
Lemma assign_var_ok x v Γ fs p u :
  frames_ok Γ fs → type_of x Γ = Some p → find_var x fs = Some (Some u) →
  frames_ok Γ (assign_var x v fs) ∧
  stack_refs (assign_var x v fs) ⊎ value_ref u = stack_refs fs ⊎ value_ref v.
Proof.
  intros Hok. induction Hok as [|G F Γ fs Hf Hfs IH]; [done|]. simpl.
  pose proof (frame_ok_lookup _ _ x Hf) as Hx. destruct (G !! x) as [q|] eqn:E.
  - intros _ Hu. destruct Hx as [w Hw]. rewrite Hw in Hu |- *. injection Hu as ->. split.
    + constructor; [|done]. rewrite <-(insert_id G x q) by done. by apply frame_ok_insert.
    + simpl. pose proof (frame_refs_update F x u v Hw). multiset_solver.
  - intros Ht. rewrite Hx. intros Hu. destruct (IH Ht Hu) as [IH1 IH2]. split.
    + by constructor.
    + simpl. multiset_solver.
Qed.

(** ** Each instruction is a call of a client *)

(** The allocator is in good state for the references [r] and for references that were stored
    where there was no room for them, which nobody gives back; without [stores] there are none
    of these, and the blocks make no cycle. *)
Definition settled_after (stores : bool) (k : nat) (s : RC) (r : gmultiset Z) : Prop :=
  ∃ lost, heap_ok k s (r ⊎ lost) ∧ (stores = false → lost = ∅ ∧ acyclic_heap (rc_heap s)).
Definition settled (stores : bool) (s : RC) (r : gmultiset Z) : Prop :=
  ∃ k, settled_after stores k s r.
(** And [n] more calls cannot overflow a count. *)
Definition room (stores : bool) (n : nat) (s : RC) (r : gmultiset Z) : Prop :=
  ∃ k, settled_after stores k s r ∧ Z.of_nat (k + n) <= LLONG_MAX.

Lemma client_settled k s r stores : client_ok k s r → settled_after stores k s r.
Proof. intros [Hh Hy]. exists ∅. by rewrite (right_id_L ∅ (⊎)). Qed.
Lemma settled_client k s r : settled_after false k s r → client_ok k s r.
Proof.
  intros (lost & Hh & Hl). destruct (Hl eq_refl) as [-> Hy]. by rewrite (right_id_L ∅ (⊎)) in Hh.
Qed.

Section room.
Context (stores : bool).
Abbreviation room := (room stores).

Lemma room_le n n' s r : (n' ≤ n)%nat → room n s r → room n' s r.
Proof. intros Hn (k & Hk & Hm). exists k. split; [done|lia]. Qed.

Lemma room_settled n s r : room n s r → settled stores s r.
Proof. intros (k & Hk & _). by exists k. Qed.

Lemma room_live n s r v : room n s r → v ≠ NULL → value_ref v ⊆ r → is_Some (rc_heap s !! header_of v).
Proof.
  unfold value_ref, ref. intros (k & (lost & Hok & _) & _) Hv Hin. rewrite decide_False in Hin by done.
  apply (ac_live _ _ (ho_accounts _ _ _ Hok) (header_of v)). multiset_solver.
Qed.

Lemma room_inc n s r v :
  value_ref v ⊆ r → room (S n) s r →
  ∃ s', rc_inc_ref_count v NULL s = Ret (tt, s') ∧ room n s' (r ⊎ value_ref v).
Proof.
  intros Hv Hroom. pose proof (room_live _ _ _ v Hroom) as Hlive. revert Hv Hlive.
  unfold value_ref, ref. destruct Hroom as (k & (lost & Hok & Hl) & Hn). case_decide as Hnn.
  - intros _ _. exists s. subst v. split; [done|]. exists k. rewrite (right_id_L ∅ (⊎)).
    split; [by exists lost|lia].
  - intros Hv Hlive. destruct (heap_take k s _ v (Hlive Hnn Hv) ltac:(lia) Hok) as (s' & H & Hok' & He).
    exists s'. split; [done|]. exists (S k). split; [|lia]. exists lost. split.
    + by replace (r ⊎ {[+ header_of v +]} ⊎ lost) with (r ⊎ lost ⊎ {[+ header_of v +]})
        by multiset_solver.
    + intros Hs. destruct (Hl Hs) as [? Hy]. split; [done|]. by eapply acyclic_heap_mono.
Qed.

Lemma room_dec n s r v :
  room n s (value_ref v ⊎ r) → ∃ s', rc_dec v 0 s = Ret (tt, s') ∧ room n s' r.
Proof.
  unfold value_ref, ref. intros (k & (lost & Hok & Hl) & Hn). case_decide as Hv.
  - subst v. exists s. split; [done|]. exists k. rewrite (left_id_L ∅ (⊎)) in Hok.
    split; [by exists lost|done].
  - destruct (heap_dec k s ({[+ header_of v +]} ⊎ r ⊎ lost) v 0) as (s' & H & Hok' & He);
      [done|rewrite Z.sub_0_r; multiset_solver|done|].
    rewrite Z.sub_0_r in Hok'.
    replace (({[+ header_of v +]} ⊎ r ⊎ lost) ∖ {[+ header_of v +]}) with (r ⊎ lost) in Hok'
      by multiset_solver.
    exists s'. split; [done|]. exists k. split; [|done]. exists lost. split; [done|].
    intros Hs. destruct (Hl Hs) as [? Hy]. split; [done|]. by eapply acyclic_heap_mono.
Qed.

(** A value is stored in a block, or lost when the block is full or there is none. *)
Lemma room_hold n s r v w :
  stores = true → value_ref v ⊆ r → value_ref w ⊆ r → room (S n) s r →
  ∃ s', rc_inc_ref_count v w s = Ret (tt, s') ∧ room n s' r.
Proof.
  intros Hst Hv Hw Hroom. destruct (decide (v = NULL)) as [->|Hvn].
  { exists s. split; [done|]. by apply (room_le (S n)); [lia|]. }
  pose proof (room_live _ _ _ v Hroom Hvn Hv) as Hlv.
  destruct (decide (w = NULL)) as [->|Hwn].
  { destruct (room_inc n s r v Hv Hroom) as (s' & H & k & (lost & Hok & _) & Hn).
    exists s'. split; [done|]. exists k. split; [|done]. exists (value_ref v ⊎ lost).
    split; [|by rewrite Hst]. by rewrite (assoc_L (⊎)). }
  destruct (room_live _ _ _ w Hroom Hwn Hw) as [ohd Ho].
  destruct Hroom as (k & (lost & Hok & _) & Hn).
  destruct (heap_hold k s _ v w ohd Hlv Ho ltac:(lia) Hok) as (s' & H & Hok').
  exists s'. split; [done|]. exists (S k). split; [|lia].
  destruct (idx ohd <? 3); destruct Hok' as [Hok' _].
  - exists lost. split; [done|]. by rewrite Hst.
  - exists (lost ⊎ {[+ header_of v +]}). split; [by rewrite (assoc_L (⊎))|]. by rewrite Hst.
Qed.

Lemma room_alloc n s r env bytes :
  allowed s r (Call_alloc env bytes) → room (S n) s r →
  ∃ s', perform (Call_alloc env bytes) s = Ret (tt, s') ∧ room n s' (r ⊎ {[+ malloc_result env +]}).
Proof.
  intros Hc (k & (lost & Hok & Hl) & Hn).
  pose proof (λ Hc, heap_alloc k s _ env bytes Hc Hok) as H.
  destruct (H Hc) as (s' & Hret & Hok' & He). clear H. rename Hret into H.
  exists s'. split; [done|]. exists (S k). split; [|lia]. exists lost. split.
  - by replace (r ⊎ {[+ malloc_result env +]} ⊎ lost) with (r ⊎ lost ⊎ {[+ malloc_result env +]})
      by multiset_solver.
  - intros Hs. destruct (Hl Hs) as [? Hy]. split; [done|]. by eapply acyclic_heap_mono.
Qed.
End room.

Lemma on_allocator_step {A B} (c : stM RC A) (k : A → stM machine B) fs s a s' :
  c s = Ret (a, s') → (on_allocator c ≫= k) (mkMachine fs s) = k a (mkMachine fs s').
Proof. intros Hc. unfold on_allocator, mbind, stM_bind. simpl. by rewrite Hc. Qed.

Lemma read_step {B} x v (k : Z → stM machine B) fs s :
  find_var x fs = Some (Some v) → (read x ≫= k) (mkMachine fs s) = k v (mkMachine fs s).
Proof. intros Hx. unfold read, mbind, stM_bind, gets. simpl. by rewrite Hx. Qed.

(** The values of a list of variables. *)
Definition values (fs : list frame) (xs : list string) (vs : list Z) : Prop :=
  Forall2 (λ x v, find_var x fs = Some (Some v)) xs vs.

Lemma mapM_read_step {B} xs vs (k : list Z → stM machine B) fs s :
  values fs xs vs → (mapM read xs ≫= k) (mkMachine fs s) = k vs (mkMachine fs s).
Proof.
  intros Hvs. apply (bind_step (mapM read xs)). induction Hvs as [|x v xs vs Hx _ IH]; [done|].
  cbn [mapM]. rewrite (read_step _ _ _ _ _ Hx). by rewrite (bind_step _ _ _ _ _ IH).
Qed.

Lemma values_others x fs fs' ys vs :
  x ∉ ys → (∀ y, x ≠ y → find_var y fs' = find_var y fs) → values fs ys vs → values fs' ys vs.
Proof.
  intros Hx Hfs. induction 1 as [|y v ys vs Hy _ IH]; [constructor|].
  apply not_elem_of_cons in Hx as [Hxy Hx]. constructor; [by rewrite Hfs|by apply IH].
Qed.

Section steps.
Context (size_of : Ty → Z) (malloc : RC → Env) (table : list cfun).
Context (stores : bool) (Q : option Z → machine → Prop) (ks : list cont).
Abbreviation safe := (safe size_of malloc table stores).
Abbreviation room := (room stores).

(** An instruction that touches the variables only. *)
Lemma safe_exec n i l fs s fs' W :
  step size_of malloc table (Running (i :: l) ks) (mkMachine fs s)
  = Ret (Running l ks, mkMachine fs' s) →
  room n s W →
  (∀ k, k ≤ n → room k s W → safe k Q (Running l ks) (mkMachine fs' s))%nat →
  safe n Q (Running (i :: l) ks) (mkMachine fs s).
Proof.
  intros Hst Hr Hk. eapply safe_run; [exact Hst|]. intros k ->.
  apply Hk; [lia|]. apply (room_le _ (S k)); [lia|done].
Qed.

Lemma safe_inc n x v l fs s W :
  find_var x fs = Some (Some v) → value_ref v ⊆ W → room n s W →
  (∀ k s', k ≤ n → room k s' (W ⊎ value_ref v) → safe k Q (Running l ks) (mkMachine fs s'))%nat →
  safe n Q (Running (I_inc x :: l) ks) (mkMachine fs s).
Proof.
  intros Hx Hv Hr Hk. destruct n as [|n]; [done|].
  destruct (room_inc stores n s W v Hv Hr) as (s' & H & Hr').
  eapply safe_step; [|apply Hk; [lia|exact Hr']].
  cbn [step exec]. rewrite (bind_step _ _ _ tt (mkMachine fs s')); [done|].
  rewrite (read_step _ _ _ _ _ Hx). unfold on_allocator. simpl. by rewrite H.
Qed.

Lemma safe_dec n x v l fs s W :
  find_var x fs = Some (Some v) → room n s (value_ref v ⊎ W) →
  (∀ k s', k ≤ n → room k s' W → safe k Q (Running l ks) (mkMachine fs s'))%nat →
  safe n Q (Running (I_dec x :: l) ks) (mkMachine fs s).
Proof.
  intros Hx Hr Hk. destruct n as [|n]; [done|].
  destruct (room_dec stores (S n) s W v Hr) as (s' & H & Hr').
  eapply safe_step; [|apply Hk; [lia|apply (room_le _ (S n)); [lia|exact Hr']]].
  cbn [step exec]. rewrite (bind_step _ _ _ tt (mkMachine fs s')); [done|].
  rewrite (read_step _ _ _ _ _ Hx). unfold on_allocator. simpl. by rewrite H.
Qed.

(** An assignment to a field. *)
Lemma safe_hold n y v x w l fs s W :
  stores = true → find_var y fs = Some (Some v) → find_var x fs = Some (Some w) →
  value_ref v ⊆ W → value_ref w ⊆ W → room n s W →
  (∀ k s', k ≤ n → room k s' W → safe k Q (Running l ks) (mkMachine fs s'))%nat →
  safe n Q (Running (I_hold y x :: l) ks) (mkMachine fs s).
Proof.
  intros Hst Hy Hx Hv Hw Hr Hk. destruct n as [|n]; [done|].
  destruct (room_hold stores n s W v w Hst Hv Hw Hr) as (s' & H & Hr').
  eapply safe_step; [|apply Hk; [lia|exact Hr']].
  cbn [step exec]. rewrite (bind_step _ _ _ tt (mkMachine fs s')); [done|].
  rewrite (read_step _ _ _ _ _ Hy), (read_step _ _ _ _ _ Hx). unfold on_allocator. simpl. by rewrite H.
Qed.

Lemma safe_store n x w f y v l fs s W :
  stores = true → find_var y fs = Some (Some v) → find_var x fs = Some (Some w) →
  value_ref w ⊆ W → room n s W →
  (∀ k, k ≤ n → room k s W → safe k Q (Running l ks) (mkMachine fs s))%nat →
  safe n Q (Running (I_store x f y :: l) ks) (mkMachine fs s).
Proof.
  intros Hst Hy Hx Hw Hr Hk. destruct n as [|n]; [done|].
  destruct (decide (w = NULL)) as [->|Hwn].
  - right. split; [done|]. cbn [step exec]. unfold mbind at 1, stM_bind at 1.
    by rewrite (read_step _ _ _ _ _ Hx), (read_step _ _ _ _ _ Hy).
  - destruct (room_live _ _ _ _ w Hr Hwn Hw) as [hd Hhd].
    eapply safe_step; [|apply (Hk n); [lia|apply (room_le _ (S n)); [lia|exact Hr]]].
    cbn [step exec]. rewrite (bind_step _ _ _ tt (mkMachine fs s)); [done|].
    rewrite (read_step _ _ _ _ _ Hx), (read_step _ _ _ _ _ Hy), decide_False by done.
    unfold on_allocator. cbn [allocator frames].
    by rewrite (bind_step _ _ _ hd s) by (by apply load_live).
Qed.

(** Retaining or releasing a list of variables. *)
Lemma safe_incs n xs vs l fs s W :
  values fs xs vs → Forall (λ v, value_ref v ⊆ W) vs → room n s W →
  (∀ k s', k ≤ n → room k s' (W ⊎ value_refs vs) → safe k Q (Running l ks) (mkMachine fs s'))%nat →
  safe n Q (Running ((I_inc <$> xs) ++ l) ks) (mkMachine fs s).
Proof.
  intros Hvs. revert n s W. induction Hvs as [|x v xs vs Hx _ IH]; intros n s W Hin Hr Hk.
  - apply Hk; [done|]. change (value_refs []) with (∅ : gmultiset Z). by rewrite (right_id_L ∅ (⊎)).
  - apply Forall_cons in Hin as [Hv Hin]. cbn [fmap list_fmap app].
    apply (safe_inc _ _ _ _ _ _ _ Hx Hv Hr). intros k s' Hle Hr'.
    apply (IH k s' (W ⊎ value_ref v)); [|done|].
    + eapply Forall_impl; [exact Hin|]. intros u Hu. simpl in Hu. multiset_solver.
    + intros k' s1 Hle' Hr1. apply Hk; [lia|]. by rewrite value_refs_cons, (assoc_L (⊎)).
Qed.

Lemma safe_decs n xs vs l fs s W :
  values fs xs vs → room n s (value_refs vs ⊎ W) →
  (∀ k s', k ≤ n → room k s' W → safe k Q (Running l ks) (mkMachine fs s'))%nat →
  safe n Q (Running ((I_dec <$> xs) ++ l) ks) (mkMachine fs s).
Proof.
  intros Hvs. revert n s. induction Hvs as [|x v xs vs Hx _ IH]; intros n s Hr Hk.
  - apply Hk; [done|]. change (value_refs []) with (∅ : gmultiset Z) in Hr.
    by rewrite (left_id_L ∅ (⊎)) in Hr.
  - rewrite value_refs_cons, <-(assoc_L (⊎)) in Hr. cbn [fmap list_fmap app].
    apply (safe_dec _ _ _ _ _ _ _ Hx Hr). intros k s' Hle Hr'.
    apply IH; [done|]. intros k' s1 Hle'. apply Hk. lia.
Qed.
End steps.
