(* ===== verification/CodeSafety.v ===== *)
(** The C code of pointer fragments is safe.

    On the counting allocator, the code of a fragment of file PointerCode touches no freed
    block, and goes wrong only where it assigns to a field through a null pointer; where it ends,
    or returns, the references held are those of the variables still there and those held before.  A loop may run for ever, and a function may
    call itself; the statements speak of any number of steps. *)
From S2P Require Import Prelude Errors CppString Types TypeSystem SymbolTable.
From S2P Require Import CodeGenerator Syntax Visitor Transpile Static StmtProps.
From S2P Require Import Allocator RefCount RefCountProps RefCountClient.
From S2P Require Import PointerCode PointerVisit PointerMachine.
From stdpp Require Import gmultiset relations.
#[local] Open Scope Z_scope.

(** The references of a result. *)
Definition result_refs (res : option Z) : gmultiset Z := default ∅ (value_ref <$> res).

Section machine.
Context (size_of : Ty → Z) (malloc : RC → Env) (table : list cfun) (stores : bool).
Abbreviation safe := (safe size_of malloc table stores).
Abbreviation room := (room stores).

Definition resumes (n : nat) (Q : option Z → machine → Prop) (res : option Z) (ks : list cont)
    (m : machine) : Prop :=
  ∃ st m', resume res ks m = Ret (st, m') ∧ safe n Q st m'.

(** A function that can be called, for less than [n] steps: whoever waits for it, it goes on
    safely when its caller does, with the references it found and one for its result, which
    it has when it is declared to. *)
Definition fun_safe (n : nat) (f : string) (sig : signature) : Prop :=
  ∃ g, find_fun f table = Some g ∧ ∀ k Q ks vs s W,
    (k < n)%nat → length vs = length sig.1 → Forall (λ v, value_ref v ⊆ W) vs → room k s W →
    (∀ j res fs s', (j ≤ k)%nat → (is_Some res ↔ is_Some sig.2) →
       room j s' (W ⊎ result_refs res) → resumes j Q res ks (mkMachine fs s')) →
    safe k Q (Running (cf_code g) ks) (mkMachine [bind_params (cf_params g) vs] s).

Lemma fun_safe_le n n' f sig : (n' ≤ n)%nat → fun_safe n f sig → fun_safe n' f sig.
Proof. intros Hn (g & Hg & Hs). exists g. split; [done|]. intros k *. intros Hk. apply Hs. lia. Qed.

(** ** Fragments *)
Section fragment.
Context (Q : option Z → machine → Prop) (ks : list cont).
Context (ts : TypeSystem) (sigs : gmap string signature) (ret : option ptype).
(** The parameters of the function the code is in, whose references the caller holds. *)
Context (Π : gmap string ptype) (PF : frame) (r : gmultiset Z).
Context (PF_ok : frame_ok Π PF) (PF_held : ∀ x v, PF !! x = Some (Some v) → value_ref v ⊆ r).

(** Running [l] is safe, when it is to go on from where [l] ends; the variables are then those
    of [Γ'], and the references held those of the variables and [r].  With [e], the code does
    not come to its end. *)
Definition goes (e : bool) (n : nat) (l : list instr) (Γ' : list (gmap string ptype))
    (fs : list frame) (s : RC) : Prop :=
  ∀ rest,
    (e = false → ∀ k fs' s', (k ≤ n)%nat → frames_ok Γ' fs' → room k s' (stack_refs fs' ⊎ r) →
       safe k Q (Running rest ks) (mkMachine (fs' ++ [PF]) s')) →
    safe n Q (Running (l ++ rest) ks) (mkMachine (fs ++ [PF]) s).

Lemma goes_app e n l1 l2 Γ1 Γ2 fs s :
  goes false n l1 Γ1 fs s →
  (∀ k fs1 s1, (k ≤ n)%nat → frames_ok Γ1 fs1 → room k s1 (stack_refs fs1 ⊎ r) →
     goes e k l2 Γ2 fs1 s1) →
  goes e n (l1 ++ l2) Γ2 fs s.
Proof.
  intros H1 H2 rest Hrest. rewrite <-(assoc_L (++)). apply H1. intros _ k fs' s' Hk Hfs Hr.
  apply H2; try done. intros He j fs1 s1 Hj. apply Hrest; [done|lia].
Qed.

(** Code that does not come to its end. *)
Lemma goes_stop e n l1 l2 Γ1 Γ2 fs s : goes true n l1 Γ1 fs s → goes e n (l1 ++ l2) Γ2 fs s.
Proof. intros H rest _. rewrite <-(assoc_L (++)). by apply H. Qed.

Lemma goes_weaken e n l Γ' fs s : goes e n l Γ' fs s → goes false n l Γ' fs s.
Proof. intros H rest Hrest. apply H. auto. Qed.

Lemma find_visible x Γ fs p :
  frames_ok Γ fs → visible Π x Γ = Some p →
  ∃ v, find_var x (fs ++ [PF]) = Some (Some v) ∧ value_ref v ⊆ stack_refs fs ⊎ r.
Proof.
  intros Hok. unfold visible. rewrite type_of_app, find_var_app.
  destruct (type_of x Γ) as [q|] eqn:E.
  - intros _. destruct (find_var_ok x _ _ _ Hok E) as (v & -> & Hv). exists v. split; [done|].
    multiset_solver.
  - rewrite (find_var_undeclared _ _ _ Hok E). simpl.
    pose proof (frame_ok_lookup _ _ x PF_ok) as HF. destruct (Π !! x); [|done]. intros _.
    destruct HF as [v Hv]. rewrite Hv. exists v. split; [done|].
    pose proof (PF_held _ _ Hv). multiset_solver.
Qed.

Lemma values_visible ys ps Γ fs :
  frames_ok Γ fs → Forall2 (λ y p, visible Π y Γ = Some p) ys ps →
  ∃ vs, values (fs ++ [PF]) ys vs ∧ Forall (λ v, value_ref v ⊆ stack_refs fs ⊎ r) vs.
Proof.
  intros Hok. induction 1 as [|y p ys ps Hy _ (vs & IH1 & IH2)]; [by exists []; repeat constructor|].
  destruct (find_visible _ _ _ _ Hok Hy) as (v & Hv & Hin).
  exists (v :: vs). by split; constructor.
Qed.

Lemma stack_refs_declare G Γ F fs x v :
  undeclared x (G :: Γ) → frames_ok (G :: Γ) (F :: fs) →
  stack_refs (declare_var x (Some v) (F :: fs)) = stack_refs (F :: fs) ⊎ value_ref v.
Proof.
  intros Hx Hok. apply Forall2_cons in Hok as [Hf _]. pose proof (frame_ok_lookup _ _ x Hf) as HF.
  simpl in Hx. rewrite Hx in HF. simpl. rewrite frame_refs_insert by done. multiset_solver.
Qed.

Lemma frames_ok_declare G Γ F fs x p v :
  frames_ok (G :: Γ) (F :: fs) →
  frames_ok (declare x p (G :: Γ)) (declare_var x (Some v) (F :: fs)).
Proof.
  intros Hok. apply Forall2_cons in Hok as [Hf Hfs]. constructor; [by apply frame_ok_insert|done].
Qed.

Lemma assign_declared x v F fs :
  assign_var x v (<[x := None]> F :: fs) = declare_var x (Some v) (F :: fs).
Proof. cbn [assign_var]. by rewrite lookup_insert_eq, insert_insert_eq. Qed.

(** ** Statements *)
Lemma goes_P_null n p x G Γ F fs s :
  undeclared x (G :: Γ) → frames_ok (G :: Γ) (F :: fs) → room n s (stack_refs (F :: fs) ⊎ r) →
  goes false n [I_null p x] (declare x p (G :: Γ)) (F :: fs) s.
Proof.
  intros Hx Hok Hr rest Hrest. eapply safe_exec; [done|exact Hr|]. intros k Hk Hr'.
  apply (Hrest eq_refl k (declare_var x (Some NULL) (F :: fs))); [done|by apply frames_ok_declare|].
  rewrite (stack_refs_declare G Γ) by done.
  change (value_ref NULL) with (∅ : gmultiset Z). by rewrite (right_id_L ∅ (⊎)).
Qed.

Lemma step_copy p x y v l F fs s :
  x ≠ y → find_var y ((F :: fs) ++ [PF]) = Some (Some v) →
  step size_of malloc table (Running (I_copy p x y :: l) ks) (mkMachine ((F :: fs) ++ [PF]) s)
  = Ret (Running l ks, mkMachine (declare_var x (Some v) (F :: fs) ++ [PF]) s).
Proof.
  intros Hxy Hy. cbn [step exec].
  rewrite (bind_step _ _ _ tt (mkMachine (declare_var x (Some v) (F :: fs) ++ [PF]) s)); [done|].
  unfold on_frames. rewrite bind_modify. cbn [frames allocator declare_var app].
  rewrite (read_step _ v) by (simpl in *; by rewrite lookup_insert_ne).
  unfold modify. cbn [frames allocator]. by rewrite assign_declared.
Qed.

Lemma goes_P_copy n p x y G Γ F fs s :
  undeclared x (G :: Γ) → x ≠ y → visible Π y (G :: Γ) = Some p → frames_ok (G :: Γ) (F :: fs) →
  room n s (stack_refs (F :: fs) ⊎ r) →
  goes false n [I_inc y; I_copy p x y] (declare x p (G :: Γ)) (F :: fs) s.
Proof.
  intros Hx Hxy Hy Hok Hr rest Hrest. destruct (find_visible y _ _ _ Hok Hy) as (v & Hv & Hin).
  apply (safe_inc _ _ _ _ _ _ _ _ _ _ _ _ _ Hv Hin Hr). intros k s' Hk Hr'.
  eapply safe_exec; [by apply step_copy|exact Hr'|]. intros j Hj Hr1.
  apply (Hrest eq_refl j (declare_var x (Some v) (F :: fs))); [lia|by apply frames_ok_declare|].
  rewrite (stack_refs_declare G Γ) by done.
  by replace (stack_refs (F :: fs) ⊎ value_ref v ⊎ r)
    with (stack_refs (F :: fs) ⊎ r ⊎ value_ref v) by multiset_solver.
Qed.

Lemma goes_P_assign n p x y Γ fs s :
  type_of x Γ = Some p → visible Π y Γ = Some p → frames_ok Γ fs →
  room n s (stack_refs fs ⊎ r) →
  goes false n [I_inc y; I_dec x; I_assign x y] Γ fs s.
Proof.
  intros Hx Hy Hok Hr rest Hrest.
  destruct (find_visible y _ _ _ Hok Hy) as (v & Hv & Hin).
  destruct (find_var_ok x _ _ _ Hok Hx) as (u & Hu & _).
  destruct (assign_var_ok x v _ _ _ _ Hok Hx Hu) as [Hok' Hrefs].
  assert (find_var x (fs ++ [PF]) = Some (Some u)) as Hu' by (by rewrite find_var_app, Hu).
  apply (safe_inc _ _ _ _ _ _ _ _ _ _ _ _ _ Hv Hin Hr). intros k s1 Hk Hr1.
  replace (stack_refs fs ⊎ r ⊎ value_ref v)
    with (value_ref u ⊎ (stack_refs (assign_var x v fs) ⊎ r)) in Hr1 by multiset_solver.
  apply (safe_dec _ _ _ _ _ _ _ _ _ _ _ _ _ Hu' Hr1). intros j s2 Hj Hr2.
  eapply safe_exec; [|exact Hr2|].
  - cbn [step exec].
    rewrite (bind_step _ _ _ tt (mkMachine (assign_var x v fs ++ [PF]) s2)); [done|].
    rewrite (read_step _ _ _ _ _ Hv). unfold on_frames, modify. cbn [frames allocator].
    by rewrite (assign_var_app _ _ (Some u)).
  - intros i Hi Hr3. apply (Hrest eq_refl i (assign_var x v fs)); [lia|done|done].
Qed.

Lemma goes_P_clear n p x Γ fs s :
  type_of x Γ = Some p → frames_ok Γ fs → room n s (stack_refs fs ⊎ r) →
  goes false n [I_dec x; I_clear x] Γ fs s.
Proof.
  intros Hx Hok Hr rest Hrest. destruct (find_var_ok x _ _ _ Hok Hx) as (u & Hu & _).
  destruct (assign_var_ok x NULL _ _ _ _ Hok Hx Hu) as [Hok' Hrefs].
  change (value_ref NULL) with (∅ : gmultiset Z) in Hrefs. rewrite (right_id_L ∅ (⊎)) in Hrefs.
  assert (find_var x (fs ++ [PF]) = Some (Some u)) as Hu' by (by rewrite find_var_app, Hu).
  replace (stack_refs fs ⊎ r)
    with (value_ref u ⊎ (stack_refs (assign_var x NULL fs) ⊎ r)) in Hr by multiset_solver.
  apply (safe_dec _ _ _ _ _ _ _ _ _ _ _ _ _ Hu' Hr). intros j s2 Hj Hr2.
  eapply safe_exec; [|exact Hr2|].
  - cbn [step exec]. unfold on_frames. rewrite bind_modify. cbn [frames allocator].
    by rewrite (assign_var_app _ _ (Some u)).
  - intros i Hi Hr3. apply (Hrest eq_refl i (assign_var x NULL fs)); [lia|done|done].
Qed.

Lemma goes_P_store n p q x f y Γ fs s :
  stores = true → visible Π x Γ = Some p → visible Π y Γ = Some q → frames_ok Γ fs →
  room n s (stack_refs fs ⊎ r) → goes false n [I_hold y x; I_store x f y] Γ fs s.
Proof.
  intros Hst Hx Hy Hok Hr rest Hrest.
  destruct (find_visible y _ _ _ Hok Hy) as (v & Hv & Hinv).
  destruct (find_visible x _ _ _ Hok Hx) as (w & Hw & Hinw).
  apply (safe_hold _ _ _ _ _ _ _ _ v _ w _ _ _ _ Hst Hv Hw Hinv Hinw Hr). intros k s' Hk Hr'.
  apply (safe_store _ _ _ _ _ _ _ _ w _ _ v _ _ _ _ Hst Hv Hw Hinw Hr'). intros j Hj Hr1.
  apply (Hrest eq_refl j fs); [lia|done|done].
Qed.

(** The releases of a scope. *)
Lemma safe_release n G Γ F fs s W l :
  frames_ok (G :: Γ) (F :: fs) → room n s (frame_refs F ⊎ W) →
  (∀ k s', (k ≤ n)%nat → room k s' W →
     safe k Q (Running l ks) (mkMachine ((F :: fs) ++ [PF]) s')) →
  safe n Q (Running (release_all (dom G) ++ l) ks) (mkMachine ((F :: fs) ++ [PF]) s).
Proof.
  intros Hok Hr Hk. apply Forall2_cons in Hok as [Hf _].
  assert (∃ vs, Forall2 (λ x v, F !! x = Some (Some v)) (set_iter (dom G)) vs) as [vs Hvs].
  { assert (∀ x, x ∈ set_iter (dom G) → ∃ v, F !! x = Some (Some v)) as Hall.
    { intros x Hx%elem_of_set_iter. pose proof (frame_ok_lookup _ _ x Hf) as HF.
      apply elem_of_dom in Hx as [q Hq]. by rewrite Hq in HF. }
    clear Hk. induction (set_iter (dom G)) as [|x xs IH]; [by exists []|].
    destruct IH as [vs Hvs]; [intros; apply Hall; by right|].
    destruct (Hall x) as [v Hv]; [by left|]. exists (v :: vs). by constructor. }
  apply (safe_decs _ _ _ _ _ _ _ _ vs _ _ _ W); [| |done].
  - eapply Forall2_impl; [exact Hvs|]. intros x v Hx. simpl in *. by rewrite Hx.
  - destruct Hf as [Hdom _]. rewrite <-Hdom in Hvs. by rewrite (frame_refs_keys F vs Hvs) in Hr.
Qed.

Lemma goes_block e b n Γ fs s :
  frames_ok Γ fs → room n s (stack_refs fs ⊎ r) →
  (∀ k s, (k ≤ n)%nat → frames_ok (∅ :: Γ) (∅ :: fs) → room k s (stack_refs (∅ :: fs) ⊎ r) →
     goes e k (compile ∅ b) (after_decls b (∅ :: Γ)) (∅ :: fs) s) →
  goes e n (compile_block b) Γ fs s.
Proof.
  intros Hok Hr Hb rest Hrest. destruct (after_decls_cons b ∅ Γ) as (G' & Hafter & Hdom).
  rewrite dom_empty_L, (right_id_L ∅ (∪)) in Hdom.
  assert (stack_refs (∅ :: fs) = stack_refs fs) as E.
  { simpl. rewrite frame_refs_empty. apply (left_id_L ∅ (⊎)). }
  unfold compile_block. cbn [app]. rewrite <-!(assoc_L (++)).
  eapply safe_exec; [done|exact Hr|]. intros k Hk Hr'. change (∅ :: fs ++ [PF]) with ((∅ :: fs) ++ [PF]).
  apply Hb; [done| |by rewrite E|].
  { constructor; [|done]. split; [done|apply map_Forall_empty]. }
  intros He j fs1 s1 Hj Hok1 Hr1. rewrite Hafter in Hok1. pose proof Hok1 as Hok2.
  apply Forall2_cons_inv_l in Hok2 as (F' & fs' & Hf & Hfs & ->).
  cbn [stack_refs] in Hr1. rewrite <-(assoc_L (⊎)) in Hr1. rewrite <-Hdom.
  apply (safe_release _ _ _ _ _ _ _ _ Hok1 Hr1). intros i s2 Hi Hr2.
  eapply safe_exec; [done|exact Hr2|]. intros i' Hi' Hr3. apply Hrest; [done|lia|done|done].
Qed.

(** A [return], in the scope of all the locals. *)
Definition return_ok (n : nat) : Prop :=
  is_Some ret → ∀ k v fs s, (k < n)%nat → room k s (r ⊎ value_ref v) →
    resumes k Q (Some v) ks (mkMachine fs s).

Lemma stack_refs_none Γ fs : Forall (λ G, G = ∅) Γ → frames_ok Γ fs → stack_refs fs = ∅.
Proof.
  clear PF_ok PF_held.
  intros HΓ Hok. induction Hok as [|G F Γ fs [Hd _] _ IH]; [done|].
  apply Forall_cons in HΓ as [-> HΓ]. cbn [stack_refs]. rewrite IH by done.
  rewrite dom_empty_L in Hd. apply dom_empty_inv_L in Hd as ->. by rewrite frame_refs_empty.
Qed.

Lemma goes_P_return n p x G Γ F fs s Γ' :
  visible Π x (G :: Γ) = Some p → ret = Some p → Forall (λ G, G = ∅) Γ →
  frames_ok (G :: Γ) (F :: fs) → room n s (stack_refs (F :: fs) ⊎ r) → return_ok n →
  goes true n (return_code (dom G) x) Γ' (F :: fs) s.
Proof.
  intros Hx Hret HΓ Hok Hr Hresume rest _.
  destruct (find_visible _ _ _ _ Hok Hx) as (v & Hv & Hin).
  pose proof Hok as [_ Hfs]%Forall2_cons. cbn [stack_refs] in Hr, Hin.
  rewrite (stack_refs_none Γ fs), (right_id_L ∅ (⊎)) in Hr, Hin by done.
  unfold return_code. cbn [app]. rewrite <-(assoc_L (++)).
  apply (safe_inc _ _ _ _ _ _ _ _ _ _ _ _ _ Hv Hin Hr). intros k s1 Hk Hr1.
  rewrite <-(assoc_L (⊎)) in Hr1. apply (safe_release _ _ _ _ _ _ _ _ Hok Hr1).
  intros j s2 Hj Hr2. cbn [app]. destruct j as [|j]; [done|].
  destruct (Hresume ltac:(by rewrite Hret) j v ((F :: fs) ++ [PF]) s2) as (st & m & Hst & Hs);
    [lia|apply (room_le _ (S j)); [lia|done]|].
  eapply safe_step; [|exact Hs]. cbn [step]. by rewrite (read_step _ _ _ _ _ Hv).
Qed.

(** Conditions. *)
Lemma test_ok c Γ fs s :
  cond_ok Π c Γ → frames_ok Γ fs → ∃ b, test c (mkMachine (fs ++ [PF]) s)
                                       = Ret (b, mkMachine (fs ++ [PF]) s).
Proof.
  intros (p & Hl & Hr) Hok. destruct (find_visible _ _ _ _ Hok Hl) as (v & Hv & _).
  unfold test. setoid_rewrite (read_step _ _ _ _ _ Hv). destruct (c_right c) as [y|].
  - destruct (find_visible _ _ _ _ Hok Hr) as (u & Hu & _). eexists.
    by rewrite (read_step _ _ _ _ _ Hu).
  - by eexists.
Qed.

Lemma safe_test n c Γ fs s i l next W :
  cond_ok Π c Γ → frames_ok Γ fs → room n s W →
  (∀ b, test c (mkMachine (fs ++ [PF]) s) = Ret (b, mkMachine (fs ++ [PF]) s) →
     step size_of malloc table (Running (i :: l) ks) (mkMachine (fs ++ [PF]) s)
     = Ret (Running (next b) ks, mkMachine (fs ++ [PF]) s)) →
  (∀ k b, (k < n)%nat → room k s W →
     safe k Q (Running (next b) ks) (mkMachine (fs ++ [PF]) s)) →
  safe n Q (Running (i :: l) ks) (mkMachine (fs ++ [PF]) s).
Proof.
  intros Hc Hok Hr Hst Hk. destruct (test_ok c Γ fs s Hc Hok) as [b Hb].
  eapply safe_run; [by apply Hst|]. intros k ->. apply Hk; [lia|].
  apply (room_le _ (S k)); [lia|done].
Qed.

Lemma goes_P_if n c t Γ fs s :
  cond_ok Π c Γ → frames_ok Γ fs → room n s (stack_refs fs ⊎ r) →
  (∀ k, (k < n)%nat → room k s (stack_refs fs ⊎ r) → goes false k t Γ fs s) →
  goes false n [I_if c t] Γ fs s.
Proof.
  intros Hc Hok Hr Ht rest Hrest.
  apply (safe_test n c Γ fs s _ _ (λ b : bool, if b then t ++ rest else rest) _ Hc Hok Hr).
  - intros b Hb. cbn [step]. by rewrite (bind_step _ _ _ _ _ Hb).
  - intros k [] Hk Hr'; [apply Ht; try done|by apply Hrest; [|lia|..]].
    intros _ j fs' s' Hj. apply Hrest; [done|lia].
Qed.

Lemma goes_P_if_else e1 e2 n c t1 t2 Γ fs s :
  cond_ok Π c Γ → frames_ok Γ fs → room n s (stack_refs fs ⊎ r) →
  (∀ k, (k < n)%nat → room k s (stack_refs fs ⊎ r) →
     goes e1 k t1 Γ fs s ∧ goes e2 k t2 Γ fs s) →
  goes (e1 && e2) n [I_if_else c t1 t2] Γ fs s.
Proof.
  intros Hc Hok Hr Ht rest Hrest.
  apply (safe_test n c Γ fs s _ _ (λ b : bool, (if b then t1 else t2) ++ rest) _ Hc Hok Hr).
  - intros b Hb. cbn [step]. by rewrite (bind_step _ _ _ _ _ Hb).
  - intros k b Hk Hr'. destruct (Ht k Hk Hr') as [H1 H2].
    destruct b; [apply H1|apply H2]; intros -> j fs' s' Hj; apply Hrest;
      by rewrite ?andb_false_r || lia.
Qed.

(** A loop is safe for any number of rounds. *)
Lemma goes_P_while c t Γ n : ∀ fs s,
  cond_ok Π c Γ → frames_ok Γ fs → room n s (stack_refs fs ⊎ r) →
  (∀ k fs s, (k < n)%nat → frames_ok Γ fs → room k s (stack_refs fs ⊎ r) →
     goes false k t Γ fs s) →
  goes false n [I_while c t] Γ fs s.
Proof.
  induction n as [n IH] using lt_wf_ind. intros fs s Hc Hok Hr Ht rest Hrest.
  apply (safe_test n c Γ fs s _ _
    (λ b : bool, if b then t ++ I_while c t :: rest else rest) _ Hc Hok Hr).
  - intros b Hb. cbn [app step]. by rewrite (bind_step _ _ _ _ _ Hb).
  - intros k [] Hk Hr'; [|by apply Hrest; [|lia|..]].
    apply Ht; [done..|]. intros _ j fs1 s1 Hj Hok1 Hr1.
    apply (IH j ltac:(lia) fs1 s1 Hc Hok1 Hr1).
    + intros i fs2 s2 Hi. apply Ht. lia.
    + intros _ i fs2 s2 Hi. apply Hrest; [done|lia].
Qed.

(** Calls: the function runs, gives its result to its destination, and the arguments are
    still there. *)
Lemma safe_call n t f ys vs ps result fs s W l :
  fun_safe n f (ps, result) → length vs = length ps → values (declare_dest t fs) ys vs →
  room n s (value_refs vs ⊎ W) →
  (∀ k res s', (k ≤ n)%nat → (is_Some res ↔ is_Some result) →
     room k s' (value_refs vs ⊎ (W ⊎ result_refs res)) →
     ∃ fs2, set_dest t res (mkMachine (declare_dest t fs) s') = Ret (tt, mkMachine fs2 s') ∧
            safe k Q (Running l ks) (mkMachine fs2 s')) →
  safe n Q (Running (I_call t f ys :: l) ks) (mkMachine fs s).
Proof.
  intros (g & Hg & Hf) Hlen Hvs Hr Hk. eapply safe_run.
  - cbn [step]. rewrite (bind_step _ _ _ tt (mkMachine (declare_dest t fs) s)) by done.
    rewrite (mapM_read_step _ _ _ _ _ Hvs), Hg. done.
  - intros k ->. apply (Hf k Q _ vs s (value_refs vs ⊎ W)); [lia|done| | |].
    + apply Forall_forall. intros v Hv. clear -Hv.
      induction Hv as [v vs|v u vs _ IH]; rewrite value_refs_cons; multiset_solver.
    + apply (room_le _ (S k)); [lia|done].
    + intros j res fs' s' Hj Hres Hr'. rewrite <-(assoc_L (⊎)) in Hr'.
      destruct (Hk j res s' ltac:(lia) Hres Hr') as (fs2 & Hset & Hs).
      exists (Running l ks), (mkMachine fs2 s'). split; [|done].
      cbn [resume k_frames k_dest k_code]. unfold on_frames. rewrite bind_modify.
      by rewrite (bind_step _ _ _ _ _ Hset).
Qed.

Lemma safe_release_args n ys vs fs s W l :
  values fs ys vs → room n s (value_refs vs ⊎ W) →
  (∀ k s', (k ≤ n)%nat → room k s' W → safe k Q (Running l ks) (mkMachine fs s')) →
  safe n Q (Running ((I_dec <$> ys) ++ match ys with [] => [] | _ => [I_empty] end ++ l) ks)
    (mkMachine fs s).
Proof.
  intros Hvs Hr Hk. apply (safe_decs _ _ _ _ _ _ _ _ _ _ _ _ _ Hvs Hr). intros k s' Hle Hr'.
  destruct ys; [by apply Hk|]. cbn [app]. eapply safe_exec; [done|exact Hr'|].
  intros j Hj. apply Hk. lia.
Qed.

(** A call, once its arguments are retained: [calls] for each destination. *)
Section one_call.
Context (f : string) (ps : list ptype) (result : option ptype) (ys : list string) (vs : list Z).
Context (Hlen : length vs = length ps) (l : list instr).

Definition calls (t : dest) (n : nat) (Γ' : list (gmap string ptype)) (fs : list frame)
    (s : RC) : Prop :=
  (∀ k fs' s', (k ≤ n)%nat → frames_ok Γ' fs' → values (fs' ++ [PF]) ys vs →
     room k s' (value_refs vs ⊎ (stack_refs fs' ⊎ r)) →
     safe k Q (Running l ks) (mkMachine (fs' ++ [PF]) s')) →
  safe n Q (Running (release_dest t ++ I_call t f ys :: l) ks) (mkMachine (fs ++ [PF]) s).

Lemma calls_none n Γ fs s :
  fun_safe n f (ps, result) → result = None → frames_ok Γ fs → values (fs ++ [PF]) ys vs →
  room n s (value_refs vs ⊎ (stack_refs fs ⊎ r)) → calls To_none n Γ fs s.
Proof.
  intros Hf Hres Hok Hvs Hr Hk.
  apply (safe_call _ To_none _ _ _ _ _ (fs ++ [PF]) _ _ _ Hf Hlen Hvs Hr). intros k res s' Hle Hr' Hroom.
  destruct res as [v|]; [rewrite Hres in Hr'; by destruct (proj1 Hr' ltac:(eauto))|].
  exists (fs ++ [PF]). split; [done|]. apply Hk; [done..|].
  by replace (stack_refs fs ⊎ r) with (stack_refs fs ⊎ r ⊎ result_refs None)
    by apply (right_id_L ∅ (⊎)).
Qed.

Lemma calls_new n p x G Γ F fs s :
  fun_safe n f (ps, result) → is_Some result → undeclared x (G :: Γ) → x ∉ ys →
  frames_ok (G :: Γ) (F :: fs) → values ((F :: fs) ++ [PF]) ys vs →
  room n s (value_refs vs ⊎ (stack_refs (F :: fs) ⊎ r)) →
  calls (To_new p x) n (declare x p (G :: Γ)) (F :: fs) s.
Proof.
  intros Hf Hres Hx Hys Hok Hvs Hr Hk.
  assert (∀ u, values (declare_var x u (F :: fs) ++ [PF]) ys vs) as Hvs'.
  { intros u. refine (values_others x _ _ _ _ Hys _ Hvs). intros y Hxy. simpl.
    by rewrite lookup_insert_ne. }
  apply (safe_call _ (To_new p x) _ _ _ _ _ ((F :: fs) ++ [PF]) _ _ _ Hf Hlen (Hvs' None) Hr).
  intros k res s' Hle Hr' Hroom.
  destruct res as [v|]; [|by destruct (proj2 Hr' Hres)].
  exists (declare_var x (Some v) (F :: fs) ++ [PF]). split.
  - cbn [set_dest declare_dest app declare_var]. unfold on_frames, modify. cbn [frames allocator].
    by rewrite assign_declared.
  - apply Hk; [done|by apply frames_ok_declare|done|].
    rewrite (stack_refs_declare G Γ) by done. change (result_refs (Some v)) with (value_ref v) in Hroom.
    by replace (stack_refs (F :: fs) ⊎ value_ref v ⊎ r)
      with (stack_refs (F :: fs) ⊎ r ⊎ value_ref v) by multiset_solver.
Qed.

Lemma calls_var n p x Γ fs s :
  fun_safe n f (ps, result) → is_Some result → type_of x Γ = Some p → x ∉ ys →
  frames_ok Γ fs → values (fs ++ [PF]) ys vs →
  room n s (value_refs vs ⊎ (stack_refs fs ⊎ r)) → calls (To_var x) n Γ fs s.
Proof.
  intros Hf Hres Hx Hys Hok Hvs Hr Hk. destruct (find_var_ok x _ _ _ Hok Hx) as (u & Hu & Hin).
  assert (find_var x (fs ++ [PF]) = Some (Some u)) as Hu' by (by rewrite find_var_app, Hu).
  set (rest := stack_refs fs ∖ value_ref u).
  assert (stack_refs fs = value_ref u ⊎ rest) as Hrest
    by (by apply gmultiset_disj_union_difference).
  replace (value_refs vs ⊎ (stack_refs fs ⊎ r))
    with (value_ref u ⊎ (value_refs vs ⊎ (rest ⊎ r))) in Hr
    by (rewrite Hrest; multiset_solver).
  apply (safe_dec _ _ _ _ _ _ _ _ _ _ _ _ _ Hu' Hr). intros k s1 Hle Hr1.
  assert (fun_safe k f (ps, result)) as Hf' by (by eapply fun_safe_le).
  apply (safe_call _ (To_var x) _ _ _ _ _ (fs ++ [PF]) _ _ _ Hf' Hlen Hvs Hr1). intros j res s2 Hj Hr' Hroom.
  destruct res as [v|]; [|by destruct (proj2 Hr' Hres)].
  destruct (assign_var_ok x v _ _ _ _ Hok Hx Hu) as [Hok' Hrefs]. rewrite Hrest in Hrefs.
  exists (assign_var x v fs ++ [PF]). split.
  - cbn [set_dest declare_dest]. unfold on_frames, modify. cbn [frames allocator].
    by rewrite (assign_var_app _ _ (Some u)).
  - apply Hk; [lia|done| |].
    + refine (values_others x _ _ _ _ Hys _ Hvs). intros y Hxy.
      rewrite !find_var_app. by rewrite find_assign_ne.
    + change (result_refs (Some v)) with (value_ref v) in Hroom.
      by replace (stack_refs (assign_var x v fs) ⊎ r) with (rest ⊎ r ⊎ value_ref v)
        by multiset_solver.
Qed.

Lemma calls_to n t G Γ F fs s :
  fun_safe n f (ps, result) → dest_ok ts t result ys (G :: Γ) → frames_ok (G :: Γ) (F :: fs) →
  values ((F :: fs) ++ [PF]) ys vs → room n s (value_refs vs ⊎ (stack_refs (F :: fs) ⊎ r)) →
  calls t n (dest_declare t (G :: Γ)) (F :: fs) s.
Proof.
  intros Hf Hd Hok Hvs Hr. destruct t as [|p x|x].
  - apply calls_none; try done. clear -Hd. by destruct result.
  - assert (is_Some result ∧ undeclared x (G :: Γ) ∧ x ∉ ys) as (? & ? & ?).
    { clear -Hd. destruct result; [|done]. split; [done|]. by destruct Hd as (_ & _ & _ & ?). }
    by apply calls_new.
  - assert (is_Some result ∧ ∃ q, type_of x (G :: Γ) = Some q ∧ x ∉ ys) as (? & q & ? & ?).
    { clear -Hd. destruct result; [|done]. split; [done|]. by eexists. }
    by eapply calls_var.
Qed.
End one_call.

Lemma goes_P_call n t f ys ps result G Γ F fs s :
  fun_safe n f (ps, result) → Forall2 (λ y p, visible Π y (G :: Γ) = Some p) ys ps →
  dest_ok ts t result ys (G :: Γ) → frames_ok (G :: Γ) (F :: fs) →
  room n s (stack_refs (F :: fs) ⊎ r) →
  goes false n (call_code t f ys) (dest_declare t (G :: Γ)) (F :: fs) s.
Proof.
  intros Hf Hys Hd Hok Hr rest Hrest.
  destruct (values_visible _ _ _ _ Hok Hys) as (vs & Hvs & Hin).
  assert (length vs = length ps) as Hlen
    by (by rewrite <-(Forall2_length _ _ _ Hvs), (Forall2_length _ _ _ Hys)).
  unfold call_code. rewrite <-!(assoc_L (++)). cbn [app]. rewrite <-(assoc_L (++)).
  apply (safe_incs _ _ _ _ _ _ _ _ _ _ _ _ _ Hvs Hin Hr). intros k s1 Hk Hr1.
  rewrite (comm_L (⊎)) in Hr1.
  apply (calls_to f ps result ys vs Hlen _ k t G Γ F fs s1); try done; [by eapply fun_safe_le|].
  intros j fs' s2 Hj Hok' Hvs' Hr2. apply (safe_release_args _ _ _ _ _ _ _ Hvs' Hr2).
  intros i s3 Hi Hr3. apply (Hrest eq_refl i fs'); [lia|done|done].
Qed.

(** Allocation. *)
Context (malloc_fresh : ∀ s, 0 < malloc_result (malloc s) ∧
                             rc_heap s !! malloc_result (malloc s) = None).

Lemma goes_P_new n p x G Γ F fs s :
  undeclared x (G :: Γ) → frames_ok (G :: Γ) (F :: fs) → room n s (stack_refs (F :: fs) ⊎ r) →
  goes false n [I_alloc p x] (declare x p (G :: Γ)) (F :: fs) s.
Proof.
  intros Hx Hok Hr rest Hrest. destruct n as [|n]; [done|].
  destruct (malloc_fresh s) as [Hp Hfresh].
  destruct (room_alloc stores n s _ (malloc s) (size_of (pt_elem p)) (conj Hp Hfresh) Hr)
    as (s' & Hret & Hr').
  unfold perform in Hret. rewrite (bind_step _ _ _ _ _ (rc_alloc_result _ _ _ Hp)) in Hret.
  injection Hret as <-. set (v := malloc_result (malloc s) + sizeof_RefcountHeader) in *.
  eapply (safe_step _ _ _ _ _ _ _ _ _ _ (mkMachine (declare_var x (Some v) (F :: fs) ++ [PF]) _)).
  - cbn [step exec app]. erewrite (bind_step _ _ _ tt); [done|].
    unfold mbind, stM_bind, gets, on_allocator. cbn [allocator frames].
    rewrite (rc_alloc_result _ _ _ Hp). reflexivity.
  - apply Hrest; [done|lia|by apply frames_ok_declare|].
    rewrite (stack_refs_declare G Γ) by done.
    assert (value_ref v = {[+ malloc_result (malloc s) +]}) as ->.
    { unfold value_ref, ref, v. rewrite header_of_add, decide_False; [done|].
      unfold NULL, sizeof_RefcountHeader. lia. }
    by replace (stack_refs (F :: fs) ⊎ {[+ malloc_result (malloc s) +]} ⊎ r)
      with (stack_refs (F :: fs) ⊎ r ⊎ {[+ malloc_result (malloc s) +]}) by multiset_solver.
Qed.

(** What the code around a fragment has to be, for less than [n] steps: it takes the result of
    a [return], and the functions that are called are safe. *)
Definition around_ok (n : nat) : Prop :=
  return_ok n ∧ ∀ f sig, sigs !! f = Some sig → fun_safe n f sig.

Lemma around_ok_le n n' : (n' ≤ n)%nat → around_ok n → around_ok n'.
Proof.
  intros Hn [Hr Hf]. split; [|intros; eapply fun_safe_le; eauto].
  intros Hs k v fs s Hk. apply Hr; [done|lia].
Qed.

Definition code_goes (c : pcode) : Prop := ∀ n G Γ F fs s,
  wf ts sigs Π ret (G :: Γ) c → initialised c = true → stores_ok stores c = true →
  frames_ok (G :: Γ) (F :: fs) →
  room n s (stack_refs (F :: fs) ⊎ r) → around_ok n →
  goes (returns c) n (compile (dom G) c) (after_decls c (G :: Γ)) (F :: fs) s.

(** One statement, then the rest. *)
Lemma goes_then l k n G' Γ F fs s :
  code_goes k → wf ts sigs Π ret (G' :: Γ) k → initialised k = true → stores_ok stores k = true →
  around_ok n →
  goes false n l (G' :: Γ) (F :: fs) s →
  goes (returns k) n (l ++ compile (dom G') k) (after_decls k (G' :: Γ)) (F :: fs) s.
Proof.
  intros Hk Hwf Hi Hst Ha Hl. apply (goes_app _ _ _ _ (G' :: Γ)); [done|]. intros j fs1 s1 Hj Hok1 Hr1.
  pose proof Hok1 as Hok2. apply Forall2_cons_inv_l in Hok2 as (F1 & fs1' & ? & ? & ->).
  apply Hk; try done. by apply (around_ok_le n).
Qed.

Lemma goes_code_block b n Γ fs s :
  code_goes b → wf ts sigs Π ret (∅ :: Γ) b → initialised b = true → stores_ok stores b = true →
  frames_ok Γ fs →
  room n s (stack_refs fs ⊎ r) → around_ok n →
  goes (returns b) n (compile_block b) Γ fs s.
Proof.
  intros Hb Hwf Hi Hst Hok Hr Ha. apply goes_block; [done|done|]. intros k s' Hk Hok' Hr'.
  rewrite <-(dom_empty_L (K:=string) (A:=ptype) (D:=gset string)).
  apply Hb; try done. by apply (around_ok_le n).
Qed.

Lemma goes_compile c : code_goes c.
Proof.
  induction c as [|p x k IH|p x k IH|p x k IH|p x y k IH|x y k IH|x k IH|x f y k IH|t f ys k IH|b IHb k IH
                  |c b IHb k IH|c b IHb e IHe k IH|c b IHb k IH|x k IH];
    intros n G Γ F fs s Hwf Hi Hst Hok Hr Ha;
    cbn [compile wf initialised stores_ok returns after_decls] in *; rewrite ?declare_cons in *.
  - intros rest Hrest. by apply (Hrest eq_refl n (F :: fs)).
  - done.
  - destruct Hwf as (_ & _ & Hx & Hk). rewrite <-(dom_insert_L G x p).
    apply (goes_then [I_alloc p x]); try done. rewrite <-declare_cons. by apply goes_P_new.
  - destruct Hwf as (_ & _ & Hx & Hk). rewrite <-(dom_insert_L G x p).
    apply (goes_then [I_null p x]); try done. rewrite <-declare_cons. by apply goes_P_null.
  - destruct Hwf as (_ & _ & Hx & Hxy & Hy & Hk). rewrite <-(dom_insert_L G x p).
    apply (goes_then [I_inc y; I_copy p x y]); try done. rewrite <-declare_cons. by apply goes_P_copy.
  - destruct Hwf as [(p & Hx & Hy) Hk].
    apply (goes_then [I_inc y; I_dec x; I_assign x y]); try done. by eapply goes_P_assign.
  - destruct Hwf as [[p Hx] Hk].
    apply (goes_then [I_dec x; I_clear x]); try done. by eapply goes_P_clear.
  - destruct Hwf as [(p & q & Hx & Hy & _) (_ & _ & Hk)]. apply andb_prop in Hst as [Hst Hsk].
    apply (goes_then [I_hold y x; I_store x f y]); try done. by eapply goes_P_store.
  - destruct Hwf as [(ps & result & HF & _ & _ & Hys & Hd) Hk].
    destruct (dest_declare_cons t G Γ) as (G' & E & D). rewrite <-D, E in *.
    apply (goes_then (call_code t f ys)); try done. rewrite <-E.
    eapply goes_P_call; try done. by apply Ha.
  - destruct Hwf as [Hb Hk]. apply andb_prop in Hi as [Hib Hik].
    apply andb_prop in Hst as [Hsb Hsk].
    pose proof (goes_code_block b n (G :: Γ) (F :: fs) s IHb Hb Hib Hsb Hok Hr Ha) as Hblock.
    change (I_open :: ?l ++ ?r ++ ?e) with (compile_block b).
    destruct (returns b); [by apply (goes_stop _ _ _ _ (G :: Γ))|by apply goes_then].
  - destruct Hwf as (Hc & Hb & Hk). apply andb_prop in Hi as [Hib Hik].
    apply andb_prop in Hst as [Hsb Hsk].
    apply (goes_then [I_if c (compile_block b)]); try done. apply goes_P_if; try done.
    intros j Hj Hr'. eapply goes_weaken, goes_code_block; try done.
    apply (around_ok_le n); [lia|done].
  - destruct Hwf as (Hc & Hb & He & Hk). apply andb_prop in Hi as [[Hib Hie]%andb_prop Hik].
    apply andb_prop in Hst as [[Hsb Hse]%andb_prop Hsk].
    assert (goes (returns b && returns e) n [I_if_else c (compile_block b) (compile_block e)]
              (G :: Γ) (F :: fs) s) as Hif.
    { apply goes_P_if_else; try done. intros j Hj Hr'.
      assert (around_ok j) by (apply (around_ok_le n); [lia|done]).
      split; by apply goes_code_block. }
    change (I_if_else ?c ?t ?e :: ?l) with ([I_if_else c t e] ++ l).
    destruct (returns b && returns e); [by apply (goes_stop _ _ _ _ (G :: Γ))|by apply goes_then].
  - destruct Hwf as (Hc & Hb & Hk). apply andb_prop in Hi as [Hib Hik].
    apply andb_prop in Hst as [Hsb Hsk].
    apply (goes_then [I_while c (compile_block b)]); try done. apply goes_P_while; try done.
    intros j fs' s' Hj Hok' Hr'. pose proof Hok' as Hok2.
    apply Forall2_cons_inv_l in Hok2 as (F1 & fs1 & _ & _ & ->).
    eapply goes_weaken, goes_code_block; try done. apply (around_ok_le n); [lia|done].
  - destruct Hwf as [(p & Hx & Hp) [HΓ Hk]].
    apply (goes_stop _ _ _ _ (G :: Γ)). eapply goes_P_return; try done. apply Ha.
Qed.
End fragment.
End machine.
