(* ===== verification/PointerProps.v ===== *)
(** Pointer blocks: the code of a block without loops ends, and a block that follows the rules
    manages its memory correctly, from its source to the heap. *)
From S2P Require Import Prelude Errors CppString Types TypeSystem SymbolTable.
From S2P Require Import CodeGenerator Syntax Visitor Transpile Static StmtProps.
From S2P Require Import Allocator RefCount RefCountProps RefCountClient.
From S2P Require Import PointerCode PointerVisit PointerMachine CodeSafety.
From stdpp Require Import gmultiset relations.
#[local] Open Scope Z_scope.

(** ** Code without loops ends *)

(** The steps of a code, at most, given those of the functions: none is known for a loop. *)
Section cost.
Context (C : gmap string nat).

Section list_cost.
Context (cost : instr → option nat).
Fixpoint list_cost (l : list instr) : option nat :=
  match l with
  | [] => Some 0%nat
  | i :: l => a ← cost i; b ← list_cost l; Some (a + b)%nat
  end.
End list_cost.
Fixpoint instr_cost (i : instr) : option nat :=
  match i with
  | I_if _ t => S <$> list_cost instr_cost t
  | I_if_else _ t e =>
      a ← list_cost instr_cost t; b ← list_cost instr_cost e; Some (S (a + b))
  | I_while _ _ => None
  | I_call _ f _ => (λ a, S (S a)) <$> C !! f
  | _ => Some 1%nat
  end.
Abbreviation code_cost := (list_cost instr_cost).
Fixpoint conts_cost (ks : list cont) : option nat :=
  match ks with
  | [] => Some 0%nat
  | k :: ks => a ← code_cost (k_code k); b ← conts_cost ks; Some (S (a + b))
  end.
Definition status_cost (st : status) : option nat :=
  match st with
  | Halted _ => Some 0%nat
  | Running l ks => a ← code_cost l; b ← conts_cost ks; Some (S (a + b))
  end.

Lemma cost_bind (o : option nat) (f : nat → option nat) k :
  (a ← o; f a) = Some k ↔ ∃ a, o = Some a ∧ f a = Some k.
Proof. destruct o; simpl; naive_solver. Qed.

Lemma code_cost_app l1 l2 :
  code_cost (l1 ++ l2) = (a ← code_cost l1; b ← code_cost l2; Some (a + b)%nat).
Proof.
  induction l1 as [|i l1 IH]; cbn [app list_cost]; [by destruct (code_cost l2)|]. rewrite IH.
  destruct (instr_cost i), (code_cost l1), (code_cost l2); simpl; try done. f_equal. lia.
Qed.

Section ends.
Context (size_of : Ty → Z) (malloc : RC → Env) (table : list cfun).
Context (table_cost : ∀ f g k, find_fun f table = Some g → C !! f = Some k →
                        code_cost (cf_code g) = Some k).

Lemma resume_cost res ks m st m' n :
  conts_cost ks = Some n → resume res ks m = Ret (st, m') →
  ∃ k, status_cost st = Some k ∧ (k ≤ n)%nat.
Proof.
  destruct ks as [|k ks]; cbn [conts_cost resume].
  - intros [= <-] [= <- <-]. by exists 0%nat.
  - intros Hn (? & m1 & _ & Hr)%stM_bind_Ret. apply stM_bind_Ret in Hr as (? & m2 & _ & [= <- <-]).
    exists n. by split.
Qed.

(** Every step leaves fewer. *)
Lemma step_cost l ks m st m' n :
  status_cost (Running l ks) = Some n → step size_of malloc table (Running l ks) m = Ret (st, m') →
  ∃ k, status_cost st = Some k ∧ (k < n)%nat.
Proof.
  cbn [status_cost]. intros (a & Ha & (b & Hb & [= <-])%cost_bind)%cost_bind Hst.
  assert (∀ l', (∃ k, code_cost l' = Some k ∧ k < a)%nat →
    ∃ k, status_cost (Running l' ks) = Some k ∧ (k < S (a + b))%nat) as Hgo.
  { intros l' (k & Hk & Hlt). exists (S (k + b)). cbn [status_cost]. rewrite Hk, Hb. split; [done|lia]. }
  destruct l as [|i l]; cbn [list_cost step] in *.
  { destruct (resume_cost _ _ _ _ _ _ Hb Hst) as (k & Hk & Hle). exists k. split; [done|lia]. }
  apply cost_bind in Ha as (ai & Hi & (al & Hl & [= <-])%cost_bind).
  destruct i; cbn [instr_cost] in Hi;
    try (injection Hi as <-; apply stM_bind_Ret in Hst as (? & m1 & _ & [= <- <-]);
         apply Hgo; exists al; split; [done|lia]).
  - apply fmap_Some in Hi as (af & Hf & ->).
    apply stM_bind_Ret in Hst as (? & m1 & _ & Hst).
    apply stM_bind_Ret in Hst as (? & m2 & _ & Hst).
    destruct (find_fun _ _) as [g|] eqn:Hg; [|done].
    apply stM_bind_Ret in Hst as (? & m3 & _ & Hst).
    apply stM_bind_Ret in Hst as (? & m4 & _ & [= <- <-]).
    eexists. cbn [status_cost conts_cost k_code]. rewrite (table_cost _ _ _ Hg Hf), Hl, Hb.
    split; [done|]. lia.
  - apply fmap_Some in Hi as (at' & Ht & ->). apply stM_bind_Ret in Hst as (x & m1 & _ & [= <- <-]).
    apply Hgo. destruct x; [|exists al; split; [done|lia]].
    exists (at' + al)%nat. rewrite code_cost_app, Ht, Hl. split; [done|lia].
  - apply cost_bind in Hi as (at' & Ht & (ae & He & [= <-])%cost_bind).
    apply stM_bind_Ret in Hst as (x & m1 & _ & [= <- <-]).
    apply Hgo. destruct x; [exists (at' + al)%nat|exists (ae + al)%nat];
      rewrite code_cost_app, ?Ht, ?He, Hl; (split; [done|lia]).
  - done.
  - apply stM_bind_Ret in Hst as (v & m1 & _ & Hst).
    destruct (resume_cost _ _ _ _ _ _ Hb Hst) as (k & Hk & Hle). exists k. split; [done|lia].
Qed.

Lemma steps_end n : ∀ st m st' m' k,
  status_cost st = Some k → (k ≤ n)%nat → steps size_of malloc table n st m = Ret (st', m') →
  ∃ r, st' = Halted r.
Proof.
  induction n as [|n IH]; intros st m st' m' k Hk Hn Hst.
  - destruct st as [l ks|r]; [|injection Hst as <- <-; eauto].
    apply cost_bind in Hk as (a & _ & (b & _ & [= <-])%cost_bind). lia.
  - destruct st as [l ks|r].
    + apply stM_bind_Ret in Hst as (st1 & m1 & H1 & Hst).
      destruct (step_cost _ _ _ _ _ _ Hk H1) as (k1 & Hk1 & Hlt).
      apply (IH st1 m1 st' m' k1 Hk1); [lia|done].
    + rewrite steps_halted in Hst. injection Hst as <- <-. eauto.
Qed.
End ends.
End cost.
Abbreviation code_cost C := (list_cost (instr_cost C)).

(** The instructions an instruction is made of. *)
Definition parts (i : instr) : list instr :=
  match i with
  | I_if _ t | I_while _ t => t
  | I_if_else _ t e => t ++ e
  | _ => []
  end.
Lemma instr_nested_ind (P : instr → Prop) :
  (∀ i, Forall P (parts i) → P i) → ∀ i, P i.
Proof.
  intros HP. fix IH 1. intros i. apply HP. destruct i; cbn [parts]; try constructor.
  - induction t; constructor; auto.
  - apply Forall_app. split; [induction t|induction e]; constructor; auto.
  - induction b; constructor; auto.
Qed.

Lemma list_cost_mono C C' l k :
  Forall (λ i, ∀ k, instr_cost C i = Some k → instr_cost C' i = Some k) l →
  code_cost C l = Some k → code_cost C' l = Some k.
Proof.
  intros Hl. revert k. induction Hl as [|i l Hi _ IH]; intros k; [done|]. cbn [list_cost].
  intros (a & Ha & (b & Hb & <-)%cost_bind)%cost_bind. by rewrite (Hi a), (IH b).
Qed.
(** More functions known, no code more expensive. *)
Lemma code_cost_mono C C' l k : C ⊆ C' → code_cost C l = Some k → code_cost C' l = Some k.
Proof.
  intros HC. apply list_cost_mono, Forall_forall. intros i _. clear l k. revert i.
  apply (instr_nested_ind (λ i, ∀ k, instr_cost C i = Some k → instr_cost C' i = Some k)).
  intros i Hi k. destruct i; cbn [instr_cost parts] in *; try done.
  - intros (a & Hf & ->)%fmap_Some. by rewrite (lookup_weaken _ _ _ _ Hf HC).
  - intros (a & Ht & ->)%fmap_Some. by rewrite (list_cost_mono _ _ _ _ Hi Ht).
  - apply Forall_app in Hi as [H1 H2]. intros (a & Ht & (b & He & <-)%cost_bind)%cost_bind.
    by rewrite (list_cost_mono _ _ _ _ H1 Ht), (list_cost_mono _ _ _ _ H2 He).
Qed.

(** A fragment without loops that calls functions of [fs]. *)
Fixpoint straight (fs : gset string) (c : pcode) : bool :=
  match c with
  | P_nil => true
  | P_decl _ _ k | P_new _ _ k | P_null _ _ k | P_copy _ _ _ k | P_assign _ _ k | P_clear _ k
  | P_store _ _ _ k | P_return _ k => straight fs k
  | P_call _ f _ k => bool_decide (f ∈ fs) && straight fs k
  | P_block b k | P_if _ b k => straight fs b && straight fs k
  | P_if_else _ b e k => straight fs b && straight fs e && straight fs k
  | P_while _ _ _ => false
  end.

(** The code of a fragment without loops has a bound on its steps. *)
Section bounded.
Context (C : gmap string nat).
Definition bounded (l : list instr) : Prop := is_Some (code_cost C l).

Lemma bounded_app l1 l2 : bounded l1 → bounded l2 → bounded (l1 ++ l2).
Proof.
  intros [a Ha] [b Hb]. unfold bounded. rewrite code_cost_app, Ha, Hb. by eexists.
Qed.
Lemma bounded_cons i l : is_Some (instr_cost C i) → bounded l → bounded (i :: l).
Proof. intros [a Ha] [b Hb]. unfold bounded. cbn [list_cost]. rewrite Ha, Hb. by eexists. Qed.
Lemma bounded_simple i l : instr_cost C i = Some 1%nat → bounded l → bounded (i :: l).
Proof. intros Hi. apply bounded_cons. rewrite Hi. by eexists. Qed.
Lemma bounded_map (f : string → instr) xs :
  (∀ x, instr_cost C (f x) = Some 1%nat) → bounded (f <$> xs).
Proof.
  intros Hf. induction xs as [|x xs IH]; [by eexists|]. by apply bounded_simple.
Qed.
Lemma bounded_block xs b :
  bounded (compile ∅ b) → bounded (I_open :: compile ∅ b ++ release_all xs ++ [I_close]).
Proof.
  intros Hb. apply bounded_simple; [done|]. apply bounded_app; [done|].
  apply bounded_app; [by apply bounded_map|by eexists].
Qed.

Lemma straight_bounded fs c : ∀ xs,
  straight fs c = true → fs ⊆ dom C → bounded (compile xs c).
Proof.
  induction c as [|p x k IH|p x k IH|p x k IH|p x y k IH|x y k IH|x k IH|x f y k IH|t f ys k IH|b IHb k IH
                  |c b IHb k IH|c b IHb e IHe k IH|c b IHb k IH|x k IH];
    intros xs Hs Hfs; cbn [straight compile] in *;
    try (repeat (apply bounded_simple; [done|]); by apply IH).
  - by eexists.
  - apply andb_prop in Hs as [Hf%bool_decide_eq_true Hk]. apply bounded_app; [|by apply IH].
    assert (is_Some (C !! f)) as [k' Hk'] by (apply elem_of_dom; by apply Hfs).
    unfold call_code. apply bounded_app; [by apply bounded_map|].
    apply bounded_app; [destruct t; by eexists|].
    apply bounded_cons; [cbn [instr_cost]; rewrite Hk'; by eexists|].
    apply bounded_app; [by apply bounded_map|]. destruct ys; by eexists.
  - apply andb_prop in Hs as [Hb Hk].
    change (I_open :: ?a ++ ?r ++ ?e) with (compile_block b).
    apply bounded_app; [|by apply IH]. apply bounded_block. by apply IHb.
  - apply andb_prop in Hs as [Hb Hk]. apply bounded_cons; [|by apply IH].
    destruct (bounded_block (declared b) b (IHb ∅ Hb Hfs)) as [a Ha].
    cbn [instr_cost]. rewrite Ha. by eexists.
  - apply andb_prop in Hs as [[Hb He]%andb_prop Hk]. apply bounded_cons; [|by apply IH].
    destruct (bounded_block (declared b) b (IHb ∅ Hb Hfs)) as [a Ha].
    destruct (bounded_block (declared e) e (IHe ∅ He Hfs)) as [a' Ha'].
    cbn [instr_cost]. rewrite Ha, Ha'. by eexists.
  - apply bounded_app; [|by apply IH]. unfold return_code. apply bounded_simple; [done|].
    apply bounded_app; [by apply bounded_map|by eexists].
Qed.

Lemma straight_block_cost fs b :
  straight fs b = true → fs ⊆ dom C → bounded (compile_block b).
Proof. intros Hs Hfs. apply bounded_block. by eapply straight_bounded. Qed.
End bounded.

(** Whether a fragment assigns to fields. *)
Definition storing (c : pcode) : bool := negb (stores_ok false c).
Lemma stores_ok_storing c : stores_ok (storing c) c = true.
Proof. unfold storing. destruct (stores_ok false c) eqn:E; [done|apply stores_ok_true]. Qed.

(** C15. Compiled pointer blocks manage their memory correctly.  In the second pass the visitor
    translates a block that allocates objects, copies, assigns and clears pointers, stores them in
    structs, and nests blocks, [if]s and [while]s to the text of its code.  When every pointer of
    the block is given a value where it is declared, that code, run on a counting allocator in
    good state whose counts have room for the steps, and while [malloc] succeeds with addresses
    not in use, goes wrong only where it assigns to a field through a null pointer, however many
    steps it is given: it touches no freed block.  If it ends, it leaves
    the allocator in good state for exactly the references held before it, and for those it
    stored where there was no room: without assignments to fields, every reference the block
    took is given back once, and no other.  A block without loops ends. *)
Theorem pointer_block_correct size_of malloc s0 b :
  m_first_pass s0 = false → addRefCounts s0 = true →
  (∀ x v, lookupSymbol x (m_symbolTable s0) = Some v → var_name x = true) →
  wf (m_typeSystem s0) ∅ ∅ None [∅] b → initialised b = true →
  (∀ s, 0 < malloc_result (malloc s) ∧ rc_heap s !! malloc_result (malloc s) = None) →
  let code := compile_block b in
  let run n s := steps size_of malloc [] n (Running code []) (mkMachine [∅] s) in
  visit_stmt (CG:=CRef) (S_block (source b)) s0
  = Ret (tt, set_output (m_output s0 +:+ print (length (scopes (m_symbolTable s0))) code) s0) ∧
  (∀ n s r, room (storing b) n s r →
     (∃ st m', run n s = Ret (st, m') ∧
        (∀ res, st = Halted res →
           res = None ∧ frames m' = [∅] ∧ settled (storing b) (allocator m') r) ∧
        (straight ∅ b = true → ∃ k, code_cost ∅ code = Some k ∧ ((k < n)%nat → st = Halted None))) ∨
     (storing b = true ∧ run n s = Crash NullDeref)).
Proof.
  intros Hpass Hadd Hnames Hwf Hi Hm code run.
  split; [by apply (visit_pointer_block (m_typeSystem s0) ∅ ∅ None); auto|].
  intros n s r Hr.
  set (Q := λ (res : option Z) m, res = None ∧ frames m = [∅] ∧ settled (storing b) (allocator m) r).
  assert (stack_refs [] ⊎ r = r) as E0 by apply (left_id_L ∅ (⊎)).
  assert (safe size_of malloc [] (storing b) n Q (Running (code ++ []) []) (mkMachine ([] ++ [∅]) s))
    as Hs.
  { apply (goes_code_block size_of malloc [] (storing b) Q [] (m_typeSystem s0) ∅ None ∅ ∅ r)
      with (Γ := []); try done; try by constructor.
    - by apply goes_compile.
    - apply stores_ok_storing.
    - by rewrite E0.
    - split; [by intros []|]. by intros f sig []%lookup_empty_Some.
    - intros _ k fs' s' Hk Hfs Hr'. apply Forall2_nil_inv_l in Hfs as ->. rewrite E0 in Hr'.
      eapply safe_run; [done|]. intros j ->. apply room_settled in Hr'.
      assert (Q None (mkMachine [∅] s')) by done. by destruct j. }
  rewrite app_nil_r in Hs. destruct (safe_steps _ _ _ _ _ _ _ _ Hs) as [(st & m' & H & HQ)|H];
    [left|by right].
  exists st, m'. split; [exact H|]. split; [exact HQ|]. intros Hs'.
  destruct (straight_block_cost ∅ ∅ b Hs' ltac:(done)) as [k Hk]. exists k. split; [done|]. intros Hlt.
  destruct (steps_end ∅ size_of malloc [] ltac:(done) n (Running code []) _ st m' (S (k + 0))
    ltac:(unfold code, status_cost; by rewrite Hk) ltac:(lia) H) as [res ->].
  by destruct (HQ res eq_refl) as [-> _].
Qed.

(** An address above all those in use. *)
Definition next_address (s : RC) : Z := 1 + foldr Z.max 0 (map_to_list (rc_heap s)).*1.
Definition bump_malloc (s : RC) : Env := mkEnv (next_address s) 0.

Lemma foldr_max_le l x : x ∈ l → x <= foldr Z.max 0 l.
Proof. induction 1; simpl; lia. Qed.
Lemma foldr_max_nonneg l : 0 <= foldr Z.max 0 l.
Proof. induction l; simpl; lia. Qed.

Lemma bump_malloc_fresh s :
  0 < malloc_result (bump_malloc s) ∧ rc_heap s !! malloc_result (bump_malloc s) = None.
Proof.
  cbn [bump_malloc malloc_result]. unfold next_address. split.
  - pose proof (foldr_max_nonneg (map_to_list (rc_heap s)).*1). lia.
  - destruct (rc_heap s !! _) as [hd|] eqn:E; [|done]. exfalso.
    apply elem_of_map_to_list, (list_elem_of_fmap_2 fst), foldr_max_le in E. simpl in E. lia.
Qed.

(** [int], and a block with a copy, an assignment, a nested block, and a loop that ends when
    its variable is cleared. *)
Definition int_type : ptype := mkPtype TS_int (Type_base BInt) (setPointer true (Type_base BInt)).
Definition sample_block : pcode :=
  P_new int_type "a" (P_copy int_type "b" "a"
    (P_block (P_new int_type "c" (P_assign "b" "c" P_nil))
      (P_while (mkCond "a" false None)
         (P_if_else (mkCond "a" true (Some "b")) (P_clear "a" P_nil) (P_assign "a" "b" P_nil) P_nil)
         P_nil))).

Lemma int_type_good : good_type TypeSystem_default int_type.
Proof.
  split; [| |done|done]; intros [st ts' fp o n a c] _;
    vm_compute; reflexivity.
Qed.

(** Discharges the static rules on a concrete fragment, given its types and fields. *)
Ltac check_rules :=
  cbn [wf source declare dest_declare dest_ok fst snd tail];
  repeat first
    [ exact I
    | exact int_type_good
    | assumption
    | reflexivity
    | discriminate
    | apply (bool_decide_unpack _); vm_compute; exact I
    | split
    | eexists _, _; split; [vm_compute; reflexivity|]
    | eexists; split; vm_compute; reflexivity
    | exists int_type
    | eexists _, _; split; [vm_compute; reflexivity|split; [vm_compute; reflexivity|assumption]]
    | constructor
    | vm_compute; reflexivity ].

Lemma sample_block_wf : wf TypeSystem_default ∅ ∅ None [∅] sample_block.
Proof. unfold sample_block. check_rules. Qed.

Lemma room_start stores n : Z.of_nat n <= LLONG_MAX → room stores n client_start.1 ∅.
Proof. intros Hn. exists 0%nat. split; [apply client_settled, client_start_ok|exact Hn]. Qed.

Lemma pointer_block_correct_witness :
  ∃ m', steps (λ _, 4) bump_malloc [] 60 (Running (compile_block sample_block) [])
          (mkMachine [∅] client_start.1)
        = Ret (Halted None, m') ∧ rc_heap (allocator m') = ∅.
Proof.
  destruct (pointer_block_correct (λ _, 4) bump_malloc (start false) sample_block)
    as (_ & H).
  - reflexivity.
  - reflexivity.
  - intros x v Hl. vm_compute in Hl. discriminate Hl.
  - exact sample_block_wf.
  - reflexivity.
  - exact bump_malloc_fresh.
  - destruct (H 60%nat client_start.1 ∅) as [(st & m' & E & Hend & _)|[[=] _]].
    { apply room_start. vm_compute. discriminate. }
    destruct st as [l ks|res]; [exfalso; vm_compute in E; discriminate E|].
    destruct (Hend res eq_refl) as (-> & _ & k & Hc).
    exists m'. split; [exact E|]. apply (client_ok_empty k), settled_client. exact Hc.
Defined.

(** C21. A pointer declared without a value.  For every pointer type and name the visitor translates
    [{ T* x; }] to a declaration without initialiser and a release at the end of the block; run
    in any frame and any state of the allocator, that code hands the runtime an indeterminate
    pointer.  So the rule that pointers are initialised cannot be dropped. *)
Theorem uninitialised_release size_of malloc table ks s0 p x fs s :
  m_first_pass s0 = false → addRefCounts s0 = true →
  (∀ x v, lookupSymbol x (m_symbolTable s0) = Some v → var_name x = true) →
  good_type (m_typeSystem s0) p → var_name x = true →
  let code := compile_block (P_decl p x P_nil) in
  visit_stmt (CG:=CRef) (S_block [pointer_decl p x None]) s0
  = Ret (tt, set_output (m_output s0 +:+ print (length (scopes (m_symbolTable s0))) code) s0) ∧
  steps size_of malloc table 3 (Running code ks) (mkMachine fs s) = Crash InvalidAccess.
Proof.
  intros Hpass Hadd Hnames Hp Hx code. split.
  - apply (visit_pointer_block (m_typeSystem s0) ∅ ∅ None s0 Hpass (same_types_refl _) Hnames) with
      (b := P_decl p x P_nil); [by intros ? ? []%lookup_empty_Some|done|done].
  - unfold code, compile_block. cbn [compile declared app].
    replace (release_all ({[x]} ∪ ∅)) with [I_dec x].
    2:{ rewrite (right_id_L ∅ (∪)). unfold release_all, set_iter. by rewrite elements_singleton. }
    cbn [app steps].
    rewrite (bind_step _ _ _ (Running [I_declare p x; I_dec x; I_close] ks)
      (mkMachine (∅ :: fs) s)) by done.
    rewrite (bind_step _ _ _ (Running [I_dec x; I_close] ks)
      (mkMachine (<[x := None]> ∅ :: fs) s)) by done.
    cbn [step exec]. unfold read, mbind, stM_bind, gets. cbn [frames find_var].
    by rewrite lookup_insert_eq.
Qed.

Lemma uninitialised_release_witness :
  steps (λ _, 4) bump_malloc [] 3 (Running (compile_block (P_decl int_type "x" P_nil)) [])
    (mkMachine [∅] client_start.1) = Crash InvalidAccess.
Proof.
  refine (proj2 (uninitialised_release (λ _, 4) bump_malloc [] [] (start false) int_type "x" [∅]
    client_start.1 eq_refl eq_refl _ int_type_good eq_refl)).
  intros x v Hl. vm_compute in Hl. discriminate Hl.
Defined.

(** A [string] is a pointer to the type system, so a block releases its string variables
    like objects: the C code passes the literal to [runtime_dec_ref_count]. *)
Theorem string_released :
  visit_stmt (CG:=CRef)
    (S_block [S_varDecl (mkVarDecl (D_plain TS_string "s")
                (Some (PrimaryExpr (P_literal (L_string (dq +:+ "hi" +:+ dq))))))]) (start false)
  = Ret (tt, set_output ("{" +:+ nl +:+ "        char** s = " +:+ dq +:+ "hi" +:+ dq +:+ ";" +:+ nl
                           +:+ "        runtime_dec_ref_count(s, 0);" +:+ nl
                           +:+ "        }" +:+ nl) (start false)).
Proof. vm_compute. reflexivity. Qed.
