(* ===== verification/FunctionProps.v ===== *)
(** Running the C code of programs over pointers on the counting allocator.

    A call runs the code of the function on a frame of its parameters, whose references the
    caller holds.  Each function of a program that follows the rules of file FunctionCode keeps the
    references it finds and gives one for its result, however it loops and calls itself, and the
    program leaves nothing, or cycles and references that were stored in full blocks.  A program
    without loops and recursion ends.  Programs that break one of the rules are shown to free a
    block in use, or to lose one. *)
From S2P Require Import Prelude Errors CppString Types TypeSystem SymbolTable.
From S2P Require Import CodeGenerator Syntax Visitor Transpile Static StmtProps ProgramProps.
From S2P Require Import Allocator RefCount RefCountProps RefCountClient.
From S2P Require Import PointerCode PointerVisit StructCode FunctionCode.
From S2P Require Import PointerMachine CodeSafety PointerProps.
From stdpp Require Import gmultiset relations.
#[local] Open Scope Z_scope.

(** ** C programs *)
Definition compile_fun (g : pfun) : cfun :=
  mkCfun (c_name (pf_name g)) (pf_params g).*1 (function_code g).
Definition compile_program (p : pprogram) : list cfun := compile_fun <$> all_functions p.

(** The [main] of the file: it starts the runtime, calls [main_] and stops the runtime. *)
Definition run_program (size_of : Ty → Z) (malloc : RC → Env) (n : nat) (p : pprogram)
    : stM machine status :=
  _ ← on_allocator (rc_init (mkEnv 0 0));
  st ← call_fun size_of malloc (compile_program p) n "main_" [];
  match st with
  | Halted _ => _ ← on_allocator (rc_shutdown (mkEnv 0 0)); mret st
  | Running _ _ => mret st
  end.

(** ** The functions of a program *)
Lemma functions_ok_names ts gs : ∀ F,
  functions_ok ts F gs →
  NoDup (pf_name <$> gs) ∧ Forall (λ g, F !! pf_name g = None) gs.
Proof.
  induction gs as [|g gs IH]; intros F; [by repeat constructor|].
  intros (_ & Hnew & Hok). destruct (IH _ Hok) as [Hd Hn].
  assert (Forall (λ g', pf_name g' ≠ pf_name g ∧ F !! pf_name g' = None) gs) as Hn'.
  { eapply Forall_impl; [exact Hn|]. intros g' Hl. simpl in Hl.
    apply lookup_insert_None in Hl. naive_solver. }
  rewrite Forall_forall in Hn'. split.
  - cbn [fmap list_fmap]. constructor; [|done]. intros (g' & Hg' & Hin)%list_elem_of_fmap.
    destruct (Hn' g' Hin). congruence.
  - constructor; [done|]. apply Forall_forall. naive_solver.
Qed.

(** Each is checked with signatures of the program. *)
Lemma sigs_of_mono gs : ∀ F, Forall (λ g, F !! pf_name g = None) gs → NoDup (pf_name <$> gs) →
  F ⊆ sigs_of F gs.
Proof.
  induction gs as [|g gs IH]; intros F Hn Hd; [done|]. cbn [sigs_of].
  apply Forall_cons in Hn as [Hg Hn]. cbn [fmap list_fmap] in Hd. apply NoDup_cons in Hd as [Hg' Hd].
  transitivity (<[pf_name g := pf_sig g]> F); [by apply insert_subseteq|]. apply IH; [|done].
  apply Forall_forall. intros g' Hin. rewrite Forall_forall in Hn. apply lookup_insert_None.
  split; [by apply Hn|]. intros E. apply Hg'. rewrite E. by apply list_elem_of_fmap_2.
Qed.

Lemma functions_ok_elem ts gs g : ∀ F,
  functions_ok ts F gs → g ∈ gs → ∃ F', function_ok ts F' g ∧ F' ⊆ sigs_of F gs.
Proof.
  intros F Hok Hg. revert F Hok.
  induction Hg as [g gs|g g' gs Hg IH]; intros F (Hf & Hnew & Hok); [|by apply IH].
  eexists. split; [exact Hf|]. destruct (functions_ok_names _ _ _ Hok). by apply (sigs_of_mono gs).
Qed.

Lemma sigs_of_lookup gs f sig : ∀ F,
  sigs_of F gs !! f = Some sig →
  F !! f = Some sig ∨ ∃ g, g ∈ gs ∧ pf_name g = f ∧ pf_sig g = sig.
Proof.
  induction gs as [|g gs IH]; intros F Hf; [by left|]. destruct (IH _ Hf) as [H|(g' & ? & ?)].
  - rewrite lookup_insert in H. case_decide; [|by left]. injection H as <-. right.
    exists g. split; [by left|done].
  - right. exists g'. split; [by right|done].
Qed.

Lemma sigs_of_elem ts gs g : ∀ F,
  functions_ok ts F gs → g ∈ gs → sigs_of F gs !! pf_name g = Some (pf_sig g).
Proof.
  assert (∀ gs F, pf_name g ∉ pf_name <$> gs → sigs_of F gs !! pf_name g = F !! pf_name g) as Hother.
  { intros gs'. induction gs' as [|g' gs' IH]; intros F; [done|]. cbn [fmap list_fmap sigs_of].
    intros [Hne Hn]%not_elem_of_cons. rewrite IH by done. by rewrite lookup_insert_ne. }
  intros F Hok Hg. destruct (functions_ok_names _ _ _ Hok) as [Hd _]. clear Hok. revert F.
  induction Hg as [g gs|g g' gs Hg IH]; intros F; apply NoDup_cons in Hd as [Hn Hd];
    cbn [sigs_of].
  - rewrite Hother by done. by rewrite lookup_insert_eq.
  - by apply IH.
Qed.

Lemma find_fun_elem table g :
  NoDup (cf_name <$> table) → g ∈ table → find_fun (cf_name g) table = Some g.
Proof.
  intros Hd. induction 1 as [g table|g g' table Hin IH]; simpl in *; [by rewrite decide_True|].
  apply NoDup_cons in Hd as [Hn Hd]. rewrite decide_False; [by apply IH|].
  intros E. apply Hn. rewrite E. by apply list_elem_of_fmap_2.
Qed.

Lemma program_names p :
  program_ok p → NoDup (pf_name <$> pp_functions p) ∧
  Forall (λ g, c_name (pf_name g) = pf_name g) (pp_functions p).
Proof.
  intros (ts & Hok & _ & Hnames)%program_functions.
  split; [by apply functions_ok_names in Hok as [? _]|].
  eapply Forall_impl; [exact Hnames|]. intros g [Hg _]. unfold c_name. by rewrite decide_False.
Qed.

Lemma program_table p g :
  program_ok p → g ∈ all_functions p →
  find_fun (c_name (pf_name g)) (compile_program p) = Some (compile_fun g).
Proof.
  intros Hok Hg. change (c_name (pf_name g)) with (cf_name (compile_fun g)).
  apply find_fun_elem; [|by apply list_elem_of_fmap_2].
  destruct (program_names p Hok) as [Hd Hc]. destruct (program_functions p Hok) as (ts & _ & _ & Hnames).
  unfold compile_program, all_functions. rewrite <-list_fmap_compose, fmap_app.
  assert (compose cf_name compile_fun <$> pp_functions p = pf_name <$> pp_functions p) as ->.
  { apply list_fmap_ext. intros i x Hx%list_elem_of_lookup_2. rewrite Forall_forall in Hc.
    by apply Hc. }
  apply NoDup_app. split; [done|]. split; [|apply NoDup_singleton].
  intros x (g' & -> & Hin)%list_elem_of_fmap. rewrite Forall_forall in Hnames.
  destruct (Hnames _ Hin) as [_ Hm]. intros Hx%list_elem_of_singleton. done.
Qed.

Lemma program_table_function p g :
  program_ok p → g ∈ pp_functions p →
  find_fun (pf_name g) (compile_program p) = Some (compile_fun g).
Proof.
  intros Hok Hg. destruct (program_names p Hok) as [_ Hc]. rewrite Forall_forall in Hc.
  rewrite <-(Hc _ Hg) at 1. apply program_table; [done|]. apply elem_of_app. by left.
Qed.

Definition program_initialised (p : pprogram) : bool :=
  forallb (λ g, initialised (pf_body g)) (all_functions p).

Lemma program_initialised_elem p g :
  program_initialised p = true → g ∈ all_functions p → initialised (pf_body g) = true.
Proof.
  intros Hp Hg. unfold program_initialised in Hp. rewrite forallb_forall in Hp.
  by apply Hp, list_elem_of_In.
Qed.

(** Whether the program assigns to fields. *)
Definition program_stores_ok (stores : bool) (p : pprogram) : bool :=
  forallb (λ g, stores_ok stores (pf_body g)) (all_functions p).
Definition program_storing (p : pprogram) : bool := negb (program_stores_ok false p).

Lemma program_stores_ok_storing p : program_stores_ok (program_storing p) p = true.
Proof.
  unfold program_storing. destruct (program_stores_ok false p) eqn:E; [done|].
  apply forallb_forall. intros g _. apply stores_ok_true.
Qed.

Lemma program_stores_ok_elem stores p g :
  program_stores_ok stores p = true → g ∈ all_functions p → stores_ok stores (pf_body g) = true.
Proof.
  intros Hp Hg. unfold program_stores_ok in Hp. rewrite forallb_forall in Hp.
  by apply Hp, list_elem_of_In.
Qed.

(** ** Programs are safe *)
Section safe.
Context (size_of : Ty → Z) (malloc : RC → Env) (stores : bool).
Context (malloc_fresh : ∀ s, 0 < malloc_result (malloc s) ∧
                             rc_heap s !! malloc_result (malloc s) = None).
Abbreviation fun_safe table := (fun_safe size_of malloc table stores).
Abbreviation room := (room stores).

Lemma bind_params_lookup xs vs x v :
  bind_params xs vs !! x = Some (Some v) → v ∈ vs.
Proof.
  unfold bind_params. intros Hx%elem_of_list_to_map_2%elem_of_zip_r.
  apply list_elem_of_fmap_1 in Hx as (u & [= <-] & Hu). done.
Qed.

Lemma bind_params_ok (ps : list (string * ptype)) vs :
  length vs = length ps → frame_ok (list_to_map ps) (bind_params ps.*1 vs).
Proof.
  unfold bind_params. revert vs. induction ps as [|[x p] ps IH]; intros [|v vs] Hlen; try done.
  cbn [fmap list_fmap zip zip_with list_to_map foldr fst snd uncurry].
  apply frame_ok_insert, IH. by injection Hlen.
Qed.

(** A function whose callees are safe for fewer steps. *)
Lemma function_safe table n ts F g :
  function_ok ts F g → initialised (pf_body g) = true → stores_ok stores (pf_body g) = true →
  find_fun (c_name (pf_name g)) table = Some (compile_fun g) →
  (∀ k f sig, (k < n)%nat → F !! f = Some sig → fun_safe table k f sig) →
  fun_safe table n (c_name (pf_name g)) (pf_sig g).
Proof.
  intros Hg Hinit Hsto Hfind Hcalls. exists (compile_fun g). split; [done|].
  intros k Q ks vs s W Hk Hlen Hvs Hroom Hres.
  assert (length vs = length (pf_params g)) as Hlen' by (rewrite Hlen; apply length_fmap).
  set (PF := bind_params (pf_params g).*1 vs).
  assert (stack_refs [] ⊎ W = W) as E0 by apply (left_id_L ∅ (⊎)).
  assert (frame_ok (pf_scope g) PF) as HPF by (by apply bind_params_ok).
  assert (∀ x v, PF !! x = Some (Some v) → value_ref v ⊆ W) as Hheld.
  { intros x v Hx%bind_params_lookup. rewrite Forall_forall in Hvs. exact (Hvs v Hx). }
  rewrite <-(app_nil_r (cf_code (compile_fun g))).
  change (safe size_of malloc table stores k Q (Running (compile_block (pf_body g) ++ []) ks)
            (mkMachine ([] ++ [PF]) s)).
  apply (goes_code_block size_of malloc table stores Q ks ts F (pf_ret g) (pf_scope g) PF W)
    with (Γ := []); try done.
  - by apply goes_compile.
  - apply Hg.
  - by constructor.
  - by rewrite E0.
  - split; [|by intros; apply Hcalls]. intros Hsome j v fs s' Hj Hr.
    apply Hres; [lia|by split; eauto|exact Hr].
  - intros Hret j fs s' Hj Hfs Hr. apply Forall2_nil_inv_l in Hfs as ->. rewrite E0 in Hr.
    assert (pf_ret g = None) as Hnone.
    { pose proof (fo_ret _ _ _ Hg) as H. destruct (pf_ret g); [|done]. destruct H. congruence. }
    destruct j as [|j]; [done|].
    destruct (Hres j None ([] ++ [PF]) s') as (st & m' & Hst & Hs);
      [lia| | |by eapply safe_step].
    + unfold pf_sig. simpl. rewrite Hnone. by split; intros [? ?].
    + change (result_refs None) with (∅ : gmultiset Z). rewrite (right_id_L ∅ (⊎)).
      by apply (room_le _ (S j)); [lia|].
Qed.

(** All the functions of a program, by induction on the steps: a call takes one. *)
Lemma functions_safe p n :
  program_ok p → program_initialised p = true → program_stores_ok stores p = true →
  ∀ f sig, sigs_of ∅ (pp_functions p) !! f = Some sig → fun_safe (compile_program p) n f sig.
Proof.
  intros Hok Hinit Hsto. induction n as [n IH] using lt_wf_ind. intros f sig Hf.
  destruct (sigs_of_lookup _ _ _ _ Hf) as [[]%lookup_empty_Some|(g & Hg & <- & <-)].
  assert (g ∈ all_functions p) as Hall by (apply elem_of_app; by left).
  destruct (program_functions p Hok) as (ts & Hfs & _).
  destruct (functions_ok_elem _ _ _ _ Hfs Hg) as (F & Hgok & HF).
  destruct (program_names p Hok) as [_ Hc]. rewrite Forall_forall in Hc.
  rewrite <-(Hc _ Hg). eapply function_safe; [exact Hgok| | | |].
  - by eapply program_initialised_elem.
  - by eapply program_stores_ok_elem.
  - by apply program_table.
  - intros k f' sig' Hk Hf'. apply IH; [done|]. by eapply lookup_weaken.
Qed.

Lemma main_safe p n :
  program_ok p → program_initialised p = true → program_stores_ok stores p = true →
  fun_safe (compile_program p) n "main_" ([], None).
Proof.
  intros Hok Hinit Hsto. assert (main_function p ∈ all_functions p) as Hall
    by (apply elem_of_app; right; by left).
  destruct (program_functions p Hok) as (ts & _ & Hmain & _).
  change "main_" with (c_name (pf_name (main_function p))).
  change ([], None) with (pf_sig (main_function p)).
  eapply function_safe; [exact Hmain| | | |].
  - by eapply program_initialised_elem.
  - by eapply program_stores_ok_elem.
  - by apply program_table.
  - intros k f' sig' _ Hf'. by apply functions_safe.
Qed.

(** A call from outside. *)
Lemma call_fun_safe table n f sig vs fs s W :
  fun_safe table (S n) f sig → length vs = length sig.1 → Forall (λ v, value_ref v ⊆ W) vs →
  room n s W →
  (∃ st m', call_fun size_of malloc table n f vs (mkMachine fs s) = Ret (st, m') ∧
    (∀ res, st = Halted res → (is_Some res ↔ is_Some sig.2) ∧
       settled stores (allocator m') (W ⊎ result_refs res)) ∧
    ∃ g, find_fun f table = Some g ∧
         steps size_of malloc table n (Running (cf_code g) []) (mkMachine [bind_params (cf_params g) vs] s)
         = Ret (st, m')) ∨
  (stores = true ∧ call_fun size_of malloc table n f vs (mkMachine fs s) = Crash NullDeref).
Proof.
  intros (g & Hg & Hs) Hlen Hvs Hr.
  set (Q := λ (res : option Z) m, (is_Some res ↔ is_Some sig.2) ∧
              settled stores (allocator m) (W ⊎ result_refs res)).
  set (m0 := mkMachine [bind_params (cf_params g) vs] s).
  assert (call_fun size_of malloc table n f vs (mkMachine fs s)
          = steps size_of malloc table n (Running (cf_code g) []) m0) as E.
  { unfold call_fun. rewrite Hg. by rewrite (bind_step _ _ _ tt m0). }
  rewrite E.
  destruct (safe_steps _ _ _ _ n Q _ _ (Hs n Q [] vs s W ltac:(lia) Hlen Hvs Hr
    ltac:(intros j res fs' s' _ Hres Hk%room_settled; exists (Halted res), (mkMachine fs' s');
          split; [done|]; by destruct j)))
    as [(st & m' & H & HQ)|H]; [left|by right].
  exists st, m'. split; [exact H|]. split; [exact HQ|by eauto].
Qed.
End safe.

(** ** Programs without loops end *)

(** The steps of a call of each function, where there is a bound, and of the program. *)
Fixpoint costs (C : gmap string nat) (gs : list pfun) : gmap string nat :=
  match gs with
  | [] => C
  | g :: gs => costs (match code_cost C (function_code g) with
                      | Some k => <[pf_name g := k]> C
                      | None => C
                      end) gs
  end.
Definition program_cost (p : pprogram) : option nat :=
  code_cost (costs ∅ (pp_functions p)) (function_code (main_function p)).

(** No loops, and each function calls functions before it. *)
Fixpoint straight_functions (fs : gset string) (gs : list pfun) : bool :=
  match gs with
  | [] => true
  | g :: gs => straight fs (pf_body g) && straight_functions ({[pf_name g]} ∪ fs) gs
  end.
Definition straight_program (p : pprogram) : bool := straight_functions ∅ (all_functions p).

Lemma costs_mono gs : ∀ C,
  Forall (λ g, C !! pf_name g = None) gs → NoDup (pf_name <$> gs) → C ⊆ costs C gs.
Proof.
  induction gs as [|g gs IH]; intros C Hn Hd; [done|]. cbn [costs].
  apply Forall_cons in Hn as [Hg Hn]. cbn [fmap list_fmap] in Hd. apply NoDup_cons in Hd as [Hg' Hd].
  destruct (code_cost C _) as [k|]; [|by apply IH].
  transitivity (<[pf_name g := k]> C); [by apply insert_subseteq|]. apply IH; [|done].
  apply Forall_forall. intros g' Hin. rewrite Forall_forall in Hn. apply lookup_insert_None.
  split; [by apply Hn|]. intros E. apply Hg'. rewrite E. by apply list_elem_of_fmap_2.
Qed.

Lemma costs_lookup gs f k : ∀ C,
  Forall (λ g, C !! pf_name g = None) gs → NoDup (pf_name <$> gs) → costs C gs !! f = Some k →
  C !! f = Some k ∨
  ∃ g, g ∈ gs ∧ pf_name g = f ∧ code_cost (costs C gs) (function_code g) = Some k.
Proof.
  induction gs as [|g gs IH]; intros C Hn Hd Hf; [by left|]. cbn [costs] in *.
  pose proof Hn as [Hg Hn']%Forall_cons. cbn [fmap list_fmap] in Hd.
  apply NoDup_cons in Hd as [Hg' Hd]. rewrite Forall_forall in Hn'.
  set (C1 := match code_cost C (function_code g) with
             | Some k => <[pf_name g := k]> C | None => C end) in *.
  assert (Forall (λ g, C1 !! pf_name g = None) gs) as Hn1.
  { apply Forall_forall. intros g' Hin. unfold C1. destruct (code_cost C _); [|by apply Hn'].
    apply lookup_insert_None. split; [by apply Hn'|]. intros E. apply Hg'. rewrite E.
    by apply list_elem_of_fmap_2. }
  pose proof (costs_mono gs C1 Hn1 Hd) as HC1.
  destruct (IH C1 Hn1 Hd Hf) as [H|(g' & ? & ? & ?)].
  2:{ right. exists g'. split; [by right|done]. }
  unfold C1 in H. destruct (code_cost C (function_code g)) as [k'|] eqn:Ek; [|by left].
  rewrite lookup_insert in H. case_decide as E; [|by left]. injection H as <-. right.
  exists g. split; [by left|]. split; [done|]. apply (code_cost_mono C); [|done].
  transitivity C1; [|done]. unfold C1. by apply insert_subseteq.
Qed.

Lemma program_table_cost p f g k :
  program_ok p → find_fun f (compile_program p) = Some g → costs ∅ (pp_functions p) !! f = Some k →
  code_cost (costs ∅ (pp_functions p)) (cf_code g) = Some k.
Proof.
  intros Hok Hg Hf. destruct (program_names p Hok) as [Hd _].
  destruct (costs_lookup _ _ _ ∅ ltac:(by apply Forall_forall) Hd Hf)
    as [[]%lookup_empty_Some|(g' & Hg' & <- & Hk)].
  rewrite (program_table_function p g' Hok Hg') in Hg. by injection Hg as <-.
Qed.

Lemma straight_costs gs m : ∀ C fs,
  fs ⊆ dom C → straight_functions fs (gs ++ [m]) = true →
  ∃ fs', fs' ⊆ dom (costs C gs) ∧ straight fs' (pf_body m) = true.
Proof.
  induction gs as [|g gs IH]; intros C fs Hfs Hs; cbn [app straight_functions costs] in *.
  - exists fs. split; [done|]. by apply andb_prop in Hs as [? _].
  - apply andb_prop in Hs as [Hg Hs].
    destruct (straight_block_cost C fs (pf_body g) Hg Hfs) as [k Hk].
    change (function_code g) with (compile_block (pf_body g)). rewrite Hk.
    apply (IH _ _) with (2 := Hs). rewrite dom_insert_L. set_solver.
Qed.

Lemma straight_program_cost p : straight_program p = true → is_Some (program_cost p).
Proof.
  intros Hs. destruct (straight_costs (pp_functions p) (main_function p) ∅ ∅) as (fs & Hfs & Hm);
    [done|done|]. by apply (straight_block_cost _ fs).
Qed.

(** The run of a program. *)
Section run.
Context (size_of : Ty → Z) (malloc : RC → Env) (p : pprogram) (st : AllocatorStats).
Context (Hok : program_ok p) (Hinit : program_initialised p = true).
Context (malloc_fresh : ∀ s, 0 < malloc_result (malloc s) ∧
                             rc_heap s !! malloc_result (malloc s) = None).

Lemma run_program_safe n :
  Z.of_nat n <= LLONG_MAX →
  let run := run_program size_of malloc n p (mkMachine [] (mkRC st ∅)) in
  (∃ now m', run = Ret (now, m') ∧
    (∀ res, now = Halted res → res = None ∧ settled (program_storing p) (allocator m') ∅) ∧
    ∀ k, program_cost p = Some k → (k < n)%nat → now = Halted None) ∨
  (program_storing p = true ∧ run = Crash NullDeref).
Proof.
  intros Hn run.
  set (c := call_fun size_of malloc (compile_program p) n "main_" []).
  assert (run = (r ← c; match r with
                        | Halted _ => _ ← on_allocator (rc_shutdown (mkEnv 0 0)); mret r
                        | Running _ _ => mret r
                        end) (mkMachine [] client_start.1)) as ->.
  { unfold run, run_program. by rewrite (bind_step _ _ _ tt (mkMachine [] client_start.1)). }
  destruct (call_fun_safe size_of malloc (program_storing p) (compile_program p) n "main_" ([], None)
    [] [] client_start.1 ∅
    (main_safe _ _ _ malloc_fresh p (S n) Hok Hinit (program_stores_ok_storing p)) eq_refl
    (Forall_nil_2 _) (room_start _ n Hn)) as [(now & m' & H & Hend & g & Hg & Hst)|[Hsto H]].
  2:{ right. split; [done|]. unfold mbind, stM_bind. subst c. by rewrite H. }
  left.
  assert (∀ res, now = Halted res → res = None ∧ settled (program_storing p) (allocator m') ∅) as Hend'.
  { intros res ->. destruct (Hend res eq_refl) as [Hres Hc].
    destruct res as [v|]; [by destruct (proj1 Hres ltac:(eauto))|].
    change (result_refs None) with (∅ : gmultiset Z) in Hc. by rewrite (left_id_L ∅ (⊎)) in Hc. }
  exists now, m'. split; [|split; [exact Hend'|]].
  - rewrite (bind_step _ _ _ _ _ H). destruct now; [done|]. by destruct m'.
  - intros k Hk Hlt. assert (g = compile_fun (main_function p)) as ->.
    { assert (main_function p ∈ all_functions p) as Hin by (apply elem_of_app; right; by left).
      pose proof (program_table p _ Hok Hin) as E. change (c_name _) with "main_" in E.
      rewrite E in Hg. by injection Hg. }
    destruct (steps_end (costs ∅ (pp_functions p)) size_of malloc (compile_program p)
      (λ f g k H1 H2, program_table_cost p f g k Hok H1 H2) n
      (Running (function_code (main_function p)) []) _ now m' (S (k + 0))
      ltac:(unfold status_cost; unfold program_cost in Hk; by rewrite Hk) ltac:(lia) Hst) as [res E].
    rewrite E. by destruct (Hend' res E) as [-> _].
Qed.
End run.

(** What is left of a heap nobody refers to: nothing, unless blocks hold each other in a
    cycle, or a block counts more references than other blocks have room to remember. *)
Definition only_cycles_left (m : gmap Z RefcountHeader) : Prop :=
  acyclic_heap m →
  (∀ h hd, m !! h = Some hd → count hd <= Z.of_nat (multiplicity h (outs m))) → m = ∅.

Lemma settled_empty stores s : settled stores s ∅ → only_cycles_left (rc_heap s).
Proof.
  intros (k & lost & Hok & _) Hy Hcounts. rewrite (left_id_L ∅ (⊎)) in Hok.
  assert (lost = ∅) as ->.
  { apply gmultiset_eq. intros h. rewrite multiplicity_empty.
    destruct (decide (h ∈ lost)) as [Hin|Hin]; [|rewrite elem_of_multiplicity in Hin; lia].
    destruct (ac_live _ _ (ho_accounts _ _ _ Hok) h) as [hd Hhd]; [multiset_solver|].
    destruct (ac_count _ _ (ho_accounts _ _ _ Hok) _ _ Hhd) as (_ & _ & Hc).
    specialize (Hcounts _ _ Hhd). rewrite multiplicity_disj_union in Hc.
    rewrite elem_of_multiplicity in Hin. lia. }
  destruct (client_ok_empty k s) as (He & _); [by split|done].
Qed.

Lemma settled_storeless s : settled false s ∅ → rc_heap s = ∅ ∧ current_bytes (rc_stats s) = 0.
Proof.
  intros (k & Hk%settled_client). destruct (client_ok_empty _ _ Hk) as (? & ? & _). done.
Qed.

(** C1. Programs manage their memory correctly, from source to heap.  A program of structs and of
    functions over pointers, with branches, loops, recursion and assignments to fields, in which
    the static rules hold (names are declared once and before use, calls fit their functions and
    keep their results, no parameter is assigned, a [return] is where no scope around has
    variables) and every pointer is given a value where it is declared (no [T* x;]), is translated
    to the text of its C structs and functions.  On the counting allocator, as long as [malloc]
    succeeds, with an address that is positive and not in use, and whatever these addresses, the
    sizes of types and the statistics before are, the [main] of that file goes wrong only where
    the program assigns to a field through a null pointer, after any number of steps up to
    [LLONG_MAX]: it touches no freed block.  If it ends, no block is left, except for cycles of
    blocks and for references that were stored in full blocks; a program that assigns to no field
    leaves nothing at all. *)
Theorem program_correct size_of malloc ind n p st :
  program_ok p → program_initialised p = true →
  (∀ s, 0 < malloc_result (malloc s) ∧ rc_heap s !! malloc_result (malloc s) = None) →
  Z.of_nat n <= LLONG_MAX →
  let run := run_program size_of malloc n p (mkMachine [] (mkRC st ∅)) in
  transpile true ind (program_source p) = Ret (program_text p) ∧
  ((∃ now m', run = Ret (now, m') ∧
     ∀ res, now = Halted res →
       res = None ∧ only_cycles_left (rc_heap (allocator m')) ∧
       (program_storing p = false →
          rc_heap (allocator m') = ∅ ∧ current_bytes (rc_stats (allocator m')) = 0)) ∨
   (program_storing p = true ∧ run = Crash NullDeref)).
Proof.
  intros Hok Hinit Hm Hn run. split; [by apply transpile_program|].
  destruct (run_program_safe size_of malloc p st Hok Hinit Hm n Hn) as [(now & m' & H & Hend & _)|H];
    [left|by right].
  exists now, m'. split; [exact H|]. intros res E. destruct (Hend res E) as [-> Hset].
  split; [done|]. split; [by eapply settled_empty|]. intros Hsto. rewrite Hsto in Hset.
  by apply settled_storeless.
Qed.

(** [fresh] makes an object, [pick] gives an argument that is not null, [last] calls itself,
    and [main] loops. *)
Definition fresh_fun : pfun :=
  mkPfun "fresh" [] (Some int_type) (P_new int_type "a" (P_return "a" P_nil)).
Definition pick_fun : pfun :=
  mkPfun "pick" [("a", int_type); ("b", int_type)] (Some int_type)
    (P_if (mkCond "a" true None) (P_return "b" P_nil)
      (P_copy int_type "c" "a" (P_return "c" P_nil))).
Definition last_fun : pfun :=
  mkPfun "last" [("a", int_type); ("b", int_type)] (Some int_type)
    (P_if (mkCond "a" true (Some "b")) (P_return "a" P_nil)
      (P_call (To_new int_type "c") "last" ["b"; "b"] (P_return "c" P_nil))).
Definition sample_main : pcode :=
  P_call (To_new int_type "x") "fresh" []
    (P_new int_type "y"
      (P_call (To_new int_type "z") "pick" ["x"; "y"]
        (P_while (mkCond "z" false None)
          (P_copy int_type "w" "z"
            (P_if_else (mkCond "z" true (Some "y")) (P_clear "z" P_nil) (P_assign "z" "y" P_nil)
              P_nil))
          (P_call (To_var "x") "last" ["z"; "y"] P_nil)))).
Definition sample_pointer_program : pprogram :=
  mkPprogram [] [fresh_fun; pick_fun; last_fun] sample_main.

Example sample_function_text :
  function_text 1 pick_fun
  = "int* pick(int* a, int* b){" +:+ nl
      +:+ "        if (a == NULL) {" +:+ nl
      +:+ "{" +:+ nl
      +:+ "            runtime_inc_ref_count(b, NULL);" +:+ nl
      +:+ "            return b;" +:+ nl
      +:+ "            }" +:+ nl
      +:+ "}" +:+ nl
      +:+ "        runtime_inc_ref_count(a, NULL);" +:+ nl
      +:+ "        int* c = a;" +:+ nl
      +:+ "        runtime_inc_ref_count(c, NULL);" +:+ nl
      +:+ "        runtime_dec_ref_count(c, 0);" +:+ nl
      +:+ "        return c;" +:+ nl
      +:+ "        runtime_dec_ref_count(c, 0);" +:+ nl
      +:+ "        }" +:+ nl.
Proof. vm_compute. reflexivity. Qed.

(** A program without structs. *)
Lemma program_ok_plain p :
  pp_structs p = [] → functions_in TypeSystem_default p →
  Forall (header_known TypeSystem_default) (pp_functions p) → program_ok p.
Proof. intros Hs Hf Hh. exists TypeSystem_default, TypeSystem_default. by rewrite Hs. Qed.

Lemma int_pointer_known : ∃ t, resolves TypeSystem_default (TS_pointer TS_int) t.
Proof. exists (pt_ptr int_type). exact (gt_ptr _ _ int_type_good). Qed.

#[local] Ltac plain_program :=
  apply program_ok_plain;
    [reflexivity
    |
    |repeat first [apply Forall_cons_2 | apply Forall_nil_2 | split | exact I | exact int_pointer_known]];
  split; [|split; [|repeat constructor; discriminate]].

Lemma sample_program_ok : program_ok sample_pointer_program.
Proof.
  plain_program.
  - cbn [sample_pointer_program pp_functions functions_ok].
    split_and!; try exact I; try (vm_compute; reflexivity); split; check_rules.
  - split; check_rules.
Qed.

(** A list: [cons] makes a cell that holds the rest of the list, and [main] drops all its
    references but the last. *)
Definition node_fields (next : Ty) : list pfield :=
  [mkPfield TS_int (Type_base BInt) "value";
   mkPfield (TS_pointer (TS_named (Some KW_struct) "Node")) (setPointer true next) "next"].
Definition node_members (next : Ty) : list (string * Ty) :=
  [("value", Type_base BInt); ("next", setPointer true next)].
Definition node_first : Ty :=
  struct_type "Node" (node_members (setStruct "Node" (Type_base BStruct))).
Definition node_struct : pstruct := mkPstruct "Node" "Node" (node_fields node_first).
Definition node_type : ptype :=
  mkPtype (TS_named None "Node") node_first (setPointer true node_first).
Definition cons_fun : pfun :=
  mkPfun "cons" [("tail", node_type)] (Some node_type)
    (P_new node_type "cell" (P_store "cell" "next" "tail" (P_return "cell" P_nil))).
Definition list_main : pcode :=
  P_null node_type "nil"
    (P_call (To_new node_type "a") "cons" ["nil"]
      (P_call (To_new node_type "b") "cons" ["a"]
        (P_call (To_new node_type "c") "cons" ["b"] (P_clear "a" (P_clear "b" P_nil))))).
Definition list_program : pprogram := mkPprogram [node_struct] [cons_fun] list_main.

Example cons_text :
  struct_text node_struct +:+ function_text 1 cons_fun
  = "typedef struct Node {" +:+ nl
      +:+ String "009"%char "int value;" +:+ nl
      +:+ String "009"%char "struct Node* next;" +:+ nl
      +:+ "} Node;" +:+ nl
      +:+ "struct Node* cons(struct Node* tail){" +:+ nl
      +:+ "        struct Node* cell = runtime_alloc(sizeof(struct Node));" +:+ nl
      +:+ "        runtime_inc_ref_count(tail, cell);" +:+ nl
      +:+ "        cell->next = tail;" +:+ nl
      +:+ "        runtime_inc_ref_count(cell, NULL);" +:+ nl
      +:+ "        runtime_dec_ref_count(cell, 0);" +:+ nl
      +:+ "        return cell;" +:+ nl
      +:+ "        runtime_dec_ref_count(cell, 0);" +:+ nl
      +:+ "        }" +:+ nl.
Proof. vm_compute. reflexivity. Qed.

Definition list_types_first : TypeSystem :=
  after_first node_struct (node_members (setStruct "Node" (Type_base BStruct))) TypeSystem_default.
Definition list_types : TypeSystem :=
  after_second node_struct (node_members node_first) list_types_first.

#[local] Ltac resolved :=
  let E1 := fresh "E" in let E2 := fresh "E" in let E3 := fresh "E" in
  intros [? [] ? ? ? ? ?] (E1 & E2 & E3);
  cbn [m_typedefs m_structs m_classes m_typeSystem] in E1, E2, E3; subst;
  vm_compute; reflexivity.

Lemma node_type_good : good_type list_types node_type.
Proof. split; [resolved|resolved|reflexivity|split; discriminate]. Qed.

Lemma next_field : field_ok node_type "next" node_type.
Proof. split; [reflexivity|]. eexists. split; [right; left|vm_compute; reflexivity]. Qed.

Lemma list_first : structs_first TypeSystem_default [node_struct] list_types_first.
Proof.
  exists (node_members (setStruct "Node" (Type_base BStruct))).
  split; [|apply same_types_refl]. repeat constructor; resolved.
Qed.
Lemma list_second : structs_second list_types_first [node_struct] list_types.
Proof.
  split; [eexists; vm_compute; reflexivity|]. split; [repeat constructor; resolved|].
  split; [|apply same_types_refl]. repeat constructor; discriminate.
Qed.

Lemma list_program_ok : program_ok list_program.
Proof.
  exists list_types_first, list_types. split; [exact list_first|]. split; [exact list_second|]. split.
  - repeat constructor; (exists (pt_ptr node_type); resolved).
  - pose proof node_type_good. pose proof next_field.
    split; [|split; [|repeat constructor; discriminate]].
    + cbn [list_program pp_functions functions_ok].
      split_and!; try exact I; try (vm_compute; reflexivity); split; check_rules.
    + split; check_rules.
Qed.

Lemma program_correct_witness :
  transpile true false (program_source list_program) = Ret (program_text list_program) ∧
  ∃ m', run_program (λ _, 16) bump_malloc 100 list_program (mkMachine [] (mkRC stats_zero ∅))
        = Ret (Halted None, m') ∧
        total_collections (rc_stats (allocator m')) = 3 ∧ rc_heap (allocator m') = ∅.
Proof.
  destruct (program_correct (λ _, 16) bump_malloc false 100 list_program stats_zero)
    as (H1 & [(now & m' & H2 & H3)|[_ H2]]).
  - exact list_program_ok.
  - reflexivity.
  - exact bump_malloc_fresh.
  - vm_compute. discriminate.
  - split; [exact H1|]. destruct now as [l ks|res]; [exfalso; vm_compute in H2; discriminate H2|].
    destruct (H3 res eq_refl) as (-> & Hleft & _). exists m'. split; [exact H2|].
    vm_compute in H2. injection H2 as <-. split; [reflexivity|]. apply Hleft.
    + intros h [x y (hd & Hhd & _)|x y z (hd & Hhd & _) _]; by destruct (lookup_empty_Some x hd Hhd).
    + intros h hd Hhd. by destruct (lookup_empty_Some h hd Hhd).
  - exfalso. vm_compute in H2. discriminate H2.
Defined.

(** C10. Programs without loops and recursion end.  When the functions of a program that follows
    the rules of C1, initialised pointers among them, have no loops and call functions declared
    before them, and [malloc] succeeds with addresses not in use, the code of the program has a
    bound on its steps: with more steps than that (and at most [LLONG_MAX]) it ends, its memory
    given back as in C1, or assigns to a field through a null pointer. *)
Theorem program_ends size_of malloc p st :
  program_ok p → program_initialised p = true → straight_program p = true →
  (∀ s, 0 < malloc_result (malloc s) ∧ rc_heap s !! malloc_result (malloc s) = None) →
  ∃ k, program_cost p = Some k ∧ ∀ n, (k < n)%nat → Z.of_nat n <= LLONG_MAX →
    let run := run_program size_of malloc n p (mkMachine [] (mkRC st ∅)) in
    (∃ m', run = Ret (Halted None, m') ∧ only_cycles_left (rc_heap (allocator m')) ∧
           (program_storing p = false → rc_heap (allocator m') = ∅)) ∨
    (program_storing p = true ∧ run = Crash NullDeref).
Proof.
  intros Hok Hinit Hs Hm. destruct (straight_program_cost p Hs) as [k Hk].
  exists k. split; [done|]. intros n Hkn Hn run.
  destruct (run_program_safe size_of malloc p st Hok Hinit Hm n Hn)
    as [(now & m' & H & Hend & Hlast)|H]; [left|by right].
  rewrite (Hlast k Hk Hkn) in *. exists m'. split; [done|].
  destruct (Hend None eq_refl) as (_ & Hset). split; [by eapply settled_empty|]. intros Hsto.
  rewrite Hsto in Hset. by apply settled_storeless.
Qed.

Definition straight_sample : pprogram :=
  mkPprogram [] [fresh_fun; pick_fun]
    (P_call (To_new int_type "x") "fresh" []
      (P_call (To_new int_type "y") "pick" ["x"; "x"]
        (P_if (mkCond "y" false None) (P_call (To_var "x") "fresh" [] P_nil) P_nil))).

Lemma straight_sample_ok : program_ok straight_sample.
Proof.
  plain_program.
  - cbn [straight_sample pp_functions functions_ok].
    split_and!; try exact I; try (vm_compute; reflexivity); split; check_rules.
  - split; check_rules.
Qed.

Lemma program_ends_witness :
  ∃ m', run_program (λ _, 4) bump_malloc 60 straight_sample (mkMachine [] (mkRC stats_zero ∅))
        = Ret (Halted None, m') ∧ rc_heap (allocator m') = ∅.
Proof.
  destruct (program_ends (λ _, 4) bump_malloc straight_sample stats_zero) as (k & Hk & H).
  - exact straight_sample_ok.
  - reflexivity.
  - reflexivity.
  - exact bump_malloc_fresh.
  - destruct (H 60%nat) as [(m' & E & _ & He)|[[=] _]].
    + vm_compute in Hk. injection Hk as <-. lia.
    + vm_compute. discriminate.
    + exists m'. split; [exact E|]. apply He. reflexivity.
Defined.

(** C14. Each function keeps the accounts.  In a program that follows the rules of C1, initialised
    pointers among them, and while [malloc] succeeds with addresses not in use, a call of any of
    its functions, on an allocator in good state whose counts have room for the steps, and with
    arguments that are null or that the caller holds a reference to, goes wrong only at an
    assignment to a field through a null pointer, however many steps it is given; if it ends, it
    gives a value exactly when the function is declared to, and leaves the references it found and
    one more, for that value. *)
Theorem function_accounts size_of malloc p g n vs fs s r :
  program_ok p → program_initialised p = true →
  (∀ s, 0 < malloc_result (malloc s) ∧ rc_heap s !! malloc_result (malloc s) = None) →
  g ∈ pp_functions p → length vs = length (pf_params g) →
  Forall (λ v, v = NULL ∨ header_of v ∈ r) vs → room (program_storing p) n s r →
  let run := call_fun size_of malloc (compile_program p) n (pf_name g) vs (mkMachine fs s) in
  (∃ now m', run = Ret (now, m') ∧
     ∀ res, now = Halted res →
       (is_Some res ↔ is_Some (pf_ret g)) ∧
       settled (program_storing p) (allocator m') (r ⊎ result_refs res)) ∨
  (program_storing p = true ∧ run = Crash NullDeref).
Proof.
  intros Hok Hinit Hm Hg Hlen Hvs Hr run. destruct (program_functions p Hok) as (ts & Hfs & _).
  pose proof (sigs_of_elem ts _ g ∅ Hfs Hg) as Hsig.
  destruct (call_fun_safe size_of malloc (program_storing p) (compile_program p) n (pf_name g)
    (pf_sig g) vs fs s r
    (functions_safe size_of malloc _ Hm p (S n) Hok Hinit (program_stores_ok_storing p) _ _ Hsig))
    as [(now & m' & H & Hend & _)|H]; [| | |left; by eauto|by right].
  - rewrite Hlen. unfold pf_sig. simpl. by rewrite length_fmap.
  - eapply Forall_impl; [exact Hvs|]. intros v Hv. simpl in Hv. unfold value_ref, ref.
    case_decide; [multiset_solver|]. destruct Hv; [done|multiset_solver].
  - done.
Qed.

(** [cons] on the second of two blocks, the first of which holds the other. *)
Lemma function_accounts_witness :
  ∃ v m', call_fun (λ _, 16) bump_malloc (compile_program list_program) 60 "cons"
            [148] (mkMachine [] (linked_after 4)) = Ret (Halted (Some v), m') ∧
          settled true (allocator m') ({[+ 100 +]} ⊎ value_ref v).
Proof.
  destruct (function_accounts (λ _, 16) bump_malloc list_program cons_fun 60 [148] []
    (linked_after 4) {[+ 100 +]}) as [(now & m' & H & Hend)|[_ H]].
  - exact list_program_ok.
  - reflexivity.
  - exact bump_malloc_fresh.
  - left.
  - reflexivity.
  - assert (header_of 148 ∈ ({[+ 100 +]} : gmultiset Z))
      by (change (header_of 148) with 100; by apply gmultiset_elem_of_singleton).
    constructor; [right; assumption|constructor].
  - exists 4%nat. split; [|vm_compute; discriminate].
    apply client_settled, client_steps_ok; [exact linked_reached|vm_compute; discriminate].
  - destruct now as [l ks|res]; [exfalso; vm_compute in H; discriminate H|].
    destruct (Hend res eq_refl) as [Hres Hc]. destruct res as [v|].
    + exists v, m'. split; [exact H|exact Hc].
    + exfalso. destruct (proj2 Hres) as [? [=]]. eexists. reflexivity.
  - exfalso. vm_compute in H. discriminate H.
Defined.

(** A function that assigns to its parameter; [x = g(x)]; a result that is not kept; a [return]
    inside a block of a function with variables; and a call in a [return]. *)
Definition assigned_parameter : pprogram :=
  mkPprogram [] [mkPfun "f" [("a", int_type); ("b", int_type)] None (P_assign "a" "b" P_nil)]
    (P_new int_type "x" (P_new int_type "y" (P_call To_none "f" ["x"; "y"] P_nil))).
Definition result_in_argument : pprogram :=
  mkPprogram [] [mkPfun "g" [("a", int_type)] (Some int_type) (P_new int_type "b" (P_return "b" P_nil))]
    (P_new int_type "x" (P_call (To_var "x") "g" ["x"] P_nil)).
Definition lost_result : pprogram := mkPprogram [] [fresh_fun] (P_call To_none "fresh" [] P_nil).
Definition nested_return : pprogram :=
  mkPprogram [] [mkPfun "h" [] (Some int_type)
                (P_new int_type "a" (P_block (P_return "a" P_nil) P_nil))]
    (P_call (To_new int_type "x") "h" [] P_nil).

(** The rules on calls and returns are needed.  The C code of a program that assigns to a
    parameter, and that of a program with [x = g(x)], uses a freed block; a call whose result is
    not kept, and a [return] in a block inside the scope of a variable, which is not released,
    leave a block allocated; and the code of [return g(x);] releases the local [x] before the
    call that uses it, without retaining it. *)
Example call_rules_needed :
  let run p := run_program (λ _, 4) bump_malloc 100 p (mkMachine [] client_start.1) in
  let with_x := with_vars [("x", setPointer true (Type_base BInt))] (start false) in
  Forall (λ p, transpile true false (program_source p) = Ret (program_text p))
    [assigned_parameter; result_in_argument; lost_result; nested_return] ∧
  run assigned_parameter = Crash InvalidAccess ∧
  run result_in_argument = Crash InvalidAccess ∧
  (∃ m', run lost_result = Ret (Halted None, m') ∧ rc_heap (allocator m') ≠ ∅) ∧
  (∃ m', run nested_return = Ret (Halted None, m') ∧ rc_heap (allocator m') ≠ ∅) ∧
  visit_stmt (CG:=CRef) (S_return (Some (call_expr "g" ["x"]))) with_x
  = Ret (tt, set_output ("        runtime_dec_ref_count(x, 0);" +:+ nl
                           +:+ "        return         g(x);" +:+ nl) with_x).
Proof.
  split; [repeat constructor; vm_compute; reflexivity|].
  split; [vm_compute; reflexivity|]. split; [vm_compute; reflexivity|].
  split; [eexists; split; [vm_compute; reflexivity|vm_compute; discriminate]|].
  split; [eexists; split; [vm_compute; reflexivity|vm_compute; discriminate]|].
  vm_compute. reflexivity.
Qed.

(** Two cells that hold each other; a cell whose field is assigned four times; an assignment
    through a null pointer. *)
Definition cycle : pprogram := mkPprogram [node_struct] []
  (P_new node_type "a" (P_new node_type "b" (P_store "a" "next" "b" (P_store "b" "next" "a" P_nil)))).
Definition four_stores : pprogram := mkPprogram [node_struct] []
  (P_new node_type "a" (P_new node_type "b"
    (P_store "a" "next" "b" (P_store "a" "next" "b" (P_store "a" "next" "b"
      (P_store "a" "next" "b" P_nil)))))).
Definition null_base : pprogram := mkPprogram [node_struct] []
  (P_null node_type "a" (P_new node_type "b" (P_store "a" "next" "b" P_nil))).

Lemma node_program_ok m :
  function_ok list_types ∅ (mkPfun "main" [] None m) → program_ok (mkPprogram [node_struct] [] m).
Proof.
  intros Hm. exists list_types_first, list_types.
  split; [exact list_first|]. split; [exact list_second|]. split; [constructor|].
  split; [exact I|]. split; [exact Hm|constructor].
Qed.

(** What the rules leave open, and what reading a field does.  Programs that follow the rules
    and end with blocks allocated when two of them hold each other, or when a pointer is stored
    a fourth time in one; and one that is stopped by its null pointer.  A field cannot be read:
    [z = x->next] is the field [next] of an assignment, by the precedences of the grammar, so [x] is
    retained and [z] released, and the pointer that is read is not counted. *)
Example stores_left_open :
  let run p := run_program (λ _, 16) bump_malloc 100 p (mkMachine [] client_start.1) in
  let blocks p := match run p with Ret (Halted _, m) => size (rc_heap (allocator m)) | _ => 0%nat end in
  let with_xz := with_vars [("x", pt_ptr node_type); ("z", pt_ptr node_type)] (start false) in
  Forall (λ p, program_ok p ∧ program_initialised p = true ∧
               transpile true false (program_source p) = Ret (program_text p))
    [cycle; four_stores; null_base] ∧
  blocks cycle = 2%nat ∧ blocks four_stores = 1%nat ∧ run null_base = Crash NullDeref ∧
  visit_stmt (CG:=CRef) (S_expr (PointerMemberExpr (AssignExpr (ident "z") (ident "x")) "next")) with_xz
  = Ret (tt, set_output ("        runtime_inc_ref_count(x, NULL);" +:+ nl
                           +:+ "        runtime_dec_ref_count(z, 0);" +:+ nl
                           +:+ "        z = x->next;" +:+ nl) with_xz).
Proof.
  split; [|split_and!; vm_compute; reflexivity].
  pose proof node_type_good. pose proof next_field.
  repeat (apply Forall_cons_2;
          [split_and!; [apply node_program_ok; split; check_rules|vm_compute; reflexivity..]|]).
  apply Forall_nil_2.
Qed.
