(* ===== verification/MarkSweep.v ===== *)
(** runtime/src/mark_sweep_allocator.c.

    The headers of the allocated blocks are a map from addresses; the allocation list is
    the doubly linked list through their [next] and [prev] fields.  [ms_memory] gives the
    8-byte word at an address, as the program left it: the collector reads it in
    payloads, in the stack and at the registered roots.  The loops over the list take
    fuel: one round per header, and one for the end. *)
From S2P Require Import Prelude Errors CppString Allocator.
#[local] Open Scope Z_scope.

Record MSHeader := mkMSHeader {
  marked : bool;
  ms_size : Z;
  next : Z;
  prev : Z
}.

(** A [bool], a [size_t] and two pointers, with padding. *)
Definition sizeof_MSHeader : Z := 32.
Definition sizeof_pointer : Z := 8.
Definition MAX_ROOTS : Z := 50.

Record MS := mkMS {
  stack_bottom : Z;
  roots : list Z;
  root_index : Z;
  GC_THRESHOLD : Z;
  allocation_list : Z;
  ms_stats : AllocatorStats;
  ms_heap : gmap Z MSHeader;
  ms_memory : Z → Z
}.

(** The static variables before the program runs. *)
Definition MS_static (memory : Z → Z) : MS :=
  mkMS NULL (replicate 50 NULL) 0 (1024 * 1024) NULL stats_zero ∅ memory.

Definition set_stack_bottom x s := mkMS x (roots s) (root_index s) (GC_THRESHOLD s)
  (allocation_list s) (ms_stats s) (ms_heap s) (ms_memory s).
Definition set_roots x i s := mkMS (stack_bottom s) x i (GC_THRESHOLD s)
  (allocation_list s) (ms_stats s) (ms_heap s) (ms_memory s).
Definition set_GC_THRESHOLD x s := mkMS (stack_bottom s) (roots s) (root_index s) x
  (allocation_list s) (ms_stats s) (ms_heap s) (ms_memory s).
Definition set_allocation_list x s := mkMS (stack_bottom s) (roots s) (root_index s)
  (GC_THRESHOLD s) x (ms_stats s) (ms_heap s) (ms_memory s).
Definition set_ms_stats x s := mkMS (stack_bottom s) (roots s) (root_index s)
  (GC_THRESHOLD s) (allocation_list s) x (ms_heap s) (ms_memory s).
Definition set_ms_heap x s := mkMS (stack_bottom s) (roots s) (root_index s)
  (GC_THRESHOLD s) (allocation_list s) (ms_stats s) x (ms_memory s).

Definition with_marked b h := mkMSHeader b (ms_size h) (next h) (prev h).
Definition with_next x h := mkMSHeader (marked h) (ms_size h) x (prev h).
Definition with_prev x h := mkMSHeader (marked h) (ms_size h) (next h) x.

(** Access to a header: the address must be that of a live block. *)
Definition ms_load (h : Z) : stM MS MSHeader :=
  heap ← gets ms_heap;
  match heap !! h with
  | Some hd => mret hd
  | None => crashM InvalidAccess
  end.
Definition ms_update (h : Z) (f : MSHeader → MSHeader) : stM MS unit :=
  hd ← ms_load h; modify (λ s, set_ms_heap (<[h := f hd]> (ms_heap s)) s).
Definition ms_free (h : Z) : stM MS unit :=
  _ ← ms_load h; modify (λ s, set_ms_heap (delete h (ms_heap s)) s).
Definition read_word (p : Z) : stM MS Z := gets (λ s, ms_memory s p).

Definition ms_register_root (ptr : Z) : stM MS unit :=
  i ← gets root_index;
  if MAX_ROOTS <=? i then crashM (Exit 1)
  else modify (λ s, set_roots (<[Z.to_nat i := ptr]> (roots s)) (i + 1) s).

Definition add_allocation (header : Z) : stM MS unit :=
  first ← gets allocation_list;
  _ ← ms_update header (with_next first);
  _ ← ms_update header (with_prev NULL);
  _ ← (if decide (first ≠ NULL) then ms_update first (with_prev header) else mret tt);
  modify (set_allocation_list header).

Definition remove_allocation (header : Z) : stM MS unit :=
  hd ← ms_load header;
  _ ← (if decide (prev hd ≠ NULL) then ms_update (prev hd) (with_next (next hd))
       else modify (set_allocation_list (next hd)));
  hd ← ms_load header;
  if decide (next hd ≠ NULL) then ms_update (next hd) (with_prev (prev hd)) else mret tt.

(** [ptr >= start && ptr < end] for the payload of the block [current]. *)
Definition in_payload (current size ptr : Z) : bool :=
  let start := current + sizeof_MSHeader in
  let stop := start + size_sub size sizeof_MSHeader in
  (start <=? ptr) && (ptr <? stop).

Definition list_fuel (s : MS) : nat := S (size (ms_heap s)).

Fixpoint is_valid_pointer_loop (fuel : nat) (current ptr : Z) : stM MS bool :=
  match fuel with
  | O => λ _, Diverge
  | S fuel =>
      if decide (current = NULL) then mret false
      else
        hd ← ms_load current;
        if in_payload current (ms_size hd) ptr then mret true
        else is_valid_pointer_loop fuel (next hd) ptr
  end.

Definition is_valid_pointer (ptr : Z) : stM MS bool :=
  if decide (ptr = NULL) then mret false
  else
    fuel ← gets list_fuel;
    current ← gets allocation_list;
    is_valid_pointer_loop fuel current ptr.

Fixpoint find_header_loop (fuel : nat) (current ptr : Z) : stM MS Z :=
  match fuel with
  | O => λ _, Diverge
  | S fuel =>
      if decide (current = NULL) then mret NULL
      else
        hd ← ms_load current;
        if in_payload current (ms_size hd) ptr then mret current
        else find_header_loop fuel (next hd) ptr
  end.

Definition find_header (ptr : Z) : stM MS Z :=
  if decide (ptr = NULL) then mret NULL
  else
    fuel ← gets list_fuel;
    current ← gets allocation_list;
    find_header_loop fuel current ptr.

(** The addresses [for (void** p = start; p < stop; ++p)] goes through. *)
Definition words (start stop : Z) : list Z :=
  (λ i, start + sizeof_pointer * i) <$> seqZ 0 ((stop - start + 7) `div` sizeof_pointer).

(** [mark] recurses on every word of the payload.  A word that does not lie within the
    block is read past its end. *)
Fixpoint mark (fuel : nat) (ptr : Z) : stM MS unit :=
  match fuel with
  | O => λ _, Diverge
  | S fuel =>
      header ← find_header ptr;
      if decide (header = NULL) then mret tt
      else
        hd ← ms_load header;
        if marked hd then mret tt
        else
          _ ← ms_update header (with_marked true);
          let start := header + sizeof_MSHeader in
          let stop := header + ms_size hd in
          forM_ (λ p,
            if stop <? p + sizeof_pointer then crashM Overread
            else
              v ← read_word p;
              valid ← is_valid_pointer v;
              if (valid : bool) then mark fuel v else mret tt) (words start stop)
  end.

(** [if (is_valid_pointer(v)) mark(v)], for the word at [p] of the stack or the roots. *)
Definition mark_word (p : Z) : stM MS unit :=
  v ← read_word p;
  valid ← is_valid_pointer v;
  if (valid : bool) then fuel ← gets list_fuel; mark fuel v else mret tt.

Definition conservative_scan_stack (stack_top : Z) : stM MS unit :=
  bottom ← gets stack_bottom;
  if stack_top <? bottom then forM_ mark_word (words stack_top bottom)
  else forM_ mark_word (words bottom stack_top).

Fixpoint clear_marks (fuel : nat) (current : Z) : stM MS unit :=
  match fuel with
  | O => λ _, Diverge
  | S fuel =>
      if decide (current = NULL) then mret tt
      else
        _ ← ms_update current (with_marked false);
        hd ← ms_load current;
        clear_marks fuel (next hd)
  end.

Definition mark_phase (env : Env) : stM MS unit :=
  fuel ← gets list_fuel;
  current ← gets allocation_list;
  _ ← clear_marks fuel current;
  _ ← conservative_scan_stack (frame_address env);
  slots ← gets (λ s, take (Z.to_nat (root_index s)) (roots s));
  forM_ mark_word slots.

Fixpoint sweep_loop (fuel : nat) (current : Z) : stM MS unit :=
  match fuel with
  | O => λ _, Diverge
  | S fuel =>
      if decide (current = NULL) then mret tt
      else
        hd ← ms_load current;
        let next_ := next hd in
        _ ← (if negb (marked hd) then
               _ ← modify (λ s, set_ms_stats (stats_collect (ms_size hd) (ms_stats s)) s);
               _ ← remove_allocation current;
               ms_free current
             else mret tt);
        sweep_loop fuel next_
  end.

Definition sweep_phase : stM MS unit :=
  fuel ← gets list_fuel;
  current ← gets allocation_list;
  sweep_loop fuel current.

Definition collect_garbage (env : Env) : stM MS unit :=
  _ ← mark_phase env; sweep_phase.

Definition ms_alloc (env : Env) (size : Z) : stM MS Z :=
  let total := size_add sizeof_MSHeader size in
  let header := malloc_result env in
  if decide (header = NULL) then mret NULL
  else
    _ ← modify (λ s, set_ms_heap (<[header := mkMSHeader false total NULL NULL]> (ms_heap s)) s);
    _ ← add_allocation header;
    _ ← modify (λ s, set_ms_stats (stats_alloc total (ms_stats s)) s);
    current ← gets (λ s, current_bytes (ms_stats s));
    threshold ← gets GC_THRESHOLD;
    _ ← (if threshold <? current then collect_garbage env else mret tt);
    mret (header + sizeof_MSHeader).

Definition ms_dealloc (ptr : Z) : stM MS unit :=
  if decide (ptr = NULL) then mret tt
  else
    let header := ptr - sizeof_MSHeader in
    _ ← remove_allocation header;
    hd ← ms_load header;
    _ ← modify (λ s, set_ms_stats (stats_dealloc (ms_size hd) (ms_stats s)) s);
    ms_free header.

Definition ms_gc (env : Env) : stM MS unit := collect_garbage env.
Definition ms_scope_end : stM MS unit := mret tt.
Definition ms_get_stats : stM MS AllocatorStats := gets ms_stats.

(** [root_index] and [roots] are left as they are. *)
Definition ms_init (env : Env) : stM MS unit :=
  _ ← modify (set_stack_bottom (frame_address env));
  _ ← modify (set_allocation_list NULL);
  modify (set_ms_stats stats_zero).

Fixpoint shutdown_loop (fuel : nat) : stM MS unit :=
  match fuel with
  | O => λ _, Diverge
  | S fuel =>
      first ← gets allocation_list;
      if decide (first = NULL) then mret tt
      else
        hd ← ms_load first;
        _ ← ms_free first;
        _ ← modify (set_allocation_list (next hd));
        shutdown_loop fuel
  end.

Definition ms_shutdown (env : Env) : stM MS unit :=
  _ ← collect_garbage env;
  fuel ← gets list_fuel;
  shutdown_loop fuel.

Definition ms_set_gc_threshold (threshold : Z) : stM MS unit :=
  modify (set_GC_THRESHOLD threshold).

Definition mark_sweep_allocator : RuntimeAllocator MS := {|
  name := "Mark-Sweep GC";
  alloc := ms_alloc;
  dealloc := ms_dealloc;
  gc := ms_gc;
  scope_end := Some ms_scope_end;
  get_stats := ms_get_stats;
  init := ms_init;
  shutdown := ms_shutdown;
  inc_ref_count := None;
  dec_ref_count := None;
  set_gc_threshold := Some ms_set_gc_threshold;
  register_root := Some ms_register_root
|}.
