(* ===== verification/MarkSweepList.v ===== *)
(** The allocation list of the mark-sweep allocator: the doubly linked list represents a
    list of blocks, and the operations on it are those of lists. *)
From S2P Require Import Prelude Errors CppString Allocator MarkSweep.
#[local] Open Scope Z_scope.

(** The first block of [l], or what follows [l]. *)
Definition hd_or (l : list Z) (n : Z) : Z := match l with [] => n | x :: _ => x end.
(** The last block of [l], or what precedes [l]. *)
Fixpoint last_or (p : Z) (l : list Z) : Z := match l with [] => p | x :: l => last_or x l end.

(** [l] is linked in [m] between the block [p] before it and [n] after it. *)
Fixpoint linked (m : gmap Z MSHeader) (p : Z) (l : list Z) (n : Z) : Prop :=
  match l with
  | [] => True
  | x :: l => ∃ hd, m !! x = Some hd ∧ prev hd = p ∧ next hd = hd_or l n ∧ linked m x l n
  end.

Lemma linked_app m p l1 l2 n :
  linked m p (l1 ++ l2) n ↔ linked m p l1 (hd_or l2 n) ∧ linked m (last_or p l1) l2 n.
Proof.
  revert p. induction l1 as [|x l1 IH]; intros p; simpl; [tauto|].
  assert (hd_or (l1 ++ l2) n = hd_or l1 (hd_or l2 n)) as -> by (by destruct l1).
  setoid_rewrite IH. naive_solver.
Qed.

Lemma linked_ext m m' p l n :
  (∀ x, x ∈ l → m' !! x = m !! x) → linked m p l n → linked m' p l n.
Proof.
  revert p. induction l as [|x l IH]; intros p Hext; [done|]. simpl.
  intros (hd & Hx & Hp & Hn & Hl). exists hd.
  split; [rewrite Hext; [done|by left]|]. split; [done|]. split; [done|].
  apply IH; [|done]. intros y Hy. apply Hext. by right.
Qed.

Lemma linked_live m p l n x : linked m p l n → x ∈ l → is_Some (m !! x).
Proof.
  revert p. induction l as [|y l IH]; intros p; [by intros _ ?%not_elem_of_nil|].
  intros (hd & Hy & _ & _ & Hl) [->|Hx]%elem_of_cons; eauto.
Qed.

(** Redirecting the pointers at the two ends. *)
Lemma linked_next m p l x n n' :
  x ∉ l → linked m p (l ++ [x]) n → ∀ hd, m !! x = Some hd →
  linked (<[x := with_next n' hd]> m) p (l ++ [x]) n'.
Proof.
  intros Hx (H1 & hd' & E & Hp & _)%linked_app hd Hhd. apply linked_app. split.
  - eapply linked_ext; [|exact H1]. intros y Hy. rewrite lookup_insert_ne; [done|]. by intros <-.
  - simpl in *. exists (with_next n' hd). rewrite lookup_insert_eq. simplify_eq. done.
Qed.

Lemma linked_prev m p p' x l n hd :
  x ∉ l → linked m p (x :: l) n → m !! x = Some hd →
  linked (<[x := with_prev p' hd]> m) p' (x :: l) n.
Proof.
  intros Hx (hd' & E & Hp & Hn & Hl) Hhd. exists (with_prev p' hd). rewrite lookup_insert_eq.
  simplify_eq. split; [done|]. split; [done|]. split; [done|].
  eapply linked_ext; [|exact Hl]. intros y Hy. rewrite lookup_insert_ne; [done|]. by intros <-.
Qed.

(** Updates that keep the links. *)
Definition same_links (m m' : gmap Z MSHeader) : Prop :=
  ∀ x hd, m !! x = Some hd → ∃ hd', m' !! x = Some hd' ∧ next hd' = next hd ∧ prev hd' = prev hd.

Lemma linked_same m m' p l n : same_links m m' → linked m p l n → linked m' p l n.
Proof.
  intros Hs. revert p. induction l as [|x l IH]; intros p; [done|].
  intros (hd & Hx & Hp & Hn & Hl). destruct (Hs _ _ Hx) as (hd' & ? & En & Ep).
  exists hd'. rewrite En, Ep. eauto.
Qed.

(** The state represents the list [l] of live blocks. *)
Record represents (s : MS) (l : list Z) : Prop := {
  rp_first : allocation_list s = hd_or l NULL;
  rp_linked : linked (ms_heap s) NULL l NULL;
  rp_nodup : NoDup l;
  rp_positive : Forall (λ x, 0 < x) l
}.

Lemma represents_length s l : represents s l → (length l < list_fuel s)%nat.
Proof.
  intros [_ Hl Hnd _]. unfold list_fuel. apply le_n_S.
  rewrite <-(size_list_to_set (C:=gset Z) l), <-size_dom by done.
  apply subseteq_size. intros x Hx%elem_of_list_to_set. apply elem_of_dom.
  by eapply linked_live.
Qed.

Lemma last_or_snoc p l x : last_or p (l ++ [x]) = x.
Proof. revert p. induction l as [|y l IH]; intros p; simpl; [done|apply IH]. Qed.

Lemma ms_load_live s h hd : ms_heap s !! h = Some hd → ms_load h s = Ret (hd, s).
Proof. intros Hh. unfold ms_load, mbind, stM_bind, gets. by rewrite Hh. Qed.

Lemma ms_update_live s h hd f :
  ms_heap s !! h = Some hd →
  ms_update h f s = Ret (tt, set_ms_heap (<[h := f hd]> (ms_heap s)) s).
Proof. intros Hh. unfold ms_update. by rewrite (bind_step _ _ _ _ _ (ms_load_live _ _ _ Hh)). Qed.

Lemma ms_free_live s h hd :
  ms_heap s !! h = Some hd →
  ms_free h s = Ret (tt, set_ms_heap (delete h (ms_heap s)) s).
Proof. intros Hh. unfold ms_free. by rewrite (bind_step _ _ _ _ _ (ms_load_live _ _ _ Hh)). Qed.

(** The rest of a state: everything but the heap and the head of the list. *)
Definition same_rest (s s' : MS) : Prop :=
  s' = set_allocation_list (allocation_list s') (set_ms_heap (ms_heap s') s).

(** What an operation on the links may do to the headers. *)
Definition same_blocks (m m' : gmap Z MSHeader) : Prop :=
  ∀ x, match m !! x, m' !! x with
       | Some hd, Some hd' => marked hd' = marked hd ∧ ms_size hd' = ms_size hd
       | None, None => True
       | _, _ => False
       end.

Lemma same_blocks_refl m : same_blocks m m.
Proof. intros x. by destruct (m !! x). Qed.

Lemma same_blocks_trans m1 m2 m3 : same_blocks m1 m2 → same_blocks m2 m3 → same_blocks m1 m3.
Proof.
  intros H1 H2 x. specialize (H1 x). specialize (H2 x).
  destruct (m1 !! x), (m2 !! x), (m3 !! x); try done. destruct H1, H2. split; congruence.
Qed.

Lemma same_blocks_insert m x hd hd' :
  m !! x = Some hd → marked hd' = marked hd → ms_size hd' = ms_size hd →
  same_blocks m (<[x := hd']> m).
Proof.
  intros Hx Hm Hs y. destruct (decide (y = x)) as [->|Hne].
  - by rewrite Hx, lookup_insert_eq.
  - rewrite lookup_insert_ne by done. by destruct (m !! y).
Qed.

Lemma represents_intro s l m a :
  a = hd_or l NULL → linked m NULL l NULL → NoDup l → Forall (λ x, 0 < x) l →
  represents (set_allocation_list a (set_ms_heap m s)) l.
Proof. intros. by split. Qed.

Lemma add_allocation_ok s l h hd :
  represents s l → ms_heap s !! h = Some hd → h ∉ l → 0 < h →
  ∃ s', add_allocation h s = Ret (tt, s') ∧ represents s' (h :: l) ∧
        same_blocks (ms_heap s) (ms_heap s') ∧ same_rest s s'.
Proof.
  intros [Hf Hl Hnd Hpos] Hh Hin Hp.
  set (hd1 := with_next (hd_or l NULL) hd). set (hd2 := with_prev NULL hd1).
  set (m2 := <[h := hd2]> (<[h := hd1]> (ms_heap s))).
  assert (m2 !! h = Some hd2) as H2 by apply lookup_insert_eq.
  assert (same_blocks (ms_heap s) m2) as B2.
  { eapply same_blocks_trans; [by eapply (same_blocks_insert _ h hd hd1)|].
    eapply (same_blocks_insert _ h hd1 hd2); [apply lookup_insert_eq|done..]. }
  assert (∀ x, x ∈ l → m2 !! x = ms_heap s !! x) as E2.
  { intros x Hx. assert (x ≠ h) by (by intros ->). unfold m2. by rewrite !lookup_insert_ne. }
  unfold add_allocation. rewrite bind_gets, Hf.
  rewrite (bind_step _ _ _ _ _ (ms_update_live _ _ _ _ Hh)).
  rewrite (bind_step _ _ _ _ _ (ms_update_live _ h hd1 _ (lookup_insert_eq _ _ _))).
  cbn [ms_heap set_ms_heap]. fold hd1 hd2 m2.
  destruct l as [|x l]; cbn [hd_or] in *.
  - rewrite decide_False by (unfold NULL; lia).
    eexists. split; [reflexivity|]. split; [|split; [exact B2|done]].
    apply represents_intro; [done| |by apply NoDup_singleton|by constructor].
    simpl. exists hd2. done.
  - pose proof Hl as (hdx & Hx & _). apply Forall_cons in Hpos as [Hxp Hpos'].
    rewrite decide_True by (unfold NULL; lia).
    assert (m2 !! x = Some hdx) as Hx2 by (rewrite E2; [done|by left]).
    rewrite (bind_step _ _ _ _ _ (ms_update_live (set_ms_heap m2 _) x hdx _ Hx2)).
    eexists. split; [reflexivity|]. cbn [ms_heap set_ms_heap set_allocation_list].
    assert (h ≠ x) by (intros ->; apply Hin; by left).
    split; [|split; [|done]].
    + apply represents_intro; [done| |by apply NoDup_cons|by repeat constructor].
      exists hd2. rewrite lookup_insert_ne by done. split; [done|]. split; [done|]. split; [done|].
      apply NoDup_cons in Hnd as [Hxl _].
      apply (linked_prev _ NULL); [done| |done]. by eapply linked_ext.
    + eapply same_blocks_trans; [exact B2|]. by eapply same_blocks_insert.
Qed.

(** The first half of [remove_allocation]: the link that leads to [h] is made to skip it. *)
Lemma unlink_before s pre h post n :
  allocation_list s = hd_or (pre ++ h :: post) NULL →
  linked (ms_heap s) NULL pre h → NoDup pre → Forall (λ x, 0 < x) pre → n = hd_or post NULL →
  ∃ m a, (if decide (last_or NULL pre ≠ NULL) then ms_update (last_or NULL pre) (with_next n)
          else modify (set_allocation_list n)) s
         = Ret (tt, set_allocation_list a (set_ms_heap m s)) ∧
    a = hd_or (pre ++ post) NULL ∧ linked m NULL pre n ∧
    same_blocks (ms_heap s) m ∧ (∀ x, x ∉ pre → m !! x = ms_heap s !! x).
Proof.
  intros Hf Hpre Hnd Hpos ->. induction pre as [|y pre _] using rev_ind; simpl.
  - exists (ms_heap s), (hd_or post NULL).
    split; [by destruct s|]. split; [done|]. split; [done|]. split; [apply same_blocks_refl|done].
  - rewrite last_or_snoc. apply Forall_app in Hpos as [_ [Py _]%Forall_cons].
    rewrite decide_True by (unfold NULL; lia).
    destruct (linked_live _ _ _ _ y Hpre) as [hdy Hy]; [apply elem_of_app; right; by left|].
    rewrite (ms_update_live _ _ _ _ Hy).
    exists (<[y := with_next (hd_or post NULL) hdy]> (ms_heap s)), (allocation_list s).
    split; [by destruct s|]. split; [|split; [|split]].
    + rewrite Hf. by destruct pre.
    + apply NoDup_app in Hnd as (_ & Hd & _). eapply linked_next; [|exact Hpre|done].
      intros Hin. apply (Hd _ Hin). by left.
    + by eapply same_blocks_insert.
    + intros x Hx. rewrite lookup_insert_ne; [done|]. intros <-. apply Hx, elem_of_app.
      right. by left.
Qed.

Lemma remove_allocation_ok s pre h post :
  represents s (pre ++ h :: post) →
  ∃ s', remove_allocation h s = Ret (tt, s') ∧ represents s' (pre ++ post) ∧
        same_blocks (ms_heap s) (ms_heap s') ∧ same_rest s s'.
Proof.
  intros [Hf Hl Hnd Hpos].
  apply linked_app in Hl as [Hpre (hd & Hh & Hp & Hn & Hpost)]. cbn [hd_or] in Hpre.
  apply NoDup_app in Hnd as (Hnd1 & Hdisj & [Hh2 Hnd2]%NoDup_cons).
  assert (h ∉ pre) as Hh1 by (intros Hin; apply (Hdisj _ Hin); by left).
  assert (∀ x, x ∈ pre → x ∉ post) as Hpp by (intros x Hx Hx'; apply (Hdisj _ Hx); by right).
  apply Forall_app in Hpos as [P1 [_ P2]%Forall_cons].
  destruct (unlink_before s pre h post (next hd) Hf Hpre Hnd1 P1 Hn)
    as (m1 & a & H1 & Ha & L1 & B1 & E1).
  assert (m1 !! h = Some hd) as Hh1' by (by rewrite E1).
  unfold remove_allocation. rewrite (bind_step _ _ _ _ _ (ms_load_live _ _ _ Hh)).
  rewrite <-Hp in H1. rewrite (bind_step _ _ _ _ _ H1).
  set (s1 := set_allocation_list a (set_ms_heap m1 s)).
  rewrite (bind_step _ _ _ _ _ (ms_load_live s1 h hd Hh1')), Hn.
  assert (linked m1 h post NULL) as Lpost.
  { eapply linked_ext; [|exact Hpost]. intros x Hx. apply E1. intros Hx'. by apply (Hpp x). }
  rewrite Hn in L1. destruct post as [|z post]; cbn [hd_or] in *.
  - rewrite decide_False by (by intros []). exists s1. split; [done|].
    split; [|split; [exact B1|done]]. rewrite app_nil_r in *.
    by apply represents_intro.
  - rewrite decide_True by (apply Forall_cons in P2 as [? _]; unfold NULL; lia).
    pose proof Lpost as (hdz & Hz & _).
    rewrite (ms_update_live s1 z hdz _ Hz). eexists. split; [reflexivity|].
    cbn [ms_heap set_ms_heap s1 set_allocation_list].
    split; [|split; [by eapply same_blocks_trans, same_blocks_insert|done]].
    split; cbn [allocation_list ms_heap set_ms_heap set_allocation_list s1]; [done| |..].
    + apply linked_app. split.
      * eapply linked_ext; [|exact L1]. intros x Hx. rewrite lookup_insert_ne; [done|].
        intros <-. apply (Hpp _ Hx). by left.
      * rewrite Hp. eapply linked_prev; [|exact Lpost|done]. by apply NoDup_cons in Hnd2 as [? _].
    + by apply NoDup_app.
    + by apply Forall_app.
Qed.
