(* ===== verification/MarkSweepProps.v ===== *)
(** The mark-sweep collector: marking computes reachability, sweeping keeps exactly the
    marked blocks, and what follows for allocation and shutdown. *)
From S2P Require Import Prelude Errors CppString Allocator MarkSweep MarkSweepList.
#[local] Open Scope Z_scope.

(** ** Conservative pointers *)

Definition in_block (m : gmap Z MSHeader) (v x : Z) : bool :=
  match m !! x with Some hd => in_payload x (ms_size hd) v | None => false end.

(** The block a word points into: the first of the list whose payload holds it. *)
Definition target (m : gmap Z MSHeader) (l : list Z) (v : Z) : option Z :=
  if decide (v = NULL) then None else List.find (in_block m v) l.

Lemma target_elem m l v x : target m l v = Some x → x ∈ l.
Proof.
  unfold target. case_decide; [done|]. intros [Hin _]%find_some. by apply list_elem_of_In.
Qed.

Lemma find_header_loop_ok s v : ∀ fuel l p,
  (length l < fuel)%nat → linked (ms_heap s) p l NULL → Forall (λ x, 0 < x) l →
  find_header_loop fuel (hd_or l NULL) v s
  = Ret (default NULL (List.find (in_block (ms_heap s) v) l), s).
Proof.
  induction fuel as [|fuel IH]; intros l p Hf Hl Hpos; [lia|]. cbn [find_header_loop].
  destruct l as [|x l]; cbn [hd_or List.find]; [by rewrite decide_True|].
  destruct Hl as (hd & Hx & _ & Hn & Hl). apply Forall_cons in Hpos as [Hxp Hpos].
  rewrite decide_False by (unfold NULL; lia).
  rewrite (bind_step _ _ _ _ _ (ms_load_live _ _ _ Hx)). unfold in_block at 1. rewrite Hx.
  destruct (in_payload x (ms_size hd) v); [done|]. rewrite Hn. eapply IH; [|done..].
  simpl in Hf. lia.
Qed.

Lemma is_valid_pointer_loop_ok s v : ∀ fuel l p,
  (length l < fuel)%nat → linked (ms_heap s) p l NULL → Forall (λ x, 0 < x) l →
  is_valid_pointer_loop fuel (hd_or l NULL) v s
  = Ret (match List.find (in_block (ms_heap s) v) l with Some _ => true | None => false end, s).
Proof.
  induction fuel as [|fuel IH]; intros l p Hf Hl Hpos; [lia|]. cbn [is_valid_pointer_loop].
  destruct l as [|x l]; cbn [hd_or List.find]; [by rewrite decide_True|].
  destruct Hl as (hd & Hx & _ & Hn & Hl). apply Forall_cons in Hpos as [Hxp Hpos].
  rewrite decide_False by (unfold NULL; lia).
  rewrite (bind_step _ _ _ _ _ (ms_load_live _ _ _ Hx)). unfold in_block at 1. rewrite Hx.
  destruct (in_payload x (ms_size hd) v); [done|]. rewrite Hn. eapply IH; [|done..].
  simpl in Hf. lia.
Qed.

Lemma find_header_ok s l v :
  represents s l → find_header v s = Ret (default NULL (target (ms_heap s) l v), s).
Proof.
  intros Hr. pose proof (represents_length _ _ Hr). destruct Hr as [Hf Hl _ Hpos].
  unfold find_header, target. case_decide; [done|]. rewrite !bind_gets, Hf.
  by eapply find_header_loop_ok.
Qed.

Lemma is_valid_pointer_ok s l v :
  represents s l →
  is_valid_pointer v s
  = Ret (match target (ms_heap s) l v with Some _ => true | None => false end, s).
Proof.
  intros Hr. pose proof (represents_length _ _ Hr). destruct Hr as [Hf Hl _ Hpos].
  unfold is_valid_pointer, target. case_decide; [done|]. rewrite !bind_gets, Hf.
  by eapply is_valid_pointer_loop_ok.
Qed.

(** ** Marking *)

(** Only marks differ. *)
Record only_marks (s s' : MS) : Prop := {
  om_rest : s' = set_ms_heap (ms_heap s') s;
  om_heap : ∀ x, match ms_heap s !! x, ms_heap s' !! x with
                 | Some hd, Some hd' => hd' = with_marked (marked hd') hd
                 | None, None => True
                 | _, _ => False
                 end
}.

Lemma only_marks_refl s : only_marks s s.
Proof.
  split; [by destruct s|]. intros x. destruct (ms_heap s !! x) as [[]|]; done.
Qed.

Lemma only_marks_trans s1 s2 s3 : only_marks s1 s2 → only_marks s2 s3 → only_marks s1 s3.
Proof.
  intros [R1 H1] [R2 H2]. split.
  - rewrite R2, R1. by destruct s1.
  - intros x. specialize (H1 x). specialize (H2 x).
    destruct (ms_heap s1 !! x) as [h1|], (ms_heap s2 !! x) as [h2|], (ms_heap s3 !! x) as [h3|];
      try done. rewrite H2, H1. by destruct h1.
Qed.

Lemma only_marks_update s x hd b :
  ms_heap s !! x = Some hd →
  only_marks s (set_ms_heap (<[x := with_marked b hd]> (ms_heap s)) s).
Proof.
  intros Hx. split; [by destruct s|]. intros y. simpl. destruct (decide (y = x)) as [->|Hne].
  - by rewrite Hx, lookup_insert_eq.
  - rewrite lookup_insert_ne by done. by destruct (ms_heap s !! y) as [[]|].
Qed.

Lemma only_marks_represents s s' l : only_marks s s' → represents s l → represents s' l.
Proof.
  intros [R H] [Hf Hl Hnd Hpos]. split; [|..|done|done].
  - rewrite R. exact Hf.
  - eapply linked_same; [|exact Hl]. intros x hd Hx. specialize (H x). rewrite Hx in H.
    destruct (ms_heap s' !! x) as [hd'|]; [|done]. exists hd'. by rewrite H.
Qed.

Lemma only_marks_in_block s s' v x :
  only_marks s s' → in_block (ms_heap s') v x = in_block (ms_heap s) v x.
Proof.
  intros [_ H]. specialize (H x). unfold in_block.
  destruct (ms_heap s !! x), (ms_heap s' !! x); try done. by rewrite H.
Qed.

Lemma only_marks_target s s' l v :
  only_marks s s' → target (ms_heap s') l v = target (ms_heap s) l v.
Proof.
  intros H. unfold target. case_decide; [done|].
  induction l as [|x l IH]; [done|]. simpl. by rewrite (only_marks_in_block _ _ _ _ H), IH.
Qed.

Definition is_marked (s : MS) (x : Z) : bool :=
  match ms_heap s !! x with Some hd => marked hd | None => false end.

Lemma is_marked_update s y hd b :
  ms_heap s !! y = Some hd →
  ∀ x, is_marked (set_ms_heap (<[y := with_marked b hd]> (ms_heap s)) s) x
       = if bool_decide (x = y) then b else is_marked s x.
Proof.
  intros Hhd x. unfold is_marked. simpl. case_bool_decide as Hx.
  - subst. by rewrite lookup_insert_eq.
  - by rewrite lookup_insert_ne.
Qed.

Lemma only_marks_size s s' y hd' :
  only_marks s s' → ms_heap s' !! y = Some hd' →
  ∃ hd, ms_heap s !! y = Some hd ∧ ms_size hd = ms_size hd'.
Proof.
  intros Ho Hhd. pose proof (om_heap _ _ Ho y) as H. rewrite Hhd in H.
  destruct (ms_heap s !! y) as [hd|]; [|done]. exists hd. by rewrite H.
Qed.

Definition unmarked (s : MS) (l : list Z) : nat :=
  length (filter (λ x, is_marked s x = false) l).

Lemma unmarked_mono s s' l :
  (∀ x, is_marked s x = true → is_marked s' x = true) → (unmarked s' l ≤ unmarked s l)%nat.
Proof.
  intros Hg. unfold unmarked. induction l as [|x l IH]; [done|]. rewrite !filter_cons.
  specialize (Hg x). destruct (is_marked s x), (is_marked s' x); simpl; lia.
Qed.

Lemma unmarked_lt s s' l y :
  (∀ x, is_marked s x = true → is_marked s' x = true) → y ∈ l →
  is_marked s y = false → is_marked s' y = true → (unmarked s' l < unmarked s l)%nat.
Proof.
  intros Hg Hy H1 H2. apply list_elem_of_split in Hy as (l1 & l2 & ->).
  pose proof (unmarked_mono s s' l1 Hg). pose proof (unmarked_mono s s' l2 Hg).
  unfold unmarked in *. rewrite !filter_app, !filter_cons, !length_app, H1, H2. simpl. lia.
Qed.

Lemma unmarked_le s l : (unmarked s l ≤ length l)%nat.
Proof. apply length_filter. Qed.

Section collector.
(** The state before the collection, and the list it represents. *)
Context (s0 : MS) (l : list Z) (Hrep : represents s0 l).

Abbreviation aims v := (target (ms_heap s0) l v).

(** A payload word of [x] is a pointer into [y]. *)
Definition points (x y : Z) : Prop :=
  ∃ hd p, ms_heap s0 !! x = Some hd ∧
    p ∈ words (x + sizeof_MSHeader) (x + ms_size hd) ∧ aims (ms_memory s0 p) = Some y.

(** What marking from the words [vs] adds to the marks. *)
Record marks_from (s s' : MS) (vs : list Z) : Prop := {
  mf_grows : ∀ x, is_marked s x = true → is_marked s' x = true;
  mf_covers : ∀ v y, v ∈ vs → aims v = Some y → is_marked s' y = true;
  mf_closed : ∀ x, is_marked s' x = true →
    is_marked s x = true ∨ (∀ y, points x y → is_marked s' y = true);
  mf_sound : ∀ x, is_marked s' x = true →
    is_marked s x = true ∨ ∃ v y, v ∈ vs ∧ aims v = Some y ∧ rtc points y x
}.

Lemma marks_from_nil s : marks_from s s [].
Proof. split; auto. intros v y Hv. by apply not_elem_of_nil in Hv. Qed.

Lemma marks_from_same s vs :
  (∀ v y, v ∈ vs → aims v = Some y → is_marked s y = true) → marks_from s s vs.
Proof. split; auto. Qed.

Lemma marks_from_app s1 s2 s3 vs1 vs2 :
  marks_from s1 s2 vs1 → marks_from s2 s3 vs2 → marks_from s1 s3 (vs1 ++ vs2).
Proof.
  intros [G1 C1 K1 S1] [G2 C2 K2 S2]. split; [by eauto|..].
  - intros v y [Hv|Hv]%elem_of_app Hy; eauto.
  - intros x [Hx|Hx]%K2; [|by right]. apply K1 in Hx as [Hx|Hx]; [by left|right; eauto].
  - intros x [Hx|(v & y & Hv & Hy & Hr)]%S2.
    + apply S1 in Hx as [Hx|(v & y & Hv & Hy & Hr)]; [by left|].
      right. exists v, y. rewrite elem_of_app. auto.
    + right. exists v, y. rewrite elem_of_app. auto.
Qed.

(** A visit of a word [v] by [f]. *)
Definition visits (n : nat) (f : stM MS unit) (v : Z) : Prop :=
  ∀ s, only_marks s0 s → (unmarked s l < n)%nat →
  ∃ s', f s = Ret (tt, s') ∧ only_marks s0 s' ∧ marks_from s s' [v].

Lemma visits_forM n (f : Z → stM MS unit) (g : Z → Z) ps s :
  (∀ p, p ∈ ps → visits n (f p) (g p)) → only_marks s0 s → (unmarked s l < n)%nat →
  ∃ s', forM_ f ps s = Ret (tt, s') ∧ only_marks s0 s' ∧ marks_from s s' (g <$> ps).
Proof.
  revert s. induction ps as [|p ps IH]; intros s Hf Ho Hn.
  - exists s. split; [done|]. split; [done|]. apply marks_from_nil.
  - destruct (Hf p) with s as (s1 & H1 & O1 & M1); [by left|done..|].
    destruct (IH s1) as (s2 & H2 & O2 & M2); [by intros; apply Hf; right|done| |].
    { pose proof (unmarked_mono _ _ l (mf_grows _ _ _ M1)). lia. }
    exists s2. cbn [forM_]. rewrite (bind_step _ _ _ _ _ H1). split; [done|]. split; [done|].
    by apply (marks_from_app _ s1 _ [g p]).
Qed.

(** Every payload is a whole number of words. *)
Definition word_sized : Prop :=
  ∀ x hd, x ∈ l → ms_heap s0 !! x = Some hd → ms_size hd `mod` sizeof_pointer = 0.

Lemma words_inside x size p :
  size `mod` sizeof_pointer = 0 → p ∈ words (x + sizeof_MSHeader) (x + size) →
  p + sizeof_pointer <= x + size.
Proof.
  intros Hm (i & -> & Hi)%list_elem_of_fmap. apply elem_of_seqZ in Hi.
  unfold sizeof_MSHeader, sizeof_pointer in *.
  pose proof (Z.div_mod size 8 ltac:(lia)) as Hd. rewrite Hm in Hd.
  assert ((x + size - (x + 32) + 7) `div` 8 = size `div` 8 - 4) as Hq; [|lia].
  replace (x + size - (x + 32) + 7) with (7 + (size `div` 8 - 4) * 8) by lia.
  rewrite Z.div_add by lia. done.
Qed.

(** The visit of a word that is marked if it is a pointer. *)
Lemma visits_valid n v :
  visits n (mark n v) v →
  visits n (valid ← is_valid_pointer v; if (valid : bool) then mark n v else mret tt) v.
Proof.
  intros Hm s Ho Hn. pose proof (only_marks_represents _ _ _ Ho Hrep) as Hr.
  rewrite (bind_step _ _ _ _ _ (is_valid_pointer_ok _ _ v Hr)).
  rewrite (only_marks_target _ _ _ _ Ho).
  destruct (aims v) as [y|] eqn:E; [by apply Hm|].
  exists s. split; [done|]. split; [done|]. apply marks_from_same.
  intros v' y ->%list_elem_of_singleton. congruence.
Qed.

(** Marking one block and then the blocks its payload points into. *)
Lemma marks_from_block s s1 s2 v y hd0 :
  aims v = Some y → ms_heap s0 !! y = Some hd0 →
  (∀ x, is_marked s1 x = (bool_decide (x = y) || is_marked s x)) →
  marks_from s1 s2 (ms_memory s0 <$> words (y + sizeof_MSHeader) (y + ms_size hd0)) →
  marks_from s s2 [v].
Proof.
  intros Ey Hhd0 M1 [G2 C2 K2 S2].
  assert (is_marked s2 y = true) as My by (apply G2; by rewrite M1, bool_decide_true).
  assert (∀ x, is_marked s1 x = true → x = y ∨ is_marked s x = true) as Hs1.
  { intros x. rewrite M1. intros [?%bool_decide_eq_true|?]%orb_true_iff; auto. }
  assert (∀ z, points y z ↔ ∃ w, w ∈ ms_memory s0 <$> words (y + sizeof_MSHeader) (y + ms_size hd0)
                                 ∧ aims w = Some z) as Hpts.
  { intros z. unfold points. split.
    - intros (hd' & p & Hhd' & Hp & Hz). simplify_eq. eexists. split; [|exact Hz].
      by apply list_elem_of_fmap_2.
    - intros (w & (p & -> & Hp)%list_elem_of_fmap & Hz). eauto. }
  split.
  - intros x Hx. apply G2. by rewrite M1, Hx, orb_true_r.
  - intros w y' ->%list_elem_of_singleton Hy'. by simplify_eq.
  - intros x [[->|Hx]%Hs1|Hx]%K2; [|by left|by right].
    right. intros z (w & Hw & Hz)%Hpts. eauto.
  - intros x [[->|Hx]%Hs1|(w & z & Hw & Hz & Hzx)]%S2; [|by left|]; right; exists v, y.
    + split; [by left|]. split; [done|apply rtc_refl].
    + split; [by left|]. split; [done|]. eapply rtc_l; [|exact Hzx]. apply Hpts. eauto.
Qed.

(** The loop over a payload of whole words stays inside the block. *)
Lemma payload_visits (Hws : word_sized) n y hd0 s :
  (∀ v, visits n (mark n v) v) → y ∈ l → ms_heap s0 !! y = Some hd0 →
  only_marks s0 s → (unmarked s l < n)%nat →
  let ps := words (y + sizeof_MSHeader) (y + ms_size hd0) in
  ∃ s', forM_ (λ p : Z,
          if y + ms_size hd0 <? p + sizeof_pointer then crashM Overread
          else v ← read_word p; valid ← is_valid_pointer v;
               if (valid : bool) then mark n v else mret tt) ps s = Ret (tt, s') ∧
        only_marks s0 s' ∧ marks_from s s' (ms_memory s0 <$> ps).
Proof.
  intros Hm Hy Hhd0 Ho Hn. apply (visits_forM n); [|done..]. intros p Hp t Ot Ht.
  pose proof (words_inside _ _ _ (Hws _ _ Hy Hhd0) Hp) as Hin.
  destruct (Z.ltb_spec (y + ms_size hd0) (p + sizeof_pointer)); [lia|].
  unfold read_word. rewrite bind_gets.
  replace (ms_memory t p) with (ms_memory s0 p) by (by rewrite (om_rest _ _ Ot)).
  by apply visits_valid.
Qed.

Lemma mark_visits (Hws : word_sized) fuel : ∀ v, visits fuel (mark fuel v) v.
Proof.
  induction fuel as [|fuel IH]; intros v s Ho Hn; [lia|].
  pose proof (only_marks_represents _ _ _ Ho Hrep) as Hr. cbn [mark].
  rewrite (bind_step _ _ _ _ _ (find_header_ok _ _ v Hr)), (only_marks_target _ _ _ _ Ho).
  destruct (aims v) as [y|] eqn:Ey; cbn [default].
  2:{ rewrite decide_True by done. exists s. split; [done|]. split; [done|].
      apply marks_from_same. intros v' y ->%list_elem_of_singleton. congruence. }
  pose proof (target_elem _ _ _ _ Ey) as Hy. unfold id.
  destruct (linked_live _ _ _ _ _ (rp_linked _ _ Hr) Hy) as [hd Hhd].
  pose proof (proj1 (Forall_forall _ _) (rp_positive _ _ Hr) y Hy) as Hyp. simpl in Hyp.
  rewrite decide_False by (unfold NULL; lia).
  rewrite (bind_step _ _ _ _ _ (ms_load_live _ _ _ Hhd)).
  destruct (marked hd) eqn:Em.
  { exists s. split; [done|]. split; [done|]. apply marks_from_same.
    intros v' y' ->%list_elem_of_singleton Hy'. simplify_eq. unfold is_marked. by rewrite Hhd. }
  rewrite (bind_step _ _ _ _ _ (ms_update_live _ _ _ _ Hhd)).
  set (s1 := set_ms_heap _ s).
  assert (only_marks s0 s1) as O1 by (eapply only_marks_trans; [done|by apply only_marks_update]).
  pose proof (is_marked_update s y hd true Hhd) as M1. fold s1 in M1.
  destruct (only_marks_size _ _ _ _ Ho Hhd) as (hd0 & Hhd0 & Hsz). rewrite <-Hsz.
  assert ((unmarked s1 l < unmarked s l)%nat) as Hlt.
  { apply (unmarked_lt _ _ _ y); [|done| |].
    - intros x Hx. rewrite M1. case_bool_decide; done.
    - unfold is_marked. by rewrite Hhd.
    - by rewrite M1, bool_decide_true. }
  destruct (payload_visits Hws fuel y hd0 s1 IH Hy Hhd0 O1) as (s2 & H2 & O2 & M2); [lia|].
  exists s2. split; [exact H2|]. split; [done|]. eapply marks_from_block; [done..| |done].
  intros x. rewrite M1. by case_bool_decide.
Qed.

Lemma mark_word_visits (Hws : word_sized) p :
  visits (list_fuel s0) (mark_word p) (ms_memory s0 p).
Proof.
  intros s Ho Hn. unfold mark_word, read_word. rewrite bind_gets.
  replace (ms_memory s p) with (ms_memory s0 p) by (by rewrite (om_rest _ _ Ho)).
  destruct (visits_valid (list_fuel s) (ms_memory s0 p) (mark_visits Hws _ _) s Ho)
    as (s' & H' & ? & ?).
  { pose proof (represents_length _ _ (only_marks_represents _ _ _ Ho Hrep)).
    pose proof (unmarked_le s l). lia. }
  exists s'. split; [|done]. rewrite <-H'.
  pose proof (only_marks_represents _ _ _ Ho Hrep) as Hr.
  rewrite !(bind_step _ _ _ _ _ (is_valid_pointer_ok _ _ _ Hr)).
  by destruct (target _ _ _).
Qed.
End collector.

(** ** The mark phase *)

(** The words the collector starts from: the stack and the registered roots. *)
Definition root_words (s : MS) (env : Env) : list Z :=
  ms_memory s <$> (if frame_address env <? stack_bottom s
                   then words (frame_address env) (stack_bottom s)
                   else words (stack_bottom s) (frame_address env))
                  ++ take (Z.to_nat (root_index s)) (roots s).

Definition reachable (s : MS) (env : Env) (l : list Z) (x : Z) : Prop :=
  ∃ v y, v ∈ root_words s env ∧ target (ms_heap s) l v = Some y ∧ rtc (points s l) y x.

Lemma clear_marks_ok : ∀ fuel l p s,
  (length l < fuel)%nat → linked (ms_heap s) p l NULL → NoDup l → Forall (λ x, 0 < x) l →
  ∃ s', clear_marks fuel (hd_or l NULL) s = Ret (tt, s') ∧ only_marks s s' ∧
        ∀ x, is_marked s' x = (is_marked s x && negb (bool_decide (x ∈ l))).
Proof.
  induction fuel as [|fuel IH]; intros l p s Hf Hl Hnd Hpos; [lia|]. cbn [clear_marks].
  destruct l as [|x l]; cbn [hd_or].
  { rewrite decide_True by done. exists s. split; [done|]. split; [apply only_marks_refl|].
    intros x. by rewrite bool_decide_false, andb_true_r by (by apply not_elem_of_nil). }
  destruct Hl as (hd & Hx & _ & Hn & Hl). apply Forall_cons in Hpos as [Hxp Hpos].
  apply NoDup_cons in Hnd as [Hxl Hnd].
  rewrite decide_False by (unfold NULL; lia).
  rewrite (bind_step _ _ _ _ _ (ms_update_live _ _ _ _ Hx)).
  set (s1 := set_ms_heap _ s).
  assert (ms_heap s1 !! x = Some (with_marked false hd)) as H1 by apply lookup_insert_eq.
  assert (only_marks s s1) as O1 by by apply only_marks_update.
  rewrite (bind_step _ _ _ _ _ (ms_load_live _ _ _ H1)). cbn [next with_marked]. rewrite Hn.
  destruct (IH l x s1) as (s' & H' & O' & M'); [simpl in Hf; lia| |done..|].
  { eapply linked_ext; [|exact Hl]. intros y Hy. unfold s1. simpl. rewrite lookup_insert_ne; [done|].
    by intros <-. }
  exists s'. split; [done|]. split; [by eapply only_marks_trans|].
  intros y. rewrite M'. unfold is_marked, s1. simpl.
  destruct (decide (y = x)) as [->|Hne].
  - rewrite lookup_insert_eq, Hx. simpl. rewrite (bool_decide_true (x ∈ x :: l)) by (by left).
    by rewrite andb_false_r.
  - rewrite lookup_insert_ne by done. f_equal. f_equal. apply bool_decide_ext.
    rewrite elem_of_cons. tauto.
Qed.

Lemma mark_phase_ok s l env :
  represents s l → word_sized s l →
  ∃ s', mark_phase env s = Ret (tt, s') ∧ only_marks s s' ∧
        ∀ x, x ∈ l → is_marked s' x = true ↔ reachable s env l x.
Proof.
  intros Hr Hws. pose proof (represents_length _ _ Hr) as Hlen. pose proof Hr as [Hf Hl Hnd Hpos].
  unfold mark_phase. rewrite !bind_gets, Hf.
  destruct (clear_marks_ok _ _ _ _ Hlen Hl Hnd Hpos) as (s1 & H1 & O1 & M1).
  rewrite (bind_step _ _ _ _ _ H1). unfold conservative_scan_stack.
  assert (∀ ps t, only_marks s t → ∃ t', forM_ mark_word ps t = Ret (tt, t') ∧ only_marks s t' ∧
            marks_from s l t t' (ms_memory s <$> ps)) as Hloop.
  { intros ps t Ht. apply (visits_forM s l (list_fuel s)); [|done|].
    - intros p _. by apply mark_word_visits.
    - pose proof (unmarked_le t l). lia. }
  set (ps := if frame_address env <? stack_bottom s then words (frame_address env) (stack_bottom s)
             else words (stack_bottom s) (frame_address env)).
  destruct (Hloop ps s1 O1) as (s2 & H2 & O2 & M2).
  destruct (Hloop (take (Z.to_nat (root_index s)) (roots s)) s2 O2) as (s3 & H3 & O3 & M3).
  exists s3. split; [|split; [done|]].
  - rewrite (bind_step _ _ s1 tt s2).
    + rewrite bind_gets.
      replace (root_index s2) with (root_index s) by (by rewrite (om_rest _ _ O2)).
      replace (roots s2) with (roots s) by (by rewrite (om_rest _ _ O2)). exact H3.
    + rewrite bind_gets.
      replace (stack_bottom s1) with (stack_bottom s) by (by rewrite (om_rest _ _ O1)).
      rewrite <-H2. unfold ps. by destruct (_ <? _).
  - pose proof (marks_from_app _ _ _ _ _ _ _ M2 M3) as M. rewrite <-fmap_app in M.
    change (marks_from s l s1 s3 (root_words s env)) in M. destruct M as [G C K S].
    assert (∀ x, x ∈ l → is_marked s1 x = false) as Hclear.
    { intros x Hx. by rewrite M1, bool_decide_true, andb_false_r. }
    intros x Hx. split.
    + intros Hm. apply S in Hm as [Hm|Hm]; [by rewrite Hclear in Hm|exact Hm].
    + intros (v & y & Hv & Hy & Hyx).
      assert (is_marked s3 y = true) as Hmy by eauto.
      pose proof (target_elem _ _ _ _ Hy) as Hin. clear Hv Hy v Hx.
      induction Hyx as [y|y z x (hd & p & Hhd & Hp & Hz) _ IH]; [done|].
      apply IH; [|by eapply target_elem].
      apply K in Hmy as [Hmy|Hmy]; [by rewrite Hclear in Hmy|]. apply Hmy. by exists hd, p.
Qed.

(** ** The sweep *)

Definition block_size (s : MS) (x : Z) : Z :=
  match ms_heap s !! x with Some hd => ms_size hd | None => 0 end.

(** The blocks [dead] are gone, and accounted for; the others keep their mark and size. *)
Record swept (s s' : MS) (dead : list Z) : Prop := {
  sw_dead : ∀ x, x ∈ dead → ms_heap s' !! x = None;
  sw_kept : ∀ x, x ∉ dead →
    match ms_heap s !! x, ms_heap s' !! x with
    | Some hd, Some hd' => marked hd' = marked hd ∧ ms_size hd' = ms_size hd
    | None, None => True
    | _, _ => False
    end;
  sw_rest : s' = mkMS (stack_bottom s) (roots s) (root_index s) (GC_THRESHOLD s)
                   (allocation_list s') (ms_stats s') (ms_heap s') (ms_memory s);
  sw_stats : ms_stats s' = foldl (λ st x, stats_collect (block_size s x) st) (ms_stats s) dead
}.

Lemma swept_nil s : swept s s [].
Proof.
  split; [by intros x ?%not_elem_of_nil| |by destruct s|done].
  intros x _. by destruct (ms_heap s !! x).
Qed.

Lemma swept_cons s s1 s2 x dead :
  x ∉ dead → swept s s1 [x] → swept s1 s2 dead → swept s s2 (x :: dead).
Proof.
  intros Hx [D1 K1 R1 T1] [D2 K2 R2 T2]. split.
  - intros y Hy. destruct (decide (y ∈ dead)) as [Hin|Hnin]; [by apply D2|].
    apply elem_of_cons in Hy as [->|Hy]; [|done].
    specialize (D1 x ltac:(by left)). specialize (K2 x Hx). rewrite D1 in K2.
    by destruct (ms_heap s2 !! x).
  - intros y [Hy1 Hy2]%not_elem_of_cons. specialize (K1 y). specialize (K2 y Hy2).
    rewrite list_elem_of_singleton in K1. specialize (K1 Hy1).
    destruct (ms_heap s !! y), (ms_heap s1 !! y), (ms_heap s2 !! y); try done.
    destruct K1, K2. split; congruence.
  - rewrite R2, R1. by destruct s2.
  - rewrite T2, T1. simpl. assert (∀ y, y ∈ dead → block_size s1 y = block_size s y) as Hsz.
    { intros y Hy. unfold block_size. specialize (K1 y). rewrite list_elem_of_singleton in K1.
      destruct (ms_heap s !! y), (ms_heap s1 !! y); try (by exfalso; apply K1; intros ->);
        [|done]. apply K1. by intros ->. }
    generalize (stats_collect (block_size s x) (ms_stats s)). clear -Hsz.
    induction dead as [|y dead IH]; intros st; [done|]. simpl. rewrite Hsz by (by left).
    apply IH. intros z Hz. apply Hsz. by right.
Qed.

(** One unmarked block is taken out of the list and freed. *)
Lemma sweep_one s pre x post hd :
  represents s (pre ++ x :: post) → ms_heap s !! x = Some hd →
  ∃ s', (_ ← modify (λ s, set_ms_stats (stats_collect (ms_size hd) (ms_stats s)) s);
         _ ← remove_allocation x; ms_free x) s = Ret (tt, s') ∧
        represents s' (pre ++ post) ∧ swept s s' [x].
Proof.
  intros Hr Hx. rewrite bind_modify.
  set (s1 := set_ms_stats _ s).
  assert (represents s1 (pre ++ x :: post)) as Hr1 by (by destruct Hr; split).
  destruct (remove_allocation_ok s1 pre x post Hr1) as (s2 & H2 & Hr2 & B2 & R2).
  rewrite (bind_step _ _ _ _ _ H2).
  pose proof (B2 x) as Bx. change (ms_heap s1) with (ms_heap s) in Bx. rewrite Hx in Bx.
  destruct (ms_heap s2 !! x) as [hd2|] eqn:E2; [|done].
  rewrite (ms_free_live _ _ _ E2). eexists. split; [reflexivity|].
  pose proof (rp_nodup _ _ Hr) as Hnd. apply NoDup_app in Hnd as (_ & Hd & [Hxp _]%NoDup_cons).
  assert (x ∉ pre ++ post) as Hxn.
  { intros [Hin|Hin]%elem_of_app; [|done]. apply (Hd _ Hin). by left. }
  split.
  - destruct Hr2 as [F L N P]. split; [exact F| |done|done]. simpl.
    eapply linked_ext; [|exact L]. intros y Hy. rewrite lookup_delete_ne; [done|]. by intros <-.
  - split; simpl.
    + intros y ->%list_elem_of_singleton. apply lookup_delete_eq.
    + intros y Hy. rewrite list_elem_of_singleton in Hy. rewrite lookup_delete_ne by done.
      apply (B2 y).
    + rewrite R2. by destruct s2.
    + rewrite R2. unfold block_size. by rewrite Hx.
Qed.

Lemma sweep_loop_ok : ∀ fuel rest pre s,
  represents s (pre ++ rest) → (length rest < fuel)%nat →
  ∃ s', sweep_loop fuel (hd_or rest NULL) s = Ret (tt, s') ∧
        represents s' (pre ++ filter (λ x, is_marked s x = true) rest) ∧
        swept s s' (filter (λ x, is_marked s x = false) rest).
Proof.
  induction fuel as [|fuel IH]; intros rest pre s Hr Hf; [lia|]. cbn [sweep_loop].
  destruct rest as [|x rest]; cbn [hd_or].
  { rewrite decide_True by done. exists s. split; [done|]. split; [done|]. apply swept_nil. }
  pose proof (rp_linked _ _ Hr) as (_ & hd & Hx & _ & Hn & _)%linked_app.
  pose proof (rp_positive _ _ Hr) as (_ & [Hxp _]%Forall_cons)%Forall_app.
  pose proof (rp_nodup _ _ Hr) as (_ & _ & [Hxr _]%NoDup_cons)%NoDup_app.
  rewrite decide_False by (unfold NULL; lia).
  rewrite (bind_step _ _ _ _ _ (ms_load_live _ _ _ Hx)), Hn. simpl in Hf.
  rewrite !filter_cons. assert (is_marked s x = marked hd) as Em by (unfold is_marked; by rewrite Hx).
  destruct (marked hd) eqn:E; cbn [negb].
  - rewrite Em. simpl. rewrite bind_mret.
    destruct (IH rest (pre ++ [x]) s) as (s' & H' & R' & S'); [by rewrite <-app_assoc|lia|].
    exists s'. rewrite <-app_assoc in R'. done.
  - rewrite Em. simpl.
    destruct (sweep_one _ _ _ _ _ Hr Hx) as (s1 & H1 & R1 & S1).
    rewrite (bind_step _ _ _ _ _ H1).
    assert (∀ y, y ∈ rest → is_marked s1 y = is_marked s y) as Hsame.
    { intros y Hy. unfold is_marked. pose proof (sw_kept _ _ _ S1 y) as K.
      rewrite list_elem_of_singleton in K.
      destruct (ms_heap s !! y), (ms_heap s1 !! y); try (by exfalso; apply K; intros ->); [|done].
      apply K. by intros ->. }
    destruct (IH rest pre s1 R1) as (s' & H' & R' & S'); [lia|].
    exists s'. split; [done|].
    assert (∀ b, filter (λ y, is_marked s1 y = b) rest = filter (λ y, is_marked s y = b) rest) as Hfil.
    { intros b. clear -Hsame. induction rest as [|y rest IH]; [done|].
      rewrite !filter_cons, Hsame by (by left). rewrite IH; [done|]. intros z Hz.
      apply Hsame. by right. }
    rewrite !Hfil in *. split; [done|].
    eapply swept_cons; [|exact S1|exact S']. intros [_ Hin]%list_elem_of_filter. done.
Qed.

Lemma foldl_ext {A B} (f g : B → A → B) l b : (∀ b a, f b a = g b a) → foldl f b l = foldl g b l.
Proof.
  intros Hfg. revert b. induction l as [|a l IH]; intros b; [done|]. simpl. by rewrite Hfg, IH.
Qed.

Lemma filter_elem_ext {A} (P Q : A → Prop) `{∀ x, Decision (P x), ∀ x, Decision (Q x)} (l : list A) :
  (∀ x, x ∈ l → P x ↔ Q x) → filter P l = filter Q l.
Proof.
  induction l as [|x l IH]; intros Hl; [done|].
  rewrite !filter_cons, IH by (intros y Hy; apply Hl; by right).
  pose proof (Hl x ltac:(by left)). by repeat case_decide; try tauto.
Qed.

(** ** Collection *)

Lemma collect_garbage_ok s l env :
  represents s l → word_sized s l →
  ∃ s' l', collect_garbage env s = Ret (tt, s') ∧ represents s' l' ∧ l' `sublist_of` l ∧
    (∀ x, x ∈ l' ↔ x ∈ l ∧ reachable s env l x) ∧
    (∀ x, x ∈ l → x ∉ l' → ms_heap s' !! x = None) ∧
    (∀ x, x ∉ l ∨ x ∈ l' → block_size s' x = block_size s x) ∧
    same_rest (set_ms_stats (ms_stats s') s) s' ∧
    (∀ x, ms_heap s !! x = None → ms_heap s' !! x = None) ∧
    ms_stats s' = foldl (λ st x, stats_collect (block_size s x) st) (ms_stats s)
                    (filter (λ x, x ∉ l') l).
Proof.
  intros Hr Hws. destruct (mark_phase_ok _ _ env Hr Hws) as (s1 & H1 & O1 & M1).
  pose proof (only_marks_represents _ _ _ O1 Hr) as Hr1.
  destruct (sweep_loop_ok (list_fuel s1) l [] s1 Hr1 (represents_length _ _ Hr1))
    as (s2 & H2 & R2 & [D K T St]).
  exists s2, (filter (λ x, is_marked s1 x = true) l).
  assert (∀ x, x ∈ filter (λ x, is_marked s1 x = true) l ↔ x ∈ l ∧ reachable s env l x) as Hl'.
  { intros x. rewrite list_elem_of_filter. split.
    - intros [Hm Hx]. split; [done|]. by apply M1.
    - intros [Hx Hre]. split; [|done]. by apply M1. }
  split; [|split; [done|split; [apply sublist_filter|split; [done|split; [|split; [|split; [|split]]]]]]].
  - unfold collect_garbage. rewrite (bind_step _ _ _ _ _ H1). unfold sweep_phase.
    rewrite !bind_gets, (rp_first _ _ Hr1). exact H2.
  - intros x Hx Hnx. apply D, list_elem_of_filter. split; [|done].
    destruct (is_marked s1 x) eqn:E; [|done]. exfalso. apply Hnx.
    by apply list_elem_of_filter.
  - intros x Hx. assert (x ∉ filter (λ x, is_marked s1 x = false) l) as Hnd.
    { intros [Hm Hin]%list_elem_of_filter. destruct Hx as [?|[Hm' _]%list_elem_of_filter]; [done|].
      congruence. }
    specialize (K x Hnd). pose proof (om_heap _ _ O1 x) as Ho. unfold block_size.
    destruct (ms_heap s !! x), (ms_heap s1 !! x), (ms_heap s2 !! x); try done.
    destruct K as [_ ->]. by rewrite Ho.
  - unfold same_rest. rewrite T, (om_rest _ _ O1). by destruct s2.
  - intros x Hx. assert (x ∉ l) as Hxl.
    { intros Hin. destruct (linked_live _ _ _ _ _ (rp_linked _ _ Hr) Hin). congruence. }
    specialize (K x ltac:(by intros [_ ?]%list_elem_of_filter)).
    pose proof (om_heap _ _ O1 x) as Ho. rewrite Hx in Ho.
    destruct (ms_heap s1 !! x), (ms_heap s2 !! x); done.
  - rewrite St. replace (ms_stats s1) with (ms_stats s) by (by rewrite (om_rest _ _ O1)).
    rewrite (filter_elem_ext _ (λ x, x ∉ filter (λ x, is_marked s1 x = true) l) l).
    + apply foldl_ext. intros st x. f_equal. unfold block_size. pose proof (om_heap _ _ O1 x) as Ho.
      by destruct (ms_heap s !! x), (ms_heap s1 !! x); try done; rewrite Ho.
    + intros x Hx. rewrite list_elem_of_filter.
      destruct (is_marked s1 x); naive_solver.
Qed.

(** C3. The collector is exact.  On an allocation list whose payloads are whole words,
    a collection returns, and the list it leaves holds exactly the blocks that the words of
    the stack and the registered roots reach through payload words, in the old order and
    with their sizes; every other block of the list, cycles included, is freed. *)
Theorem collection_exact s l env :
  represents s l → word_sized s l →
  ∃ s' l', collect_garbage env s = Ret (tt, s') ∧ represents s' l' ∧ l' `sublist_of` l ∧
    (∀ x, x ∈ l' ↔ x ∈ l ∧ reachable s env l x) ∧
    (∀ x, x ∈ l → ¬ reachable s env l x → ms_heap s' !! x = None) ∧
    (∀ x, x ∈ l' → block_size s' x = block_size s x).
Proof.
  intros Hr Hws. destruct (collect_garbage_ok s l env Hr Hws)
    as (s' & l' & H & R & Hsub & Hl' & Hd & Hsz & _).
  exists s', l'. split; [done|]. split; [done|]. split; [done|]. split; [done|]. split; [|auto].
  intros x Hx Hnr. apply Hd; [done|]. intros Hin%Hl'. tauto.
Qed.

(** Three blocks of two words: the root slot 900 points into the first, which points into
    the second; the third points to itself.  The stack region is empty. *)
Definition sample_heap : MS :=
  mkMS 1000 (<[0%nat := 900]> (replicate 50 NULL)) 1 (1024 * 1024) 100 stats_zero
    {[100 := mkMSHeader false 48 200 0; 200 := mkMSHeader false 48 300 100;
      300 := mkMSHeader false 48 0 200]}
    (λ p, if p =? 900 then 136 else if p =? 140 then 232 else if p =? 332 then 332 else 0).

Lemma sample_represents : represents sample_heap [100; 200; 300].
Proof.
  split.
  - reflexivity.
  - repeat (eexists; split; [vm_compute; reflexivity|]; split; [reflexivity|];
            split; [reflexivity|]). exact I.
  - apply (bool_decide_unpack _). vm_compute. exact I.
  - repeat constructor.
Qed.

Lemma sample_word_sized : word_sized sample_heap [100; 200; 300].
Proof.
  intros x hd _. cbn [ms_heap sample_heap]. intros Hx.
  apply lookup_insert_Some in Hx as [[_ <-]|[_ Hx]]; [reflexivity|].
  apply lookup_insert_Some in Hx as [[_ <-]|[_ Hx]]; [reflexivity|].
  apply lookup_singleton_Some in Hx as [_ <-]. reflexivity.
Qed.

Lemma collection_exact_witness :
  ∃ s', collect_garbage (mkEnv 0 1000) sample_heap = Ret (tt, s') ∧
        ms_heap s' !! 300 = None.
Proof.
  destruct (collection_exact sample_heap [100; 200; 300] (mkEnv 0 1000) sample_represents
              sample_word_sized) as (s' & l' & H & _ & _ & _ & Hd & _).
  exists s'. split; [exact H|]. apply Hd; [repeat constructor|].
  assert (∀ x y, points sample_heap [100; 200; 300] x y → x ≠ 300 → y ≠ 300) as Hp.
  { intros x y (hd & p & Hx & Hw & Ht) Hne ->.
    cbn [ms_heap sample_heap] in Hx.
    apply lookup_insert_Some in Hx as [[<- <-]|[_ Hx]].
    - repeat (apply elem_of_cons in Hw as [->|Hw]; [vm_compute in Ht; discriminate Ht|]).
      by apply not_elem_of_nil in Hw.
    - apply lookup_insert_Some in Hx as [[<- <-]|[_ Hx]].
      + repeat (apply elem_of_cons in Hw as [->|Hw]; [vm_compute in Ht; discriminate Ht|]).
        by apply not_elem_of_nil in Hw.
      + by apply lookup_singleton_Some in Hx as [<- _]. }
  intros (v & y & Hv & Hy & Hr).
  assert (v = 136) as -> by (vm_compute in Hv; by apply list_elem_of_singleton in Hv).
  vm_compute in Hy. injection Hy as <-.
  assert (∀ x y, rtc (points sample_heap [100; 200; 300]) x y → x ≠ 300 → y ≠ 300) as Hrtc
    by (induction 1; eauto).
  by apply (Hrtc _ _ Hr).
Defined.

(** ** Allocation *)

Lemma represents_fresh s l h hd :
  represents s l → h ∉ l →
  represents (set_ms_heap (<[h := hd]> (ms_heap s)) s) l.
Proof.
  intros [F L N P] Hh. split; [exact F| |done|done]. simpl.
  eapply linked_ext; [|exact L]. intros x Hx. rewrite lookup_insert_ne; [done|]. by intros <-.
Qed.

(** The new block before it is linked: its header is written. *)
Definition with_block (h total : Z) (s : MS) : MS :=
  set_ms_heap (<[h := mkMSHeader false total NULL NULL]> (ms_heap s)) s.

(** The new block is linked in front, and counted. *)
Lemma ms_alloc_linked s l env size :
  represents s l → let h := malloc_result env in let total := size_add sizeof_MSHeader size in
  0 < h → ms_heap s !! h = None →
  ∃ s1, represents s1 (h :: l) ∧ ms_alloc env size s
        = (_ ← (if GC_THRESHOLD s1 <? current_bytes (ms_stats s1) then collect_garbage env
                else mret tt); mret (h + sizeof_MSHeader)) s1 ∧
        same_blocks (ms_heap (with_block h total s)) (ms_heap s1) ∧
        ms_stats s1 = stats_alloc total (ms_stats s) ∧ GC_THRESHOLD s1 = GC_THRESHOLD s ∧
        ms_memory s1 = ms_memory s ∧ roots s1 = roots s ∧ root_index s1 = root_index s ∧
        stack_bottom s1 = stack_bottom s.
Proof.
  intros Hr h total Hp Hfresh.
  assert (h ∉ l) as Hh.
  { intros Hin. destruct (linked_live _ _ _ _ _ (rp_linked _ _ Hr) Hin). congruence. }
  destruct (add_allocation_ok (with_block h total s) l h (mkMSHeader false total NULL NULL))
    as (s1 & H1 & R1 & B1 & T1); [by apply represents_fresh|apply lookup_insert_eq|done..|].
  exists (set_ms_stats (stats_alloc total (ms_stats s1)) s1).
  split; [by destruct R1; split|]. split; [|split; [exact B1|split_and!; try (by rewrite T1)]].
  unfold ms_alloc. fold h total. rewrite decide_False by (unfold NULL; lia).
  rewrite bind_modify. fold (with_block h total s).
  rewrite (bind_step _ _ _ _ _ H1). by rewrite bind_modify, !bind_gets.
Qed.

Lemma same_blocks_size s s' x : same_blocks (ms_heap s) (ms_heap s') → block_size s' x = block_size s x.
Proof.
  intros B. specialize (B x). unfold block_size.
  destruct (ms_heap s !! x), (ms_heap s' !! x); try done. by destruct B.
Qed.

Lemma same_blocks_live s s' x :
  same_blocks (ms_heap s) (ms_heap s') → is_Some (ms_heap s' !! x) ↔ is_Some (ms_heap s !! x).
Proof.
  intros B. specialize (B x). destruct (ms_heap s !! x), (ms_heap s' !! x); naive_solver.
Qed.

Lemma with_block_size h total s x :
  block_size (with_block h total s) x = if decide (x = h) then total else block_size s x.
Proof.
  unfold block_size, with_block. simpl. rewrite lookup_insert.
  repeat case_decide; subst; done.
Qed.

(** *** What is reachable depends on the sizes of the blocks and on the memory *)
Lemma in_block_size s v x :
  in_block (ms_heap s) v x = true ↔ is_Some (ms_heap s !! x) ∧ in_payload x (block_size s x) v = true.
Proof.
  unfold in_block, block_size. destruct (ms_heap s !! x); [naive_solver|]. split; [done|].
  by intros [[] _].
Qed.

Lemma target_same s s' l v :
  same_blocks (ms_heap s) (ms_heap s') → target (ms_heap s') l v = target (ms_heap s) l v.
Proof.
  intros B. unfold target. case_decide; [done|]. induction l as [|x l IH]; [done|]. simpl.
  rewrite IH. replace (in_block (ms_heap s') v x) with (in_block (ms_heap s) v x); [done|].
  apply eq_true_iff_eq. by rewrite !in_block_size, (same_blocks_live s s'), (same_blocks_size s s').
Qed.

Lemma points_same s s' l x y :
  same_blocks (ms_heap s) (ms_heap s') → ms_memory s' = ms_memory s → points s l x y → points s' l x y.
Proof.
  intros B M (hd & p & Hx & Hp & Ht). pose proof (B x) as Bx. rewrite Hx in Bx.
  destruct (ms_heap s' !! x) as [hd'|] eqn:Hx'; [|done]. destruct Bx as [_ Hs].
  exists hd', p. split; [done|]. by rewrite Hs, M, (target_same s s').
Qed.

Lemma reachable_same s s' env l x :
  same_blocks (ms_heap s) (ms_heap s') → ms_memory s' = ms_memory s →
  root_words s' env = root_words s env → reachable s env l x → reachable s' env l x.
Proof.
  intros B M W (v & y & Hv & Hy & Hr). exists v, y. rewrite W, (target_same s s') by done.
  split; [done|]. split; [done|].
  revert Hr. apply rtc_subrel. intros a b. by apply points_same.
Qed.

Lemma same_blocks_sym m m' : same_blocks m m' → same_blocks m' m.
Proof. intros B x. specialize (B x). destruct (m !! x), (m' !! x); naive_solver. Qed.

(** A word that does not point into the new block has the target it had. *)
Lemma target_with_block h total s l v :
  h ∉ l → in_payload h total v = false →
  target (ms_heap (with_block h total s)) (h :: l) v = target (ms_heap s) l v.
Proof.
  intros Hh Hv. unfold target, with_block. case_decide; [done|]. simpl.
  unfold in_block at 1. rewrite lookup_insert_eq. simpl. rewrite Hv.
  induction l as [|x l IH]; [done|]. apply not_elem_of_cons in Hh as [Hx Hh]. simpl.
  rewrite (IH Hh). unfold in_block at 1. by rewrite lookup_insert_ne.
Qed.

(** No word that the collector looks at points into the new block. *)
Definition unseen (s : MS) (env : Env) (l : list Z) (h total : Z) : Prop :=
  (∀ v, v ∈ root_words s env → in_payload h total v = false) ∧
  (∀ x hd p, reachable s env l x → ms_heap s !! x = Some hd →
     p ∈ words (x + sizeof_MSHeader) (x + ms_size hd) → in_payload h total (ms_memory s p) = false).

Lemma unseen_reachable s env l h total x :
  h ∉ l → unseen s env l h total →
  reachable (with_block h total s) env (h :: l) x → x ∈ l ∧ reachable s env l x.
Proof.
  intros Hh [Hroots Hwords] (v & y & Hv & Hy & Hr). specialize (Hroots v Hv).
  rewrite target_with_block in Hy by done.
  assert (y ∈ l ∧ reachable s env l y) as Hy'.
  { split; [by eapply target_elem|]. exists v, y. split; [done|]. split; [done|]. apply rtc_refl. }
  clear Hv Hy Hroots. induction Hr as [|y z x (hd & p & Hhd & Hp & Ht) _ IH]; [done|]. apply IH.
  destruct Hy' as [Hyl (v' & y' & Hv' & Hy' & Hr')]. unfold with_block in Hhd. simpl in Hhd.
  rewrite lookup_insert_ne in Hhd by (by intros ->).
  assert (reachable s env l y) as Hreach by (by exists v', y').
  rewrite target_with_block in Ht; [|done|by eapply Hwords].
  split; [by eapply target_elem|]. exists v', y'. split; [done|]. split; [done|].
  eapply rtc_r; [done|]. by exists hd, p.
Qed.

Lemma word_sized_new s s1 l h total :
  represents s l → word_sized s l → total `mod` sizeof_pointer = 0 →
  (∀ x, block_size s1 x = if decide (x = h) then total else block_size s x) → word_sized s1 (h :: l).
Proof.
  intros Hr Hws Htot Hsz x hd Hx Hhd. specialize (Hsz x). unfold block_size at 1 in Hsz.
  rewrite Hhd in Hsz. rewrite Hsz. case_decide as Hxh; [done|]. unfold block_size.
  apply elem_of_cons in Hx as [?|Hx]; [done|].
  destruct (linked_live _ _ _ _ _ (rp_linked _ _ Hr) Hx) as [hd0 Hhd0]. rewrite Hhd0. by eapply Hws.
Qed.



(** A collection above the threshold frees the block it is run for.  With no pointer
    into the new block anywhere, [ms_alloc] returns the address of a freed block, and the
    next use of that block goes wrong. *)
Theorem ms_alloc_returns_freed_block :
  let s := set_GC_THRESHOLD 0 sample_heap in
  ∃ s', ms_alloc (mkEnv 400 1000) 16 s = Ret (432, s') ∧ ms_heap s' !! 400 = None ∧
        (∃ hd, ms_heap s' !! 100 = Some hd) ∧ ms_dealloc 432 s' = Crash InvalidAccess.
Proof.
  eexists. split; [vm_compute; reflexivity|]. split; [vm_compute; reflexivity|].
  split; [eexists; vm_compute; reflexivity|]. vm_compute. reflexivity.
Qed.

(** ** Deallocation, roots and shutdown *)

Lemma ms_dealloc_ok s pre x post :
  represents s (pre ++ x :: post) →
  ∃ s', ms_dealloc (x + sizeof_MSHeader) s = Ret (tt, s') ∧ represents s' (pre ++ post) ∧
    ms_heap s' !! x = None ∧
    ms_stats s' = stats_dealloc (block_size s x) (ms_stats s) ∧
    same_rest (set_ms_stats (ms_stats s') s) s' ∧
    same_blocks (delete x (ms_heap s)) (ms_heap s').
Proof.
  intros Hr. pose proof (rp_linked _ _ Hr) as (_ & hd & Hx & _)%linked_app.
  pose proof (rp_positive _ _ Hr) as (_ & [Hxp _]%Forall_cons)%Forall_app.
  pose proof (rp_nodup _ _ Hr) as Hnd. apply NoDup_app in Hnd as (_ & Hdisj & [Hxq _]%NoDup_cons).
  destruct (remove_allocation_ok s pre x post Hr) as (s2 & H2 & R2 & B2 & T2).
  pose proof (B2 x) as Bx. rewrite Hx in Bx.
  destruct (ms_heap s2 !! x) as [hd2|] eqn:E2; [|done]. destruct Bx as [_ Bsz].
  unfold ms_dealloc. rewrite decide_False by (unfold NULL, sizeof_MSHeader; lia).
  replace (x + sizeof_MSHeader - sizeof_MSHeader) with x by lia.
  rewrite (bind_step _ _ _ _ _ H2), (bind_step _ _ _ _ _ (ms_load_live _ _ _ E2)), bind_modify.
  rewrite (ms_free_live (set_ms_stats _ s2) x hd2 E2). eexists. split; [reflexivity|].
  split_and!.
  - destruct R2 as [F L N P]. split; [exact F| |done|done]. simpl.
    eapply linked_ext; [|exact L]. intros y Hy. rewrite lookup_delete_ne; [done|]. intros <-.
    apply elem_of_app in Hy as [Hin|Hin]; [|done]. apply (Hdisj _ Hin). by left.
  - apply lookup_delete_eq.
  - simpl. unfold block_size. by rewrite Hx, Bsz, T2.
  - unfold same_rest. rewrite T2. by destruct s2.
  - intros y. simpl. rewrite !lookup_delete. case_decide; [done|]. apply (B2 y).
Qed.

(** Explicit deallocation.  [ms_dealloc] takes a block out of the list wherever it is,
    frees it and subtracts its size; the other blocks stay, linked and with their sizes. *)
Theorem ms_dealloc_removes s pre x post :
  represents s (pre ++ x :: post) →
  ∃ s', ms_dealloc (x + sizeof_MSHeader) s = Ret (tt, s') ∧ represents s' (pre ++ post) ∧
    ms_heap s' !! x = None ∧
    ms_stats s' = stats_dealloc (block_size s x) (ms_stats s) ∧
    (∀ y, y ≠ x → block_size s' y = block_size s y).
Proof.
  intros Hr. destruct (ms_dealloc_ok s pre x post Hr) as (s' & H & R & Hx & Hst & _ & B).
  exists s'. do 4 (split; [done|]). intros y Hy. unfold block_size. specialize (B y).
  rewrite lookup_delete_ne in B by done.
  destruct (ms_heap s !! y), (ms_heap s' !! y); try done. by destruct B.
Qed.

Lemma ms_dealloc_removes_witness :
  ∃ s', ms_dealloc 232 sample_heap = Ret (tt, s') ∧ represents s' [100; 300].
Proof.
  destruct (ms_dealloc_removes sample_heap [100] 200 [300] sample_represents)
    as (s' & H & R & _). exists s'. split; [exact H|exact R].
Defined.

(** The loop of [ms_shutdown] does not repair the [prev] links. *)
Lemma shutdown_loop_ok : ∀ fuel l p s,
  allocation_list s = hd_or l NULL → linked (ms_heap s) p l NULL → NoDup l →
  Forall (λ x, 0 < x) l → (length l < fuel)%nat →
  ∃ s', shutdown_loop fuel s = Ret (tt, s') ∧ allocation_list s' = NULL ∧
        (∀ x, x ∈ l → ms_heap s' !! x = None) ∧ (∀ x, x ∉ l → ms_heap s' !! x = ms_heap s !! x).
Proof.
  induction fuel as [|fuel IH]; intros l p s F L N P Hf; [lia|]. cbn [shutdown_loop].
  rewrite bind_gets, F. destruct l as [|x l]; cbn [hd_or].
  { rewrite decide_True by done. exists s. split; [done|]. split; [done|].
    split; [by intros x ?%not_elem_of_nil|done]. }
  destruct L as (hd & Hx & _ & Hn & L). apply NoDup_cons in N as [Hxl N].
  apply Forall_cons in P as [Hxp P]. rewrite decide_False by (unfold NULL; lia).
  rewrite (bind_step _ _ _ _ _ (ms_load_live _ _ _ Hx)).
  rewrite (bind_step _ _ _ _ _ (ms_free_live _ _ _ Hx)), bind_modify, Hn.
  set (s1 := set_allocation_list _ _).
  destruct (IH l x s1) as (s' & H' & A' & D' & K'); [done| |done|done|simpl in Hf; lia|].
  { simpl. eapply linked_ext; [|exact L]. intros y Hy. rewrite lookup_delete_ne; [done|]. by intros <-. }
  exists s'. split; [done|]. split; [done|]. simpl in K'. split.
  - intros y [->|Hy]%elem_of_cons; [|by apply D']. rewrite K' by done. apply lookup_delete_eq.
  - intros y [Hy Hyl]%not_elem_of_cons. rewrite K' by done. by rewrite lookup_delete_ne.
Qed.

(** Shutdown.  It collects once more and then frees what is left: it returns, the list
    is empty, and every block that was in it is freed exactly once. *)
Theorem ms_shutdown_frees_all s l env :
  represents s l → word_sized s l →
  ∃ s', ms_shutdown env s = Ret (tt, s') ∧ allocation_list s' = NULL ∧
        (∀ x, x ∈ l → ms_heap s' !! x = None).
Proof.
  intros Hr Hws. destruct (collect_garbage_ok s l env Hr Hws)
    as (s1 & l1 & H1 & R1 & _ & Hl1 & Hd & _).
  pose proof (represents_length _ _ R1) as Hlen. destruct R1 as [F L N P].
  destruct (shutdown_loop_ok (list_fuel s1) l1 NULL s1 F L N P Hlen) as (s' & H' & A' & D' & K').
  exists s'. unfold ms_shutdown. rewrite (bind_step _ _ _ _ _ H1), bind_gets.
  split; [done|]. split; [done|]. intros x Hx.
  destruct (decide (x ∈ l1)) as [Hin|Hnin]; [by apply D'|]. rewrite K' by done. by apply Hd.
Qed.

Lemma ms_shutdown_frees_all_witness :
  ∃ s', ms_shutdown (mkEnv 0 1000) sample_heap = Ret (tt, s') ∧ ms_heap s' !! 100 = None.
Proof.
  destruct (ms_shutdown_frees_all sample_heap [100; 200; 300] (mkEnv 0 1000) sample_represents
              sample_word_sized) as (s' & H & _ & Hd).
  exists s'. split; [exact H|]. apply Hd. repeat constructor.
Defined.

(** Registering roots.  The first 50 registrations are kept in order, and the next one
    ends the program with status 1; [ms_init] does not forget them. *)
Theorem register_root_keeps s ptr env :
  length (roots s) = 50%nat → 0 <= root_index s <= MAX_ROOTS →
  let kept s := take (Z.to_nat (root_index s)) (roots s) in
  (root_index s < MAX_ROOTS →
     ∃ s', ms_register_root ptr s = Ret (tt, s') ∧ kept s' = kept s ++ [ptr] ∧
           length (roots s') = 50%nat ∧ root_index s' = root_index s + 1 ∧
           ms_heap s' = ms_heap s ∧ allocation_list s' = allocation_list s) ∧
  (root_index s = MAX_ROOTS → ms_register_root ptr s = Crash (Exit 1)) ∧
  (∃ s', ms_init env s = Ret (tt, s') ∧ kept s' = kept s ∧ allocation_list s' = NULL ∧
         stack_bottom s' = frame_address env ∧ ms_stats s' = stats_zero).
Proof.
  intros Hlen Hi kept. unfold MAX_ROOTS in Hi. split; [|split].
  - intros Hlt. unfold MAX_ROOTS in Hlt. unfold ms_register_root. rewrite bind_gets.
    destruct (Z.leb_spec MAX_ROOTS (root_index s)); [unfold MAX_ROOTS in *; lia|].
    eexists. split; [reflexivity|]. split; [|split; [|split; [|split]]]; try done.
    + unfold kept. simpl. replace (Z.to_nat (root_index s + 1)) with (S (Z.to_nat (root_index s)))
        by lia.
      rewrite (take_S_r _ _ ptr) by (apply list_lookup_insert_eq; lia).
      by rewrite take_insert_ge by lia.
    + simpl. by rewrite length_insert.
  - intros Heq. unfold ms_register_root. rewrite bind_gets, Heq. done.
  - eexists. split; [reflexivity|]. done.
Qed.

Lemma register_root_keeps_witness :
  ∃ s', ms_register_root 908 sample_heap = Ret (tt, s') ∧
        take 2 (roots s') = [900; 908].
Proof.
  destruct (register_root_keeps sample_heap 908 (mkEnv 0 0)) as [H _];
    [reflexivity|vm_compute; split; discriminate|].
  destruct H as (s' & H & K & _ & Hi & _); [reflexivity|].
  exists s'. split; [exact H|]. rewrite Hi in K. exact K.
Defined.

(** C40. Reading past a block.  The payload is read word by word up to its end: when the
    size of a block is no multiple of the word and its whole words are no pointers, marking it
    reads past the end of the allocation. *)
Theorem mark_overread s l v x hd fuel :
  represents s l → target (ms_heap s) l v = Some x → ms_heap s !! x = Some hd →
  marked hd = false → ms_size hd `mod` sizeof_pointer ≠ 0 → sizeof_MSHeader < ms_size hd →
  (∀ p, p ∈ words (x + sizeof_MSHeader) (x + ms_size hd) →
        p + sizeof_pointer <= x + ms_size hd → target (ms_heap s) l (ms_memory s p) = None) →
  mark (S fuel) v s = Crash Overread.
Proof.
  intros Hr Ht Hx Hm Hmod Hsz Hleaf. cbn [mark].
  rewrite (bind_step _ _ _ _ _ (find_header_ok _ _ v Hr)), Ht. cbn [default id].
  pose proof (target_elem _ _ _ _ Ht) as Hin.
  pose proof (proj1 (Forall_forall _ _) (rp_positive _ _ Hr) x Hin) as Hxp. simpl in Hxp.
  unfold id. rewrite decide_False by (unfold NULL; lia).
  rewrite (bind_step _ _ _ _ _ (ms_load_live _ _ _ Hx)), Hm.
  rewrite (bind_step _ _ _ _ _ (ms_update_live _ _ _ _ Hx)).
  set (s1 := set_ms_heap _ s).
  assert (only_marks s s1) as O1 by by apply only_marks_update.
  pose proof (only_marks_represents _ _ _ O1 Hr) as R1.
  assert (∃ p, p ∈ words (x + sizeof_MSHeader) (x + ms_size hd)
               ∧ x + ms_size hd < p + sizeof_pointer) as (p0 & Hp0 & Hover).
  { unfold sizeof_MSHeader, sizeof_pointer in *.
    exists (x + 32 + 8 * ((ms_size hd - 32) `div` 8)). split.
    - apply list_elem_of_fmap. eexists. split; [reflexivity|]. apply elem_of_seqZ.
      unfold sizeof_pointer. Z.div_mod_to_equations; lia.
    - Z.div_mod_to_equations; lia. }
  revert Hleaf Hp0. generalize (words (x + sizeof_MSHeader) (x + ms_size hd)) as ps. intros ps.
  induction ps as [|p ps IH]; intros Hleaf Hp0; [by apply not_elem_of_nil in Hp0|].
  cbn [forM_]. destruct (Z.ltb_spec (x + ms_size hd) (p + sizeof_pointer)) as [Hlt|Hge]; [done|].
  apply elem_of_cons in Hp0 as [->|Hp0]; [lia|].
  rewrite (bind_step _ _ s1 tt s1).
  { apply IH; [|done]. intros q Hq. apply Hleaf. by right. }
  unfold read_word. rewrite bind_gets. change (ms_memory s1 p) with (ms_memory s p).
  rewrite (bind_step _ _ _ _ _ (is_valid_pointer_ok _ _ _ R1)), (only_marks_target _ _ _ _ O1).
  rewrite Hleaf; [done|by left|lia].
Qed.

(** A block of one byte, pointed to from the root slot. *)
Definition byte_heap : MS :=
  mkMS 1000 (<[0%nat := 900]> (replicate 50 NULL)) 1 (1024 * 1024) 100 stats_zero
    {[100 := mkMSHeader false 33 0 0]} (λ p, if p =? 900 then 132 else 0).

Lemma mark_overread_witness : mark 2 132 byte_heap = Crash Overread.
Proof.
  apply (mark_overread byte_heap [100] 132 100 (mkMSHeader false 33 0 0) 1); try discriminate;
    try (vm_compute; reflexivity).
  - split; [reflexivity| |apply NoDup_singleton|repeat constructor].
    eexists. split; [vm_compute; reflexivity|]. repeat split.
  - intros p Hp Hle. vm_compute in Hp. apply list_elem_of_singleton in Hp as ->.
    exfalso. vm_compute in Hle. apply Hle. reflexivity.
Defined.
