(* ===== verification/MarkSweepClient.v ===== *)
(** Programs over the mark-sweep allocator.

    From [ms_init], along every sequence of calls that frees only live blocks, asks for
    whole words and registers at most fifty roots, with any writes to memory in between,
    the allocation list is the heap, the bytes in use are the sum of the sizes, a collection
    leaves what the roots reach, and a shutdown leaves nothing. *)
From S2P Require Import Prelude Errors CppString Allocator MarkSweep MarkSweepList.
From S2P Require Import VisitorFrame MarkSweepProps.
From stdpp Require Import relations.
#[local] Open Scope Z_scope.

(** ** The bytes in use *)
Definition list_bytes (f : Z → Z) (l : list Z) : Z := foldr (λ x acc, f x + acc) 0 l.

Lemma list_bytes_app f l1 l2 : list_bytes f (l1 ++ l2) = list_bytes f l1 + list_bytes f l2.
Proof. induction l1 as [|x l1 IH]; simpl; [done|]. rewrite IH. lia. Qed.

Lemma list_bytes_ext f g l : (∀ x, x ∈ l → f x = g x) → list_bytes f l = list_bytes g l.
Proof.
  induction l as [|x l IH]; intros Hfg; simpl; [done|].
  rewrite Hfg by (by left). rewrite IH; [done|]. intros y Hy. apply Hfg. by right.
Qed.

Lemma list_bytes_split f l (P : Z → Prop) `{∀ x, Decision (P x)} :
  list_bytes f l = list_bytes f (filter P l) + list_bytes f (filter (λ x, ¬ P x) l).
Proof.
  induction l as [|x l IH]; simpl; [done|]. rewrite !filter_cons.
  repeat case_decide; simpl; try tauto; lia.
Qed.

Lemma collected_bytes f dead st b :
  current_bytes st = b mod size_t_mod →
  current_bytes (foldl (λ st x, stats_collect (f x) st) st dead)
  = (b - list_bytes f dead) mod size_t_mod.
Proof.
  revert st b. induction dead as [|x dead IH]; intros st b Hb; simpl.
  - by rewrite Z.sub_0_r.
  - rewrite (IH _ (b - f x)); [f_equal; lia|]. simpl. unfold size_sub.
    by rewrite Hb, Zminus_mod_idemp_l.
Qed.

(** A list without duplicates that is part of another one is a filter of it. *)
Lemma sublist_filter_in (l' l : list Z) :
  l' `sublist_of` l → NoDup l → filter (λ x, x ∈ l') l = l'.
Proof.
  intros Hsub. induction Hsub as [|x l' l Hsub IH|x l' l Hsub IH]; intros Hnd; [done|..].
  - apply NoDup_cons in Hnd as [Hx Hnd]. rewrite filter_cons, decide_True by (by left).
    f_equal. etrans; [|exact (IH Hnd)]. apply filter_elem_ext. intros y Hy.
    rewrite elem_of_cons. split; [|auto]. intros [->|?]; [done|done].
  - apply NoDup_cons in Hnd as [Hx Hnd]. rewrite filter_cons, decide_False; [by apply IH|].
    intros Hin. apply Hx. by eapply sublist_subseteq.
Qed.

(** ** The invariant *)
Record ms_ok (s : MS) (l : list Z) : Prop := {
  mo_list : represents s l;
  mo_words : word_sized s l;
  mo_heap : ∀ x, is_Some (ms_heap s !! x) ↔ x ∈ l;
  mo_bytes : current_bytes (ms_stats s) = list_bytes (block_size s) l mod size_t_mod;
  mo_roots : length (roots s) = 50%nat ∧ 0 <= root_index s <= MAX_ROOTS
}.

(** [word_sized] in terms of [block_size]. *)
Lemma word_sized_sizes s l :
  (∀ x, x ∈ l → block_size s x mod sizeof_pointer = 0) → word_sized s l.
Proof. intros Hl x hd Hx Hhd. specialize (Hl x Hx). unfold block_size in Hl. by rewrite Hhd in Hl. Qed.

Lemma ms_ok_words s l x : ms_ok s l → x ∈ l → block_size s x mod sizeof_pointer = 0.
Proof.
  intros Hok Hx. destruct (proj2 (mo_heap _ _ Hok x) Hx) as [hd Hhd]. unfold block_size.
  rewrite Hhd. by apply (mo_words _ _ Hok x).
Qed.

Lemma ms_ok_collect s l env :
  ms_ok s l →
  ∃ s' l', collect_garbage env s = Ret (tt, s') ∧ ms_ok s' l' ∧
           (∀ x, x ∈ l' ↔ x ∈ l ∧ reachable s env l x).
Proof.
  intros Hok. pose proof Hok as [Hr Hw Hh Hb Hro].
  destruct (collect_garbage_ok s l env Hr Hw)
    as (s' & l' & H & R & Hsub & Hl' & Hd & Hsz & Hrest & Hnone & Hst).
  exists s', l'. split; [done|]. split; [|done].
  split; [done| | | |by rewrite Hrest].
  - apply word_sized_sizes. intros x Hx. rewrite Hsz by (by right).
    eapply ms_ok_words; [done|]. by apply Hl'.
  - intros x. split; [|by apply (linked_live _ _ _ _ _ (rp_linked _ _ R))].
    intros [hd' Hx]. destruct (decide (x ∈ l')) as [|Hn]; [done|]. exfalso.
    destruct (decide (x ∈ l)) as [Hin|Hnin]; [by rewrite Hd in Hx|].
    rewrite Hnone in Hx; [done|]. apply eq_None_not_Some. by rewrite Hh.
  - rewrite Hst, (collected_bytes _ _ _ _ Hb).
    rewrite (list_bytes_split (block_size s) l (λ x, x ∈ l')).
    rewrite (sublist_filter_in _ _ Hsub (rp_nodup _ _ Hr)).
    rewrite (list_bytes_ext (block_size s') (block_size s)) by auto.
    f_equal. lia.
Qed.

Lemma ms_ok_linked s l env size :
  ms_ok s l → 0 < malloc_result env → ms_heap s !! malloc_result env = None →
  size_add sizeof_MSHeader size mod sizeof_pointer = 0 →
  ∃ s1, ms_ok s1 (malloc_result env :: l) ∧
        ms_alloc env size s
        = (_ ← (if GC_THRESHOLD s1 <? current_bytes (ms_stats s1) then collect_garbage env
                else mret tt); mret (malloc_result env + sizeof_MSHeader)) s1.
Proof.
  intros Hok Hp Hfresh Hmod. pose proof Hok as [Hr Hw Hh Hb Hro].
  destruct (ms_alloc_linked s l env size Hr Hp Hfresh)
    as (s1 & R1 & H1 & B & Hst & _ & _ & Hrs & Hri & _).
  set (h := malloc_result env) in *. set (total := size_add sizeof_MSHeader size) in *.
  assert (∀ x, block_size s1 x = if decide (x = h) then total else block_size s x) as Hsz
    by (intros x; by rewrite (same_blocks_size _ _ _ B), with_block_size).
  assert (block_size s1 h = total) as Hs by (by rewrite Hsz, decide_True).
  exists s1. split; [|done]. split; [done|by eapply word_sized_new| | |by rewrite Hrs, Hri].
  - intros x. rewrite (same_blocks_live _ _ _ B), elem_of_cons, <-Hh. unfold with_block. simpl.
    rewrite lookup_insert. case_decide; naive_solver.
  - rewrite Hst. simpl. unfold size_add at 1. rewrite Hb, Zplus_mod_idemp_l, Hs.
    rewrite (list_bytes_ext (block_size s1) (block_size s)); [f_equal; lia|].
    intros x Hx%Hh. rewrite Hsz, decide_False; [done|]. intros ->. rewrite Hfresh in Hx. by destruct Hx.
Qed.

Lemma ms_ok_alloc s l env size :
  ms_ok s l → 0 < malloc_result env → ms_heap s !! malloc_result env = None →
  size_add sizeof_MSHeader size mod sizeof_pointer = 0 →
  ∃ s' l', ms_alloc env size s = Ret (malloc_result env + sizeof_MSHeader, s') ∧ ms_ok s' l'.
Proof.
  intros Hok Hp Hfresh Hmod.
  destruct (ms_ok_linked s l env size) as (s1 & Hok1 & ->); [done..|].
  destruct (_ <? _); [|by eauto].
  destruct (ms_ok_collect s1 _ env Hok1) as (s' & l' & H & Hok' & _).
  exists s', l'. by rewrite (bind_step _ _ _ _ _ H).
Qed.

Lemma ms_ok_dealloc s l x :
  ms_ok s l → x ∈ l → ∃ s' l', ms_dealloc (x + sizeof_MSHeader) s = Ret (tt, s') ∧ ms_ok s' l'.
Proof.
  intros Hok Hx. pose proof Hok as [Hr Hw Hh Hb Hro].
  apply list_elem_of_split in Hx as (pre & post & ->).
  destruct (ms_dealloc_ok s pre x post Hr) as (s' & H & R & Hx & Hst & Hrest & B).
  pose proof (rp_nodup _ _ Hr) as Hnd.
  assert (x ∉ pre ++ post) as Hxn.
  { apply NoDup_app in Hnd as (_ & Hd & [Hxp _]%NoDup_cons).
    intros [Hin|Hin]%elem_of_app; [|done]. apply (Hd _ Hin). by left. }
  assert (∀ y, y ≠ x → block_size s' y = block_size s y ∧
            (is_Some (ms_heap s' !! y) ↔ is_Some (ms_heap s !! y))) as Hsame.
  { intros y Hy. specialize (B y). rewrite lookup_delete_ne in B by done. unfold block_size.
    destruct (ms_heap s !! y), (ms_heap s' !! y); try done.
    destruct B as [_ ->]. naive_solver. }
  assert (∀ y, y ∈ pre ++ post → y ≠ x) as Hne by (by intros y Hy ->).
  exists s', (pre ++ post). split; [done|]. split; [done| | | |by rewrite Hrest].
  - apply word_sized_sizes. intros y Hy. rewrite (proj1 (Hsame y (Hne y Hy))).
    eapply ms_ok_words; [done|]. apply elem_of_app in Hy as [Hy|Hy]; apply elem_of_app; [auto|].
    right. by right.
  - intros y. destruct (decide (y = x)) as [->|Hy].
    + rewrite Hx. split; [by intros []|done].
    + rewrite (proj2 (Hsame y Hy)), Hh, !elem_of_app, elem_of_cons. naive_solver.
  - rewrite Hst. simpl. unfold size_sub. rewrite Hb, Zminus_mod_idemp_l.
    rewrite (list_bytes_ext (block_size s') (block_size s)) by (intros y Hy; by apply Hsame, Hne).
    rewrite !list_bytes_app. simpl. f_equal. lia.
Qed.

(** ** The client *)
Inductive ms_call :=
| MS_alloc (env : Env) (size : Z)
| MS_dealloc (ptr : Z)
| MS_gc (env : Env)
| MS_register_root (ptr : Z)
| MS_set_gc_threshold (threshold : Z)
| MS_scope_end.

Definition ms_perform (c : ms_call) : stM MS unit :=
  match c with
  | MS_alloc env size => _ ← ms_alloc env size; mret tt
  | MS_dealloc ptr => ms_dealloc ptr
  | MS_gc env => ms_gc env
  | MS_register_root ptr => ms_register_root ptr
  | MS_set_gc_threshold threshold => ms_set_gc_threshold threshold
  | MS_scope_end => ms_scope_end
  end.

(** What a client may do: [malloc] fails or gives a block that is not in use; a block has
    whole words; a pointer that is given back is null or was given; roots fit. *)
Definition ms_allowed (s : MS) (c : ms_call) : Prop :=
  match c with
  | MS_alloc env size =>
      malloc_result env = NULL ∨
      0 < malloc_result env ∧ ms_heap s !! malloc_result env = None ∧
      size_add sizeof_MSHeader size mod sizeof_pointer = 0
  | MS_dealloc ptr => ptr = NULL ∨ is_Some (ms_heap s !! (ptr - sizeof_MSHeader))
  | MS_register_root _ => root_index s < MAX_ROOTS
  | _ => True
  end.

(** The program's own writes change the words of memory in any way. *)
Definition with_memory (memory : Z → Z) (s : MS) : MS :=
  mkMS (stack_bottom s) (roots s) (root_index s) (GC_THRESHOLD s) (allocation_list s)
    (ms_stats s) (ms_heap s) memory.

Inductive ms_step : MS → MS → Prop :=
| ms_step_call s c s' : ms_allowed s c → ms_perform c s = Ret (tt, s') → ms_step s s'
| ms_step_write s memory : ms_step s (with_memory memory s).

(** The state [ms_init] gives a fresh process. *)
Definition ms_start (env : Env) (memory : Z → Z) : MS :=
  mkMS (frame_address env) (replicate 50 NULL) 0 (1024 * 1024) NULL stats_zero ∅ memory.
Lemma ms_start_init env memory : ms_init env (MS_static memory) = Ret (tt, ms_start env memory).
Proof. done. Qed.

Lemma ms_ok_start env memory : ms_ok (ms_start env memory) [].
Proof.
  split; simpl.
  - split; [done|done|constructor|constructor].
  - by intros x hd ?%not_elem_of_nil.
  - intros x. rewrite lookup_empty. split; [by intros []|by intros ?%not_elem_of_nil].
  - done.
  - unfold MAX_ROOTS. split; [done|lia].
Qed.

(** Changes outside the list, the heap and the statistics. *)
Lemma ms_ok_same s s' l :
  allocation_list s' = allocation_list s → ms_heap s' = ms_heap s → ms_stats s' = ms_stats s →
  length (roots s') = 50%nat → 0 <= root_index s' <= MAX_ROOTS → ms_ok s l → ms_ok s' l.
Proof.
  intros Ha Hh Hs Hr Hi [[F L N P] Hw Hd Hb _].
  split; [by split; rewrite ?Ha, ?Hh|by unfold word_sized; rewrite Hh|by rewrite Hh| |done].
  rewrite Hs, Hb. f_equal. apply list_bytes_ext. intros x _. unfold block_size. by rewrite Hh.
Qed.

Lemma ms_ok_call s l c :
  ms_ok s l → ms_allowed s c → ∃ s' l', ms_perform c s = Ret (tt, s') ∧ ms_ok s' l'.
Proof.
  intros Hok Hc. pose proof (mo_roots _ _ Hok) as [Hlen Hidx].
  destruct c as [env size|ptr|env|ptr|threshold|]; cbn [ms_perform ms_allowed] in *.
  - destruct Hc as [Hn|(Hp & Hfresh & Hmod)].
    + exists s, l. split; [|done]. unfold ms_alloc. by rewrite decide_True.
    + destruct (ms_ok_alloc s l env size) as (s' & l' & H & Hok'); [done..|].
      exists s', l'. by rewrite (bind_step _ _ _ _ _ H).
  - destruct Hc as [->|Hlive%(mo_heap _ _ Hok)]; [exists s, l; split; [|done]; by unfold ms_dealloc|].
    replace ptr with (ptr - sizeof_MSHeader + sizeof_MSHeader) by lia. by apply (ms_ok_dealloc s l).
  - destruct (ms_ok_collect s l env Hok) as (s' & l' & H & Hok' & _). eauto.
  - unfold ms_register_root. rewrite bind_gets. destruct (Z.leb_spec MAX_ROOTS (root_index s)); [lia|].
    eexists _, l. split; [reflexivity|]. eapply ms_ok_same; [..|exact Hok]; try done; simpl.
    + by rewrite length_insert.
    + lia.
  - eexists _, l. split; [reflexivity|]. by eapply ms_ok_same; [..|exact Hok].
  - by exists s, l.
Qed.

Lemma ms_reached_ok env memory s :
  rtc ms_step (ms_start env memory) s → ∃ l, ms_ok s l.
Proof.
  revert s. apply (rtc_ind_r (R:=ms_step) (λ s, ∃ l, ms_ok s l)).
  - exists []. apply ms_ok_start.
  - intros s1 s2 _ Hstep [l Hok]. destruct Hstep as [s1 c s2 Hc Hret|s1 memory'].
    + destruct (ms_ok_call s1 l c Hok Hc) as (s' & l' & Hret' & Hok').
      rewrite Hret in Hret'. injection Hret' as <-. by exists l'.
    + exists l. by eapply ms_ok_same; [..|exact Hok]; try apply (mo_roots _ _ Hok).
Qed.

(** C16. Programs over the mark-sweep allocator.  In every state a program reaches from
    [ms_init] by calls that ask for whole words, free live blocks and register at most fifty
    roots, with any writes to memory in between: the allocation list is well linked and
    holds exactly the live blocks, the bytes in use are the sum of their sizes, and the next
    allowed call returns. *)
Theorem ms_client_runs env memory s :
  rtc ms_step (ms_start env memory) s →
  (∃ l, represents s l ∧ (∀ x, is_Some (ms_heap s !! x) ↔ x ∈ l) ∧
        current_bytes (ms_stats s) = list_bytes (block_size s) l mod size_t_mod) ∧
  (∀ c, ms_allowed s c → ∃ s', ms_perform c s = Ret (tt, s') ∧
                               rtc ms_step (ms_start env memory) s').
Proof.
  intros Hs. destruct (ms_reached_ok _ _ _ Hs) as [l Hok]. split.
  - exists l. split; [apply Hok|]. split; [apply Hok|]. apply (mo_bytes _ _ Hok).
  - intros c Hc. destruct (ms_ok_call s l c Hok Hc) as (s' & _ & Hret & _).
    exists s'. split; [done|]. eapply rtc_r; [exact Hs|]. by econstructor.
Qed.

(** One block of two words at 100. *)
Definition one_block : MS :=
  match ms_perform (MS_alloc (mkEnv 100 1000) 16) (ms_start (mkEnv 0 1000) (λ _, 0)) with
  | Ret (_, s) => s | _ => ms_start (mkEnv 0 1000) (λ _, 0) end.
Lemma one_block_reached : rtc ms_step (ms_start (mkEnv 0 1000) (λ _, 0)) one_block.
Proof.
  apply rtc_once, (ms_step_call _ (MS_alloc (mkEnv 100 1000) 16)).
  - right. done.
  - unfold one_block. vm_compute. reflexivity.
Qed.

Lemma ms_client_runs_witness : ∃ s', ms_perform (MS_dealloc 132) one_block = Ret (tt, s').
Proof.
  destruct (ms_client_runs (mkEnv 0 1000) (λ _, 0) one_block one_block_reached) as [_ H].
  destruct (H (MS_dealloc 132)) as (s' & Hret & _).
  - right. eexists. vm_compute. reflexivity.
  - exists s'. exact Hret.
Defined.

(** C17. Nothing survives that should not.  In every state such a program reaches, a collection
    leaves exactly the live blocks that the stack and the roots reach, and a shutdown
    leaves none: every block that was ever allocated has been freed. *)
Theorem ms_client_reclaims env memory s env' :
  rtc ms_step (ms_start env memory) s →
  (∃ l s', (∀ x, is_Some (ms_heap s !! x) ↔ x ∈ l) ∧ ms_gc env' s = Ret (tt, s') ∧
     ∀ x, is_Some (ms_heap s' !! x) ↔ is_Some (ms_heap s !! x) ∧ reachable s env' l x) ∧
  (∃ s', ms_shutdown env' s = Ret (tt, s') ∧ ms_heap s' = ∅ ∧ allocation_list s' = NULL).
Proof.
  intros Hs. destruct (ms_reached_ok _ _ _ Hs) as [l Hok].
  destruct (ms_ok_collect s l env' Hok) as (s1 & l1 & H1 & Hok1 & Hl1). split.
  - exists l, s1. split; [apply Hok|]. split; [done|]. intros x.
    by rewrite (mo_heap _ _ Hok1), Hl1, (mo_heap _ _ Hok).
  - pose proof (mo_list _ _ Hok1) as R1. pose proof (represents_length _ _ R1) as Hlen.
    destruct R1 as [F L N P].
    destruct (shutdown_loop_ok (list_fuel s1) l1 NULL s1 F L N P Hlen) as (s' & H' & A & D & K).
    exists s'. unfold ms_shutdown. rewrite (bind_step _ _ _ _ _ H1), bind_gets.
    split; [done|]. split; [|done]. apply map_empty. intros x.
    destruct (decide (x ∈ l1)) as [Hin|Hnin]; [by apply D|]. rewrite K by done.
    apply eq_None_not_Some. by rewrite (mo_heap _ _ Hok1).
Qed.

Lemma ms_client_reclaims_witness :
  ∃ s', ms_shutdown (mkEnv 0 1000) one_block = Ret (tt, s') ∧ ms_heap s' = ∅.
Proof.
  destruct (ms_client_reclaims (mkEnv 0 1000) (λ _, 0) one_block (mkEnv 0 1000) one_block_reached)
    as (_ & s' & H & He & _).
  exists s'. split; [exact H|exact He].
Defined.
