(* ===== verification/Runtime.v ===== *)
(** runtime/src/simple_allocator.c, runtime/src/allocator_impl.c and
    runtime/src/runtime.c: the third allocator, the choice of the allocator when the
    runtime is built, and the dispatch of the runtime's calls to it. *)
From S2P Require Import Prelude Errors CppString Allocator RefCount MarkSweep.
#[local] Open Scope Z_scope.

(** ** The simple allocator *)

(** Its statistics, and the blocks [malloc] gave and [free] has not taken back. *)
Record Simple := mkSimple {
  simple_stats : AllocatorStats;
  simple_live : gset Z
}.

Definition simple_alloc (env : Env) (bytes : Z) : stM Simple Z :=
  let ptr := malloc_result env in
  if decide (ptr ≠ NULL) then
    _ ← modify (λ s, mkSimple (stats_alloc bytes (simple_stats s)) ({[ptr]} ∪ simple_live s));
    mret ptr
  else mret ptr.

(** [free(ptr)]: the statistics are left as they are. *)
Definition simple_dealloc (ptr : Z) : stM Simple unit :=
  live ← gets simple_live;
  if decide (ptr = NULL) then mret tt
  else if decide (ptr ∈ live) then modify (λ s, mkSimple (simple_stats s) (simple_live s ∖ {[ptr]}))
  else crashM InvalidAccess.

Definition simple_gc (env : Env) : stM Simple unit := mret tt.
Definition simple_scope_end : stM Simple unit := mret tt.
Definition simple_get_stats : stM Simple AllocatorStats := gets simple_stats.
Definition simple_init (env : Env) : stM Simple unit :=
  modify (λ s, mkSimple stats_zero (simple_live s)).
Definition simple_shutdown (env : Env) : stM Simple unit := mret tt.

Definition simple_allocator : RuntimeAllocator Simple := {|
  name := "Simple Allocator";
  alloc := simple_alloc;
  dealloc := simple_dealloc;
  gc := simple_gc;
  scope_end := Some simple_scope_end;
  get_stats := simple_get_stats;
  init := simple_init;
  shutdown := simple_shutdown;
  inc_ref_count := None;
  dec_ref_count := None;
  set_gc_threshold := None;
  register_root := None
|}.

(** ** The choice of the allocator *)

(** The static variables of the allocators, and [current_allocator] of runtime.c. *)
Record World := mkWorld {
  w_simple : Simple;
  w_rc : RC;
  w_ms : MS;
  current_allocator : bool
}.

Definition with_current (b : bool) (w : World) : World :=
  mkWorld (w_simple w) (w_rc w) (w_ms w) b.

(** A computation on one of the components. *)
Definition on {S A} (get : World → S) (set : S → World → World) (m : stM S A) : stM World A :=
  λ w, match m (get w) with
       | Ret (a, s) => Ret (a, set s w)
       | Throw e => Throw e
       | Crash c => Crash c
       | Diverge => Diverge
       end.

Definition lift_allocator {S} (get : World → S) (set : S → World → World)
    (a : RuntimeAllocator S) : RuntimeAllocator World := {|
  name := name a;
  alloc := λ env n, on get set (alloc a env n);
  dealloc := λ p, on get set (dealloc a p);
  gc := λ env, on get set (gc a env);
  scope_end := option_map (on get set) (scope_end a);
  get_stats := on get set (get_stats a);
  init := λ env, on get set (init a env);
  shutdown := λ env, on get set (shutdown a env);
  inc_ref_count := option_map (λ f p q, on get set (f p q)) (inc_ref_count a);
  dec_ref_count := option_map (λ f p q, on get set (f p q)) (dec_ref_count a);
  set_gc_threshold := option_map (λ f n, on get set (f n)) (set_gc_threshold a);
  register_root := option_map (λ f p, on get set (f p)) (register_root a)
|}.

(** The macros the runtime is compiled with. *)
Record Build := mkBuild {
  USE_MARK_SWEEP : bool;
  USE_REF_COUNT : bool
}.

Definition get_allocator_implementation (b : Build) : RuntimeAllocator World :=
  if USE_MARK_SWEEP b then
    lift_allocator w_ms (λ s w, mkWorld (w_simple w) (w_rc w) s (current_allocator w))
      mark_sweep_allocator
  else if USE_REF_COUNT b then
    lift_allocator w_rc (λ s w, mkWorld (w_simple w) s (w_ms w) (current_allocator w))
      reference_count_allocator
  else
    lift_allocator w_simple (λ s w, mkWorld s (w_rc w) (w_ms w) (current_allocator w))
      simple_allocator.

(** ** The runtime *)
Section runtime.
Variable b : Build.

(** [current_allocator]: null before [runtime_init] and after [runtime_shutdown]. *)
Definition current : stM World (option (RuntimeAllocator World)) :=
  gets (λ w, if current_allocator w then Some (get_allocator_implementation b) else None).

(** [current_allocator->f]. *)
Definition deref {A} (f : RuntimeAllocator World → stM World A) : stM World A :=
  a ← current;
  match a with
  | Some a => f a
  | None => crashM NullDeref
  end.

(** A call that is skipped without an allocator, or without the operation. *)
Definition optional (f : RuntimeAllocator World → option (stM World unit)) : stM World unit :=
  a ← current;
  match a with
  | Some a => match f a with Some m => m | None => mret tt end
  | None => mret tt
  end.

Definition runtime_init (env : Env) : stM World unit :=
  _ ← modify (with_current true);
  init (get_allocator_implementation b) env.

Definition runtime_shutdown (env : Env) : stM World unit :=
  a ← current;
  match a with
  | Some a => _ ← shutdown a env; modify (with_current false)
  | None => mret tt
  end.

Definition runtime_alloc (env : Env) (bytes : Z) : stM World Z :=
  a ← current;
  match a with
  | Some a => alloc a env bytes
  | None => mret NULL
  end.

Definition runtime_scope_end : stM World unit := optional scope_end.
Definition runtime_gc (env : Env) : stM World unit := optional (λ a, Some (gc a env)).
Definition runtime_set_gc_threshold (threshold : Z) : stM World unit :=
  optional (λ a, option_map (λ f, f threshold) (set_gc_threshold a)).
Definition runtime_register_root (ptr : Z) : stM World unit :=
  optional (λ a, option_map (λ f, f ptr) (register_root a)).

Definition runtime_get_allocator_name : stM World string := deref (λ a, mret (name a)).
Definition runtime_get_stats : stM World AllocatorStats := deref get_stats.

(** The text [printf] writes; a [size_t] is printed in decimal. *)
Definition runtime_print_stats : stM World string :=
  stats ← runtime_get_stats;
  name ← runtime_get_allocator_name;
  mret (nl +:+ nl +:+ "Runtime Stats (" +:+ name +:+ ")" +:+ nl
          +:+ "Total allocs: " +:+ pretty (total_allocations stats) +:+ nl
          +:+ "Total collections: " +:+ pretty (total_collections stats) +:+ nl
          +:+ "Current bytes: " +:+ pretty (current_bytes stats) +:+ nl
          +:+ "Peak bytes: " +:+ pretty (peak_bytes stats) +:+ nl).

(** These two test the operation, not the allocator. *)
Definition runtime_inc_ref_count (ptr other : Z) : stM World unit :=
  deref (λ a, match inc_ref_count a with Some f => f ptr other | None => mret tt end).
Definition runtime_dec_ref_count (ptr offset : Z) : stM World unit :=
  deref (λ a, match dec_ref_count a with Some f => f ptr offset | None => mret tt end).
End runtime.
