(* ===== verification/RuntimeProps.v ===== *)
(** The runtime's dispatch: its calls with and without an allocator, and its sessions as
    sessions of the allocator it was built with. *)
From S2P Require Import Prelude Errors CppString Allocator RefCount MarkSweep Runtime.
#[local] Open Scope Z_scope.

Definition refcount_build (b : Build) : bool := negb (USE_MARK_SWEEP b) && USE_REF_COUNT b.

(** The runtime without an allocator.  Before [runtime_init] and after
    [runtime_shutdown] an allocation gives the null pointer, and a collection, a root, a
    threshold, the end of a scope and a second shutdown do nothing; but the two reference-count
    calls, the name and the statistics, printed or not, dereference a null pointer. *)
Theorem runtime_uninitialised b env w n p q :
  current_allocator w = false →
  runtime_alloc b env n w = Ret (NULL, w) ∧
  runtime_gc b env w = Ret (tt, w) ∧
  runtime_register_root b p w = Ret (tt, w) ∧
  runtime_set_gc_threshold b n w = Ret (tt, w) ∧
  runtime_scope_end b w = Ret (tt, w) ∧
  runtime_shutdown b env w = Ret (tt, w) ∧
  runtime_inc_ref_count b p q w = Crash NullDeref ∧
  runtime_dec_ref_count b p q w = Crash NullDeref ∧
  runtime_get_stats b w = Crash NullDeref ∧
  runtime_get_allocator_name b w = Crash NullDeref ∧
  runtime_print_stats b w = Crash NullDeref.
Proof.
  intros Hc.
  repeat split;
    unfold runtime_alloc, runtime_gc, runtime_register_root, runtime_set_gc_threshold,
      runtime_scope_end, runtime_shutdown, runtime_inc_ref_count, runtime_dec_ref_count,
      runtime_print_stats, runtime_get_stats, runtime_get_allocator_name, optional, deref,
      current, mbind, stM_bind, gets; by rewrite Hc.
Qed.

Definition world_0 : World :=
  mkWorld (mkSimple stats_zero ∅) (mkRC stats_zero ∅) (MS_static (λ _, 0)) false.

Lemma runtime_uninitialised_witness :
  runtime_inc_ref_count (mkBuild false true) 148 0 world_0 = Crash NullDeref.
Proof.
  apply (runtime_uninitialised (mkBuild false true) (mkEnv 0 0) world_0 0 148 0). reflexivity.
Defined.

(** The components an operation of the chosen allocator leaves alone. *)
Definition untouched (b : Build) (w w' : World) : Prop :=
  (USE_MARK_SWEEP b = true → w_simple w' = w_simple w ∧ w_rc w' = w_rc w) ∧
  (USE_MARK_SWEEP b = false → w_ms w' = w_ms w ∧
     (USE_REF_COUNT b = true → w_simple w' = w_simple w) ∧
     (USE_REF_COUNT b = false → w_rc w' = w_rc w)).

Lemma on_ret {S A} (get : World → S) set (m : stM S A) w a w' :
  on get set m w = Ret (a, w') → ∃ s, m (get w) = Ret (a, s) ∧ w' = set s w.
Proof.
  unfold on. destruct (m (get w)) as [[a' s]| | |]; intros H; try discriminate H.
  injection H as <- <-. eauto.
Qed.

(** The runtime with an allocator.  Reference-count calls are the counting allocator's in
    a build that selects it and nothing in the others; roots are registered by the
    mark-sweep allocator only; and an allocation goes to the selected allocator and leaves the
    state of the two others as it is. *)
Theorem runtime_dispatch b env w n p q :
  current_allocator w = true →
  (refcount_build b = true →
     runtime_inc_ref_count b p q w
     = on w_rc (λ s w, mkWorld (w_simple w) s (w_ms w) (current_allocator w))
         (rc_inc_ref_count p q) w ∧
     runtime_dec_ref_count b p q w
     = on w_rc (λ s w, mkWorld (w_simple w) s (w_ms w) (current_allocator w)) (rc_dec p q) w) ∧
  (refcount_build b = false →
     runtime_inc_ref_count b p q w = Ret (tt, w) ∧ runtime_dec_ref_count b p q w = Ret (tt, w)) ∧
  (USE_MARK_SWEEP b = false → runtime_register_root b p w = Ret (tt, w)) ∧
  (∀ r w', runtime_alloc b env n w = Ret (r, w') →
     untouched b w w' ∧ current_allocator w' = true).
Proof.
  intros Hc. unfold runtime_inc_ref_count, runtime_dec_ref_count, runtime_register_root,
    runtime_alloc, optional, deref, current, refcount_build.
  rewrite !bind_gets, Hc. unfold get_allocator_implementation, untouched.
  destruct b as [[] []]; simpl; repeat split; try done;
    match goal with H : on _ _ _ _ = Ret _ |- _ => apply on_ret in H as (? & _ & ->); done end.
Qed.

Lemma runtime_dispatch_witness :
  runtime_inc_ref_count (mkBuild true false) 148 0 (with_current true world_0)
  = Ret (tt, with_current true world_0).
Proof.
  destruct (runtime_dispatch (mkBuild true false) (mkEnv 0 0) (with_current true world_0) 0 148 0)
    as (_ & H & _); [reflexivity|]. apply H. reflexivity.
Defined.

(** ** A session of the runtime *)

(** The calls a program makes between [runtime_init] and [runtime_shutdown]; a call
    returns the pointer of an allocation, and null otherwise. *)
Inductive rt_call :=
| RT_alloc (env : Env) (bytes : Z)
| RT_gc (env : Env)
| RT_scope_end
| RT_set_gc_threshold (threshold : Z)
| RT_register_root (ptr : Z)
| RT_inc_ref_count (ptr other : Z)
| RT_dec_ref_count (ptr offset : Z).

Definition no_result {S} (m : stM S unit) : stM S Z := _ ← m; mret NULL.

Definition rt_perform (b : Build) (c : rt_call) : stM World Z :=
  match c with
  | RT_alloc env bytes => runtime_alloc b env bytes
  | RT_gc env => no_result (runtime_gc b env)
  | RT_scope_end => no_result (runtime_scope_end b)
  | RT_set_gc_threshold n => no_result (runtime_set_gc_threshold b n)
  | RT_register_root p => no_result (runtime_register_root b p)
  | RT_inc_ref_count p q => no_result (runtime_inc_ref_count b p q)
  | RT_dec_ref_count p q => no_result (runtime_dec_ref_count b p q)
  end.

(** The same calls on an allocator alone: an operation it does not have does nothing. *)
Definition if_present {S} (m : option (stM S unit)) : stM S Z :=
  no_result (default (mret tt) m).
Definition allocator_perform {S} (a : RuntimeAllocator S) (c : rt_call) : stM S Z :=
  match c with
  | RT_alloc env bytes => alloc a env bytes
  | RT_gc env => no_result (gc a env)
  | RT_scope_end => if_present (scope_end a)
  | RT_set_gc_threshold n => if_present ((λ f, f n) <$> set_gc_threshold a)
  | RT_register_root p => if_present ((λ f, f p) <$> register_root a)
  | RT_inc_ref_count p q => if_present ((λ f, f p q) <$> inc_ref_count a)
  | RT_dec_ref_count p q => if_present ((λ f, f p q) <$> dec_ref_count a)
  end.

Definition runtime_session (b : Build) (env : Env) (calls : list rt_call) (env' : Env)
    : stM World (list Z) :=
  _ ← runtime_init b env; rs ← sequenceM (map (rt_perform b) calls);
  _ ← runtime_shutdown b env'; mret rs.
Definition allocator_session {S} (a : RuntimeAllocator S) (env : Env) (calls : list rt_call)
    (env' : Env) : stM S (list Z) :=
  _ ← init a env; rs ← sequenceM (map (allocator_perform a) calls);
  _ ← shutdown a env'; mret rs.

Definition set_simple (s : Simple) (w : World) : World :=
  mkWorld s (w_rc w) (w_ms w) (current_allocator w).
Definition set_rc (s : RC) (w : World) : World :=
  mkWorld (w_simple w) s (w_ms w) (current_allocator w).
Definition set_ms (s : MS) (w : World) : World :=
  mkWorld (w_simple w) (w_rc w) s (current_allocator w).

(** A component of the world that the current allocator is not part of. *)
Section component.
Context {S : Type} (get : World → S) (set : S → World → World).
Hypothesis get_set : ∀ s w, get (set s w) = s.
Hypothesis set_set : ∀ s s' w, set s (set s' w) = set s w.
Hypothesis set_get : ∀ w, set (get w) w = w.
Hypothesis get_current : ∀ c w, get (with_current c w) = get w.
Hypothesis set_current : ∀ c s w, set s (with_current c w) = with_current c (set s w).
Hypothesis current_set : ∀ s w, current_allocator (set s w) = current_allocator w.

Lemma on_mret {A} (a : A) w : on get set (mret a) w = Ret (a, w).
Proof. unfold on. simpl. by rewrite set_get. Qed.

Lemma on_bind {A B} (m : stM S A) (k : A → stM S B) w :
  on get set (m ≫= k) w = (on get set m ≫= λ a, on get set (k a)) w.
Proof.
  unfold on, mbind, stM_bind. destruct (m (get w)) as [[a s]| | |]; try done.
  rewrite get_set. destruct (k a s) as [[b s']| | |]; try done. by rewrite set_set.
Qed.

Lemma on_current {A} (m : stM S A) w a w' :
  on get set m w = Ret (a, w') → current_allocator w' = current_allocator w.
Proof. intros (s & _ & ->)%on_ret. apply current_set. Qed.

Lemma on_with_current {A B} c (m : stM S A) (k : A → stM World B) w :
  (on get set m ≫= k) (with_current c w) = (on get set m ≫= λ a, _ ← modify (with_current c); k a) w.
Proof.
  unfold on, mbind, stM_bind, modify. rewrite get_current.
  destruct (m (get w)) as [[a s]| | |]; try done. by rewrite set_current.
Qed.

(** The runtime over a build that chooses the allocator [a] of the component. *)
Context (b : Build) (a : RuntimeAllocator S).
Hypothesis chosen : get_allocator_implementation b = lift_allocator get set a.

Lemma no_result_on (m : stM S unit) w :
  on get set (no_result m) w = (_ ← on get set m; mret NULL) w.
Proof.
  unfold no_result. rewrite on_bind. unfold mbind, stM_bind.
  destruct (on get set m w) as [[[] w']| | |]; try done. by rewrite on_mret.
Qed.

Lemma if_present_on (m : option (stM S unit)) w :
  on get set (if_present m) w
  = (_ ← match on get set <$> m with Some m => m | None => mret tt end; mret NULL) w.
Proof.
  unfold if_present. rewrite no_result_on. destruct m as [m|]; [done|].
  change (default (mret tt) (None : option (stM S unit))) with (mret tt : stM S unit).
  unfold mbind, stM_bind. by rewrite on_mret.
Qed.

Lemma rt_perform_on c w :
  current_allocator w = true → rt_perform b c w = on get set (allocator_perform a c) w.
Proof.
  intros Hc.
  assert (∀ f, optional b f w
    = match f (lift_allocator get set a) with Some m => m | None => mret tt end w) as Hopt.
  { intros f. unfold optional, current. by rewrite bind_gets, Hc, chosen. }
  assert (∀ f : RuntimeAllocator World → stM World unit,
    deref b f w = f (lift_allocator get set a) w) as Hderef.
  { intros f. unfold deref, current. by rewrite bind_gets, Hc, chosen. }
  assert (∀ m m' : stM World unit, m w = m' w → no_result m w = (_ ← m'; mret NULL) w) as Hcong
    by (intros m m' E; unfold no_result, mbind, stM_bind; by rewrite E).
  destruct c; cbn [rt_perform allocator_perform]; rewrite ?no_result_on, ?if_present_on;
    [unfold runtime_alloc, current; by rewrite bind_gets, Hc, chosen|apply Hcong..].
  - apply Hopt.
  - unfold runtime_scope_end. rewrite Hopt. cbn. by destruct (scope_end a).
  - unfold runtime_set_gc_threshold. rewrite Hopt. cbn. by destruct (set_gc_threshold a).
  - unfold runtime_register_root. rewrite Hopt. cbn. by destruct (register_root a).
  - unfold runtime_inc_ref_count. rewrite Hderef. cbn. by destruct (inc_ref_count a).
  - unfold runtime_dec_ref_count. rewrite Hderef. cbn. by destruct (dec_ref_count a).
Qed.

Lemma rt_calls_on calls : ∀ w,
  current_allocator w = true →
  sequenceM (map (rt_perform b) calls) w
  = on get set (sequenceM (map (allocator_perform a) calls)) w.
Proof.
  induction calls as [|c calls IH]; intros w Hc; simpl; [by rewrite on_mret|].
  rewrite on_bind. unfold mbind at 1 3, stM_bind. rewrite rt_perform_on by done.
  destruct (on get set (allocator_perform a c) w) as [[r w1]| | |] eqn:E; try done.
  rewrite on_bind. unfold mbind, stM_bind.
  rewrite IH by (by rewrite (on_current _ _ _ _ E)).
  destruct (on get set (sequenceM _) w1) as [[rs w2]| | |]; try done. by rewrite on_mret.
Qed.
Lemma with_current_twice c c' w : with_current c (with_current c' w) = with_current c w.
Proof. by destruct w. Qed.

(** The flag is true during the session, and false after it. *)
Lemma on_flag {A} c (m : stM S A) w :
  on get set m (with_current c w)
  = match on get set m (with_current true w) with
    | Ret (x, w') => Ret (x, with_current c w')
    | o => o
    end.
Proof.
  unfold on. rewrite !get_current. destruct (m (get w)) as [[x s]| | |]; try done.
  by rewrite !set_current, with_current_twice.
Qed.

Lemma bind_cong {A B} (m m' : stM World A) (k k' : A → stM World B) w :
  m w = m' w → (∀ x w', m' w = Ret (x, w') → k x w' = k' x w') → (m ≫= k) w = (m' ≫= k') w.
Proof.
  intros Hm Hk. unfold mbind, stM_bind. rewrite Hm. destruct (m' w) as [[x w']| | |]; auto.
Qed.

Lemma session_on env calls env' w :
  runtime_session b env calls env' w
  = on get set (allocator_session a env calls env') (with_current false w).
Proof.
  rewrite on_flag.
  trans ((rs ← on get set (allocator_session a env calls env');
          _ ← modify (with_current false); mret rs) (with_current true w)).
  2:{ unfold mbind, stM_bind. by destruct (on _ _ _ _) as [[]| | |]. }
  trans ((_ ← on get set (init a env); rs ← sequenceM (map (rt_perform b) calls);
          _ ← runtime_shutdown b env'; mret rs) (with_current true w)).
  { unfold runtime_session, runtime_init. by rewrite chosen. }
  generalize (eq_refl : current_allocator (with_current true w) = true).
  generalize (with_current true w) as w0. intros w0 H0. unfold allocator_session.
  trans ((_ ← on get set (init a env); rs ← on get set (rs ← sequenceM (map (allocator_perform a) calls);
            _ ← shutdown a env'; mret rs); _ ← modify (with_current false); mret rs) w0).
  2:{ symmetry. unfold mbind at 1, stM_bind at 1. rewrite on_bind. unfold mbind, stM_bind.
      by destruct (on get set (init a env) w0) as [[? ?]| | |]. }
  apply bind_cong; [done|]. intros x1 w1 E1.
  assert (current_allocator w1 = true) as H1 by (by rewrite (on_current _ _ _ _ E1)).
  trans ((rs ← on get set (sequenceM (map (allocator_perform a) calls));
          rs ← on get set (_ ← shutdown a env'; mret rs);
          _ ← modify (with_current false); mret rs) w1).
  2:{ symmetry. unfold mbind at 1, stM_bind at 1. rewrite on_bind. unfold mbind, stM_bind.
      by destruct (on get set (sequenceM _) w1) as [[? ?]| | |]. }
  apply bind_cong; [by apply rt_calls_on|]. intros rs w2 E2.
  assert (current_allocator w2 = true) as H2 by (by rewrite (on_current _ _ _ _ E2)).
  pose proof (on_bind (shutdown a env') (λ _, mret rs) w2) as Hs.
  unfold runtime_shutdown, current, mbind, stM_bind, gets in Hs |- *.
  rewrite H2, chosen, Hs. simpl.
  destruct (on get set (shutdown a env') w2) as [[[] w3]| | |]; try done.
  by rewrite on_mret.
Qed.
End component.

(** C11. The runtime is the allocator it was built with.  A session (initialisation, any
    sequence of calls, shutdown) of the runtime does what the session of the selected
    allocator does on its own state: the same results, crashes and exceptions in the same
    order, a call the allocator does not provide doing nothing.  The state of the two other
    allocators is as it was, and no allocator is current afterwards. *)
Theorem runtime_session_refines b env calls env' w :
  runtime_session b env calls env' w
  = (if USE_MARK_SWEEP b
     then on w_ms set_ms (allocator_session mark_sweep_allocator env calls env')
     else if USE_REF_COUNT b
     then on w_rc set_rc (allocator_session reference_count_allocator env calls env')
     else on w_simple set_simple (allocator_session simple_allocator env calls env'))
      (with_current false w).
Proof.
  destruct b as [[] []]; cbn [USE_MARK_SWEEP USE_REF_COUNT]; apply session_on; try done;
    by intros [].
Qed.

(** The bytes of the blocks of [blocks], as the statistics count them. *)
Definition total_bytes (blocks : list (Z * Z)) : Z :=
  foldl (λ acc (b : Z * Z), size_add acc b.2) 0 blocks.

(** A series of allocations, with the pointers [malloc] gives. *)
Definition simple_alloc_all (blocks : list (Z * Z)) : stM Simple unit :=
  forM_ (λ b : Z * Z, _ ← simple_alloc (mkEnv b.1 0) b.2; mret tt) blocks.

(** The simple allocator.  After [simple_init] and a series of allocations that do not
    fail, the live blocks are the ones [malloc] gave, the current bytes are their sum modulo
    2^64, the peak is no smaller, and the allocations are counted; releasing a block frees it
    and leaves the statistics as they are. *)
Theorem simple_allocations blocks :
  Forall (λ b : Z * Z, b.1 ≠ NULL) blocks →
  ∃ st, simple_alloc_all blocks (mkSimple stats_zero ∅)
        = Ret (tt, mkSimple st (list_to_set blocks.*1)) ∧
    current_bytes st = total_bytes blocks ∧ current_bytes st <= peak_bytes st ∧
    total_allocations st = Z.of_nat (length blocks) mod size_t_mod ∧
    ∀ p, p ∈ blocks.*1 →
      simple_dealloc p (mkSimple st (list_to_set blocks.*1))
      = Ret (tt, mkSimple st (list_to_set blocks.*1 ∖ {[p]})).
Proof.
  intros Hall.
  assert (∃ st, simple_alloc_all blocks (mkSimple stats_zero ∅)
            = Ret (tt, mkSimple st (list_to_set blocks.*1)) ∧
    current_bytes st = total_bytes blocks ∧ current_bytes st <= peak_bytes st ∧
    total_allocations st = Z.of_nat (length blocks) mod size_t_mod)
    as (st & H & Hc & Hp & Hn).
  { induction blocks as [|b blocks IH] using rev_ind.
    { exists stats_zero. done. }
    apply Forall_app in Hall as [Hall [Hb _]%Forall_cons].
    destruct (IH Hall) as (st & H & Hc & Hp & Hn).
    exists (stats_alloc b.2 st). split; [|split; [|split]].
    - unfold simple_alloc_all in *. rewrite forM_app, (bind_step _ _ _ _ _ H).
      cbn [forM_]. unfold simple_alloc. cbn [malloc_result]. rewrite decide_True by done.
      assert ((list_to_set (blocks ++ [b]).*1 : gset Z) = {[b.1]} ∪ list_to_set blocks.*1) as ->;
        [|reflexivity].
      rewrite fmap_app, list_to_set_app_L. simpl. set_solver.
    - unfold total_bytes. rewrite foldl_app. simpl. fold (total_bytes blocks). by rewrite Hc.
    - simpl. destruct (Z.ltb_spec (peak_bytes st) (size_add (current_bytes st) b.2)); lia.
    - simpl. rewrite Hn, length_app. unfold size_add. simpl.
      rewrite Zplus_mod_idemp_l. f_equal. lia. }
  exists st. split; [done|]. split; [done|]. split; [done|]. split; [done|].
  intros p Hin. unfold simple_dealloc. rewrite bind_gets. cbn [simple_live].
  apply list_elem_of_fmap in Hin as (b & -> & Hb).
  rewrite decide_False by (rewrite Forall_forall in Hall; by apply Hall).
  rewrite decide_True by (by apply elem_of_list_to_set, list_elem_of_fmap_2). done.
Qed.

Lemma simple_allocations_witness :
  ∃ s, simple_alloc_all [(100, 8); (200, 16)] (mkSimple stats_zero ∅) = Ret (tt, s) ∧
       current_bytes (simple_stats s) = 24.
Proof.
  destruct (simple_allocations [(100, 8); (200, 16)]) as (st & H & Hc & _).
  - repeat constructor; discriminate.
  - eexists. split; [exact H|]. simpl. rewrite Hc. reflexivity.
Defined.
