(* ===== verification/Driver.v ===== *)
(** src/main.cpp: the command line, the pipeline, and the commands that build the
    executable.

    What the host answers is the record [Host]: which files can be read and what they hold,
    the tree the generated parser makes of a sequence of tokens, whether a file can be
    written, and the exit status of a command.  What the program does to the host is a list of effects, in order.
    The messages on the standard streams are not kept. *)
From S2P Require Import Prelude Errors CppString Syntax Lexer Transpile.

Inductive effect :=
| WriteFile (path text : string)
| RunCommand (command : string).

Record Host := mkHost {
  file_exists : string → bool;
  file_text : string → string;
  parser_program : list token → program;
  can_write : string → bool;
  system : list effect → string → Z
}.

(** ** [compileCode] *)
Definition cleanRuntime : string := "cd ../runtime && make clean".
Definition buildRuntime (allocatorType : string) (debug : bool) : string :=
  ("cd ../runtime && make " +:+ allocatorType) +:+ (if debug then " DEBUG=1" else EmptyString).
Definition compileCommand (cFilePath outputPath : string) : string :=
  "cd ../build && gcc -o " +:+ outputPath +:+ " " +:+ cFilePath +:+ " "
    +:+ "../runtime/lib/libjblang_runtime.a " +:+ "-I ../runtime/include".

(** The three commands, each run only when the one before succeeded. *)
Definition compileCode (host : Host) (cFilePath outputPath allocatorType : string)
    (debug : bool) (done : list effect) : bool * list effect :=
  let run (command : string) (done : list effect) :=
    (bool_decide (system host done command = 0%Z), done ++ [RunCommand command]) in
  let '(ok, done) := run cleanRuntime done in
  if negb ok then (false, done)
  else
    let '(ok, done) := run (buildRuntime allocatorType debug) done in
    if negb ok then (false, done) else run (compileCommand cFilePath outputPath) done.

(** ** The command line *)
Record Options := mkOptions {
  outputName : string;
  allocatorType : string;
  debug : bool
}.
Definition default_options : Options := mkOptions EmptyString "reference_count" false.

(** The loop over [argv], from index 2. *)
Fixpoint parse_options (args : list string) (o : Options) : Options :=
  match args with
  | [] => o
  | arg :: rest =>
      match rest with
      | value :: rest' =>
          if decide (arg = "-o") then
            parse_options rest' (mkOptions value (allocatorType o) (debug o))
          else if decide (arg = "-a") then
            parse_options rest' (mkOptions (outputName o) value (debug o))
          else if decide (arg = "--debug") then
            parse_options rest (mkOptions (outputName o) (allocatorType o) true)
          else parse_options rest o
      | [] =>
          if decide (arg = "--debug")
          then mkOptions (outputName o) (allocatorType o) true else o
      end
  end.

Definition valid_allocator (a : string) : bool :=
  bool_decide (a = "simple") || bool_decide (a = "reference_count")
  || bool_decide (a = "mark_sweep").

(** The lexer, the tokens it gives and the parser.  What they report goes to the standard
    error stream; the tree is used whatever they report. *)
Definition parse_file (host : Host) (inputFile : string) : program :=
  parser_program host (token_stream (lex (file_text host inputFile))).

(** The body of the [try]: [Ret] is [return 0], and every exception of the model derives
    from [std::exception]. *)
Definition run_pipeline (host : Host) (indeterminate : bool) (inputFile : string) (o : Options)
    : outcome string :=
  if negb (file_exists host inputFile)
  then Throw (RuntimeError ("Input file does not exist: " +:+ inputFile))
  else if negb (file_exists host "../runtime/include/runtime.h")
  then Throw (RuntimeError "Runtime files not found in runtime/ directory")
  else transpile (bool_decide (allocatorType o = "reference_count")) indeterminate
         (parse_file host inputFile).

(** [main]: the exit status and the effects, or the crash of the process. *)
Definition main (host : Host) (indeterminate : bool) (argv : list string)
    : outcome (Z * list effect) :=
  if Nat.ltb (length argv) 4 then Ret (1%Z, [])
  else
    let inputFile := nth 1 argv EmptyString in
    let o := parse_options (drop 2 argv) default_options in
    if bool_decide (outputName o = EmptyString) then Ret (1%Z, [])
    else if negb (valid_allocator (allocatorType o)) then Ret (1%Z, [])
    else
      let cFilePath := outputName o +:+ ".c" in
      match run_pipeline host indeterminate inputFile o with
      | Ret cCode =>
          if negb (can_write host cFilePath) then Ret (1%Z, [])
          else
            let '(ok, done) := compileCode host cFilePath (outputName o) (allocatorType o)
                                 (debug o) [WriteFile cFilePath cCode] in
            Ret (if (ok : bool) then 0%Z else 1%Z, done)
      | Throw _ => Ret (1%Z, [])
      | Crash c => Crash c
      | Diverge => Diverge
      end.
