(* ===== verification/DriverProps.v ===== *)
(** The properties of the command line and of the pipeline. *)
From S2P Require Import Prelude Errors CppString Syntax Transpile Static Soundness.
From S2P Require Import Lexer Yield SafePrograms ExampleSources Examples Driver.

(** ** The command line *)

(** The options in the order they are given. *)
Inductive option_arg := Out (name : string) | Alloc (name : string) | DebugFlag.

Definition option_words (a : option_arg) : list string :=
  match a with Out x => ["-o"; x] | Alloc x => ["-a"; x] | DebugFlag => ["--debug"] end.

Definition apply_option (o : Options) (a : option_arg) : Options :=
  match a with
  | Out x => mkOptions x (allocatorType o) (debug o)
  | Alloc x => mkOptions (outputName o) x (debug o)
  | DebugFlag => mkOptions (outputName o) (allocatorType o) true
  end.

Lemma parse_option a rest o :
  parse_options (option_words a ++ rest) o = parse_options rest (apply_option o a).
Proof. destruct a; [done..|]. simpl. by destruct rest. Qed.

(** The command line is read from left to right: each option takes the argument after it,
    whatever that is, and a later option overrides an earlier one. *)
Theorem parse_options_spec opts o :
  parse_options (opts ≫= option_words) o = foldl apply_option o opts ∧
  (∀ x, x ≠ "--debug" → parse_options ((opts ≫= option_words) ++ [x]) o
        = foldl apply_option o opts).
Proof.
  split.
  - revert o. induction opts as [|a opts IH]; intros o; [done|]. cbn [mbind list_bind foldl].
    rewrite parse_option. apply IH.
  - intros x Hx. revert o. induction opts as [|a opts IH]; intros o.
    + simpl. by rewrite decide_False.
    + cbn [mbind list_bind foldl]. rewrite <-app_assoc, parse_option. apply IH.
Qed.

(** ** The pipeline *)

(** What [main] does on valid arguments when the program is translated to [cCode]. *)
Definition build_effects (o : Options) (cCode : string) : list effect :=
  let c := outputName o +:+ ".c" in
  [WriteFile c cCode; RunCommand cleanRuntime; RunCommand (buildRuntime (allocatorType o) (debug o));
   RunCommand (compileCommand c (outputName o))].

Lemma compileCode_effects host c out a d done :
  ∃ n, (compileCode host c out a d done).2
       = done ++ take n [RunCommand cleanRuntime; RunCommand (buildRuntime a d);
                         RunCommand (compileCommand c out)] ∧
       ((compileCode host c out a d done).1 = true → n = 3).
Proof.
  unfold compileCode. destruct (bool_decide _); simpl; [|by exists 1].
  destruct (bool_decide _); simpl; [|exists 2; by rewrite <-app_assoc].
  exists 3. by rewrite <-!app_assoc.
Qed.

(** A run that stops before it has done anything. *)
#[local] Ltac no_effects := intros [= <- <-]; split; [by right|split; [done|done]].

(** C38. A successful run.  When [main] returns 0 it was given an input file, an output name and a
    known allocator, the input was translated for that allocator, and the effects are, in
    this order, the C file with the translation, the cleaning and the building of the
    runtime, and the compilation.  When it returns anything else, the effects are a prefix
    of these: nothing is written unless the translation succeeded. *)
Theorem main_effects host ind argv status effects :
  main host ind argv = Ret (status, effects) →
  let o := parse_options (drop 2 argv) default_options in
  (status = 0%Z ∨ status = 1%Z) ∧
  (status = 0%Z →
     4 ≤ length argv ∧ outputName o ≠ EmptyString ∧ valid_allocator (allocatorType o) = true ∧
     file_exists host (nth 1 argv EmptyString) = true ∧
     ∃ cCode, transpile (bool_decide (allocatorType o = "reference_count")) ind
                (parse_file host (nth 1 argv EmptyString)) = Ret cCode ∧
              effects = build_effects o cCode) ∧
  (effects ≠ [] →
     ∃ cCode n, transpile (bool_decide (allocatorType o = "reference_count")) ind
                  (parse_file host (nth 1 argv EmptyString)) = Ret cCode ∧
                effects = take n (build_effects o cCode)).
Proof.
  unfold main. destruct (Nat.ltb_spec (length argv) 4) as [|Hlen]; [no_effects|].
  set (o := parse_options _ _). cbv zeta.
  destruct (bool_decide (outputName o = EmptyString)) eqn:Hout; [no_effects|].
  apply bool_decide_eq_false in Hout.
  destruct (valid_allocator (allocatorType o)) eqn:Hal; simpl negb; cbn iota;
    [|no_effects].
  unfold run_pipeline.
  destruct (file_exists host (nth 1 argv EmptyString)) eqn:Hin; simpl negb; cbn iota;
    [|no_effects].
  destruct (file_exists host "../runtime/include/runtime.h"); simpl negb; cbn iota;
    [|no_effects].
  destruct (transpile _ _ _) as [cCode|e|c|] eqn:Ht; [|no_effects|intros [=]..].
  destruct (can_write host _); simpl negb; cbn iota; [|no_effects].
  destruct (compileCode_effects host (outputName o +:+ ".c") (outputName o) (allocatorType o)
              (debug o) [WriteFile (outputName o +:+ ".c") cCode]) as (n & Heff & Hn).
  destruct (compileCode _ _ _ _ _ _) as [ok done]. simpl in Heff, Hn.
  intros [= <- <-]. split; [by destruct ok; auto|]. split.
  - destruct ok; [intros _|done]. rewrite (Hn eq_refl) in Heff.
    repeat (split; [done|]). exists cCode. split; [done|]. exact Heff.
  - intros _. exists cCode, (S n). split; [done|]. exact Heff.
Qed.

Definition sample_host : Host :=
  mkHost (λ _, true) (λ _, EmptyString) (λ _, mkProgram [] []) (λ _, true) (λ _ _, 0%Z).

Lemma main_effects_witness :
  match main sample_host true ["jbc"; "in.jb"; "-o"; "out"; "--debug"] with
  | Ret (_, effects) => ∃ cCode, effects = build_effects (mkOptions "out" "reference_count" true) cCode
  | _ => False
  end.
Proof.
  destruct (main sample_host true ["jbc"; "in.jb"; "-o"; "out"; "--debug"])
    as [[status effects]| | |] eqn:E; [|vm_compute in E; discriminate E..].
  destruct (main_effects _ _ _ _ _ E) as (_ & H & _).
  destruct H as (_ & _ & _ & _ & cCode & _ & Heff).
  - vm_compute in E. by injection E as <- _.
  - exists cCode. exact Heff.
Defined.

(** C39. The process ends normally on a safe program.  Whatever the command line, the files, the
    commands and the uninitialised flag are, [main] returns 0 or 1: the visitor neither
    crashes nor loops, and every exception is caught. *)
Theorem main_returns host indeterminate argv :
  safe (parse_file host (nth 1 argv EmptyString)) = true →
  ∃ status effects, main host indeterminate argv = Ret (status, effects) ∧
                    (status = 0%Z ∨ status = 1%Z).
Proof.
  intros Hp. unfold main. destruct (Nat.ltb _ _); [eauto|]. cbv zeta.
  destruct (bool_decide _); [eauto|]. destruct (negb _); [eauto|].
  assert (fine (run_pipeline host indeterminate (nth 1 argv EmptyString)
                  (parse_options (drop 2 argv) default_options)) (λ _, True)
          ∨ ∃ e, run_pipeline host indeterminate (nth 1 argv EmptyString)
                   (parse_options (drop 2 argv) default_options) = Throw e) as Hr.
  { unfold run_pipeline. destruct (negb _); [eauto|]. destruct (negb _); [eauto|].
    left. by apply fine_transpile. }
  destruct (run_pipeline _ _ _ _) as [cCode|e| |]; [|eauto|by destruct Hr as [[]|[? [=]]]..].
  destruct (negb _); [eauto|]. destruct (compileCode _ _ _ _ _ _) as [[] done]; eauto.
Qed.

Lemma main_returns_witness :
  ∃ status effects,
    main sample_host false ["jbc"; "in.jb"; "-o"; "out"] = Ret (status, effects) ∧
    (status = 0%Z ∨ status = 1%Z).
Proof. apply main_returns. vm_compute. reflexivity. Defined.

(** C13. A build that succeeds.  Given valid arguments, a source whose tokens are those of a tree
    that the parser gives back for them, a translation that ends with a text, a writable C file
    and commands that succeed, [main] returns 0 and its effects are the C file with the
    translation, the two makes of the runtime and the compilation, in this order. *)
Theorem main_builds host ind argv p cCode :
  let o := parse_options (drop 2 argv) default_options in
  let input := nth 1 argv EmptyString in
  4 ≤ length argv → outputName o ≠ EmptyString → valid_allocator (allocatorType o) = true →
  file_exists host input = true → file_exists host "../runtime/include/runtime.h" = true →
  token_stream (lex (file_text host input)) = program_tokens p →
  parser_program host (program_tokens p) = p →
  transpile (bool_decide (allocatorType o = "reference_count")) ind p = Ret cCode →
  can_write host (outputName o +:+ ".c") = true →
  (∀ done command, system host done command = 0%Z) →
  main host ind argv = Ret (0%Z, build_effects o cCode).
Proof.
  intros o input Hlen Hout Hal Hin Hrt Hlex Hparse Ht Hw Hsys. unfold main. fold o. fold input.
  destruct (Nat.ltb_spec (length argv) 4); [lia|]. cbv zeta.
  rewrite bool_decide_eq_false_2 by done. rewrite Hal. simpl negb. cbn iota.
  unfold run_pipeline, parse_file. rewrite Hin, Hrt, Hlex, Hparse. simpl negb. cbn iota.
  rewrite Ht, Hw. simpl negb. cbn iota. unfold compileCode. rewrite !Hsys. simpl. reflexivity.
Qed.

(** A host with one source file and a parser that knows its tokens. *)
Definition test_host (t : test) : Host :=
  mkHost (λ _, true) (λ _, t_source t)
    (λ ts, if decide (tk_text <$> ts = tk_text <$> program_tokens (t_tree t))
           then t_tree t else mkProgram [] [])
    (λ _, true) (λ _ _, 0%Z).
Definition basic_test : test :=
  mkTest true test_ref_count_basic_jb None test_ref_count_basic_tree test_ref_count_basic_c.

Lemma main_builds_witness :
  main (test_host basic_test) true ["jbc"; "test_ref_count_basic.jb"; "-o"; "out"; "--debug"]
  = Ret (0%Z, build_effects (mkOptions "out" "reference_count" true) test_ref_count_basic_c).
Proof.
  apply (main_builds (test_host basic_test) true
           ["jbc"; "test_ref_count_basic.jb"; "-o"; "out"; "--debug"] test_ref_count_basic_tree);
    try reflexivity; try (vm_compute; reflexivity).
  - simpl. lia.
  - discriminate.
Defined.
